(** * Batched minipool state aggregation (package [state], minipool details)

    A shallow embedding of the functions of the minipool snapshot code:
    [GetNativeMinipoolDetails], [GetNodeNativeMinipoolDetails],
    [GetAllNativeMinipoolDetails], [CalculateCompleteMinipoolShares],
    [getNodeMinipoolAddressesFast], [getAllMinipoolAddressesFast],
    [getMinipoolVersionsFast], [getBulkMinipoolDetails],
    [addMinipoolDetailsCalls], [addMinipoolShareCalls] and
    [fixupMinipoolDetails]; and, in module [Odao], of the Oracle DAO
    snapshot code of utils/state/odao.go.

    Conventions of the embedding.
    - Code the sources call but do not contain is a parameter wherever the
      sources do not fix what it does: the binding constructors, the
      execution mode of the batch rp.Query sends, what the balance batcher
      answers and which requests it sends, how the manager binding formats
      its count. The multicaller itself is modelled from the design note's
      CallBatch, and marked so.
    - A [*big.Int] is an [option Z]: [None] is the nil pointer.
    - A Go function returning [(T, error)] returns a pair whose second
      component is an [option Error] ([None] is the nil error); a slice that
      may be nil is an [option (list _)].
    - A run-time panic (index out of range, nil dereference) is the [None]
      outcome of the [Net] monad; every remote round trip is appended to the
      trace the monad carries.
    - Slice lengths and loop indices are [nat]: a Go slice length is a
      non-negative [int] and no index computed below comes near 2^63.
    - The goroutines of an [errgroup.Group] are run one after the other in
      the order they were started. Each of them owns a fresh multicaller and
      writes only into its own index range of the shared slice. *)

From Stdlib Require Import ZArith NArith String List Lia Bool.
From stdpp Require Import base numbers option list strings.
Import ListNotations.

Local Open Scope string_scope.
Local Open Scope list_scope.
Local Open Scope Z_scope.

(** ** Basic data *)

Definition Address := N.          (* common.Address, 20 bytes *)
Definition ValidatorPubkey := N.  (* types.ValidatorPubkey, 48 bytes *)
Definition uint8 := Z.            (* values are kept in [0, 256) by [decodes] *)
Definition BigInt := option Z.    (* *big.Int, None = nil *)
Definition BlockNumber := option Z. (* CallOpts.BlockNumber, None = latest *)
Bind Scope N_scope with Address ValidatorPubkey.

(* common.Hash; the result of crypto.Keccak256Hash is kept symbolic. *)
Inductive Hash :=
| HashRaw (h : N)
| HashKeccak (tag : string) (a : Address).

Definition Keccak256Hash (tag : string) (a : Address) : Hash := HashKeccak tag a.

(* type MinipoolStatus uint8 / type MinipoolDeposit uint8 (package types) *)
Inductive MinipoolStatus := MinipoolStatusOf (raw : uint8).
Inductive MinipoolDeposit := MinipoolDepositOf (raw : uint8).

Inductive Error :=
| ErrMsg (msg : string)
| ErrWrap (msg : string) (cause : Error)
| ErrWrapAt (msg : string) (a : Address) (cause : Error).

Record CallOpts := { BlockNumber_ : BlockNumber }.

(* core.Contract: a bound contract, identified by the address it is bound to. *)
Record Contract := { ContractAddress : Address }.

(* var zero = big.NewInt(0) *)
Definition zero : Z := 0.

Definition minipoolBatchSize : nat := 100.
Definition minipoolCompleteShareBatchSize : nat := 500.
Definition minipoolAddressBatchSize : nat := 1000.
Definition minipoolVersionBatchSize : nat := 500.

(** ** The snapshot record *)

Record NativeMinipoolDetails := {
  (* Redstone *)
  Exists : bool;
  MinipoolAddress : Address;
  Pubkey : ValidatorPubkey;
  StatusRaw : uint8;
  StatusBlock : BigInt;
  StatusTime : BigInt;
  Finalised : bool;
  DepositTypeRaw : uint8;
  NodeFee : BigInt;
  NodeDepositBalance : BigInt;
  NodeDepositAssigned : bool;
  UserDepositBalance : BigInt;
  UserDepositAssigned : bool;
  UserDepositAssignedTime : BigInt;
  UseLatestDelegate : bool;
  Delegate : Address;
  PreviousDelegate : Address;
  EffectiveDelegate : Address;
  PenaltyCount : BigInt;
  PenaltyRate : BigInt;
  NodeAddress : Address;
  Version : uint8;
  Balance : BigInt;
  DistributableBalance : BigInt;
  NodeShareOfBalance : BigInt;
  UserShareOfBalance : BigInt;
  NodeRefundBalance : BigInt;
  WithdrawalCredentials : Hash;
  Status : MinipoolStatus;
  DepositType : MinipoolDeposit;
  NodeShareOfBalanceIncludingBeacon : BigInt;
  UserShareOfBalanceIncludingBeacon : BigInt;
  NodeShareOfBeaconBalance : BigInt;
  UserShareOfBeaconBalance : BigInt;
  (* Atlas *)
  UserDistributed : bool;
  Slashed : bool;
  IsVacant : bool;
  LastBondReductionTime : BigInt;
  LastBondReductionPrevValue : BigInt;
  LastBondReductionPrevNodeFee : BigInt;
  ReduceBondTime : BigInt;
  ReduceBondCancelled : bool;
  ReduceBondValue : BigInt;
  PreMigrationBalance : BigInt
}.

(* NativeMinipoolDetails{} : the Go zero value *)
Definition emptyDetails : NativeMinipoolDetails := {|
  Exists := false; MinipoolAddress := 0%N; Pubkey := 0%N; StatusRaw := 0;
  StatusBlock := None; StatusTime := None; Finalised := false;
  DepositTypeRaw := 0; NodeFee := None; NodeDepositBalance := None;
  NodeDepositAssigned := false; UserDepositBalance := None;
  UserDepositAssigned := false; UserDepositAssignedTime := None;
  UseLatestDelegate := false; Delegate := 0%N; PreviousDelegate := 0%N;
  EffectiveDelegate := 0%N; PenaltyCount := None; PenaltyRate := None;
  NodeAddress := 0%N; Version := 0; Balance := None;
  DistributableBalance := None; NodeShareOfBalance := None;
  UserShareOfBalance := None; NodeRefundBalance := None;
  WithdrawalCredentials := HashRaw 0; Status := MinipoolStatusOf 0;
  DepositType := MinipoolDepositOf 0;
  NodeShareOfBalanceIncludingBeacon := None;
  UserShareOfBalanceIncludingBeacon := None;
  NodeShareOfBeaconBalance := None; UserShareOfBeaconBalance := None;
  UserDistributed := false; Slashed := false; IsVacant := false;
  LastBondReductionTime := None; LastBondReductionPrevValue := None;
  LastBondReductionPrevNodeFee := None; ReduceBondTime := None;
  ReduceBondCancelled := false; ReduceBondValue := None;
  PreMigrationBalance := None
|}.

(* The name of a field of the record: what [&details.X] points at. *)
Inductive Field :=
| FExists | FMinipoolAddress | FPubkey | FStatusRaw | FStatusBlock
| FStatusTime | FFinalised | FDepositTypeRaw | FNodeFee
| FNodeDepositBalance | FNodeDepositAssigned | FUserDepositBalance
| FUserDepositAssigned | FUserDepositAssignedTime | FUseLatestDelegate
| FDelegate | FPreviousDelegate | FEffectiveDelegate | FPenaltyCount
| FPenaltyRate | FNodeAddress | FVersion | FBalance | FDistributableBalance
| FNodeShareOfBalance | FUserShareOfBalance | FNodeRefundBalance
| FWithdrawalCredentials | FStatus | FDepositType
| FNodeShareOfBalanceIncludingBeacon | FUserShareOfBalanceIncludingBeacon
| FNodeShareOfBeaconBalance | FUserShareOfBeaconBalance
| FUserDistributed | FSlashed | FIsVacant | FLastBondReductionTime
| FLastBondReductionPrevValue | FLastBondReductionPrevNodeFee
| FReduceBondTime | FReduceBondCancelled | FReduceBondValue
| FPreMigrationBalance.

(* A Go value of one of the types the record's fields have. *)
Inductive Value :=
| VBool (b : bool)
| VUint8 (n : uint8)
| VBig (p : BigInt)            (* a *big.Int *)
| VAddress (a : Address)
| VPubkey (p : ValidatorPubkey)
| VHash (h : Hash)
| VStatus (s : MinipoolStatus)
| VDeposit (t : MinipoolDeposit).

Inductive Kind :=
| KBool | KUint8 | KBig | KAddress | KPubkey | KHash | KStatus | KDeposit.

Definition valueKind (v : Value) : Kind :=
  match v with
  | VBool _ => KBool | VUint8 _ => KUint8 | VBig _ => KBig
  | VAddress _ => KAddress | VPubkey _ => KPubkey | VHash _ => KHash
  | VStatus _ => KStatus | VDeposit _ => KDeposit
  end.

Definition fieldKind (f : Field) : Kind :=
  match f with
  | FExists | FFinalised | FNodeDepositAssigned | FUserDepositAssigned
  | FUseLatestDelegate | FUserDistributed | FSlashed | FIsVacant
  | FReduceBondCancelled => KBool
  | FStatusRaw | FDepositTypeRaw | FVersion => KUint8
  | FMinipoolAddress | FDelegate | FPreviousDelegate | FEffectiveDelegate
  | FNodeAddress => KAddress
  | FPubkey => KPubkey
  | FWithdrawalCredentials => KHash
  | FStatus => KStatus
  | FDepositType => KDeposit
  | _ => KBig
  end.

Definition Kind_eqb (a b : Kind) : bool :=
  match a, b with
  | KBool, KBool | KUint8, KUint8 | KBig, KBig | KAddress, KAddress
  | KPubkey, KPubkey | KHash, KHash | KStatus, KStatus
  | KDeposit, KDeposit => true
  | _, _ => false
  end.

(* [details.f = v]: the assignment of a value to one field. A value of
   another type than the field's leaves the record as it is; [decodes] is
   what rules such a value out before it is stored. *)
Definition assign (f : Field) (v : Value) (d : NativeMinipoolDetails)
  : NativeMinipoolDetails := {|
  Exists := match f, v with FExists, VBool b => b | _, _ => Exists d end;
  MinipoolAddress :=
    match f, v with FMinipoolAddress, VAddress a => a | _, _ => MinipoolAddress d end;
  Pubkey := match f, v with FPubkey, VPubkey p => p | _, _ => Pubkey d end;
  StatusRaw := match f, v with FStatusRaw, VUint8 n => n | _, _ => StatusRaw d end;
  StatusBlock :=
    match f, v with FStatusBlock, VBig p => p | _, _ => StatusBlock d end;
  StatusTime :=
    match f, v with FStatusTime, VBig p => p | _, _ => StatusTime d end;
  Finalised := match f, v with FFinalised, VBool b => b | _, _ => Finalised d end;
  DepositTypeRaw :=
    match f, v with FDepositTypeRaw, VUint8 n => n | _, _ => DepositTypeRaw d end;
  NodeFee := match f, v with FNodeFee, VBig p => p | _, _ => NodeFee d end;
  NodeDepositBalance :=
    match f, v with FNodeDepositBalance, VBig p => p | _, _ => NodeDepositBalance d end;
  NodeDepositAssigned :=
    match f, v with FNodeDepositAssigned, VBool b => b | _, _ => NodeDepositAssigned d end;
  UserDepositBalance :=
    match f, v with FUserDepositBalance, VBig p => p | _, _ => UserDepositBalance d end;
  UserDepositAssigned :=
    match f, v with FUserDepositAssigned, VBool b => b | _, _ => UserDepositAssigned d end;
  UserDepositAssignedTime :=
    match f, v with
    | FUserDepositAssignedTime, VBig p => p
    | _, _ => UserDepositAssignedTime d
    end;
  UseLatestDelegate :=
    match f, v with FUseLatestDelegate, VBool b => b | _, _ => UseLatestDelegate d end;
  Delegate := match f, v with FDelegate, VAddress a => a | _, _ => Delegate d end;
  PreviousDelegate :=
    match f, v with FPreviousDelegate, VAddress a => a | _, _ => PreviousDelegate d end;
  EffectiveDelegate :=
    match f, v with FEffectiveDelegate, VAddress a => a | _, _ => EffectiveDelegate d end;
  PenaltyCount :=
    match f, v with FPenaltyCount, VBig p => p | _, _ => PenaltyCount d end;
  PenaltyRate :=
    match f, v with FPenaltyRate, VBig p => p | _, _ => PenaltyRate d end;
  NodeAddress :=
    match f, v with FNodeAddress, VAddress a => a | _, _ => NodeAddress d end;
  Version := match f, v with FVersion, VUint8 n => n | _, _ => Version d end;
  Balance := match f, v with FBalance, VBig p => p | _, _ => Balance d end;
  DistributableBalance :=
    match f, v with
    | FDistributableBalance, VBig p => p
    | _, _ => DistributableBalance d
    end;
  NodeShareOfBalance :=
    match f, v with FNodeShareOfBalance, VBig p => p | _, _ => NodeShareOfBalance d end;
  UserShareOfBalance :=
    match f, v with FUserShareOfBalance, VBig p => p | _, _ => UserShareOfBalance d end;
  NodeRefundBalance :=
    match f, v with FNodeRefundBalance, VBig p => p | _, _ => NodeRefundBalance d end;
  WithdrawalCredentials :=
    match f, v with
    | FWithdrawalCredentials, VHash h => h
    | _, _ => WithdrawalCredentials d
    end;
  Status := match f, v with FStatus, VStatus s => s | _, _ => Status d end;
  DepositType :=
    match f, v with FDepositType, VDeposit t => t | _, _ => DepositType d end;
  NodeShareOfBalanceIncludingBeacon :=
    match f, v with
    | FNodeShareOfBalanceIncludingBeacon, VBig p => p
    | _, _ => NodeShareOfBalanceIncludingBeacon d
    end;
  UserShareOfBalanceIncludingBeacon :=
    match f, v with
    | FUserShareOfBalanceIncludingBeacon, VBig p => p
    | _, _ => UserShareOfBalanceIncludingBeacon d
    end;
  NodeShareOfBeaconBalance :=
    match f, v with
    | FNodeShareOfBeaconBalance, VBig p => p
    | _, _ => NodeShareOfBeaconBalance d
    end;
  UserShareOfBeaconBalance :=
    match f, v with
    | FUserShareOfBeaconBalance, VBig p => p
    | _, _ => UserShareOfBeaconBalance d
    end;
  UserDistributed :=
    match f, v with FUserDistributed, VBool b => b | _, _ => UserDistributed d end;
  Slashed := match f, v with FSlashed, VBool b => b | _, _ => Slashed d end;
  IsVacant := match f, v with FIsVacant, VBool b => b | _, _ => IsVacant d end;
  LastBondReductionTime :=
    match f, v with
    | FLastBondReductionTime, VBig p => p
    | _, _ => LastBondReductionTime d
    end;
  LastBondReductionPrevValue :=
    match f, v with
    | FLastBondReductionPrevValue, VBig p => p
    | _, _ => LastBondReductionPrevValue d
    end;
  LastBondReductionPrevNodeFee :=
    match f, v with
    | FLastBondReductionPrevNodeFee, VBig p => p
    | _, _ => LastBondReductionPrevNodeFee d
    end;
  ReduceBondTime :=
    match f, v with FReduceBondTime, VBig p => p | _, _ => ReduceBondTime d end;
  ReduceBondCancelled :=
    match f, v with
    | FReduceBondCancelled, VBool b => b
    | _, _ => ReduceBondCancelled d
    end;
  ReduceBondValue :=
    match f, v with FReduceBondValue, VBig p => p | _, _ => ReduceBondValue d end;
  PreMigrationBalance :=
    match f, v with
    | FPreMigrationBalance, VBig p => p
    | _, _ => PreMigrationBalance d
    end
|}.

(* Whether a decoded value has the type of the field it is unpacked into:
   a uint8 is in range and a decoded big integer is never nil. *)
Definition decodes (f : Field) (v : Value) : bool :=
  Kind_eqb (fieldKind f) (valueKind v) &&
  match v with
  | VUint8 n => (0 <=? n) && (n <? 256)
  | VBig p => bool_decide (is_Some p)
  | _ => true
  end.

(** ** Remote round trips and the [Net] monad *)

(* A call descriptor as it goes over the wire: target, method, arguments. *)
Record CallDesc := {
  cd_target : Contract;
  cd_method : string;
  cd_args : list Value
}.

Inductive Request :=
| ReqMulticall (requireSuccess : bool) (calls : list CallDesc)
| ReqBalances (addresses : list Address).

(* One network round trip, with the block height it was evaluated at. *)
Record RoundTrip := {
  rt_block : BlockNumber;
  rt_request : Request
}.

Definition Trace := list RoundTrip.

(* A computation that may panic ([None]) and records its round trips. *)
Definition Net (A : Type) : Type := option (A * Trace).

Definition ret {A} (a : A) : Net A := Some (a, []).

Definition bind {A B} (m : Net A) (k : A -> Net B) : Net B :=
  match m with
  | None => None
  | Some (a, t1) =>
      match k a with
      | None => None
      | Some (b, t2) => Some (b, t1 ++ t2)
      end
  end.

Definition panic {A} : Net A := None.

Definition roundTrip (r : RoundTrip) : Net unit := Some (tt, [r]).

Declare Scope net_scope.
Delimit Scope net_scope with net.
Notation "'let*' p ':=' m 'in' k" := (bind m (fun p => k))
  (at level 10, p pattern, m at level 100, k at level 200) : net_scope.
Local Open Scope net_scope.

(* s[i] for reading: an index out of range panics. *)
Definition index {A} (s : list A) (i : nat) : Net A :=
  match s !! i with
  | Some x => ret x
  | None => panic
  end.

(* s[i] = x: an index out of range panics. *)
Definition setIndex {A} (s : list A) (i : nat) (x : A) : Net (list A) :=
  if (i <? length s)%nat then ret (<[i := x]> s) else panic.

(* A loop over [xs] whose body threads the state [s]. *)
Fixpoint forEach {A S} (xs : list A) (body : A -> S -> Net S) (s : S) : Net S :=
  match xs with
  | [] => ret s
  | x :: rest => let* s' := body x s in forEach rest body s'
  end.

(* The same, for a body that may [return err] out of the loop. *)
Fixpoint forEachErr {A S} (xs : list A) (body : A -> S -> Net (S * option Error))
    (s : S) : Net (S * option Error) :=
  match xs with
  | [] => ret (s, None)
  | x :: rest =>
      let* (s', err) := body x s in
      match err with
      | Some e => ret (s', Some e)
      | None => forEachErr rest body s'
      end
  end.

(** ** The Ethereum client and the multicaller *)

(* What the execution client answers: the outcome of one call evaluated at a
   block ([None]: the call fails), and whether a round trip carrying a list
   of calls fails as a whole. *)
Record EthClient := {
  eth_call : BlockNumber -> CallDesc -> option Value;
  eth_transport : BlockNumber -> list CallDesc -> option Error;
  eth_bind : Address -> option Error
}.

(* A call queued in a multicaller: the descriptor and the output it is
   bound to. [L] is the type of output locations. *)
Record Call (L : Type) := {
  call_desc : CallDesc;
  call_output : L
}.
Arguments call_desc {L} _.
Arguments call_output {L} _.

Record MultiCaller (L : Type) := {
  mc_client : EthClient;
  mc_address : Address;
  mc_calls : list (Call L)
}.
Arguments mc_client {L} _.
Arguments mc_address {L} _.
Arguments mc_calls {L} _.

Record CallResponse := { Success : bool }.

(* How a decoded value is stored through an output location of type [L]
   into a store of type [S]; [None] when the value does not decode. *)
Class Output (L S : Type) := unpack : L -> Value -> S -> option S.

(** Modelled from the spec: multicall.NewMultiCaller, which is not under
    src/. It binds a fresh, empty call batch to the client; the binding
    itself may fail. *)
Definition NewMultiCaller {L} (client : EthClient) (address : Address)
  : MultiCaller L * option Error :=
  ({| mc_client := client; mc_address := address; mc_calls := [] |},
   eth_bind client address).

(** Modelled from the spec: multicall.AddCall, which is not under src/.
    "accepts descriptors added incrementally": the descriptor (target,
    method, arguments, output binding) is appended to the batch. *)
Definition AddCall {L} (mc : MultiCaller L) (contract : Contract) (output : L)
    (method : string) (args : list Value) : MultiCaller L :=
  {| mc_client := mc_client mc;
     mc_address := mc_address mc;
     mc_calls := mc_calls mc ++
       [{| call_desc := {| cd_target := contract; cd_method := method;
                           cd_args := args |};
           call_output := output |}] |}.

(* The per-descriptor outcomes of a batch, in order; a successful call's
   value is stored through its output binding. *)
Fixpoint execCalls {L S} `{Output L S} (client : EthClient) (block : BlockNumber)
    (calls : list (Call L)) (s : S) : list CallResponse * S :=
  match calls with
  | [] => ([], s)
  | c :: rest =>
      let '(ok, s1) :=
        match eth_call client block (call_desc c) with
        | Some v =>
            match unpack (call_output c) v s with
            | Some s' => (true, s')
            | None => (false, s)
            end
        | None => (false, s)
        end in
      let '(rs, s2) := execCalls client block rest s1 in
      ({| Success := ok |} :: rs, s2)
  end.

(** Modelled from the spec: MultiCaller.FlexibleCall, which is not under
    src/. "on execution, issues one network request carrying all descriptors
    and a fixed block height; returns a parallel outcome list"; "transport
    failures abort the batch regardless of mode"; in strict mode "any single
    descriptor failure fails the whole batch", in lenient mode "per-descriptor
    failures are reported individually without failing the batch". A batch
    that fails returns no outcomes and leaves the store as it was. *)
Definition FlexibleCall {L S} `{Output L S} (mc : MultiCaller L)
    (requireSuccess : bool) (opts : CallOpts) (s : S)
  : Net (list CallResponse * option Error * S) :=
  let block := BlockNumber_ opts in
  let descs := map call_desc (mc_calls mc) in
  let* _ := roundTrip {| rt_block := block;
                         rt_request := ReqMulticall requireSuccess descs |} in
  match eth_transport (mc_client mc) block descs with
  | Some err => ret ([], Some err, s)
  | None =>
      let '(results, s') := execCalls (mc_client mc) block (mc_calls mc) s in
      if requireSuccess && negb (forallb Success results)
      then ret ([], Some (ErrMsg "multicall: a call failed"), s)
      else ret (results, None, s')
  end.

(* The rocketpool handle: its client, and what the binding constructors of
   the packages rocketpool and minipool (not under src/) return for it.
   rp.Query is not under src/ either, and nothing in the sources says whether
   it requires every call of its batch to succeed: that is a parameter of
   the handle. *)
Record RocketPool := {
  Client : EthClient;
  MulticallAddress : Address;
  (* the execution mode of the batch rp.Query sends *)
  Query_requireSuccess : bool;
  (* minipool.NewMinipoolFromVersion(rp, address, version).GetContract() *)
  NewMinipoolFromVersion : Address -> uint8 -> Error + Contract;
  (* rocketpool.GetRocketVersionContractForAddress(rp, address) *)
  GetRocketVersionContractForAddress : Address -> Error + Contract;
  (* minipool.NewMinipoolManager(rp): the manager's contract *)
  NewMinipoolManager : Error + Contract
}.

(** Modelled from the spec: RocketPool.Query, which is not under src/ and
    which the spec does not name. It is taken as one CallBatch: [query]
    queues its calls on a fresh multicaller, and the batch is executed at the
    block height of [opts], "one network request carrying all descriptors".
    The execution mode of that batch is not decided here: it is the
    parameter [Query_requireSuccess] of the handle. *)
Definition Query {L S} `{Output L S} (rp : RocketPool)
    (query : MultiCaller L -> MultiCaller L * option Error)
    (opts : CallOpts) (s : S) : Net (option Error * S) :=
  match NewMultiCaller (Client rp) (MulticallAddress rp) with
  | (_, Some err) => ret (Some (ErrWrap "error creating multicaller" err), s)
  | (mc, None) =>
      match query mc with
      | (_, Some err) => ret (Some (ErrWrap "error running multicall query" err), s)
      | (mc, None) =>
          let* (_, err, s') := FlexibleCall mc (Query_requireSuccess rp) opts s in
          match err with
          | Some e => ret (Some (ErrWrap "error executing multicall" e), s)
          | None => ret (None, s')
          end
      end
  end.

(* contracts.BalanceBatcher, which is not under src/: what its balance query
   answers, and into which requests it splits a list of addresses. Both are
   parameters: the sources say nothing of either. *)
Record BalanceBatcher := {
  balancesAt : BlockNumber -> list Address -> list BigInt * option Error;
  balanceRequests : list Address -> list (list Address)
}.

(** Modelled from the spec: BalanceBatcher.GetEthBalances, which is not
    under src/ and of which the spec says nothing of its own: it is one of
    the remote calls of a snapshot, which are all "executed ... at a fixed
    block height". The balances answered and the requests sent are those of
    the batcher; each request is made at the block height of [opts]. *)
Definition GetEthBalances (b : BalanceBatcher) (addresses : list Address)
    (opts : CallOpts) : Net (list BigInt * option Error) :=
  let* _ :=
    forEach (balanceRequests b addresses)
      (fun chunk _ => roundTrip {| rt_block := BlockNumber_ opts;
                                   rt_request := ReqBalances chunk |})
      tt in
  ret (balancesAt b (BlockNumber_ opts) addresses).

Record NetworkContracts := {
  ElBlockNumber : BlockNumber;
  (* contracts.Multicaller, taken with no call pending *)
  Multicaller_Client : EthClient;
  Multicaller_ContractAddress : Address;
  BalanceBatcher_ : BalanceBatcher;
  RocketMinipoolManager : Contract;
  RocketMinipoolBondReducer : Contract;
  RocketStorage : Contract
}.

(** ** errgroup *)

(* wg.Go(task) for each task: every task runs (the group has no context, so
   a failure cancels nothing); what each task returned is kept in order. *)
Fixpoint errgroupGo {S} (tasks : list (S -> Net (S * option Error))) (s : S)
  : Net (S * list (option Error)) :=
  match tasks with
  | [] => ret (s, [])
  | task :: rest =>
      let* (s1, e) := task s in
      let* (s2, es) := errgroupGo rest s1 in
      ret (s2, e :: es)
  end.

Fixpoint firstError (errs : list (option Error)) : option Error :=
  match errs with
  | [] => None
  | Some e :: _ => Some e
  | None :: rest => firstError rest
  end.

(* wg.Wait(): the first non-nil error returned by a task, if any. *)
Definition errgroupWait {S} (tasks : list (S -> Net (S * option Error))) (s : S)
  : Net (S * option Error) :=
  let* (s', errs) := errgroupGo tasks s in
  ret (s', firstError errs).

(* for i := 0; i < count; i += size { max := i + size; if max > count
   { max = count }; ... }: the (i, max) pairs the loop body sees. *)
Fixpoint batchLoop (fuel size count i : nat) : list (nat * nat) :=
  match fuel with
  | O => []
  | S fuel' =>
      if (i <? count)%nat
      then (i, Nat.min (i + size) count) :: batchLoop fuel' size count (i + size)
      else []
  end.

Definition batches (size count : nat) : list (nat * nat) :=
  batchLoop count size count 0.

(** ** Output bindings *)

(* [&minipoolDetails[ptr].f], or [&details.f] for the one record at 0 *)
Global Instance details_output : Output (nat * Field) (list NativeMinipoolDetails) :=
  fun l v s =>
    match s !! fst l with
    | Some d =>
        if decodes (snd l) v then Some (<[fst l := assign (snd l) v d]> s)
        else None
    | None => None
    end.

(* [&addresses[j]] *)
Global Instance addresses_output : Output nat (list Address) :=
  fun j v s =>
    match v with
    | VAddress a => if (j <? length s)%nat then Some (<[j := a]> s) else None
    | _ => None
    end.

(* [&versions[j]] *)
Global Instance versions_output : Output nat (list uint8) :=
  fun j v s =>
    match v with
    | VUint8 n =>
        if (0 <=? n) && (n <? 256) && (j <? length s)%nat
        then Some (<[j := n]> s) else None
    | _ => None
    end.

(* [&version], the local variable of GetNativeMinipoolDetails *)
Inductive VersionVar := version_var.
Global Instance version_output : Output VersionVar uint8 :=
  fun _ v s =>
    match v with
    | VUint8 n => if (0 <=? n) && (n <? 256) then Some n else None
    | _ => None
    end.

(* The count field of the minipool manager binding *)
Inductive ManagerField := MinipoolCount.
Global Instance manager_output : Output ManagerField Z :=
  fun _ v s =>
    match v with
    | VBig (Some n) => Some n
    | _ => None
    end.

(** Modelled from the spec: rocketpool.GetContractVersion, which is not
    under src/: it queues the version probe of the contract at [address]. *)
Definition GetContractVersion {L} (mc : MultiCaller L) (version_Out : L)
    (address : Address) : MultiCaller L :=
  AddCall mc {| ContractAddress := address |} version_Out "version" [].

(** Modelled from the spec: MinipoolManager.GetMinipoolCount, which is not
    under src/: "one call reads the total count". It takes the multicaller
    only, so the count is bound to the manager binding's own field. *)
Definition GetMinipoolCount (mgr : Contract) (mc : MultiCaller ManagerField)
  : MultiCaller ManagerField :=
  AddCall mc mgr MinipoolCount "getMinipoolCount" [].

(** ** Field population *)

(* Add all of the calls for the minipool details to the multicaller.
   [ptr] is where [details] lives, for the output bindings. *)
Definition addMinipoolDetailsCalls (rp : RocketPool) (contracts : NetworkContracts)
    (mc : MultiCaller (nat * Field)) (ptr : nat) (details : NativeMinipoolDetails)
    (opts : CallOpts)
  : MultiCaller (nat * Field) * NativeMinipoolDetails * option Error :=
  let address := MinipoolAddress details in
  match NewMinipoolFromVersion rp address (Version details) with
  | inl err => (mc, details, Some err)
  | inr mpContract =>
    let mgr := RocketMinipoolManager contracts in
    let mc := AddCall mc mgr (ptr, FExists) "getMinipoolExists" [VAddress address] in
    let mc := AddCall mc mgr (ptr, FPubkey) "getMinipoolPubkey" [VAddress address] in
    let mc := AddCall mc mgr (ptr, FWithdrawalCredentials)
                "getMinipoolWithdrawalCredentials" [VAddress address] in
    let mc := AddCall mc mgr (ptr, FSlashed) "getMinipoolRPLSlashed" [VAddress address] in
    let mc := AddCall mc mpContract (ptr, FStatusRaw) "getStatus" [] in
    let mc := AddCall mc mpContract (ptr, FStatusBlock) "getStatusBlock" [] in
    let mc := AddCall mc mpContract (ptr, FStatusTime) "getStatusTime" [] in
    let mc := AddCall mc mpContract (ptr, FFinalised) "getFinalised" [] in
    let mc := AddCall mc mpContract (ptr, FNodeFee) "getNodeFee" [] in
    let mc := AddCall mc mpContract (ptr, FNodeDepositBalance) "getNodeDepositBalance" [] in
    let mc := AddCall mc mpContract (ptr, FNodeDepositAssigned) "getNodeDepositAssigned" [] in
    let mc := AddCall mc mpContract (ptr, FUserDepositBalance) "getUserDepositBalance" [] in
    let mc := AddCall mc mpContract (ptr, FUserDepositAssigned) "getUserDepositAssigned" [] in
    let mc := AddCall mc mpContract (ptr, FUserDepositAssignedTime)
                "getUserDepositAssignedTime" [] in
    let mc := AddCall mc mpContract (ptr, FUseLatestDelegate) "getUseLatestDelegate" [] in
    let mc := AddCall mc mpContract (ptr, FDelegate) "getDelegate" [] in
    let mc := AddCall mc mpContract (ptr, FPreviousDelegate) "getPreviousDelegate" [] in
    let mc := AddCall mc mpContract (ptr, FEffectiveDelegate) "getEffectiveDelegate" [] in
    let mc := AddCall mc mpContract (ptr, FNodeAddress) "getNodeAddress" [] in
    let mc := AddCall mc mpContract (ptr, FNodeRefundBalance) "getNodeRefundBalance" [] in
    let '(mc, details) :=
      if Version details <? 3 then
        (* These fields are all v3+ only *)
        let details := assign FUserDistributed (VBool false) details in
        let details := assign FLastBondReductionTime (VBig (Some 0)) details in
        let details := assign FLastBondReductionPrevValue (VBig (Some 0)) details in
        let details := assign FLastBondReductionPrevNodeFee (VBig (Some 0)) details in
        let details := assign FIsVacant (VBool false) details in
        let details := assign FReduceBondTime (VBig (Some 0)) details in
        let details := assign FReduceBondCancelled (VBool false) details in
        let details := assign FReduceBondValue (VBig (Some 0)) details in
        let details := assign FPreMigrationBalance (VBig (Some 0)) details in
        (mc, details)
      else
        let mc := AddCall mc mpContract (ptr, FUserDistributed) "getUserDistributed" [] in
        let mc := AddCall mc mpContract (ptr, FIsVacant) "getVacant" [] in
        let mc := AddCall mc mpContract (ptr, FPreMigrationBalance)
                    "getPreMigrationBalance" [] in
        let reducer := RocketMinipoolBondReducer contracts in
        let mc := AddCall mc reducer (ptr, FReduceBondTime)
                    "getReduceBondTime" [VAddress address] in
        let mc := AddCall mc reducer (ptr, FReduceBondCancelled)
                    "getReduceBondCancelled" [VAddress address] in
        let mc := AddCall mc reducer (ptr, FLastBondReductionTime)
                    "getLastBondReductionTime" [VAddress address] in
        let mc := AddCall mc reducer (ptr, FLastBondReductionPrevValue)
                    "getLastBondReductionPrevValue" [VAddress address] in
        let mc := AddCall mc reducer (ptr, FLastBondReductionPrevNodeFee)
                    "getLastBondReductionPrevNodeFee" [VAddress address] in
        let mc := AddCall mc reducer (ptr, FReduceBondValue)
                    "getReduceBondValue" [VAddress address] in
        (mc, details) in
    let penaltyCountKey := Keccak256Hash "network.penalties.penalty" address in
    let mc := AddCall mc (RocketStorage contracts) (ptr, FPenaltyCount) "getUint"
                [VHash penaltyCountKey] in
    let penaltyRatekey := Keccak256Hash "minipool.penalty.rate" address in
    let mc := AddCall mc (RocketStorage contracts) (ptr, FPenaltyRate) "getUint"
                [VHash penaltyRatekey] in
    (* Query the minipool manager using the delegate-invariant function *)
    let mc := AddCall mc mgr (ptr, FDepositTypeRaw) "getMinipoolDepositType"
                [VAddress address] in
    (mc, details, None)
  end.

(* big.NewInt(0).Sub(x, y): a nil operand is a nil dereference. *)
Definition bigSub (x y : BigInt) : Net Z :=
  match x, y with
  | Some a, Some b => ret (a - b)
  | _, _ => panic
  end.

(* x.Cmp(y): -1, 0 or +1; a nil receiver is a nil dereference. *)
Definition bigCmp (x : BigInt) (y : Z) : Net Z :=
  match x with
  | Some a => ret (match a ?= y with Lt => -1 | Eq => 0 | Gt => 1 end)
  | None => panic
  end.

(* Add the calls for the minipool node and user share to the multicaller *)
Definition addMinipoolShareCalls (rp : RocketPool) (contracts : NetworkContracts)
    (mc : MultiCaller (nat * Field)) (ptr : nat) (details : NativeMinipoolDetails)
    (opts : CallOpts)
  : Net (MultiCaller (nat * Field) * NativeMinipoolDetails * option Error) :=
  let address := MinipoolAddress details in
  match NewMinipoolFromVersion rp address (Version details) with
  | inl err => ret (mc, details, Some err)
  | inr mpContract =>
    let* difference := bigSub (Balance details) (NodeRefundBalance details) in
    let details := assign FDistributableBalance (VBig (Some difference)) details in
    let* sign := bigCmp (DistributableBalance details) zero in
    if sign >=? 0 then
      let mc := AddCall mc mpContract (ptr, FNodeShareOfBalance) "calculateNodeShare"
                  [VBig (DistributableBalance details)] in
      let mc := AddCall mc mpContract (ptr, FUserShareOfBalance) "calculateUserShare"
                  [VBig (DistributableBalance details)] in
      ret (mc, details, None)
    else
      let details := assign FNodeShareOfBalance (VBig (Some 0)) details in
      let details := assign FUserShareOfBalance (VBig (Some 0)) details in
      ret (mc, details, None)
  end.

(* Fixes a minipool details struct with supplemental logic *)
Definition fixupMinipoolDetails (rp : RocketPool) (details : NativeMinipoolDetails)
    (opts : CallOpts) : Net (NativeMinipoolDetails * option Error) :=
  let details := assign FStatus (VStatus (MinipoolStatusOf (StatusRaw details))) details in
  let details :=
    assign FDepositType (VDeposit (MinipoolDepositOf (DepositTypeRaw details))) details in
  ret (details, None).

(** ** Bulk pipeline *)

Definition wrapMulticallError (err : option Error) : option Error :=
  match err with
  | Some e => Some (ErrWrap "error executing multicall" e)
  | None => None
  end.

(* The body of one goroutine of the enumeration: indices [i, max). *)
Definition addressesChunk (rp : RocketPool) (contracts : NetworkContracts)
    (opts : CallOpts) (i max : nat) (addresses : list Address)
  : Net (list Address * option Error) :=
  match NewMultiCaller (Client rp) (Multicaller_ContractAddress contracts) with
  | (_, Some err) => ret (addresses, Some err)
  | (mc, None) =>
      let mc := fold_left
        (fun mc j => AddCall mc (RocketMinipoolManager contracts) j "getMinipoolAt"
                       [VBig (Some (Z.of_nat j))])
        (seq i (max - i)) mc in
      let* (_, err, addresses) := FlexibleCall mc true opts addresses in
      ret (addresses, wrapMulticallError err)
  end.

(* getAllMinipoolAddressesFast from "Sync" on, as a function of the value
   the local variable minipoolCount has there. *)
Definition enumerateAddresses (rp : RocketPool) (contracts : NetworkContracts)
    (opts : CallOpts) (minipoolCount : nat)
  : Net (option (list Address) * option Error) :=
  let addresses := replicate minipoolCount 0%N in
  (* Run the getters in batches *)
  let count := minipoolCount in
  let* (addresses, err) :=
    errgroupWait
      (map (fun b => addressesChunk rp contracts opts (fst b) (snd b))
           (batches minipoolAddressBatchSize count))
      addresses in
  match err with
  | Some e => ret (None, Some (ErrWrap "error getting all minipool addresses" e))
  | None => ret (Some addresses, None)
  end.

(* Get all minipool addresses using the multicaller *)
Definition getAllMinipoolAddressesFast (rp : RocketPool) (contracts : NetworkContracts)
    (opts : CallOpts) : Net (option (list Address) * option Error) :=
  (* Get minipool manager *)
  match NewMinipoolManager rp with
  | inl err => ret (None, Some (ErrWrap "error getting node" err))
  | inr mgr =>
      (* Get minipool count. The query binds its result inside [mgr]; the
         local variable is not passed to it and keeps its zero value. *)
      let minipoolCount : nat := 0%nat in
      let* (err, _) :=
        Query rp (fun mc => (GetMinipoolCount mgr mc, None)) opts 0 in
      match err with
      | Some e => ret (Some [], Some e)
      | None => enumerateAddresses rp contracts opts minipoolCount
      end
  end.

(* The body of one goroutine of the version resolution: indices [i, max). *)
Definition versionsChunk (rp : RocketPool) (contracts : NetworkContracts)
    (addresses : list Address) (opts : CallOpts) (i max : nat)
    (versions : list uint8) : Net (list uint8 * option Error) :=
  match NewMultiCaller (Client rp) (Multicaller_ContractAddress contracts) with
  | (_, Some err) => ret (versions, Some err)
  | (mc, None) =>
      let* (mc, err) :=
        forEachErr (seq i (max - i))
          (fun j mc =>
             let* address := index addresses j in
             match GetRocketVersionContractForAddress rp address with
             | inl err =>
                 ret (mc, Some (ErrWrapAt "error creating version contract for minipool"
                                  address err))
             | inr contract => ret (AddCall mc contract j "version" [], None)
             end)
          mc in
      match err with
      | Some e => ret (versions, Some e)
      | None =>
          (* Allow calls to fail - necessary for Prater *)
          let* (results, err, versions) := FlexibleCall mc false opts versions in
          let* versions :=
            forEach (imap (fun j result => (j, result)) results)
              (fun jr versions =>
                 if negb (Success (snd jr))
                 then
                   (* Anything that failed the version check didn't have the
                      method yet so it must be v1 *)
                   setIndex versions (fst jr + i) 1
                 else ret versions)
              versions in
          ret (versions, wrapMulticallError err)
      end
  end.

(* Get minipool versions using the multicaller *)
Definition getMinipoolVersionsFast (rp : RocketPool) (contracts : NetworkContracts)
    (addresses : list Address) (opts : CallOpts)
  : Net (option (list uint8) * option Error) :=
  (* Run the getters in batches *)
  let count := length addresses in
  let versions := replicate count 0 in
  let* (versions, err) :=
    errgroupWait
      (map (fun b => versionsChunk rp contracts addresses opts (fst b) (snd b))
           (batches minipoolVersionBatchSize count))
      versions in
  match err with
  | Some e => ret (None, Some (ErrWrap "error getting minipool versions" e))
  | None => ret (Some versions, None)
  end.

(* The body of the loop of round 1, for index j *)
Definition queueDetailsStep (rp : RocketPool) (contracts : NetworkContracts)
    (addresses : list Address) (versions : list uint8) (opts : CallOpts)
    (j : nat) (st : MultiCaller (nat * Field) * list NativeMinipoolDetails)
  : Net (MultiCaller (nat * Field) * list NativeMinipoolDetails) :=
  let* address := index addresses j in
  let* details := index (snd st) j in
  let details := assign FMinipoolAddress (VAddress address) details in
  let* version := index versions j in
  let details := assign FVersion (VUint8 version) details in
  (* the error addMinipoolDetailsCalls returns is not looked at *)
  let '(mc, details, _) :=
    addMinipoolDetailsCalls rp contracts (fst st) j details opts in
  let* minipoolDetails := setIndex (snd st) j details in
  ret (mc, minipoolDetails).

(* for j := i; j < max; j++ { ... addMinipoolDetailsCalls(...) } of round 1 *)
Definition queueDetailsCalls (rp : RocketPool) (contracts : NetworkContracts)
    (addresses : list Address) (versions : list uint8) (opts : CallOpts)
    (i max : nat)
    (st : MultiCaller (nat * Field) * list NativeMinipoolDetails)
  : Net (MultiCaller (nat * Field) * list NativeMinipoolDetails) :=
  forEach (seq i (max - i))
    (queueDetailsStep rp contracts addresses versions opts) st.

(* The body of the loop of round 2, for index j *)
Definition queueShareStep (rp : RocketPool) (contracts : NetworkContracts)
    (versions : list uint8) (opts : CallOpts)
    (j : nat) (st : MultiCaller (nat * Field) * list NativeMinipoolDetails)
  : Net (MultiCaller (nat * Field) * list NativeMinipoolDetails) :=
  let* details := index (snd st) j in
  let* version := index versions j in
  let details := assign FVersion (VUint8 version) details in
  (* the error addMinipoolShareCalls returns is not looked at *)
  let* (mc, details, _) :=
    addMinipoolShareCalls rp contracts (fst st) j details opts in
  let* minipoolDetails := setIndex (snd st) j details in
  ret (mc, minipoolDetails).

(* for j := i; j < max; j++ { ... addMinipoolShareCalls(...) } of round 2 *)
Definition queueShareCalls (rp : RocketPool) (contracts : NetworkContracts)
    (versions : list uint8) (opts : CallOpts) (i max : nat)
    (st : MultiCaller (nat * Field) * list NativeMinipoolDetails)
  : Net (MultiCaller (nat * Field) * list NativeMinipoolDetails) :=
  forEach (seq i (max - i)) (queueShareStep rp contracts versions opts) st.

(* Round 1, one goroutine: most of the details of the records in [i, max). *)
Definition detailsChunk (rp : RocketPool) (contracts : NetworkContracts)
    (addresses : list Address) (versions : list uint8) (opts : CallOpts)
    (i max : nat) (minipoolDetails : list NativeMinipoolDetails)
  : Net (list NativeMinipoolDetails * option Error) :=
  match NewMultiCaller (Client rp) (Multicaller_ContractAddress contracts) with
  | (_, Some err) => ret (minipoolDetails, Some err)
  | (mc, None) =>
      let* (mc, minipoolDetails) :=
        queueDetailsCalls rp contracts addresses versions opts i max
          (mc, minipoolDetails) in
      let* (_, err, minipoolDetails) := FlexibleCall mc true opts minipoolDetails in
      ret (minipoolDetails, wrapMulticallError err)
  end.

(* Round 2, one goroutine: the shares of the records in [i, max). *)
Definition sharesChunk (rp : RocketPool) (contracts : NetworkContracts)
    (versions : list uint8) (opts : CallOpts)
    (i max : nat) (minipoolDetails : list NativeMinipoolDetails)
  : Net (list NativeMinipoolDetails * option Error) :=
  match NewMultiCaller (Client rp) (Multicaller_ContractAddress contracts) with
  | (_, Some err) => ret (minipoolDetails, Some err)
  | (mc, None) =>
      let* (mc, minipoolDetails) :=
        queueShareCalls rp contracts versions opts i max (mc, minipoolDetails) in
      let* (_, err, minipoolDetails) := FlexibleCall mc true opts minipoolDetails in
      ret (minipoolDetails, wrapMulticallError err)
  end.

(* Round 1 and round 2: the goroutines started, and the errgroup's Wait. *)
Definition round1Tasks (rp : RocketPool) (contracts : NetworkContracts)
    (addresses : list Address) (versions : list uint8) (opts : CallOpts)
  : list (list NativeMinipoolDetails -> Net (list NativeMinipoolDetails * option Error)) :=
  map (fun b => detailsChunk rp contracts addresses versions opts (fst b) (snd b))
      (batches minipoolBatchSize (length addresses)).

Definition detailsRound1 (rp : RocketPool) (contracts : NetworkContracts)
    (addresses : list Address) (versions : list uint8) (opts : CallOpts)
    (minipoolDetails : list NativeMinipoolDetails)
  : Net (list NativeMinipoolDetails * option Error) :=
  errgroupWait (round1Tasks rp contracts addresses versions opts) minipoolDetails.

Definition round2Tasks (rp : RocketPool) (contracts : NetworkContracts)
    (addresses : list Address) (versions : list uint8) (opts : CallOpts)
  : list (list NativeMinipoolDetails -> Net (list NativeMinipoolDetails * option Error)) :=
  map (fun b => sharesChunk rp contracts versions opts (fst b) (snd b))
      (batches minipoolBatchSize (length addresses)).

Definition detailsRound2 (rp : RocketPool) (contracts : NetworkContracts)
    (addresses : list Address) (versions : list uint8) (opts : CallOpts)
    (minipoolDetails : list NativeMinipoolDetails)
  : Net (list NativeMinipoolDetails * option Error) :=
  errgroupWait (round2Tasks rp contracts addresses versions opts) minipoolDetails.

(* for i := range minipoolDetails { minipoolDetails[i].Balance = balances[i] } *)
Definition loadBalances (balances : list BigInt)
    (minipoolDetails : list NativeMinipoolDetails)
  : Net (list NativeMinipoolDetails) :=
  forEach (seq 0 (length minipoolDetails))
    (fun i ds =>
       let* balance := index balances i in
       let* details := index ds i in
       setIndex ds i (assign FBalance (VBig balance) details))
    minipoolDetails.

(* for i := range minipoolDetails { fixupMinipoolDetails(rp, &minipoolDetails[i], opts) } *)
Definition postprocess (rp : RocketPool) (opts : CallOpts)
    (minipoolDetails : list NativeMinipoolDetails)
  : Net (list NativeMinipoolDetails) :=
  forEach (seq 0 (length minipoolDetails))
    (fun i ds =>
       let* details := index ds i in
       let* (details, _) := fixupMinipoolDetails rp details opts in
       setIndex ds i details)
    minipoolDetails.

(* Get multiple minipool details at once *)
Definition getBulkMinipoolDetails (rp : RocketPool) (contracts : NetworkContracts)
    (addresses : list Address) (versions : list uint8) (opts : CallOpts)
  : Net (option (list NativeMinipoolDetails) * option Error) :=
  let minipoolDetails := replicate (length addresses) emptyDetails in
  (* Get the balances of the minipools *)
  let* (balances, err) := GetEthBalances (BalanceBatcher_ contracts) addresses opts in
  match err with
  | Some e => ret (None, Some (ErrWrap "error getting minipool balances" e))
  | None =>
      let* minipoolDetails := loadBalances balances minipoolDetails in
      (* Round 1: most of the details *)
      let* (minipoolDetails, err) :=
        detailsRound1 rp contracts addresses versions opts minipoolDetails in
      match err with
      | Some e => ret (None, Some (ErrWrap "error getting minipool details r1" e))
      | None =>
          (* Round 2: NodeShare and UserShare once the refund amount has been
             populated *)
          let* (minipoolDetails, err) :=
            detailsRound2 rp contracts addresses versions opts minipoolDetails in
          match err with
          | Some e => ret (None, Some (ErrWrap "error getting minipool details r2" e))
          | None =>
              (* Postprocess the minipools *)
              let* minipoolDetails := postprocess rp opts minipoolDetails in
              ret (Some minipoolDetails, None)
          end
      end
  end.

(** ** Entry points *)

(* Gets the details for a minipool using the efficient multicall contract *)
Definition GetNativeMinipoolDetails (rp : RocketPool) (contracts : NetworkContracts)
    (minipoolAddress : Address) : Net (NativeMinipoolDetails * option Error) :=
  let opts := {| BlockNumber_ := ElBlockNumber contracts |} in
  let details := emptyDetails in
  let details := assign FMinipoolAddress (VAddress minipoolAddress) details in
  let version : uint8 := 0 in
  let* (err, version) :=
    Query rp (fun mc => (GetContractVersion mc version_var minipoolAddress, None))
      opts version in
  match err with
  | Some e => ret (emptyDetails, Some (ErrWrap "error getting minipool version" e))
  | None =>
      let details := assign FVersion (VUint8 version) details in
      let multicaller :=
        {| mc_client := Multicaller_Client contracts;
           mc_address := Multicaller_ContractAddress contracts;
           mc_calls := [] |} in
      let '(mc, details, _) :=
        addMinipoolDetailsCalls rp contracts multicaller 0 details opts in
      let* (_, err, store) := FlexibleCall mc true opts [details] in
      match err with
      | Some e => ret (emptyDetails, Some (ErrWrap "error executing multicall" e))
      | None =>
          let* details := index store 0 in
          let* (details, _) := fixupMinipoolDetails rp details opts in
          ret (details, None)
      end
  end.

(* Gets all minpool details using the efficient multicall contract *)
Definition GetAllNativeMinipoolDetails (rp : RocketPool) (contracts : NetworkContracts)
  : Net (option (list NativeMinipoolDetails) * option Error) :=
  let opts := {| BlockNumber_ := ElBlockNumber contracts |} in
  (* Get the list of all minipool addresses *)
  let* (addresses, err) := getAllMinipoolAddressesFast rp contracts opts in
  match err with
  | Some e => ret (None, Some (ErrWrap "error getting minipool addresses" e))
  | None =>
      let addresses := default [] addresses in
      (* Get the list of minipool versions *)
      let* (versions, err) := getMinipoolVersionsFast rp contracts addresses opts in
      match err with
      | Some e => ret (None, Some (ErrWrap "error getting minipool versions" e))
      | None =>
          let versions := default [] versions in
          (* Get the minipool details *)
          getBulkMinipoolDetails rp contracts addresses versions opts
      end
  end.

(** ** Complete shares *)

(* big.NewInt(0).Set(x): a nil operand is a nil dereference. *)
Definition bigSet (x : BigInt) : Net Z :=
  match x with
  | Some a => ret a
  | None => panic
  end.

(* z.Add(x, y): a nil operand is a nil dereference. *)
Definition bigAdd (x y : BigInt) : Net Z :=
  match x, y with
  | Some a, Some b => ret (a + b)
  | _, _ => panic
  end.

(** Modelled from the spec: MinipoolCommon.CalculateNodeShare, which is not
    under src/. "two derived calls (party A's share and party B's share) are
    both added to the same batch for that entity": it queues the call that
    [addMinipoolShareCalls] queues by hand, bound to [out]. *)
Definition CalculateNodeShare {L} (mp : Contract) (mc : MultiCaller L) (out : L)
    (balance : Z) : MultiCaller L :=
  AddCall mc mp out "calculateNodeShare" [VBig (Some balance)].

(** Modelled from the spec: MinipoolCommon.CalculateUserShare, which is not
    under src/; the other of the "two derived calls". *)
Definition CalculateUserShare {L} (mp : Contract) (mc : MultiCaller L) (out : L)
    (balance : Z) : MultiCaller L :=
  AddCall mc mp out "calculateUserShare" [VBig (Some balance)].

(* The body of the loop of CalculateCompleteMinipoolShares, for index j.
   [minipoolDetails] is a slice of pointers: each entry is the place of a
   record in the heap [snd st], and a place outside the heap is a nil
   pointer. The record is written back when the iteration ends; an iteration
   that returns an error has written nothing. *)
Definition completeShareStep (rp : RocketPool) (minipoolDetails : list nat)
    (beaconBalances : list BigInt) (j : nat)
    (st : MultiCaller (nat * Field) * list NativeMinipoolDetails)
  : Net (MultiCaller (nat * Field) * list NativeMinipoolDetails * option Error) :=
  let mc := fst st in
  (* Make the minipool contract *)
  let* ptr := index minipoolDetails j in
  let* details := index (snd st) ptr in
  match NewMinipoolFromVersion rp (MinipoolAddress details) (Version details) with
  | inl err => ret (st, Some err)
  | inr mp =>
      (* Calculate the Beacon shares *)
      let* raw := index beaconBalances j in
      let* beaconBalance := bigSet raw in
      let* sign := bigCmp (Some beaconBalance) zero in
      let '(mc, details) :=
        if sign >? 0 then
          let mc := CalculateNodeShare mp mc (ptr, FNodeShareOfBeaconBalance)
                      beaconBalance in
          let mc := CalculateUserShare mp mc (ptr, FUserShareOfBeaconBalance)
                      beaconBalance in
          (mc, details)
        else
          let details := assign FNodeShareOfBeaconBalance (VBig (Some 0)) details in
          let details := assign FUserShareOfBeaconBalance (VBig (Some 0)) details in
          (mc, details) in
      (* Calculate the total balance *)
      let* raw := index beaconBalances j in
      let* totalBalance := bigSet raw in                               (* beacon balance *)
      let* totalBalance := bigAdd (Some totalBalance) (Balance details) in
      let* totalBalance := bigSub (Some totalBalance) (NodeRefundBalance details) in
      (* Calculate the node and user shares *)
      let* sign := bigCmp (Some totalBalance) zero in
      let '(mc, details) :=
        if sign >? 0 then
          let mc := CalculateNodeShare mp mc (ptr, FNodeShareOfBalanceIncludingBeacon)
                      totalBalance in
          let mc := CalculateUserShare mp mc (ptr, FUserShareOfBalanceIncludingBeacon)
                      totalBalance in
          (mc, details)
        else
          let details :=
            assign FNodeShareOfBalanceIncludingBeacon (VBig (Some 0)) details in
          let details :=
            assign FUserShareOfBalanceIncludingBeacon (VBig (Some 0)) details in
          (mc, details) in
      let* heap := setIndex (snd st) ptr details in
      ret ((mc, heap), None)
  end.

(* One goroutine of CalculateCompleteMinipoolShares: indices [i, max). *)
Definition completeSharesChunk (rp : RocketPool) (contracts : NetworkContracts)
    (minipoolDetails : list nat) (beaconBalances : list BigInt) (opts : CallOpts)
    (i max : nat) (heap : list NativeMinipoolDetails)
  : Net (list NativeMinipoolDetails * option Error) :=
  match NewMultiCaller (Client rp) (Multicaller_ContractAddress contracts) with
  | (_, Some err) => ret (heap, Some err)
  | (mc, None) =>
      let* (st, err) :=
        forEachErr (seq i (max - i))
          (completeShareStep rp minipoolDetails beaconBalances) (mc, heap) in
      match err with
      | Some e => ret (snd st, Some e)
      | None =>
          let* (_, err, heap) := FlexibleCall (fst st) true opts (snd st) in
          ret (heap, wrapMulticallError err)
      end
  end.

(* Calculate the node and user shares of the total minipool balance,
   including the portion on the Beacon chain. The function returns an error
   only; what it does to the records is the heap it leaves. *)
Definition CalculateCompleteMinipoolShares (rp : RocketPool)
    (contracts : NetworkContracts) (minipoolDetails : list nat)
    (beaconBalances : list BigInt) (heap : list NativeMinipoolDetails)
  : Net (list NativeMinipoolDetails * option Error) :=
  let opts := {| BlockNumber_ := ElBlockNumber contracts |} in
  let count := length minipoolDetails in
  let* (heap, err) :=
    errgroupWait
      (map (fun b => completeSharesChunk rp contracts minipoolDetails beaconBalances
                       opts (fst b) (snd b))
           (batches minipoolCompleteShareBatchSize count))
      heap in
  match err with
  | Some e => ret (heap, Some (ErrWrap "error calculating minipool shares" e))
  | None => ret (heap, None)
  end.

(** ** The minipools of one node *)

(* The node binding of package node, which is not under src/, as far as this
   file uses it: what its GetMinipoolCount(mc) does to a multicaller. The
   count the query reads is kept inside the binding. *)
Record Node := {
  Node_GetMinipoolCount : MultiCaller ManagerField -> MultiCaller ManagerField
}.

(* The body of one goroutine of the enumeration for a node: indices [i, max). *)
Definition nodeAddressesChunk (rp : RocketPool) (contracts : NetworkContracts)
    (nodeAddress : Address) (opts : CallOpts) (i max : nat) (addresses : list Address)
  : Net (list Address * option Error) :=
  match NewMultiCaller (Client rp) (Multicaller_ContractAddress contracts) with
  | (_, Some err) => ret (addresses, Some err)
  | (mc, None) =>
      let mc := fold_left
        (fun mc j => AddCall mc (RocketMinipoolManager contracts) j "getNodeMinipoolAt"
                       [VAddress nodeAddress; VBig (Some (Z.of_nat j))])
        (seq i (max - i)) mc in
      let* (_, err, addresses) := FlexibleCall mc true opts addresses in
      ret (addresses, wrapMulticallError err)
  end.

(* getNodeMinipoolAddressesFast from "Sync" on, as a function of the value
   the local variable minipoolCount has there. *)
Definition enumerateNodeAddresses (rp : RocketPool) (contracts : NetworkContracts)
    (nodeAddress : Address) (opts : CallOpts) (minipoolCount : nat)
  : Net (option (list Address) * option Error) :=
  let addresses := replicate minipoolCount 0%N in
  (* Run the getters in batches *)
  let count := minipoolCount in
  let* (addresses, err) :=
    errgroupWait
      (map (fun b => nodeAddressesChunk rp contracts nodeAddress opts (fst b) (snd b))
           (batches minipoolAddressBatchSize count))
      addresses in
  match err with
  | Some e =>
      ret (None, Some (ErrWrapAt "error getting minipool addresses for node"
                         nodeAddress e))
  | None => ret (Some addresses, None)
  end.

(* Get all minipool addresses [of a node] using the multicaller. [NewNode]
   is node.NewNode(rp, nodeAddress), which is not under src/. *)
Definition getNodeMinipoolAddressesFast (rp : RocketPool) (contracts : NetworkContracts)
    (NewNode : Address -> Error + Node) (nodeAddress : Address) (opts : CallOpts)
  : Net (option (list Address) * option Error) :=
  (* Get node *)
  match NewNode nodeAddress with
  | inl err => ret (None, Some (ErrWrap "error getting node" err))
  | inr node =>
      (* Get minipool count. As in getAllMinipoolAddressesFast, the local
         variable is not passed to the query and keeps its zero value. *)
      let minipoolCount : nat := 0%nat in
      let* (err, _) :=
        Query rp (fun mc => (Node_GetMinipoolCount node mc, None)) opts 0 in
      match err with
      | Some e => ret (Some [], Some e)
      | None => enumerateNodeAddresses rp contracts nodeAddress opts minipoolCount
      end
  end.

(* Gets the minpool details for a node using the efficient multicall contract *)
Definition GetNodeNativeMinipoolDetails (rp : RocketPool) (contracts : NetworkContracts)
    (NewNode : Address -> Error + Node) (nodeAddress : Address)
  : Net (option (list NativeMinipoolDetails) * option Error) :=
  let opts := {| BlockNumber_ := ElBlockNumber contracts |} in
  (* Get the list of minipool addresses for this node *)
  let* (addresses, err) :=
    getNodeMinipoolAddressesFast rp contracts NewNode nodeAddress opts in
  match err with
  | Some e => ret (None, Some (ErrWrap "error getting minipool addresses" e))
  | None =>
      let addresses := default [] addresses in
      (* Get the list of minipool versions *)
      let* (versions, err) := getMinipoolVersionsFast rp contracts addresses opts in
      match err with
      | Some e => ret (None, Some (ErrWrap "error getting minipool versions" e))
      | None =>
          let versions := default [] versions in
          (* Get the minipool details *)
          getBulkMinipoolDetails rp contracts addresses versions opts
      end
  end.

(** ** The Oracle DAO members (utils/state/odao.go) *)

Module Odao.

(* odao.go is built on the batch-query multicaller and on bindings whose
   calls return strings as well; it gets a client, a multicaller and a
   contracts record of its own here. Round trips are recorded on the same
   traces as above. *)

Definition oDaoAddressBatchSize : nat := 1000.
Definition oDaoDetailsBatchSize : nat := 50.

(* A Go value of one of the types the bindings of this file decode to. *)
Inductive Decoded :=
| DBool (b : bool)
| DString (s : string)
| DBig (p : BigInt)
| DAddress (a : Address).

(* time.Time: the zero value, or a Unix time in seconds *)
Inductive Time :=
| ZeroTime
| Unix (sec : Z).

Record OracleDaoMemberDetails := {
  Address_ : Address;
  Exists : bool;
  ID : string;
  Url : string;
  JoinedTime : Time;
  LastProposalTime : Time;
  RPLBondAmount : BigInt;
  ReplacementAddress : Address;
  IsChallenged : bool;
  joinedTimeRaw : BigInt;
  lastProposalTimeRaw : BigInt
}.

(* OracleDaoMemberDetails{} : the Go zero value *)
Definition emptyDetails : OracleDaoMemberDetails := {|
  Address_ := 0%N; Exists := false; ID := ""; Url := "";
  JoinedTime := ZeroTime; LastProposalTime := ZeroTime;
  RPLBondAmount := None; ReplacementAddress := 0%N; IsChallenged := false;
  joinedTimeRaw := None; lastProposalTimeRaw := None
|}.

(* The fields a call is bound to. *)
Inductive Field :=
| FExists | FID | FUrl | FjoinedTimeRaw | FlastProposalTimeRaw
| FRPLBondAmount | FReplacementAddress | FIsChallenged.

(* What storing the decoded value [v] through [&details.f] gives; [None]
   when [v] has not the type of the field, or is a nil big integer. *)
Definition store (f : Field) (v : Decoded) (d : OracleDaoMemberDetails)
  : option OracleDaoMemberDetails :=
  match f, v with
  | FExists, DBool b =>
      Some {| Address_ := Address_ d; Exists := b; ID := ID d; Url := Url d;
              JoinedTime := JoinedTime d; LastProposalTime := LastProposalTime d;
              RPLBondAmount := RPLBondAmount d;
              ReplacementAddress := ReplacementAddress d;
              IsChallenged := IsChallenged d; joinedTimeRaw := joinedTimeRaw d;
              lastProposalTimeRaw := lastProposalTimeRaw d |}
  | FID, DString s =>
      Some {| Address_ := Address_ d; Exists := Exists d; ID := s; Url := Url d;
              JoinedTime := JoinedTime d; LastProposalTime := LastProposalTime d;
              RPLBondAmount := RPLBondAmount d;
              ReplacementAddress := ReplacementAddress d;
              IsChallenged := IsChallenged d; joinedTimeRaw := joinedTimeRaw d;
              lastProposalTimeRaw := lastProposalTimeRaw d |}
  | FUrl, DString s =>
      Some {| Address_ := Address_ d; Exists := Exists d; ID := ID d; Url := s;
              JoinedTime := JoinedTime d; LastProposalTime := LastProposalTime d;
              RPLBondAmount := RPLBondAmount d;
              ReplacementAddress := ReplacementAddress d;
              IsChallenged := IsChallenged d; joinedTimeRaw := joinedTimeRaw d;
              lastProposalTimeRaw := lastProposalTimeRaw d |}
  | FjoinedTimeRaw, DBig (Some n) =>
      Some {| Address_ := Address_ d; Exists := Exists d; ID := ID d; Url := Url d;
              JoinedTime := JoinedTime d; LastProposalTime := LastProposalTime d;
              RPLBondAmount := RPLBondAmount d;
              ReplacementAddress := ReplacementAddress d;
              IsChallenged := IsChallenged d; joinedTimeRaw := Some n;
              lastProposalTimeRaw := lastProposalTimeRaw d |}
  | FlastProposalTimeRaw, DBig (Some n) =>
      Some {| Address_ := Address_ d; Exists := Exists d; ID := ID d; Url := Url d;
              JoinedTime := JoinedTime d; LastProposalTime := LastProposalTime d;
              RPLBondAmount := RPLBondAmount d;
              ReplacementAddress := ReplacementAddress d;
              IsChallenged := IsChallenged d; joinedTimeRaw := joinedTimeRaw d;
              lastProposalTimeRaw := Some n |}
  | FRPLBondAmount, DBig (Some n) =>
      Some {| Address_ := Address_ d; Exists := Exists d; ID := ID d; Url := Url d;
              JoinedTime := JoinedTime d; LastProposalTime := LastProposalTime d;
              RPLBondAmount := Some n;
              ReplacementAddress := ReplacementAddress d;
              IsChallenged := IsChallenged d; joinedTimeRaw := joinedTimeRaw d;
              lastProposalTimeRaw := lastProposalTimeRaw d |}
  | FReplacementAddress, DAddress a =>
      Some {| Address_ := Address_ d; Exists := Exists d; ID := ID d; Url := Url d;
              JoinedTime := JoinedTime d; LastProposalTime := LastProposalTime d;
              RPLBondAmount := RPLBondAmount d;
              ReplacementAddress := a;
              IsChallenged := IsChallenged d; joinedTimeRaw := joinedTimeRaw d;
              lastProposalTimeRaw := lastProposalTimeRaw d |}
  | FIsChallenged, DBool b =>
      Some {| Address_ := Address_ d; Exists := Exists d; ID := ID d; Url := Url d;
              JoinedTime := JoinedTime d; LastProposalTime := LastProposalTime d;
              RPLBondAmount := RPLBondAmount d;
              ReplacementAddress := ReplacementAddress d;
              IsChallenged := b; joinedTimeRaw := joinedTimeRaw d;
              lastProposalTimeRaw := lastProposalTimeRaw d |}
  | _, _ => None
  end.

(* [details.Address = address] *)
Definition setAddress (a : Address) (d : OracleDaoMemberDetails)
  : OracleDaoMemberDetails :=
  {| Address_ := a; Exists := Exists d; ID := ID d; Url := Url d;
     JoinedTime := JoinedTime d; LastProposalTime := LastProposalTime d;
     RPLBondAmount := RPLBondAmount d; ReplacementAddress := ReplacementAddress d;
     IsChallenged := IsChallenged d; joinedTimeRaw := joinedTimeRaw d;
     lastProposalTimeRaw := lastProposalTimeRaw d |}.

(* [details.JoinedTime = joined; details.LastProposalTime = last] *)
Definition setTimes (joined last : Time) (d : OracleDaoMemberDetails)
  : OracleDaoMemberDetails :=
  {| Address_ := Address_ d; Exists := Exists d; ID := ID d; Url := Url d;
     JoinedTime := joined; LastProposalTime := last;
     RPLBondAmount := RPLBondAmount d; ReplacementAddress := ReplacementAddress d;
     IsChallenged := IsChallenged d; joinedTimeRaw := joinedTimeRaw d;
     lastProposalTimeRaw := lastProposalTimeRaw d |}.

(** *** The client and the batch-query multicaller *)

(* What the execution client answers, as [EthClient] above. *)
Record EthClient := {
  eth_call : BlockNumber -> CallDesc -> option Decoded;
  eth_transport : BlockNumber -> list CallDesc -> option Error;
  eth_bind : Address -> option Error
}.

Record MultiCaller (L : Type) := {
  mc_client : EthClient;
  mc_address : Address;
  mc_calls : list (Call L)
}.
Arguments mc_client {L} _.
Arguments mc_address {L} _.
Arguments mc_calls {L} _.

Class Output (L S : Type) := unpack : L -> Decoded -> S -> option S.

(** Modelled from the spec: batch.NewMultiCaller, which is not under src/:
    a fresh, empty call batch bound to the client; the binding may fail. *)
Definition NewMultiCaller {L} (client : EthClient) (address : Address)
  : MultiCaller L * option Error :=
  ({| mc_client := client; mc_address := address; mc_calls := [] |},
   eth_bind client address).

(** Modelled from the spec: core.AddCall, which is not under src/:
    "accepts descriptors added incrementally". *)
Definition AddCall {L} (mc : MultiCaller L) (contract : Contract) (output : L)
    (method : string) (args : list Value) : MultiCaller L :=
  {| mc_client := mc_client mc;
     mc_address := mc_address mc;
     mc_calls := mc_calls mc ++
       [{| call_desc := {| cd_target := contract; cd_method := method;
                           cd_args := args |};
           call_output := output |}] |}.

Fixpoint execCalls {L S} `{Output L S} (client : EthClient) (block : BlockNumber)
    (calls : list (Call L)) (s : S) : list CallResponse * S :=
  match calls with
  | [] => ([], s)
  | c :: rest =>
      let '(ok, s1) :=
        match eth_call client block (call_desc c) with
        | Some v =>
            match unpack (call_output c) v s with
            | Some s' => (true, s')
            | None => (false, s)
            end
        | None => (false, s)
        end in
      let '(rs, s2) := execCalls client block rest s1 in
      ({| Success := ok |} :: rs, s2)
  end.

(** Modelled from the spec: MultiCaller.FlexibleCall of batch-query, which
    is not under src/; as [FlexibleCall] above: one round trip carrying all
    descriptors at a fixed block height, strict or lenient. *)
Definition FlexibleCall {L S} `{Output L S} (mc : MultiCaller L)
    (requireSuccess : bool) (opts : CallOpts) (s : S)
  : Net (list CallResponse * option Error * S) :=
  let block := BlockNumber_ opts in
  let descs := map call_desc (mc_calls mc) in
  let* _ := roundTrip {| rt_block := block;
                         rt_request := ReqMulticall requireSuccess descs |} in
  match eth_transport (mc_client mc) block descs with
  | Some err => ret ([], Some err, s)
  | None =>
      let '(results, s') := execCalls (mc_client mc) block (mc_calls mc) s in
      if requireSuccess && negb (forallb Success results)
      then ret ([], Some (ErrMsg "multicall: a call failed"), s)
      else ret (results, None, s')
  end.

(* The Oracle DAO manager binding of package oracle, which is not under
   src/, as far as this file uses it: what its GetMemberCount(mc) does to a
   multicaller, the call being bound to the binding's MemberCount field, and
   what mgr.MemberCount.Formatted() returns for the raw value of that field
   ([None]: it panics). Both are parameters. *)
Inductive ManagerField := MemberCount.

Record OracleDaoManager := {
  GetMemberCount : MultiCaller ManagerField -> MultiCaller ManagerField;
  MemberCount_Formatted : BigInt -> option Z
}.

(* mgr.MemberCount, a nil big integer until a query fills it *)
Global Instance manager_output : Output ManagerField BigInt :=
  fun _ v _ =>
    match v with
    | DBig (Some n) => Some (Some n)
    | _ => None
    end.

(* The rocketpool handle of this file. As above, the execution mode of the
   batch rp.Query sends is a parameter of the handle. *)
Record RocketPool := {
  Client : EthClient;
  MulticallAddress : Address;
  Query_requireSuccess : bool;
  (* oracle.NewOracleDaoManager(rp) *)
  NewOracleDaoManager : Error + OracleDaoManager
}.

(** Modelled from the spec: RocketPool.Query, which is not under src/ and
    which the spec does not name; as [Query] above, one CallBatch on a fresh
    multicaller at the block height of [opts], in the mode of the handle. *)
Definition Query {L S} `{Output L S} (rp : RocketPool)
    (query : MultiCaller L -> MultiCaller L * option Error)
    (opts : CallOpts) (s : S) : Net (option Error * S) :=
  match NewMultiCaller (Client rp) (MulticallAddress rp) with
  | (_, Some err) => ret (Some (ErrWrap "error creating multicaller" err), s)
  | (mc, None) =>
      match query mc with
      | (_, Some err) => ret (Some (ErrWrap "error running multicall query" err), s)
      | (mc, None) =>
          let* (_, err, s') := FlexibleCall mc (Query_requireSuccess rp) opts s in
          match err with
          | Some e => ret (Some (ErrWrap "error executing multicall" e), s)
          | None => ret (None, s')
          end
      end
  end.

Record NetworkContracts := {
  ElBlockNumber : BlockNumber;
  MulticallerAddress : Address;
  RocketDAONodeTrusted : Contract
}.

(* [&memberDetails[ptr].f], or [&details.f] for the one record at 0 *)
Global Instance details_output : Output (nat * Field) (list OracleDaoMemberDetails) :=
  fun l v s =>
    match s !! fst l with
    | Some d =>
        match store (snd l) v d with
        | Some d' => Some (<[fst l := d']> s)
        | None => None
        end
    | None => None
    end.

(* [&addresses[j]] *)
Global Instance addresses_output : Output nat (list Address) :=
  fun j v s =>
    match v with
    | DAddress a => if (j <? length s)%nat then Some (<[j := a]> s) else None
    | _ => None
    end.

(** Modelled from the spec: convertToTime, which is not under src/:
    "convert raw numeric timestamps to structured time values"; a nil
    timestamp is a nil dereference. *)
Definition convertToTime (value : BigInt) : Net Time :=
  match value with
  | Some n => ret (Unix n)
  | None => panic
  end.

(** *** The functions of odao.go *)

(* Add the Oracle DAO details getters to the multicaller. [ptr] is where
   [details] lives, for the output bindings. *)
Definition addOracleDaoMemberDetailsCalls (rp : RocketPool)
    (contracts : NetworkContracts) (mc : MultiCaller (nat * Field)) (ptr : nat)
    (details : OracleDaoMemberDetails) (opts : CallOpts)
  : MultiCaller (nat * Field) * option Error :=
  let address := Address_ details in
  let dao := RocketDAONodeTrusted contracts in
  let a := [VAddress address] in
  let mc := AddCall mc dao (ptr, FExists) "getMemberIsValid" a in
  let mc := AddCall mc dao (ptr, FID) "getMemberID" a in
  let mc := AddCall mc dao (ptr, FUrl) "getMemberUrl" a in
  let mc := AddCall mc dao (ptr, FjoinedTimeRaw) "getMemberJoinedTime" a in
  let mc := AddCall mc dao (ptr, FlastProposalTimeRaw) "getMemberLastProposalTime" a in
  let mc := AddCall mc dao (ptr, FRPLBondAmount) "getMemberRPLBondAmount" a in
  let mc := AddCall mc dao (ptr, FReplacementAddress) "getMemberReplacedAddress" a in
  let mc := AddCall mc dao (ptr, FIsChallenged) "getMemberIsChallenged" a in
  (mc, None).

(* Fixes a member details struct with supplemental logic *)
Definition fixupOracleDaoMemberDetails (rp : RocketPool)
    (details : OracleDaoMemberDetails) (opts : CallOpts)
  : Net (OracleDaoMemberDetails * option Error) :=
  let* joined := convertToTime (joinedTimeRaw details) in
  let details := setTimes joined (LastProposalTime details) details in
  let* last := convertToTime (lastProposalTimeRaw details) in
  let details := setTimes (JoinedTime details) last details in
  ret (details, None).

(* Gets the details for an Oracle DAO member using the efficient multicall
   contract *)
Definition GetOracleDaoMemberDetails (rp : RocketPool) (contracts : NetworkContracts)
    (memberAddress : Address) : Net (OracleDaoMemberDetails * option Error) :=
  let opts := {| BlockNumber_ := ElBlockNumber contracts |} in
  let details := emptyDetails in
  let details := setAddress memberAddress details in
  match NewMultiCaller (Client rp) (MulticallerAddress contracts) with
  | (_, Some err) => ret (emptyDetails, Some (ErrWrap "error creating multicaller" err))
  | (mc, None) =>
      let '(mc, _) := addOracleDaoMemberDetailsCalls rp contracts mc 0 details opts in
      let* (_, err, store) := FlexibleCall mc true opts [details] in
      match err with
      | Some e => ret (emptyDetails, Some (ErrWrap "error executing multicall" e))
      | None =>
          let* details := index store 0 in
          let* (details, _) := fixupOracleDaoMemberDetails rp details opts in
          ret (details, None)
      end
  end.

(* The body of one goroutine of getOdaoAddresses: indices [i, max). *)
Definition addressesChunk (rp : RocketPool) (contracts : NetworkContracts)
    (opts : CallOpts) (i max : nat) (addresses : list Address)
  : Net (list Address * option Error) :=
  match NewMultiCaller (Client rp) (MulticallerAddress contracts) with
  | (_, Some err) => ret (addresses, Some err)
  | (mc, None) =>
      let mc := fold_left
        (fun mc j => AddCall mc (RocketDAONodeTrusted contracts) j "getMemberAt"
                       [VBig (Some (Z.of_nat j))])
        (seq i (max - i)) mc in
      let* (_, err, addresses) := FlexibleCall mc true opts addresses in
      ret (addresses, wrapMulticallError err)
  end.

(* for i := 0; i < count; i += minipoolAddressBatchSize
   { max := i + oDaoAddressBatchSize; if max > count { max = count }; ... }:
   the loop steps by one constant and sizes its chunks by another. *)
Fixpoint addressBatchLoop (fuel count i : nat) : list (nat * nat) :=
  match fuel with
  | O => []
  | S fuel' =>
      if (i <? count)%nat
      then (i, Nat.min (i + oDaoAddressBatchSize) count)
             :: addressBatchLoop fuel' count (i + minipoolAddressBatchSize)
      else []
  end.

(* getOdaoAddresses from "Sync" on, for the member count read. make panics
   on a length that does not fit an int. *)
Definition enumerateMembers (rp : RocketPool) (contracts : NetworkContracts)
    (opts : CallOpts) (memberCount : Z)
  : Net (option (list Address) * option Error) :=
  if memberCount <? 2 ^ 63 then
    let addresses := replicate (Z.to_nat memberCount) 0%N in
    (* Run the getters in batches *)
    let count := Z.to_nat memberCount in
    let* (addresses, err) :=
      errgroupWait
        (map (fun b => addressesChunk rp contracts opts (fst b) (snd b))
             (addressBatchLoop count count 0))
        addresses in
    match err with
    | Some e => ret (None, Some (ErrWrap "error getting Oracle DAO addresses" e))
    | None => ret (Some addresses, None)
    end
  else panic.

(* Get all Oracle DAO addresses *)
Definition getOdaoAddresses (rp : RocketPool) (contracts : NetworkContracts)
    (opts : CallOpts) : Net (option (list Address) * option Error) :=
  match NewOracleDaoManager rp with
  | inl err => ret (None, Some err)
  | inr mgr =>
      (* Get minipool count *)
      let* (err, raw) := Query rp (fun mc => (GetMemberCount mgr mc, None)) opts None in
      match err with
      | Some e => ret (Some [], Some e)
      | None =>
          match MemberCount_Formatted mgr raw with
          | Some memberCount => enumerateMembers rp contracts opts memberCount
          | None => panic
          end
      end
  end.

(* The body of the loop of getOracleDaoDetails, for index j *)
Definition queueMemberStep (rp : RocketPool) (contracts : NetworkContracts)
    (addresses : list Address) (opts : CallOpts) (j : nat)
    (st : MultiCaller (nat * Field) * list OracleDaoMemberDetails)
  : Net (MultiCaller (nat * Field) * list OracleDaoMemberDetails) :=
  let* address := index addresses j in
  let* details := index (snd st) j in
  let details := setAddress address details in
  let '(mc, _) := addOracleDaoMemberDetailsCalls rp contracts (fst st) j details opts in
  let* memberDetails := setIndex (snd st) j details in
  ret (mc, memberDetails).

(* One goroutine of getOracleDaoDetails: the members in [i, max). *)
Definition memberDetailsChunk (rp : RocketPool) (contracts : NetworkContracts)
    (addresses : list Address) (opts : CallOpts) (i max : nat)
    (memberDetails : list OracleDaoMemberDetails)
  : Net (list OracleDaoMemberDetails * option Error) :=
  match NewMultiCaller (Client rp) (MulticallerAddress contracts) with
  | (_, Some err) => ret (memberDetails, Some err)
  | (mc, None) =>
      let* (mc, memberDetails) :=
        forEach (seq i (max - i)) (queueMemberStep rp contracts addresses opts)
          (mc, memberDetails) in
      let* (_, err, memberDetails) := FlexibleCall mc true opts memberDetails in
      ret (memberDetails, wrapMulticallError err)
  end.

(* for i := range memberDetails { fixupOracleDaoMemberDetails(...) } *)
Definition postprocess (rp : RocketPool) (opts : CallOpts)
    (memberDetails : list OracleDaoMemberDetails)
  : Net (list OracleDaoMemberDetails) :=
  forEach (seq 0 (length memberDetails))
    (fun i ds =>
       let* details := index ds i in
       let* (details, _) := fixupOracleDaoMemberDetails rp details opts in
       setIndex ds i details)
    memberDetails.

(* Get the details of the Oracle DAO members *)
Definition getOracleDaoDetails (rp : RocketPool) (contracts : NetworkContracts)
    (addresses : list Address) (opts : CallOpts)
  : Net (option (list OracleDaoMemberDetails) * option Error) :=
  let memberDetails := replicate (length addresses) emptyDetails in
  (* Get the details in batches *)
  let count := length addresses in
  let* (memberDetails, err) :=
    errgroupWait
      (map (fun b => memberDetailsChunk rp contracts addresses opts (fst b) (snd b))
           (batches minipoolBatchSize count))
      memberDetails in
  match err with
  | Some e => ret (None, Some (ErrWrap "error getting Oracle DAO details" e))
  | None =>
      (* Postprocessing *)
      let* memberDetails := postprocess rp opts memberDetails in
      ret (Some memberDetails, None)
  end.

(* Gets all Oracle DAO member details using the efficient multicall contract *)
Definition GetAllOracleDaoMemberDetails (rp : RocketPool) (contracts : NetworkContracts)
  : Net (option (list OracleDaoMemberDetails) * option Error) :=
  let opts := {| BlockNumber_ := ElBlockNumber contracts |} in
  (* Get the list of all minipool addresses *)
  let* (addresses, err) := getOdaoAddresses rp contracts opts in
  match err with
  | Some e => ret (None, Some (ErrWrap "error getting Oracle DAO addresses" e))
  | None =>
      (* Get the minipool details *)
      getOracleDaoDetails rp contracts (default [] addresses) opts
  end.

End Odao.

(** ** A concrete network, for running the functions *)

Module Demo.

(* The value each read method answers with; [refund] is the node refund
   balance every minipool reports. *)
Definition answer (refund : Z) (c : CallDesc) : option Value :=
  let m := cd_method c in
  if String.eqb m "version" then
    (* contracts at odd addresses predate the version method *)
    if N.even (ContractAddress (cd_target c)) then Some (VUint8 3) else None
  else if String.eqb m "getMinipoolAt" then
    match cd_args c with
    | [VBig (Some j)] => Some (VAddress (Z.to_N j + 1000)%N)
    | _ => None
    end
  else if String.eqb m "getMinipoolCount" then Some (VBig (Some 250))
  else if String.eqb m "getNodeRefundBalance" then Some (VBig (Some refund))
  else if String.eqb m "calculateNodeShare" then
    match cd_args c with
    | [VBig (Some b)] => Some (VBig (Some (b / 4)))
    | _ => None
    end
  else if String.eqb m "calculateUserShare" then
    match cd_args c with
    | [VBig (Some b)] => Some (VBig (Some (b - b / 4)))
    | _ => None
    end
  else if String.eqb m "getMinipoolPubkey" then Some (VPubkey 7)
  else if String.eqb m "getMinipoolWithdrawalCredentials" then Some (VHash (HashRaw 1))
  else if String.eqb m "getStatus" then Some (VUint8 2)
  else if String.eqb m "getMinipoolDepositType" then Some (VUint8 4)
  else if existsb (String.eqb m)
       ["getDelegate"; "getPreviousDelegate"; "getEffectiveDelegate"; "getNodeAddress"]
  then Some (VAddress 77)
  else if existsb (String.eqb m)
       ["getMinipoolExists"; "getMinipoolRPLSlashed"; "getFinalised";
        "getNodeDepositAssigned"; "getUserDepositAssigned"; "getUseLatestDelegate";
        "getUserDistributed"; "getVacant"; "getReduceBondCancelled"]
  then Some (VBool true)
  else Some (VBig (Some 5)).

Definition client (refund : Z) : EthClient := {|
  eth_call := fun _ c => answer refund c;
  eth_transport := fun _ _ => None;
  eth_bind := fun _ => None
|}.

(* A client whose round trips fail as soon as they carry [method]. *)
Definition failingClient (refund : Z) (method : string) : EthClient := {|
  eth_call := fun _ c => answer refund c;
  eth_transport := fun _ calls =>
    if existsb (fun c => String.eqb (cd_method c) method) calls
    then Some (ErrMsg "connection reset") else None;
  eth_bind := fun _ => None
|}.

Definition rocketPool (c : EthClient) : RocketPool := {|
  Client := c;
  MulticallAddress := 11;
  Query_requireSuccess := true;
  NewMinipoolFromVersion := fun a v =>
    if (1 <=? v) && (v <=? 3) then inr {| ContractAddress := a |}
    else inl (ErrMsg "unexpected minipool contract version");
  GetRocketVersionContractForAddress := fun a => inr {| ContractAddress := a |};
  NewMinipoolManager := inr {| ContractAddress := 12 |}
|}.

Definition rp : RocketPool := rocketPool (client 2).

(* Every address holds a balance of ten times its number. *)
Definition contracts (c : EthClient) : NetworkContracts := {|
  ElBlockNumber := Some 17000000;
  Multicaller_Client := c;
  Multicaller_ContractAddress := 11;
  BalanceBatcher_ :=
    {| balancesAt := fun _ addrs => (map (fun a => Some (10 * Z.of_N a)) addrs, None);
       balanceRequests := fun addrs => [addrs] |};
  RocketMinipoolManager := {| ContractAddress := 12 |};
  RocketMinipoolBondReducer := {| ContractAddress := 13 |};
  RocketStorage := {| ContractAddress := 14 |}
|}.

Definition opts : CallOpts := {| BlockNumber_ := Some 17000000 |}.

End Demo.

(** ** A concrete Oracle DAO, for running the functions of odao.go *)

Module OdaoDemo.

(* Three members, at the addresses 501, 502 and 503; the member at 502 is
   challenged. *)
Definition answer (c : CallDesc) : option Odao.Decoded :=
  let m := cd_method c in
  if String.eqb m "getMemberCount" then Some (Odao.DBig (Some 3))
  else if String.eqb m "getMemberAt" then
    match cd_args c with
    | [VBig (Some j)] => Some (Odao.DAddress (Z.to_N j + 501)%N)
    | _ => None
    end
  else
    match cd_args c with
    | [VAddress a] =>
        if String.eqb m "getMemberIsValid" then Some (Odao.DBool true)
        else if String.eqb m "getMemberID" then Some (Odao.DString "member")
        else if String.eqb m "getMemberUrl" then
          Some (Odao.DString "https://example.org")
        else if String.eqb m "getMemberJoinedTime" then
          Some (Odao.DBig (Some (1600000000 + Z.of_N a)))
        else if String.eqb m "getMemberLastProposalTime" then
          Some (Odao.DBig (Some (1700000000 + Z.of_N a)))
        else if String.eqb m "getMemberRPLBondAmount" then Some (Odao.DBig (Some 1750))
        else if String.eqb m "getMemberReplacedAddress" then Some (Odao.DAddress 0%N)
        else if String.eqb m "getMemberIsChallenged" then
          Some (Odao.DBool (N.eqb a 502%N))
        else None
    | _ => None
    end.

Definition client : Odao.EthClient := {|
  Odao.eth_call := fun _ c => answer c;
  Odao.eth_transport := fun _ _ => None;
  Odao.eth_bind := fun _ => None
|}.

(* A client whose round trips fail as soon as they carry [method]. *)
Definition failingClient (method : string) : Odao.EthClient := {|
  Odao.eth_call := fun _ c => answer c;
  Odao.eth_transport := fun _ calls =>
    if existsb (fun c => String.eqb (cd_method c) method) calls
    then Some (ErrMsg "connection reset") else None;
  Odao.eth_bind := fun _ => None
|}.

(* A manager binding whose count query is one call to the DAO contract, and
   which formats the count as a uint64. *)
Definition manager : Odao.OracleDaoManager := {|
  Odao.GetMemberCount := fun mc =>
    Odao.AddCall mc {| ContractAddress := 21 |} Odao.MemberCount "getMemberCount" [];
  Odao.MemberCount_Formatted := fun raw =>
    match raw with
    | Some n => Some (n mod 2 ^ 64)
    | None => None
    end
|}.

Definition rocketPool (c : Odao.EthClient) : Odao.RocketPool := {|
  Odao.Client := c;
  Odao.MulticallAddress := 11;
  Odao.Query_requireSuccess := true;
  Odao.NewOracleDaoManager := inr manager
|}.

Definition rp : Odao.RocketPool := rocketPool client.

Definition contracts : Odao.NetworkContracts := {|
  Odao.ElBlockNumber := Some 17000000;
  Odao.MulticallerAddress := 11;
  Odao.RocketDAONodeTrusted := {| ContractAddress := 21 |}
|}.

Definition opts : CallOpts := {| BlockNumber_ := Some 17000000 |}.

End OdaoDemo.


(** * Properties *)

(** ** Reasoning about [Net] computations *)

Lemma bind_Some {A B} (m : Net A) (k : A -> Net B) (b : B) (t : Trace) :
  bind m k = Some (b, t) ->
  exists a t1 t2, m = Some (a, t1) /\ k a = Some (b, t2) /\ t = t1 ++ t2.
Proof.
  unfold bind. destruct m as [[a t1]|]; [|discriminate].
  destruct (k a) as [[b' t2]|] eqn:Hk; [|discriminate].
  intros [= <- <-]. eauto 6.
Qed.

Lemma bind_run {A B} (m : Net A) (k : A -> Net B) a t1 :
  m = Some (a, t1) ->
  bind m k = match k a with Some (b, t2) => Some (b, t1 ++ t2) | None => None end.
Proof. intros ->. reflexivity. Qed.

Lemma ret_Some {A} (a b : A) (t : Trace) : ret a = Some (b, t) -> b = a /\ t = [].
Proof. unfold ret. intros [= <- <-]. auto. Qed.

Lemma index_Some {A} (s : list A) i x t :
  index s i = Some (x, t) -> s !! i = Some x /\ t = [].
Proof.
  unfold index. destruct (s !! i); [|discriminate]. intros [= <- <-]. auto.
Qed.

Lemma setIndex_Some {A} (s s' : list A) i x t :
  setIndex s i x = Some (s', t) -> (i < length s)%nat /\ s' = <[i := x]> s /\ t = [].
Proof.
  unfold setIndex. destruct (i <? length s)%nat eqn:Hi; [|discriminate].
  apply Nat.ltb_lt in Hi. intros [= <- <-]. auto.
Qed.

(* A balance request, as the batcher sends them. *)
Definition isBalanceRequestAt (block : BlockNumber) (rt : RoundTrip) : Prop :=
  rt_block rt = block /\ exists chunk, rt_request rt = ReqBalances chunk.

Lemma balanceRequests_run (block : BlockNumber) (chunks : list (list Address)) :
  exists t,
    forEach chunks
      (fun chunk (_ : unit) =>
         roundTrip {| rt_block := block; rt_request := ReqBalances chunk |}) tt
      = Some (tt, t) /\
    Forall (isBalanceRequestAt block) t.
Proof.
  induction chunks as [|chunk chunks IH]; cbn [forEach].
  - exists []. split; [reflexivity|constructor].
  - destruct IH as (t & Hrun & Ht).
    rewrite (bind_run (roundTrip _) _ tt _ eq_refl). rewrite Hrun. eexists. split; [reflexivity|].
    constructor; [|exact Ht]. split; [reflexivity|]. simpl. eauto.
Qed.

(* The balance query always returns what the batcher answers, after balance
   requests at the block of [opts] only. *)
Lemma GetEthBalances_run (b : BalanceBatcher) (addresses : list Address)
    (opts : CallOpts) :
  exists t,
    GetEthBalances b addresses opts
      = Some (balancesAt b (BlockNumber_ opts) addresses, t) /\
    Forall (isBalanceRequestAt (BlockNumber_ opts)) t.
Proof.
  unfold GetEthBalances.
  destruct (balanceRequests_run (BlockNumber_ opts) (balanceRequests b addresses))
    as (t & Hrun & Ht).
  exists (t ++ []). rewrite (bind_run _ _ _ _ Hrun). split; [reflexivity|].
  rewrite app_nil_r. exact Ht.
Qed.

Lemma GetEthBalances_Some (b : BalanceBatcher) (addresses : list Address)
    (opts : CallOpts) r t :
  GetEthBalances b addresses opts = Some (r, t) ->
  r = balancesAt b (BlockNumber_ opts) addresses /\
  Forall (isBalanceRequestAt (BlockNumber_ opts)) t.
Proof.
  destruct (GetEthBalances_run b addresses opts) as (t' & Hrun & Ht).
  rewrite Hrun. intros [= <- <-]. auto.
Qed.

(* Take a successful run apart, one step at a time. *)
Ltac net_step :=
  match goal with
  | H : panic = Some _ |- _ => discriminate H
  | H : None = Some _ |- _ => discriminate H
  | H : Some (_, _) = Some (_, _) |- _ => inversion H; subst; clear H
  | H : ret _ = Some _ |- _ =>
      apply ret_Some in H; destruct H as [? ?]; simplify_eq
  | H : index _ _ = Some _ |- _ =>
      apply index_Some in H; destruct H as [? ?]; subst
  | H : setIndex _ _ _ = Some _ |- _ =>
      apply setIndex_Some in H; destruct H as (? & ? & ?); subst
  | H : bind _ _ = Some _ |- _ =>
      let a := fresh "a" in let t1 := fresh "t" in let t2 := fresh "t" in
      let H1 := fresh "Hrun" in
      apply bind_Some in H; destruct H as (a & t1 & t2 & H1 & H & ?); subst
  | H : (let '(_, _) := ?x in _) = Some _ |- _ => destruct x eqn:?
  | H : match ?x with Some _ => _ | None => _ end = Some _ |- _ => destruct x eqn:?
  | H : match ?x with inl _ => _ | inr _ => _ end = Some _ |- _ => destruct x eqn:?
  | H : (if ?x then _ else _) = Some _ |- _ => destruct x eqn:?
  end.

Ltac net_inv := repeat (net_step; simpl in *).

(** ** Fixups *)

(** C9. [fixupMinipoolDetails] talks to no one (its trace is empty), returns
    no error, sets [Status] and [DepositType] to the coercions of [StatusRaw]
    and [DepositTypeRaw], and gives every other field the value it had. *)
Theorem fixupMinipoolDetails_frame (rp : RocketPool) (details : NativeMinipoolDetails)
    (opts : CallOpts) :
  fixupMinipoolDetails rp details opts =
  Some (({| Exists := Exists details;
            MinipoolAddress := MinipoolAddress details;
            Pubkey := Pubkey details;
            StatusRaw := StatusRaw details;
            StatusBlock := StatusBlock details;
            StatusTime := StatusTime details;
            Finalised := Finalised details;
            DepositTypeRaw := DepositTypeRaw details;
            NodeFee := NodeFee details;
            NodeDepositBalance := NodeDepositBalance details;
            NodeDepositAssigned := NodeDepositAssigned details;
            UserDepositBalance := UserDepositBalance details;
            UserDepositAssigned := UserDepositAssigned details;
            UserDepositAssignedTime := UserDepositAssignedTime details;
            UseLatestDelegate := UseLatestDelegate details;
            Delegate := Delegate details;
            PreviousDelegate := PreviousDelegate details;
            EffectiveDelegate := EffectiveDelegate details;
            PenaltyCount := PenaltyCount details;
            PenaltyRate := PenaltyRate details;
            NodeAddress := NodeAddress details;
            Version := Version details;
            Balance := Balance details;
            DistributableBalance := DistributableBalance details;
            NodeShareOfBalance := NodeShareOfBalance details;
            UserShareOfBalance := UserShareOfBalance details;
            NodeRefundBalance := NodeRefundBalance details;
            WithdrawalCredentials := WithdrawalCredentials details;
            Status := MinipoolStatusOf (StatusRaw details);
            DepositType := MinipoolDepositOf (DepositTypeRaw details);
            NodeShareOfBalanceIncludingBeacon := NodeShareOfBalanceIncludingBeacon details;
            UserShareOfBalanceIncludingBeacon := UserShareOfBalanceIncludingBeacon details;
            NodeShareOfBeaconBalance := NodeShareOfBeaconBalance details;
            UserShareOfBeaconBalance := UserShareOfBeaconBalance details;
            UserDistributed := UserDistributed details;
            Slashed := Slashed details;
            IsVacant := IsVacant details;
            LastBondReductionTime := LastBondReductionTime details;
            LastBondReductionPrevValue := LastBondReductionPrevValue details;
            LastBondReductionPrevNodeFee := LastBondReductionPrevNodeFee details;
            ReduceBondTime := ReduceBondTime details;
            ReduceBondCancelled := ReduceBondCancelled details;
            ReduceBondValue := ReduceBondValue details;
            PreMigrationBalance := PreMigrationBalance details |},
         None), []).
Proof. destruct details. reflexivity. Qed.

(** ** Version-gated fields *)

(* The fields that exist from version 3 on, and the methods that read them. *)
Definition versionGated (f : Field) : bool :=
  match f with
  | FUserDistributed | FLastBondReductionTime | FLastBondReductionPrevValue
  | FLastBondReductionPrevNodeFee | FIsVacant | FReduceBondTime
  | FReduceBondCancelled | FReduceBondValue | FPreMigrationBalance => true
  | _ => false
  end.



Lemma AddCall_calls {L} (mc : MultiCaller L) contract (output : L) method args :
  mc_calls (AddCall mc contract output method args) =
  mc_calls mc ++
    [{| call_desc := {| cd_target := contract; cd_method := method; cd_args := args |};
        call_output := output |}].
Proof. reflexivity. Qed.




(** ** Derived shares *)

Definition isShareCall (c : Call (nat * Field)) : bool :=
  String.eqb (cd_method (call_desc c)) "calculateNodeShare" ||
  String.eqb (cd_method (call_desc c)) "calculateUserShare".

(** X20. [addMinipoolShareCalls] by the sign of the difference. With the
    contract binding created and both
    balances present: when Balance - NodeRefundBalance is negative, the two
    shares are set to zero and the multicaller is returned as it was (no
    descriptor is queued); when the difference is zero or positive, exactly
    the calculateNodeShare and calculateUserShare descriptors are queued, both
    with the difference as argument, and the shares are left for the batch to
    fill. In both cases DistributableBalance is the difference, no error is
    returned and no round trip is made. *)
Theorem addMinipoolShareCalls_by_sign (rp : RocketPool) (contracts : NetworkContracts)
    (mc : MultiCaller (nat * Field)) (ptr : nat) (details : NativeMinipoolDetails)
    (opts : CallOpts) (mpContract : Contract) (b r : Z) :
  NewMinipoolFromVersion rp (MinipoolAddress details) (Version details) = inr mpContract ->
  Balance details = Some b ->
  NodeRefundBalance details = Some r ->
  exists mc' details',
    addMinipoolShareCalls rp contracts mc ptr details opts
      = Some ((mc', details', None), []) /\
    DistributableBalance details' = Some (b - r) /\
    (b - r < 0 ->
       NodeShareOfBalance details' = Some 0 /\
       UserShareOfBalance details' = Some 0 /\
       mc' = mc) /\
    (0 <= b - r ->
       NodeShareOfBalance details' = NodeShareOfBalance details /\
       UserShareOfBalance details' = UserShareOfBalance details /\
       mc_calls mc' = mc_calls mc ++
         [{| call_desc := {| cd_target := mpContract;
                             cd_method := "calculateNodeShare";
                             cd_args := [VBig (Some (b - r))] |};
             call_output := (ptr, FNodeShareOfBalance) |};
          {| call_desc := {| cd_target := mpContract;
                             cd_method := "calculateUserShare";
                             cd_args := [VBig (Some (b - r))] |};
             call_output := (ptr, FUserShareOfBalance) |}]).
Proof.
  intros Hbind Hb Hr. unfold addMinipoolShareCalls.
  rewrite Hbind, Hb, Hr. simpl. unfold zero.
  destruct (Z.compare_spec (b - r) 0) as [Heq|Hlt|Hgt]; simpl.
  - do 2 eexists. split; [reflexivity|]. split; [reflexivity|].
    split; [lia|]. intros _. rewrite !AddCall_calls, <- app_assoc. auto.
  - do 2 eexists. split; [reflexivity|]. split; [reflexivity|].
    split; [auto|lia].
  - do 2 eexists. split; [reflexivity|]. split; [reflexivity|].
    split; [lia|]. intros _. rewrite !AddCall_calls, <- app_assoc. auto.
Qed.

Lemma addMinipoolShareCalls_by_sign_witness :
  exists mc' details',
    addMinipoolShareCalls Demo.rp (Demo.contracts (Demo.client 9))
      {| mc_client := Demo.client 9; mc_address := 11%N; mc_calls := [] |} 0
      (assign FNodeRefundBalance (VBig (Some 9))
         (assign FBalance (VBig (Some 4)) (assign FVersion (VUint8 3) emptyDetails)))
      Demo.opts = Some ((mc', details', None), []) /\
    DistributableBalance details' = Some (-5) /\
    NodeShareOfBalance details' = Some 0 /\
    UserShareOfBalance details' = Some 0 /\
    mc_calls mc' = [].
Proof.
  destruct (addMinipoolShareCalls_by_sign Demo.rp (Demo.contracts (Demo.client 9))
              {| mc_client := Demo.client 9; mc_address := 11%N; mc_calls := [] |} 0
              (assign FNodeRefundBalance (VBig (Some 9))
                 (assign FBalance (VBig (Some 4)) (assign FVersion (VUint8 3) emptyDetails)))
              Demo.opts {| ContractAddress := 0%N |} 4 9
              eq_refl eq_refl eq_refl)
    as (mc' & details' & Hrun & Hd & Hneg & _).
  assert (Hlt : 4 - 9 < 0) by lia.
  destruct (Hneg Hlt) as (Hn & Hu & Hmc).
  exists mc', details'. rewrite Hmc in *.
  split; [exact Hrun|]. split; [exact Hd|]. split; [exact Hn|]. split; [exact Hu|].
  reflexivity.
Defined.

(** C1. The code departs from the policy when the difference is exactly
    zero. In [addMinipoolShareCalls], with a balance of 5 and a refund of 5
    the difference is not positive, yet both share descriptors are queued
    and the two shares are not set to zero; and a run of
    [getBulkMinipoolDetails] on a minipool whose balance equals its refund
    sends calculateNodeShare(0) and calculateUserShare(0) in its round-2
    batch. *)
Lemma addMinipoolShareCalls_zero_difference_queues_calls :
  (let details :=
     assign FNodeRefundBalance (VBig (Some 5))
       (assign FBalance (VBig (Some 5)) (assign FVersion (VUint8 3) emptyDetails)) in
   let mc : MultiCaller (nat * Field) :=
     {| mc_client := Demo.client 5; mc_address := 11%N; mc_calls := [] |} in
   5 - 5 <= 0 /\
   exists mc' details',
     addMinipoolShareCalls Demo.rp (Demo.contracts (Demo.client 5)) mc 0 details
       Demo.opts = Some ((mc', details', None), []) /\
     DistributableBalance details' = Some 0 /\
     NodeShareOfBalance details' = None /\
     UserShareOfBalance details' = None /\
     map (fun c => cd_method (call_desc c)) (mc_calls mc') =
       ["calculateNodeShare"; "calculateUserShare"] /\
     forallb isShareCall (mc_calls mc') = true) /\
  exists result t,
    getBulkMinipoolDetails (Demo.rocketPool (Demo.client 20))
      (Demo.contracts (Demo.client 20)) [2]%N [3] Demo.opts
      = Some ((Some result, None), t) /\
    map Balance result = [Some 20] /\
    map NodeRefundBalance result = [Some 20] /\
    map DistributableBalance result = [Some 0] /\
    t !! 2%nat =
      Some {| rt_block := Some 17000000;
              rt_request :=
                ReqMulticall true
                  [{| cd_target := {| ContractAddress := 2 |};
                      cd_method := "calculateNodeShare";
                      cd_args := [VBig (Some 0)] |};
                   {| cd_target := {| ContractAddress := 2 |};
                      cd_method := "calculateUserShare";
                      cd_args := [VBig (Some 0)] |}] |}.
Proof.
  split.
  - simpl. split; [lia|]. do 2 eexists. split; [reflexivity|]. simpl. auto 6.
  - do 2 eexists. split; [vm_compute; reflexivity|]. repeat split.
Qed.

(** ** The version probe of the single-minipool entry point *)

Definition versionProbe (a : Address) : CallDesc :=
  {| cd_target := {| ContractAddress := a |}; cd_method := "version"; cd_args := [] |}.

Definition isStrictMulticallAt (block : BlockNumber) (rt : RoundTrip) : Prop :=
  rt_block rt = block /\ exists calls, rt_request rt = ReqMulticall true calls.


(** ** What a computation puts on the trace *)

Section Emits.
Context (P : Trace -> Prop).
Hypothesis P_nil : P [].
Hypothesis P_app : forall t1 t2, P t1 -> P t2 -> P (t1 ++ t2).

(* Every successful run of [m] leaves a trace in [P]. *)
Definition emits {A} (m : Net A) : Prop := forall a t, m = Some (a, t) -> P t.

Lemma emits_ret {A} (a : A) : emits (ret a).
Proof using P_nil. intros b t H. apply ret_Some in H. destruct H as [_ ->]. exact P_nil. Qed.

Lemma emits_panic {A} : emits (@panic A).
Proof. intros b t H. discriminate H. Qed.

Lemma emits_bind {A B} (m : Net A) (k : A -> Net B) :
  emits m -> (forall a, emits (k a)) -> emits (bind m k).
Proof using P_app.
  intros Hm Hk b t H. apply bind_Some in H.
  destruct H as (a & t1 & t2 & H1 & H2 & ->).
  apply P_app; [eapply Hm; exact H1|eapply Hk; exact H2].
Qed.

Lemma emits_index {A} (s : list A) i : emits (index s i).
Proof using P_nil. intros b t H. apply index_Some in H. destruct H as [_ ->]. exact P_nil. Qed.

Lemma emits_setIndex {A} (s : list A) i x : emits (setIndex s i x).
Proof using P_nil.
  intros b t H. apply setIndex_Some in H. destruct H as (_ & _ & ->). exact P_nil.
Qed.

Lemma emits_forEach {A S} (xs : list A) (body : A -> S -> Net S) (s : S) :
  (forall x s, emits (body x s)) -> emits (forEach xs body s).
Proof using P_nil P_app.
  intros Hbody. revert s. induction xs as [|x xs IH]; intros s; simpl.
  - apply emits_ret.
  - apply emits_bind; auto.
Qed.

Lemma emits_forEachErr {A S} (xs : list A)
    (body : A -> S -> Net (S * option Error)) (s : S) :
  (forall x s, emits (body x s)) -> emits (forEachErr xs body s).
Proof using P_nil P_app.
  intros Hbody. revert s. induction xs as [|x xs IH]; intros s; simpl.
  - apply emits_ret.
  - apply emits_bind; auto. intros [s' [e|]]; [apply emits_ret|apply IH].
Qed.

Lemma emits_errgroupGo {S} (tasks : list (S -> Net (S * option Error))) (s : S) :
  Forall (fun task => forall s, emits (task s)) tasks -> emits (errgroupGo tasks s).
Proof using P_nil P_app.
  intros Htasks. revert s. induction Htasks as [|task rest Htask _ IH]; intros s; simpl.
  - apply emits_ret.
  - apply emits_bind; auto. intros [s1 e].
    apply emits_bind; auto. intros [s2 es]. apply emits_ret.
Qed.

End Emits.

(* Decompose a goal [emits P m] along the structure of [m]. *)
Ltac emits_auto Pnil Papp :=
  repeat first
    [ apply (emits_ret _ Pnil)
    | apply emits_panic
    | apply (emits_index _ Pnil)
    | apply (emits_setIndex _ Pnil)
    | apply (emits_bind _ Papp); [|intros ?]
    | apply (emits_forEach _ Pnil Papp); intros ? ?
    | apply (emits_forEachErr _ Pnil Papp); intros ? ?
    | match goal with
      | |- emits _ (match ?x with _ => _ end) => destruct x
      | |- emits _ (let '(_, _) := ?x in _) => destruct x
      | |- emits _ (if ?x then _ else _) => destruct x
      end ].

(** ** The chunk loop *)

Lemma batchLoop_lookup (fuel size count i k : nat) :
  (0 < size)%nat -> (count <= i + fuel * size)%nat ->
  batchLoop fuel size count i !! k =
    if (i + k * size <? count)%nat
    then Some (i + k * size, Nat.min (i + (k + 1) * size) count)%nat
    else None.
Proof.
  intros Hsize. revert i k. induction fuel as [|fuel IH]; intros i k Hfuel; simpl.
  - destruct (Nat.ltb_spec (i + k * size) count); [lia|reflexivity].
  - destruct (Nat.ltb_spec i count) as [Hi|Hi].
    + destruct k as [|k]; simpl.
      * rewrite Nat.add_0_r.
        destruct (Nat.ltb_spec i count); [|lia].
        do 2 f_equal. f_equal. lia.
      * rewrite IH by lia.
        replace (i + size + k * size)%nat with (i + (size + k * size))%nat by lia.
        replace (i + size + (k + 1) * size)%nat
          with (i + (size + (k + 1) * size))%nat by lia.
        reflexivity.
    + destruct (Nat.ltb_spec (i + k * size) count); [lia|reflexivity].
Qed.

Lemma batches_lookup (size count k : nat) :
  (0 < size)%nat ->
  batches size count !! k =
    if (k * size <? count)%nat
    then Some (k * size, Nat.min ((k + 1) * size) count)%nat
    else None.
Proof.
  intros Hsize. unfold batches. rewrite batchLoop_lookup by nia. reflexivity.
Qed.

Lemma batches_length (size count : nat) :
  (0 < size)%nat -> length (batches size count) = ((count + size - 1) / size)%nat.
Proof.
  intros Hsize.
  pose proof (Nat.div_mod_eq (count + size - 1) size) as Hdiv.
  pose proof (Nat.mod_upper_bound (count + size - 1) size) as Hmod.
  set (n := ((count + size - 1) / size)%nat) in *.
  set (r := ((count + size - 1) mod size)%nat) in *.
  assert (Hr : (r < size)%nat) by (apply Hmod; lia).
  assert (Hge : (length (batches size count) <= n)%nat).
  { apply lookup_ge_None. rewrite batches_lookup by exact Hsize.
    destruct (Nat.ltb_spec (n * size) count); [nia|reflexivity]. }
  destruct (Nat.eq_dec n 0%nat) as [Hn0|Hn0]; [lia|].
  assert (Hlt : (n - 1 < length (batches size count))%nat).
  { apply lookup_lt_is_Some. rewrite batches_lookup by exact Hsize.
    destruct (Nat.ltb_spec ((n - 1) * size) count); [eauto|nia]. }
  lia.
Qed.

Lemma batches_bounds (size count k lo hi : nat) :
  (0 < size)%nat -> batches size count !! k = Some (lo, hi) ->
  (lo = k * size /\ hi = Nat.min ((k + 1) * size) count /\ lo < hi /\ hi <= count)%nat.
Proof.
  intros Hsize. rewrite batches_lookup by exact Hsize.
  destruct (Nat.ltb_spec (k * size) count); [|discriminate].
  intros [= <- <-]. lia.
Qed.

Lemma batches_owner (size count j k lo hi : nat) :
  (0 < size)%nat -> (j < count)%nat ->
  batches size count !! k = Some (lo, hi) ->
  (lo <= j < hi)%nat <-> k = (j / size)%nat.
Proof.
  intros Hsize Hj Hk.
  apply batches_bounds in Hk; [|exact Hsize]. destruct Hk as (-> & -> & _ & _).
  pose proof (Nat.div_mod_eq j size) as Hdiv.
  assert (Hmod : (j mod size < size)%nat) by (apply Nat.mod_upper_bound; lia).
  split.
  - intros [Hlo Hhi]. apply Nat.le_antisymm.
    + apply Nat.div_le_lower_bound; lia.
    + apply Nat.lt_succ_r. apply Nat.Div0.div_lt_upper_bound; lia.
  - intros ->. nia.
Qed.

Lemma batches_cover (size count j : nat) :
  (0 < size)%nat -> (j < count)%nat ->
  exists lo hi, batches size count !! (j / size)%nat = Some (lo, hi) /\ (lo <= j < hi)%nat.
Proof.
  intros Hsize Hj.
  pose proof (Nat.div_mod_eq j size) as Hdiv.
  rewrite batches_lookup by exact Hsize.
  destruct (Nat.ltb_spec (j / size * size) count) as [H|H]; [|nia].
  do 2 eexists. split; [reflexivity|].
  assert (Hmod : (j mod size < size)%nat) by (apply Nat.mod_upper_bound; lia).
  nia.
Qed.

(** ** One block height for a whole snapshot *)

Definition atBlock (b : BlockNumber) (t : Trace) : Prop :=
  Forall (fun rt => rt_block rt = b) t.

Lemma atBlock_nil b : atBlock b [].
Proof. constructor. Qed.

Lemma atBlock_app b t1 t2 : atBlock b t1 -> atBlock b t2 -> atBlock b (t1 ++ t2).
Proof. unfold atBlock. intros H1 H2. apply Forall_app. auto. Qed.

Lemma roundTrip_atBlock request b :
  emits (atBlock b) (roundTrip {| rt_block := b; rt_request := request |}).
Proof. intros a t [= _ <-]. repeat constructor. Qed.

Ltac block_auto b :=
  emits_auto (atBlock_nil b) (atBlock_app b); try apply roundTrip_atBlock.

(* The goroutines of an errgroup, one by one. *)
Ltac block_tasks b :=
  apply (emits_errgroupGo _ (atBlock_nil b) (atBlock_app b));
  apply List.Forall_forall;
  let Hin := fresh "Hin" in
  intros ? Hin ?; apply in_map_iff in Hin;
  destruct Hin as ([? ?] & <- & _); simpl.

Ltac block_solve b :=
  repeat (block_auto b; try block_tasks b;
          try progress unfold addressesChunk, versionsChunk, detailsChunk, sharesChunk,
            queueDetailsCalls, queueShareCalls, queueDetailsStep, queueShareStep,
            addMinipoolShareCalls, bigSub, bigCmp,
            fixupMinipoolDetails, NewMultiCaller, Query, FlexibleCall, GetEthBalances).

Lemma FlexibleCall_atBlock {L S} `{Output L S} (mc : MultiCaller L) strict opts (s : S) :
  emits (atBlock (BlockNumber_ opts)) (FlexibleCall mc strict opts s).
Proof. unfold FlexibleCall. block_solve (BlockNumber_ opts). Qed.

Lemma Query_atBlock {L S} `{Output L S} rp query opts (s : S) :
  emits (atBlock (BlockNumber_ opts)) (Query (L := L) rp query opts s).
Proof. unfold Query. block_solve (BlockNumber_ opts). Qed.

Lemma enumerateAddresses_atBlock rp contracts opts minipoolCount :
  emits (atBlock (BlockNumber_ opts)) (enumerateAddresses rp contracts opts minipoolCount).
Proof. unfold enumerateAddresses. block_solve (BlockNumber_ opts). Qed.

Lemma getAllMinipoolAddressesFast_atBlock rp contracts opts :
  emits (atBlock (BlockNumber_ opts)) (getAllMinipoolAddressesFast rp contracts opts).
Proof.
  unfold getAllMinipoolAddressesFast, enumerateAddresses.
  block_solve (BlockNumber_ opts).
Qed.

Lemma getMinipoolVersionsFast_atBlock rp contracts addresses opts :
  emits (atBlock (BlockNumber_ opts)) (getMinipoolVersionsFast rp contracts addresses opts).
Proof. unfold getMinipoolVersionsFast. block_solve (BlockNumber_ opts). Qed.

Lemma fixupMinipoolDetails_atBlock rp details opts b :
  emits (atBlock b) (fixupMinipoolDetails rp details opts).
Proof. unfold fixupMinipoolDetails. block_solve b. Qed.

Lemma getBulkMinipoolDetails_atBlock rp contracts addresses versions opts :
  emits (atBlock (BlockNumber_ opts))
    (getBulkMinipoolDetails rp contracts addresses versions opts).
Proof.
  unfold getBulkMinipoolDetails, loadBalances, postprocess, detailsRound1, detailsRound2.
  block_solve (BlockNumber_ opts).
Qed.

(** C7. Every round trip of one snapshot operation is made at
    contracts.ElBlockNumber: those of [GetAllNativeMinipoolDetails] and of
    [GetNativeMinipoolDetails], and, whatever block height the options carry,
    those of the address enumeration (for any count), of the version
    resolution and of both rounds of the field fetch (for any address list)
    are all made at that one height. *)
Theorem snapshot_block_height_fixed (rp : RocketPool) (contracts : NetworkContracts) :
  (forall r t, GetAllNativeMinipoolDetails rp contracts = Some (r, t) ->
     Forall (fun rt => rt_block rt = ElBlockNumber contracts) t) /\
  (forall a r t, GetNativeMinipoolDetails rp contracts a = Some (r, t) ->
     Forall (fun rt => rt_block rt = ElBlockNumber contracts) t) /\
  (forall opts count r t, enumerateAddresses rp contracts opts count = Some (r, t) ->
     Forall (fun rt => rt_block rt = BlockNumber_ opts) t) /\
  (forall opts addresses r t,
     getMinipoolVersionsFast rp contracts addresses opts = Some (r, t) ->
     Forall (fun rt => rt_block rt = BlockNumber_ opts) t) /\
  (forall opts addresses versions r t,
     getBulkMinipoolDetails rp contracts addresses versions opts = Some (r, t) ->
     Forall (fun rt => rt_block rt = BlockNumber_ opts) t).
Proof.
  set (opts0 := {| BlockNumber_ := ElBlockNumber contracts |}).
  split; [|split; [|split; [|split]]].
  - intros r t. change (ElBlockNumber contracts) with (BlockNumber_ opts0).
    revert r t. change (emits (atBlock (BlockNumber_ opts0))
                          (GetAllNativeMinipoolDetails rp contracts)).
    unfold GetAllNativeMinipoolDetails. fold opts0.
    apply (emits_bind _ (atBlock_app _)); [apply getAllMinipoolAddressesFast_atBlock|].
    intros [addresses [e|]]; [apply (emits_ret _ (atBlock_nil _))|].
    apply (emits_bind _ (atBlock_app _)); [apply getMinipoolVersionsFast_atBlock|].
    intros [versions [e|]]; [apply (emits_ret _ (atBlock_nil _))|].
    apply getBulkMinipoolDetails_atBlock.
  - intros a r t. change (ElBlockNumber contracts) with (BlockNumber_ opts0).
    revert r t. change (emits (atBlock (BlockNumber_ opts0))
                          (GetNativeMinipoolDetails rp contracts a)).
    unfold GetNativeMinipoolDetails. fold opts0. block_solve (BlockNumber_ opts0).
  - intros opts count r t. apply enumerateAddresses_atBlock.
  - intros opts addresses r t. apply getMinipoolVersionsFast_atBlock.
  - intros opts addresses versions r t. apply getBulkMinipoolDetails_atBlock.
Qed.

Lemma snapshot_block_height_fixed_witness :
  (exists r t,
     GetAllNativeMinipoolDetails Demo.rp (Demo.contracts (Demo.client 2)) = Some (r, t) /\
     Forall (fun rt => rt_block rt = Some 17000000) t) /\
  (exists r t,
     GetNativeMinipoolDetails Demo.rp (Demo.contracts (Demo.client 2)) 4%N = Some (r, t) /\
     length t = 2%nat /\
     Forall (fun rt => rt_block rt = Some 17000000) t) /\
  (exists r t,
     getBulkMinipoolDetails Demo.rp (Demo.contracts (Demo.client 2)) [2; 3; 4]%N [3; 1; 3]
       Demo.opts = Some (r, t) /\
     length t = 3%nat /\
     Forall (fun rt => rt_block rt = Some 17000000) t).
Proof.
  destruct (snapshot_block_height_fixed Demo.rp (Demo.contracts (Demo.client 2)))
    as (HAll & HOne & _ & _ & HBulk).
  split; [|split].
  - do 2 eexists. split; [vm_compute; reflexivity|].
    eapply HAll. vm_compute. reflexivity.
  - do 2 eexists. split; [vm_compute; reflexivity|]. split; [reflexivity|].
    eapply (HOne 4%N). vm_compute. reflexivity.
  - do 2 eexists. split; [vm_compute; reflexivity|]. split; [reflexivity|].
    eapply (HBulk Demo.opts [2; 3; 4]%N [3; 1; 3]). vm_compute. reflexivity.
Defined.

(** ** Loops over a slice of records *)

Lemma forEach_inv {A S} (I : S -> Prop) (xs : list A) (body : A -> S -> Net S)
    (s s' : S) (t : Trace) :
  (forall x s s' t, In x xs -> I s -> body x s = Some (s', t) -> I s') ->
  I s -> forEach xs body s = Some (s', t) -> I s'.
Proof.
  revert s t. induction xs as [|x xs IH]; intros s t Hbody Hs Hrun; simpl in Hrun.
  - apply ret_Some in Hrun. destruct Hrun as [-> _]. exact Hs.
  - apply bind_Some in Hrun. destruct Hrun as (s1 & t1 & t2 & Hx & Hrest & _).
    eapply IH; [| |exact Hrest].
    + intros y u u' tu Hy. apply Hbody. right. exact Hy.
    + eapply Hbody; [left; reflexivity|exact Hs|exact Hx].
Qed.

Section RecordLoop.
Context {D S : Type} (get : S -> list D) (R : nat -> D -> D -> Prop).
Context (body : nat -> S -> Net S).

(* Iteration [j] replaces record [j], and relates the new record to the old. *)
Hypothesis body_spec : forall j st st' t,
  body j st = Some (st', t) ->
  exists d d', get st !! j = Some d /\ get st' = <[j := d']> (get st) /\ R j d d'.

Lemma forEach_records (js : list nat) (st st' : S) (t : Trace) :
  NoDup js ->
  forEach js body st = Some (st', t) ->
  length (get st') = length (get st) /\
  (forall j, ~ In j js -> get st' !! j = get st !! j) /\
  (forall j, In j js ->
     exists d d', get st !! j = Some d /\ get st' !! j = Some d' /\ R j d d').
Proof using body_spec.
  revert st t. induction js as [|i js IH]; intros st t Hnd Hrun; simpl in Hrun.
  - apply ret_Some in Hrun. destruct Hrun as [-> _].
    split; [reflexivity|]. split; [reflexivity|]. intros j [].
  - apply bind_Some in Hrun. destruct Hrun as (st1 & t1 & t2 & Hx & Hrest & _).
    apply NoDup_cons in Hnd. destruct Hnd as [Hi Hnd].
    destruct (body_spec _ _ _ _ Hx) as (d & d' & Hd & Hst & HR).
    destruct (IH _ _ Hnd Hrest) as (Hlen & Hout & Hin).
    assert (Hi' : ~ In i js) by (intros Hc; apply Hi; apply list_elem_of_In; exact Hc).
    split; [|split].
    + rewrite Hlen, Hst. apply length_insert.
    + intros j Hj. rewrite Hout by (intros Hc; apply Hj; right; exact Hc).
      rewrite Hst. apply list_lookup_insert_ne. intros ->. apply Hj. left. reflexivity.
    + intros j [<-|Hj].
      * exists d, d'. split; [exact Hd|]. split; [|exact HR].
        rewrite Hout by exact Hi'. rewrite Hst.
        apply list_lookup_insert_eq. eapply lookup_lt_Some. exact Hd.
      * destruct (Hin j Hj) as (e & e' & He & He' & HR').
        exists e, e'. split; [|split; [exact He'|exact HR']].
        rewrite Hst in He. rewrite list_lookup_insert_ne in He; [exact He|].
        intros ->. apply Hi'. exact Hj.
Qed.

End RecordLoop.

(** ** Chunked runs of an errgroup *)

Section ChunkedRun.
Context {D : Type} (R : nat -> D -> D -> Prop).
Context (task : nat -> nat -> list D -> Net (list D * option Error)).
Context (size count : nat).

(* A goroutine for [i, max) keeps the length of the slice and leaves the
   records outside its range as they were; when it returns no error, the
   records inside are related to what they were. *)
Hypothesis task_spec : forall i max ds ds' e t,
  task i max ds = Some ((ds', e), t) ->
  length ds' = length ds /\
  (forall j, ~ (i <= j < max)%nat -> ds' !! j = ds !! j) /\
  (e = None -> forall j, (i <= j < max)%nat ->
     exists d d', ds !! j = Some d /\ ds' !! j = Some d' /\ R j d d').

Lemma errgroupGo_batchLoop (fuel i : nat) (ds ds' : list D) errs t :
  (0 < size)%nat -> (count <= i + fuel * size)%nat ->
  errgroupGo (map (fun b => task (fst b) (snd b)) (batchLoop fuel size count i)) ds
    = Some ((ds', errs), t) ->
  length ds' = length ds /\
  (forall j, ~ (i <= j < count)%nat -> ds' !! j = ds !! j) /\
  (firstError errs = None -> forall j, (i <= j < count)%nat ->
     exists d d', ds !! j = Some d /\ ds' !! j = Some d' /\ R j d d').
Proof using task_spec.
  intros Hsize. revert i ds errs t.
  induction fuel as [|fuel IH]; intros i ds errs t Hfuel Hrun; simpl in Hrun.
  - apply ret_Some in Hrun. destruct Hrun as [[= -> ->] _].
    split; [reflexivity|]. split; [reflexivity|]. intros _ j Hj. lia.
  - destruct (Nat.ltb_spec i count) as [Hi|Hi]; simpl in Hrun.
    + apply bind_Some in Hrun. destruct Hrun as ([ds1 e1] & t1 & t2 & Htask & Hrun & _).
      apply bind_Some in Hrun. destruct Hrun as ([ds2 es] & t3 & t4 & Hrest & Hrun & _).
      apply ret_Some in Hrun. destruct Hrun as [[= -> ->] _].
      destruct (task_spec _ _ _ _ _ _ Htask) as (Hlen1 & Hout1 & Hin1).
      assert (Hfuel' : (count <= i + size + fuel * size)%nat) by lia.
      destruct (IH (i + size)%nat _ _ _ Hfuel' Hrest) as (Hlen2 & Hout2 & Hin2).
      split; [congruence|]. split.
      * intros j Hj. rewrite Hout2 by lia. apply Hout1. lia.
      * intros Herr j Hj. simpl in Herr. destruct e1 as [e1|]; [discriminate|].
        destruct (Nat.lt_ge_cases j (Nat.min (i + size) count)) as [Hlt|Hge].
        -- destruct (Hin1 eq_refl j ltac:(lia)) as (d & d' & Hd & Hd' & HR).
           exists d, d'. split; [exact Hd|]. split; [|exact HR].
           rewrite Hout2 by lia. exact Hd'.
        -- destruct (Hin2 Herr j ltac:(lia)) as (d & d' & Hd & Hd' & HR).
           exists d, d'. split; [|split; [exact Hd'|exact HR]].
           rewrite <- Hout1 by lia. exact Hd.
    + apply ret_Some in Hrun. destruct Hrun as [[= -> ->] _].
      split; [reflexivity|]. split; [reflexivity|]. intros _ j Hj. lia.
Qed.

Lemma errgroupWait_batches (ds ds' : list D) e t :
  (0 < size)%nat ->
  errgroupWait (map (fun b => task (fst b) (snd b)) (batches size count)) ds
    = Some ((ds', e), t) ->
  length ds' = length ds /\
  (forall j, (count <= j)%nat -> ds' !! j = ds !! j) /\
  (e = None -> forall j, (j < count)%nat ->
     exists d d', ds !! j = Some d /\ ds' !! j = Some d' /\ R j d d').
Proof using task_spec.
  intros Hsize Hrun. unfold errgroupWait in Hrun.
  apply bind_Some in Hrun. destruct Hrun as ([ds1 errs] & t1 & t2 & Hgo & Hrun & _).
  apply ret_Some in Hrun. destruct Hrun as [[= -> ->] _].
  unfold batches in Hgo.
  assert (Hfuel : (count <= 0 + count * size)%nat) by nia.
  destruct (errgroupGo_batchLoop _ _ _ _ _ _ Hsize Hfuel Hgo) as (Hlen & Hout & Hin).
  split; [exact Hlen|]. split.
  - intros j Hj. apply Hout. lia.
  - intros He j Hj. apply Hin; [exact He|lia].
Qed.

End ChunkedRun.

(** ** Which fields a step may write *)

(* [d'] is [d] with some of the fields in [F] assigned. *)
Inductive overwritten (F : Field -> bool) (d : NativeMinipoolDetails)
  : NativeMinipoolDetails -> Prop :=
| ow_refl : overwritten F d d
| ow_step d' f v : overwritten F d d' -> F f = true -> overwritten F d (assign f v d').

Lemma overwritten_trans F d1 d2 d3 :
  overwritten F d1 d2 -> overwritten F d2 d3 -> overwritten F d1 d3.
Proof.
  intros H12 H23. induction H23 as [|d3 f v _ IH Hf]; [exact H12|].
  apply ow_step; assumption.
Qed.

Lemma overwritten_keeps {A} (proj : NativeMinipoolDetails -> A) F d d' :
  (forall f v x, F f = true -> proj (assign f v x) = proj x) ->
  overwritten F d d' -> proj d' = proj d.
Proof.
  intros Hkeep Hov. induction Hov as [|d' f v _ IH Hf]; [reflexivity|].
  rewrite Hkeep by exact Hf. exact IH.
Qed.

(* The fields [addMinipoolDetailsCalls] binds a call to. *)
Definition isPhase1Output (f : Field) : bool :=
  match f with
  | FMinipoolAddress | FVersion | FBalance | FDistributableBalance
  | FNodeShareOfBalance | FUserShareOfBalance | FStatus | FDepositType
  | FNodeShareOfBalanceIncludingBeacon | FUserShareOfBalanceIncludingBeacon
  | FNodeShareOfBeaconBalance | FUserShareOfBeaconBalance => false
  | _ => true
  end.

(* The fields [addMinipoolShareCalls] binds a call to, and those it writes. *)
Definition isPhase2Output (f : Field) : bool :=
  match f with
  | FNodeShareOfBalance | FUserShareOfBalance => true
  | _ => false
  end.

Definition isPhase2Write (f : Field) : bool :=
  match f with
  | FDistributableBalance | FNodeShareOfBalance | FUserShareOfBalance => true
  | _ => false
  end.

(* A field projection that no field of [F] is: assignments in [F] keep it. *)
Ltac keeps_field :=
  let f := fresh "f" in let v := fresh "v" in let x := fresh "x" in
  let Hf := fresh "Hf" in
  intros f v x Hf; destruct f; try discriminate Hf; destruct v; reflexivity.

Lemma versionGated_keeps d d' :
  overwritten versionGated d d' ->
  MinipoolAddress d' = MinipoolAddress d /\ Version d' = Version d /\
  Balance d' = Balance d.
Proof.
  intros Hov. split; [|split].
  - apply (overwritten_keeps MinipoolAddress versionGated); [keeps_field|exact Hov].
  - apply (overwritten_keeps Version versionGated); [keeps_field|exact Hov].
  - apply (overwritten_keeps Balance versionGated); [keeps_field|exact Hov].
Qed.

Lemma isPhase1Output_keeps d d' :
  overwritten isPhase1Output d d' ->
  MinipoolAddress d' = MinipoolAddress d /\ Version d' = Version d /\
  Balance d' = Balance d.
Proof.
  intros Hov. split; [|split].
  - apply (overwritten_keeps MinipoolAddress isPhase1Output); [keeps_field|exact Hov].
  - apply (overwritten_keeps Version isPhase1Output); [keeps_field|exact Hov].
  - apply (overwritten_keeps Balance isPhase1Output); [keeps_field|exact Hov].
Qed.

Lemma isPhase2Write_keeps d d' :
  overwritten isPhase2Write d d' ->
  MinipoolAddress d' = MinipoolAddress d /\ Version d' = Version d /\
  Balance d' = Balance d /\ NodeRefundBalance d' = NodeRefundBalance d.
Proof.
  intros Hov. split; [|split; [|split]].
  - apply (overwritten_keeps MinipoolAddress isPhase2Write); [keeps_field|exact Hov].
  - apply (overwritten_keeps Version isPhase2Write); [keeps_field|exact Hov].
  - apply (overwritten_keeps Balance isPhase2Write); [keeps_field|exact Hov].
  - apply (overwritten_keeps NodeRefundBalance isPhase2Write); [keeps_field|exact Hov].
Qed.

Lemma isPhase2Output_keeps d d' :
  overwritten isPhase2Output d d' ->
  MinipoolAddress d' = MinipoolAddress d /\ Version d' = Version d /\
  Balance d' = Balance d /\ NodeRefundBalance d' = NodeRefundBalance d /\
  DistributableBalance d' = DistributableBalance d.
Proof.
  intros Hov. split; [|split; [|split; [|split]]].
  - apply (overwritten_keeps MinipoolAddress isPhase2Output); [keeps_field|exact Hov].
  - apply (overwritten_keeps Version isPhase2Output); [keeps_field|exact Hov].
  - apply (overwritten_keeps Balance isPhase2Output); [keeps_field|exact Hov].
  - apply (overwritten_keeps NodeRefundBalance isPhase2Output); [keeps_field|exact Hov].
  - apply (overwritten_keeps DistributableBalance isPhase2Output);
      [keeps_field|exact Hov].
Qed.

(** ** Batches over the slice of records *)

Definition boundTo (F : Field -> bool) (c : Call (nat * Field)) : Prop :=
  F (snd (call_output c)) = true.

(* What storing one decoded value does to the slice. *)
Lemma unpack_details (F : Field -> bool) (c : Call (nat * Field)) (v : Value)
    (s s1 : list NativeMinipoolDetails) :
  boundTo F c ->
  unpack (call_output c) v s = Some s1 ->
  length s1 = length s /\
  (forall j d, s !! j = Some d -> exists d', s1 !! j = Some d' /\ overwritten F d d') /\
  (forall j, fst (call_output c) <> j -> s1 !! j = s !! j).
Proof.
  intros Hc. unfold unpack, details_output.
  destruct (s !! fst (call_output c)) as [d0|] eqn:Hd0; [|discriminate].
  destruct (decodes (snd (call_output c)) v); [|discriminate].
  intros [= <-]. split; [apply length_insert|]. split.
  - intros j d Hd. destruct (Nat.eq_dec (fst (call_output c)) j) as [<-|Hne].
    + rewrite list_lookup_insert_eq by (eapply lookup_lt_Some; exact Hd0).
      eexists. split; [reflexivity|]. rewrite Hd in Hd0. injection Hd0 as <-.
      apply ow_step; [constructor|exact Hc].
    + rewrite list_lookup_insert_ne by exact Hne.
      exists d. split; [exact Hd|constructor].
  - intros j Hne. apply list_lookup_insert_ne. exact Hne.
Qed.

Lemma execCalls_details client block (F : Field -> bool)
    (calls : list (Call (nat * Field))) (s s' : list NativeMinipoolDetails) rs :
  execCalls client block calls s = (rs, s') ->
  Forall (boundTo F) calls ->
  length s' = length s /\
  (forall j d, s !! j = Some d -> exists d', s' !! j = Some d' /\ overwritten F d d') /\
  (forall j, Forall (fun c => fst (call_output c) <> j) calls -> s' !! j = s !! j).
Proof.
  revert s s' rs. induction calls as [|c calls IH]; intros s s' rs Hrun HF; simpl in Hrun.
  - injection Hrun as <- <-. split; [reflexivity|]. split; [|reflexivity].
    intros j d Hd. exists d. split; [exact Hd|constructor].
  - apply Forall_cons in HF. destruct HF as [Hc HF].
    assert (Hstep : forall ok s1,
               (ok, s1) =
                 match eth_call client block (call_desc c) with
                 | Some v => match unpack (call_output c) v s with
                             | Some s0 => (true, s0)
                             | None => (false, s)
                             end
                 | None => (false, s)
                 end ->
               length s1 = length s /\
               (forall j d, s !! j = Some d ->
                  exists d', s1 !! j = Some d' /\ overwritten F d d') /\
               (forall j, fst (call_output c) <> j -> s1 !! j = s !! j)).
    { intros ok s1 Hhead.
      assert (Hsame : length s = length s /\
                (forall j d, s !! j = Some d ->
                   exists d', s !! j = Some d' /\ overwritten F d d') /\
                (forall j, fst (call_output c) <> j -> s !! j = s !! j)).
      { split; [reflexivity|]. split; [|reflexivity].
        intros j d Hd. exists d. split; [exact Hd|constructor]. }
      destruct (eth_call client block (call_desc c)) as [v|];
        [|injection Hhead as -> ->; exact Hsame].
      destruct (unpack (call_output c) v s) as [s0|] eqn:Hunpack;
        injection Hhead as -> ->; [|exact Hsame].
      eapply unpack_details; eassumption. }
    destruct (match eth_call client block (call_desc c) with
              | Some v => match unpack (call_output c) v s with
                          | Some s0 => (true, s0)
                          | None => (false, s)
                          end
              | None => (false, s)
              end) as [ok s1] eqn:Hhead.
    destruct (Hstep ok s1 eq_refl) as (Hlen1 & Hov1 & Hfr1).
    destruct (execCalls client block calls s1) as [rs2 s2] eqn:Hrest.
    injection Hrun as <- <-.
    destruct (IH _ _ _ Hrest HF) as (Hlen2 & Hov2 & Hfr2).
    split; [congruence|]. split.
    + intros j d Hd. destruct (Hov1 j d Hd) as (d1 & Hd1 & Ho1).
      destruct (Hov2 j d1 Hd1) as (d2 & Hd2 & Ho2).
      exists d2. split; [exact Hd2|]. eapply overwritten_trans; eassumption.
    + intros j Hj. apply Forall_cons in Hj. destruct Hj as [Hcj Hj].
      rewrite Hfr2 by exact Hj. apply Hfr1. exact Hcj.
Qed.

Lemma FlexibleCall_details (F : Field -> bool) (mc : MultiCaller (nat * Field))
    strict opts (s s' : list NativeMinipoolDetails) rs err t :
  FlexibleCall mc strict opts s = Some ((rs, err, s'), t) ->
  Forall (boundTo F) (mc_calls mc) ->
  length s' = length s /\
  (forall j d, s !! j = Some d -> exists d', s' !! j = Some d' /\ overwritten F d d') /\
  (forall j, Forall (fun c => fst (call_output c) <> j) (mc_calls mc) ->
     s' !! j = s !! j).
Proof.
  intros Hrun HF. unfold FlexibleCall in Hrun.
  apply bind_Some in Hrun. destruct Hrun as (u & t1 & t2 & _ & Hrun & _).
  assert (Hsame : length s = length s /\
            (forall j d, s !! j = Some d ->
               exists d', s !! j = Some d' /\ overwritten F d d') /\
            (forall j, Forall (fun c => fst (call_output c) <> j) (mc_calls mc) ->
               s !! j = s !! j)).
  { split; [reflexivity|]. split; [|reflexivity].
    intros j d Hd. exists d. split; [exact Hd|constructor]. }
  destruct (eth_transport (mc_client mc) (BlockNumber_ opts) _) as [e|].
  - apply ret_Some in Hrun. destruct Hrun as [[= -> -> ->] _]. exact Hsame.
  - destruct (execCalls (mc_client mc) (BlockNumber_ opts) (mc_calls mc) s)
      as [results s1] eqn:Hexec.
    destruct (strict && negb (forallb Success results));
      apply ret_Some in Hrun; destruct Hrun as [[= -> -> ->] _]; [exact Hsame|].
    eapply execCalls_details; eassumption.
Qed.

(** ** Round 1 *)

Lemma addMinipoolDetailsCalls_queued rp contracts mc ptr d opts mc' d' e :
  addMinipoolDetailsCalls rp contracts mc ptr d opts = (mc', d', e) ->
  overwritten versionGated d d' /\
  exists new,
    mc_calls mc' = mc_calls mc ++ new /\
    Forall (fun c => fst (call_output c) = ptr /\ boundTo isPhase1Output c) new.
Proof.
  unfold addMinipoolDetailsCalls.
  destruct (NewMinipoolFromVersion rp (MinipoolAddress d) (Version d)) as [err|mp].
  - intros [= <- <- <-]. split; [constructor|].
    exists []. split; [symmetry; apply app_nil_r|constructor].
  - destruct (Version d <? 3); intros [= <- <- <-].
    + split; [repeat (apply ow_step; [|reflexivity]); constructor|].
      eexists. split; [rewrite !AddCall_calls, <- !app_assoc; reflexivity|].
      repeat constructor.
    + split; [constructor|].
      eexists. split; [rewrite !AddCall_calls, <- !app_assoc; reflexivity|].
      repeat constructor.
Qed.

Section Round1.
Context (rp : RocketPool) (contracts : NetworkContracts).
Context (addresses : list Address) (versions : list uint8) (opts : CallOpts).

(* What round 1 does to record [j]: address and version are those of the
   enumeration, and the balance loaded before is kept. *)
Definition round1Rel (j : nat) (d d' : NativeMinipoolDetails) : Prop :=
  addresses !! j = Some (MinipoolAddress d') /\
  versions !! j = Some (Version d') /\
  Balance d' = Balance d.

Definition queuedIn (F : Field -> bool) (i max : nat) (c : Call (nat * Field)) : Prop :=
  (i <= fst (call_output c) < max)%nat /\ boundTo F c.

Lemma queueDetailsStep_record j st st' t :
  queueDetailsStep rp contracts addresses versions opts j st = Some (st', t) ->
  exists d d',
    snd st !! j = Some d /\ snd st' = <[j := d']> (snd st) /\ round1Rel j d d'.
Proof.
  destruct st as [mc0 ds0], st' as [mc1 ds1]. unfold queueDetailsStep. simpl.
  intros Hstep. net_inv.
  match goal with
  | H : addMinipoolDetailsCalls _ _ _ _ _ _ = _ |- _ =>
      destruct (addMinipoolDetailsCalls_queued _ _ _ _ _ _ _ _ _ H) as [Hov _]
  end.
  apply versionGated_keeps in Hov. destruct Hov as (Ha & Hv & Hb).
  do 2 eexists. split; [eassumption|]. split; [reflexivity|].
  unfold round1Rel. rewrite Ha, Hv, Hb. simpl. auto.
Qed.

Lemma queueDetailsStep_calls j st st' t :
  queueDetailsStep rp contracts addresses versions opts j st = Some (st', t) ->
  exists new,
    mc_calls (fst st') = mc_calls (fst st) ++ new /\
    Forall (fun c => fst (call_output c) = j /\ boundTo isPhase1Output c) new.
Proof.
  destruct st as [mc0 ds0], st' as [mc1 ds1]. unfold queueDetailsStep. simpl.
  intros Hstep. net_inv.
  match goal with
  | H : addMinipoolDetailsCalls _ _ _ _ _ _ = _ |- _ =>
      destruct (addMinipoolDetailsCalls_queued _ _ _ _ _ _ _ _ _ H) as [_ Hnew]
  end.
  exact Hnew.
Qed.

Lemma queueDetailsCalls_spec i max mc ds mc' ds' t :
  queueDetailsCalls rp contracts addresses versions opts i max (mc, ds)
    = Some ((mc', ds'), t) ->
  length ds' = length ds /\
  (forall j, ~ (i <= j < max)%nat -> ds' !! j = ds !! j) /\
  (forall j, (i <= j < max)%nat ->
     exists d d', ds !! j = Some d /\ ds' !! j = Some d' /\ round1Rel j d d') /\
  exists new, mc_calls mc' = mc_calls mc ++ new /\
              Forall (queuedIn isPhase1Output i max) new.
Proof.
  intros Hrun. unfold queueDetailsCalls in Hrun.
  destruct (forEach_records snd round1Rel _ queueDetailsStep_record
              _ _ _ _ (proj2 (NoDup_ListNoDup _) (seq_NoDup _ _)) Hrun)
    as (Hlen & Hout & Hin).
  simpl in *. split; [exact Hlen|]. split; [|split].
  - intros j Hj. apply Hout. rewrite in_seq. lia.
  - intros j Hj. apply Hin. rewrite in_seq. lia.
  - refine (forEach_inv
              (fun st => exists new,
                   mc_calls (fst st) = mc_calls mc ++ new /\
                   Forall (queuedIn isPhase1Output i max) new)
              _ _ (mc, ds) (mc', ds') t _ _ Hrun).
    + intros j st st' t0 Hj (new & Hnew & HF) Hbody.
      apply in_seq in Hj.
      destruct (queueDetailsStep_calls _ _ _ _ Hbody) as (more & Hmore & HM).
      exists (new ++ more). split; [rewrite Hmore, Hnew, app_assoc; reflexivity|].
      apply Forall_app. split; [exact HF|].
      eapply Forall_impl; [exact HM|].
      intros c [Hptr Hb]. split; [rewrite Hptr; lia|exact Hb].
    + exists []. split; [symmetry; apply app_nil_r|constructor].
Qed.

Lemma detailsChunk_spec i max ds ds' e t :
  detailsChunk rp contracts addresses versions opts i max ds = Some ((ds', e), t) ->
  length ds' = length ds /\
  (forall j, ~ (i <= j < max)%nat -> ds' !! j = ds !! j) /\
  (e = None -> forall j, (i <= j < max)%nat ->
     exists d d', ds !! j = Some d /\ ds' !! j = Some d' /\ round1Rel j d d').
Proof.
  unfold detailsChunk, NewMultiCaller.
  destruct (eth_bind (Client rp) (Multicaller_ContractAddress contracts)) as [eb|].
  - intros Hrun. apply ret_Some in Hrun. destruct Hrun as [[= -> ->] _].
    split; [reflexivity|]. split; [reflexivity|]. discriminate.
  - intros Hrun.
    apply bind_Some in Hrun. destruct Hrun as ([mc1 ds1] & t1 & t2 & Hq & Hrun & _).
    apply bind_Some in Hrun.
    destruct Hrun as ([[rs err] ds2] & t3 & t4 & Hcall & Hrun & _).
    apply ret_Some in Hrun. destruct Hrun as [[= -> ->] _].
    destruct (queueDetailsCalls_spec _ _ _ _ _ _ _ Hq)
      as (Hlen1 & Hout1 & Hin1 & new & Hnew & HF).
    simpl in Hnew.
    assert (HB : Forall (boundTo isPhase1Output) (mc_calls mc1)).
    { rewrite Hnew. eapply Forall_impl; [exact HF|]. intros c [_ Hb]. exact Hb. }
    destruct (FlexibleCall_details _ _ _ _ _ _ _ _ _ Hcall HB) as (Hlen2 & Hov2 & Hfr2).
    split; [congruence|]. split.
    + intros j Hj. rewrite Hfr2; [apply Hout1; exact Hj|].
      rewrite Hnew. eapply Forall_impl; [exact HF|]. intros c [Hr _]. lia.
    + intros _ j Hj. destruct (Hin1 j Hj) as (d & d1 & Hd & Hd1 & Ha & Hv & Hb).
      destruct (Hov2 j d1 Hd1) as (d2 & Hd2 & Hov).
      exists d, d2. split; [exact Hd|]. split; [exact Hd2|].
      apply isPhase1Output_keeps in Hov. destruct Hov as (Ha' & Hv' & Hb').
      unfold round1Rel. rewrite Ha', Hv', Hb'. auto.
Qed.

Lemma detailsRound1_spec ds ds' e t :
  detailsRound1 rp contracts addresses versions opts ds = Some ((ds', e), t) ->
  length ds' = length ds /\
  (e = None -> forall j, (j < length addresses)%nat ->
     exists d d', ds !! j = Some d /\ ds' !! j = Some d' /\ round1Rel j d d').
Proof.
  intros Hrun. unfold detailsRound1, round1Tasks in Hrun.
  eapply (errgroupWait_batches round1Rel
            (detailsChunk rp contracts addresses versions opts)) in Hrun.
  - destruct Hrun as (Hlen & _ & Hin). auto.
  - intros i max s s' e0 t0. apply detailsChunk_spec.
  - unfold minipoolBatchSize. lia.
Qed.

End Round1.

(** ** Round 2 *)

Lemma addMinipoolShareCalls_queued rp contracts mc ptr d opts mc' d' e t :
  addMinipoolShareCalls rp contracts mc ptr d opts = Some ((mc', d', e), t) ->
  overwritten isPhase2Write d d' /\
  (exists new,
     mc_calls mc' = mc_calls mc ++ new /\
     Forall (fun c => fst (call_output c) = ptr /\ boundTo isPhase2Output c) new) /\
  (forall c, NewMinipoolFromVersion rp (MinipoolAddress d) (Version d) = inr c ->
     exists b r, Balance d = Some b /\ NodeRefundBalance d = Some r /\
                 DistributableBalance d' = Some (b - r)).
Proof.
  unfold addMinipoolShareCalls.
  destruct (NewMinipoolFromVersion rp (MinipoolAddress d) (Version d)) as [err|mp].
  - intros Hrun. apply ret_Some in Hrun. destruct Hrun as [[= -> -> ->] _].
    split; [constructor|]. split; [|discriminate].
    exists []. split; [symmetry; apply app_nil_r|constructor].
  - destruct (Balance d) as [b|] eqn:Hb; [|discriminate].
    destruct (NodeRefundBalance d) as [r|] eqn:Hr; [|discriminate].
    simpl. unfold zero.
    destruct (b - r ?= 0); simpl; intros [= <- <- <- <-].
    + split; [apply ow_step; [constructor|reflexivity]|].
      split; [|intros c _; exists b, r; auto].
      eexists. split; [rewrite !AddCall_calls, <- !app_assoc; reflexivity|].
      repeat constructor.
    + split; [repeat (apply ow_step; [|reflexivity]); constructor|].
      split; [|intros c _; exists b, r; auto].
      exists []. split; [symmetry; apply app_nil_r|constructor].
    + split; [apply ow_step; [constructor|reflexivity]|].
      split; [|intros c _; exists b, r; auto].
      eexists. split; [rewrite !AddCall_calls, <- !app_assoc; reflexivity|].
      repeat constructor.
Qed.

Section Round2.
Context (rp : RocketPool) (contracts : NetworkContracts).
Context (addresses : list Address) (versions : list uint8) (opts : CallOpts).

(* What round 2 does to record [j]: address, balance and refund are kept,
   the version is that of the enumeration, and, when the contract binding is
   created, DistributableBalance is the balance minus the refund. *)
Definition round2Rel (j : nat) (d d' : NativeMinipoolDetails) : Prop :=
  MinipoolAddress d' = MinipoolAddress d /\
  Balance d' = Balance d /\
  NodeRefundBalance d' = NodeRefundBalance d /\
  versions !! j = Some (Version d') /\
  (forall c, NewMinipoolFromVersion rp (MinipoolAddress d) (Version d') = inr c ->
     exists b r, Balance d = Some b /\ NodeRefundBalance d = Some r /\
                 DistributableBalance d' = Some (b - r)).

Lemma queueShareStep_record j st st' t :
  queueShareStep rp contracts versions opts j st = Some (st', t) ->
  exists d d',
    snd st !! j = Some d /\ snd st' = <[j := d']> (snd st) /\ round2Rel j d d'.
Proof.
  destruct st as [mc0 ds0], st' as [mc1 ds1]. unfold queueShareStep. simpl.
  intros Hstep. net_inv.
  match goal with
  | H : addMinipoolShareCalls _ _ _ _ _ _ = _ |- _ =>
      destruct (addMinipoolShareCalls_queued _ _ _ _ _ _ _ _ _ _ H)
        as (Hov & _ & Hdist)
  end.
  apply isPhase2Write_keeps in Hov. destruct Hov as (Ha & Hv & Hb & Hr).
  simpl in *.
  do 2 eexists. split; [eassumption|]. split; [reflexivity|].
  unfold round2Rel. rewrite Ha, Hv, Hb, Hr. auto 6.
Qed.

Lemma queueShareStep_calls j st st' t :
  queueShareStep rp contracts versions opts j st = Some (st', t) ->
  exists new,
    mc_calls (fst st') = mc_calls (fst st) ++ new /\
    Forall (fun c => fst (call_output c) = j /\ boundTo isPhase2Output c) new.
Proof.
  destruct st as [mc0 ds0], st' as [mc1 ds1]. unfold queueShareStep. simpl.
  intros Hstep. net_inv.
  match goal with
  | H : addMinipoolShareCalls _ _ _ _ _ _ = _ |- _ =>
      destruct (addMinipoolShareCalls_queued _ _ _ _ _ _ _ _ _ _ H)
        as (_ & Hnew & _)
  end.
  exact Hnew.
Qed.

Lemma queueShareCalls_spec i max mc ds mc' ds' t :
  queueShareCalls rp contracts versions opts i max (mc, ds) = Some ((mc', ds'), t) ->
  length ds' = length ds /\
  (forall j, ~ (i <= j < max)%nat -> ds' !! j = ds !! j) /\
  (forall j, (i <= j < max)%nat ->
     exists d d', ds !! j = Some d /\ ds' !! j = Some d' /\ round2Rel j d d') /\
  exists new, mc_calls mc' = mc_calls mc ++ new /\
              Forall (queuedIn isPhase2Output i max) new.
Proof.
  intros Hrun. unfold queueShareCalls in Hrun.
  destruct (forEach_records snd round2Rel _ queueShareStep_record
              _ _ _ _ (proj2 (NoDup_ListNoDup _) (seq_NoDup _ _)) Hrun)
    as (Hlen & Hout & Hin).
  simpl in *. split; [exact Hlen|]. split; [|split].
  - intros j Hj. apply Hout. rewrite in_seq. lia.
  - intros j Hj. apply Hin. rewrite in_seq. lia.
  - refine (forEach_inv
              (fun st => exists new,
                   mc_calls (fst st) = mc_calls mc ++ new /\
                   Forall (queuedIn isPhase2Output i max) new)
              _ _ (mc, ds) (mc', ds') t _ _ Hrun).
    + intros j st st' t0 Hj (new & Hnew & HF) Hbody.
      apply in_seq in Hj.
      destruct (queueShareStep_calls _ _ _ _ Hbody) as (more & Hmore & HM).
      exists (new ++ more). split; [rewrite Hmore, Hnew, app_assoc; reflexivity|].
      apply Forall_app. split; [exact HF|].
      eapply Forall_impl; [exact HM|].
      intros c [Hptr Hb]. split; [rewrite Hptr; lia|exact Hb].
    + exists []. split; [symmetry; apply app_nil_r|constructor].
Qed.

Lemma sharesChunk_spec i max ds ds' e t :
  sharesChunk rp contracts versions opts i max ds = Some ((ds', e), t) ->
  length ds' = length ds /\
  (forall j, ~ (i <= j < max)%nat -> ds' !! j = ds !! j) /\
  (e = None -> forall j, (i <= j < max)%nat ->
     exists d d', ds !! j = Some d /\ ds' !! j = Some d' /\ round2Rel j d d').
Proof.
  unfold sharesChunk, NewMultiCaller.
  destruct (eth_bind (Client rp) (Multicaller_ContractAddress contracts)) as [eb|].
  - intros Hrun. apply ret_Some in Hrun. destruct Hrun as [[= -> ->] _].
    split; [reflexivity|]. split; [reflexivity|]. discriminate.
  - intros Hrun.
    apply bind_Some in Hrun. destruct Hrun as ([mc1 ds1] & t1 & t2 & Hq & Hrun & _).
    apply bind_Some in Hrun.
    destruct Hrun as ([[rs err] ds2] & t3 & t4 & Hcall & Hrun & _).
    apply ret_Some in Hrun. destruct Hrun as [[= -> ->] _].
    destruct (queueShareCalls_spec _ _ _ _ _ _ _ Hq)
      as (Hlen1 & Hout1 & Hin1 & new & Hnew & HF).
    simpl in Hnew.
    assert (HB : Forall (boundTo isPhase2Output) (mc_calls mc1)).
    { rewrite Hnew. eapply Forall_impl; [exact HF|]. intros c [_ Hb]. exact Hb. }
    destruct (FlexibleCall_details _ _ _ _ _ _ _ _ _ Hcall HB) as (Hlen2 & Hov2 & Hfr2).
    split; [congruence|]. split.
    + intros j Hj. rewrite Hfr2; [apply Hout1; exact Hj|].
      rewrite Hnew. eapply Forall_impl; [exact HF|]. intros c [Hr _]. lia.
    + intros _ j Hj.
      destruct (Hin1 j Hj) as (d & d1 & Hd & Hd1 & Ha & Hb & Hr & Hv & Hdist).
      destruct (Hov2 j d1 Hd1) as (d2 & Hd2 & Hov).
      exists d, d2. split; [exact Hd|]. split; [exact Hd2|].
      apply isPhase2Output_keeps in Hov.
      destruct Hov as (Ha' & Hv' & Hb' & Hr' & Hd').
      unfold round2Rel. rewrite Ha', Hv', Hb', Hr', Hd'. auto 6.
Qed.

Lemma detailsRound2_spec ds ds' e t :
  detailsRound2 rp contracts addresses versions opts ds = Some ((ds', e), t) ->
  length ds' = length ds /\
  (e = None -> forall j, (j < length addresses)%nat ->
     exists d d', ds !! j = Some d /\ ds' !! j = Some d' /\ round2Rel j d d').
Proof.
  intros Hrun. unfold detailsRound2, round2Tasks in Hrun.
  eapply (errgroupWait_batches round2Rel
            (sharesChunk rp contracts versions opts)) in Hrun.
  - destruct Hrun as (Hlen & _ & Hin). auto.
  - intros i max s s' e0 t0. apply sharesChunk_spec.
  - unfold minipoolBatchSize. lia.
Qed.

End Round2.

(** ** The whole of [getBulkMinipoolDetails] *)

Lemma loadBalances_spec balances ds ds' t :
  loadBalances balances ds = Some (ds', t) ->
  length ds' = length ds /\
  forall j, (j < length ds)%nat ->
    exists d', ds' !! j = Some d' /\ balances !! j = Some (Balance d').
Proof.
  intros Hrun. unfold loadBalances in Hrun.
  eapply (forEach_records (fun s => s)
            (fun j _ d' => balances !! j = Some (Balance d'))) in Hrun.
  - destruct Hrun as (Hlen & _ & Hin). split; [exact Hlen|].
    intros j Hj. destruct (Hin j) as (d & d' & _ & Hd' & Hb); [rewrite in_seq; lia|].
    exists d'. auto.
  - intros j st st' t0 Hbody. net_inv.
    do 2 eexists. split; [eassumption|]. split; [reflexivity|]. simpl. assumption.
  - apply NoDup_ListNoDup, seq_NoDup.
Qed.

(* What the fixup pass keeps of a record. *)
Definition fixupRel (d d' : NativeMinipoolDetails) : Prop :=
  MinipoolAddress d' = MinipoolAddress d /\
  Version d' = Version d /\
  Balance d' = Balance d /\
  NodeRefundBalance d' = NodeRefundBalance d /\
  DistributableBalance d' = DistributableBalance d.

Lemma postprocess_spec rp opts ds ds' t :
  postprocess rp opts ds = Some (ds', t) ->
  length ds' = length ds /\
  forall j d, ds !! j = Some d -> exists d', ds' !! j = Some d' /\ fixupRel d d'.
Proof.
  intros Hrun. unfold postprocess in Hrun.
  eapply (forEach_records (fun s => s) (fun _ d d' => fixupRel d d')) in Hrun.
  - destruct Hrun as (Hlen & _ & Hin). split; [exact Hlen|].
    intros j d Hd.
    destruct (Hin j) as (d0 & d' & Hd0 & Hd' & Hf).
    { rewrite in_seq. apply lookup_lt_Some in Hd. lia. }
    exists d'. split; [exact Hd'|]. congruence.
  - intros j st st' t0 Hbody. unfold fixupMinipoolDetails in Hbody. net_inv.
    do 2 eexists. split; [eassumption|]. split; [reflexivity|].
    repeat split.
  - apply NoDup_ListNoDup, seq_NoDup.
Qed.

(* The stages a bulk run that returns no error went through. *)
Lemma getBulkMinipoolDetails_stages rp contracts addresses versions opts ds t :
  getBulkMinipoolDetails rp contracts addresses versions opts = Some ((Some ds, None), t) ->
  exists ds0 t0 ds1 t1 ds2 t2 t3,
    loadBalances
      (fst (balancesAt (BalanceBatcher_ contracts) (BlockNumber_ opts) addresses))
      (replicate (length addresses) emptyDetails) = Some (ds0, t0) /\
    detailsRound1 rp contracts addresses versions opts ds0 = Some ((ds1, None), t1) /\
    detailsRound2 rp contracts addresses versions opts ds1 = Some ((ds2, None), t2) /\
    postprocess rp opts ds2 = Some (ds, t3).
Proof.
  intros Hrun. unfold getBulkMinipoolDetails, GetEthBalances in Hrun.
  apply bind_Some in Hrun. destruct Hrun as ([balances eb] & t0 & t1 & Hbal & Hrun & _).
  apply bind_Some in Hbal. destruct Hbal as (u & t2 & t3 & _ & Hbal & _).
  apply ret_Some in Hbal. destruct Hbal as [Hbal _].
  destruct eb as [eb|]; [apply ret_Some in Hrun; destruct Hrun as [[=] _]|].
  apply bind_Some in Hrun. destruct Hrun as (ds0 & t4 & t5 & Hload & Hrun & _).
  apply bind_Some in Hrun. destruct Hrun as ([ds1 e1] & t6 & t7 & Hr1 & Hrun & _).
  destruct e1 as [e1|]; [apply ret_Some in Hrun; destruct Hrun as [[=] _]|].
  apply bind_Some in Hrun. destruct Hrun as ([ds2 e2] & t8 & t9 & Hr2 & Hrun & _).
  destruct e2 as [e2|]; [apply ret_Some in Hrun; destruct Hrun as [[=] _]|].
  apply bind_Some in Hrun. destruct Hrun as (ds3 & t10 & t11 & Hpost & Hrun & _).
  apply ret_Some in Hrun. destruct Hrun as [[= ->] _].
  rewrite <- Hbal. simpl.
  exists ds0, t4, ds1, t6, ds2, t8, t10. auto.
Qed.

(* The facts a successful bulk run establishes about each record; [ds1] is
   the slice as round 1 left it. *)
Lemma getBulkMinipoolDetails_records rp contracts addresses versions opts ds t :
  getBulkMinipoolDetails rp contracts addresses versions opts = Some ((Some ds, None), t) ->
  length ds = length addresses /\
  exists ds0 t0 ds1 t1,
    loadBalances
      (fst (balancesAt (BalanceBatcher_ contracts) (BlockNumber_ opts) addresses))
      (replicate (length addresses) emptyDetails) = Some (ds0, t0) /\
    detailsRound1 rp contracts addresses versions opts ds0 = Some ((ds1, None), t1) /\
    forall j, (j < length addresses)%nat ->
      exists d1 d,
        ds1 !! j = Some d1 /\
        ds !! j = Some d /\
        addresses !! j = Some (MinipoolAddress d) /\
        versions !! j = Some (Version d) /\
        fst (balancesAt (BalanceBatcher_ contracts) (BlockNumber_ opts) addresses) !! j
          = Some (Balance d) /\
        NodeRefundBalance d = NodeRefundBalance d1 /\
        (forall c, NewMinipoolFromVersion rp (MinipoolAddress d) (Version d) = inr c ->
           exists b r, Balance d = Some b /\ NodeRefundBalance d = Some r /\
                       DistributableBalance d = Some (b - r)).
Proof.
  intros Hrun.
  destruct (getBulkMinipoolDetails_stages _ _ _ _ _ _ _ Hrun)
    as (ds0 & t0 & ds1 & t1 & ds2 & t2 & t3 & Hload0 & Hr10 & Hr2 & Hpost).
  pose proof Hload0 as Hload. pose proof Hr10 as Hr1.
  apply loadBalances_spec in Hload. destruct Hload as (Hlen0 & Hload).
  rewrite length_replicate in Hlen0, Hload.
  apply detailsRound1_spec in Hr1. destruct Hr1 as (Hlen1 & Hr1).
  apply detailsRound2_spec in Hr2. destruct Hr2 as (Hlen2 & Hr2).
  apply postprocess_spec in Hpost. destruct Hpost as (Hlen3 & Hpost).
  split; [congruence|].
  exists ds0, t0, ds1, t1. split; [exact Hload0|]. split; [exact Hr10|].
  intros j Hj.
  destruct (Hload j Hj) as (d0 & Hd0 & Hb0).
  destruct (Hr1 eq_refl j Hj) as (d0' & d1 & Hd0' & Hd1 & Ha1 & Hv1 & Hb1).
  destruct (Hr2 eq_refl j Hj) as (d1' & d2 & Hd1' & Hd2 & Ha2 & Hb2 & Hrf2 & Hv2 & Hdist).
  destruct (Hpost j d2 Hd2) as (d3 & Hd3 & Ha3 & Hv3 & Hb3 & Hrf3 & Hdb3).
  assert (d0' = d0) by congruence. assert (d1' = d1) by congruence. subst d0' d1'.
  exists d1, d3. split; [exact Hd1|]. split; [exact Hd3|].
  rewrite Ha3, Hv3, Hb3, Hrf3, Hdb3, Ha2, Hb2, Hrf2.
  split; [exact Ha1|]. split; [exact Hv2|].
  split; [rewrite Hb1, <- Hb0; reflexivity|].
  split; [reflexivity|]. exact Hdist.
Qed.

(* No error means a slice is returned; an error means the slice is nil. *)
Lemma getBulkMinipoolDetails_result rp contracts addresses versions opts r e t :
  getBulkMinipoolDetails rp contracts addresses versions opts = Some ((r, e), t) ->
  match e with
  | None => exists ds, r = Some ds
  | Some _ => r = None
  end.
Proof.
  intros Hrun. unfold getBulkMinipoolDetails in Hrun.
  apply bind_Some in Hrun. destruct Hrun as ([balances eb] & t0 & t1 & _ & Hrun & _).
  destruct eb as [eb|]; [apply ret_Some in Hrun; destruct Hrun as [[= -> ->] _]; reflexivity|].
  apply bind_Some in Hrun. destruct Hrun as (ds0 & t4 & t5 & _ & Hrun & _).
  apply bind_Some in Hrun. destruct Hrun as ([ds1 e1] & t6 & t7 & _ & Hrun & _).
  destruct e1 as [e1|]; [apply ret_Some in Hrun; destruct Hrun as [[= -> ->] _]; reflexivity|].
  apply bind_Some in Hrun. destruct Hrun as ([ds2 e2] & t8 & t9 & _ & Hrun & _).
  destruct e2 as [e2|]; [apply ret_Some in Hrun; destruct Hrun as [[= -> ->] _]; reflexivity|].
  apply bind_Some in Hrun. destruct Hrun as (ds3 & t10 & t11 & _ & Hrun & _).
  apply ret_Some in Hrun. destruct Hrun as [[= -> ->] _]. eauto.
Qed.

(** C3. Every run of [getBulkMinipoolDetails] that returns no error returns
    a slice as long as the address list, and its record at each index i has
    the address [addresses[i]] and the version [versions[i]]. *)
Theorem getBulkMinipoolDetails_index_aligned (rp : RocketPool)
    (contracts : NetworkContracts) (addresses : list Address) (versions : list uint8)
    (opts : CallOpts) (r : option (list NativeMinipoolDetails)) (t : Trace) :
  getBulkMinipoolDetails rp contracts addresses versions opts = Some ((r, None), t) ->
  exists result,
    r = Some result /\
    length result = length addresses /\
    forall i, (i < length addresses)%nat ->
      exists d, result !! i = Some d /\
                addresses !! i = Some (MinipoolAddress d) /\
                versions !! i = Some (Version d).
Proof.
  intros Hrun.
  destruct (getBulkMinipoolDetails_result _ _ _ _ _ _ _ _ Hrun) as [ds ->].
  destruct (getBulkMinipoolDetails_records _ _ _ _ _ _ _ Hrun)
    as (Hlen & ds0 & t0 & ds1 & t1 & _ & _ & Hrec).
  exists ds. split; [reflexivity|]. split; [exact Hlen|].
  intros i Hi. destruct (Hrec i Hi) as (d1 & d & _ & Hd & Ha & Hv & _).
  exists d. auto.
Qed.

Lemma getBulkMinipoolDetails_index_aligned_witness :
  exists result t,
    getBulkMinipoolDetails Demo.rp (Demo.contracts (Demo.client 2))
      [2; 3; 4]%N [3; 1; 3] Demo.opts = Some ((Some result, None), t) /\
    length result = 3%nat /\
    forall i, (i < 3)%nat ->
      exists d, result !! i = Some d /\
                [2; 3; 4]%N !! i = Some (MinipoolAddress d) /\
                [3; 1; 3] !! i = Some (Version d).
Proof.
  destruct (getBulkMinipoolDetails Demo.rp (Demo.contracts (Demo.client 2))
              [2; 3; 4]%N [3; 1; 3] Demo.opts) as [[[r [e|]] t]|] eqn:Hrun;
    try (exfalso;
         assert (Hsome : match getBulkMinipoolDetails Demo.rp
                                 (Demo.contracts (Demo.client 2)) [2; 3; 4]%N
                                 [3; 1; 3] Demo.opts with
                         | Some ((_, None), _) => true
                         | _ => false
                         end = true) by (vm_compute; reflexivity);
         rewrite Hrun in Hsome; discriminate Hsome).
  destruct (getBulkMinipoolDetails_index_aligned _ _ _ _ _ _ _ Hrun)
    as (result & -> & Hlen & Hrec).
  exists result, t. split; [reflexivity|]. split; [exact Hlen|exact Hrec].
Defined.




(** ** All or nothing *)

Lemma firstError_lookup errs k e :
  errs !! k = Some (Some e) -> exists e', firstError errs = Some e'.
Proof.
  revert k. induction errs as [|[e0|] errs IH]; intros k Hk.
  - discriminate Hk.
  - simpl. eauto.
  - destruct k as [|k]; [discriminate Hk|]. simpl in *. eauto.
Qed.

(* An error of the entry point always comes with a nil slice. *)
Lemma GetAllNativeMinipoolDetails_error_nil rp contracts r e t :
  GetAllNativeMinipoolDetails rp contracts = Some ((r, Some e), t) -> r = None.
Proof.
  intros Hrun. unfold GetAllNativeMinipoolDetails in Hrun.
  apply bind_Some in Hrun. destruct Hrun as ([addresses ea] & t0 & t1 & _ & Hrun & _).
  destruct ea as [ea|]; [apply ret_Some in Hrun; destruct Hrun as [[= -> _] _]; reflexivity|].
  apply bind_Some in Hrun. destruct Hrun as ([vs ev] & t2 & t3 & _ & Hrun & _).
  destruct ev as [ev|]; [apply ret_Some in Hrun; destruct Hrun as [[= -> _] _]; reflexivity|].
  exact (getBulkMinipoolDetails_result _ _ _ _ _ _ _ _ Hrun).
Qed.

(** C2. (1) A round-1 goroutine whose strict FlexibleCall returns an error
    returns that error, wrapped. (2) If any goroutine of round 1 returns an
    error, [getBulkMinipoolDetails] returns an error and a nil slice: round 2
    and the fixups are not run and no record is returned. (3) Whenever
    [getBulkMinipoolDetails] returns an error the slice is nil, and
    [GetAllNativeMinipoolDetails] returns what [getBulkMinipoolDetails]
    returns once addresses and versions are resolved; so it, too, never
    returns an error together with records. *)
Theorem round1_failure_returns_no_record (rp : RocketPool)
    (contracts : NetworkContracts) (addresses : list Address) (versions : list uint8)
    (opts : CallOpts) :
  (forall i max ds mc ds1 tq rs e ds2 tc,
     eth_bind (Client rp) (Multicaller_ContractAddress contracts) = None ->
     queueDetailsCalls rp contracts addresses versions opts i max
       ({| mc_client := Client rp;
           mc_address := Multicaller_ContractAddress contracts;
           mc_calls := [] |}, ds) = Some ((mc, ds1), tq) ->
     FlexibleCall mc true opts ds1 = Some ((rs, Some e, ds2), tc) ->
     detailsChunk rp contracts addresses versions opts i max ds =
       Some ((ds2, Some (ErrWrap "error executing multicall" e)), tq ++ tc)) /\
  (forall ds0 t0 ds1 errs t1 k e,
     snd (balancesAt (BalanceBatcher_ contracts) (BlockNumber_ opts) addresses) = None ->
     loadBalances
       (fst (balancesAt (BalanceBatcher_ contracts) (BlockNumber_ opts) addresses))
       (replicate (length addresses) emptyDetails) = Some (ds0, t0) ->
     errgroupGo (round1Tasks rp contracts addresses versions opts) ds0
       = Some ((ds1, errs), t1) ->
     errs !! k = Some (Some e) ->
     exists e' t,
       getBulkMinipoolDetails rp contracts addresses versions opts =
         Some ((None, Some (ErrWrap "error getting minipool details r1" e')), t)) /\
  (forall r e t,
     getBulkMinipoolDetails rp contracts addresses versions opts = Some ((r, Some e), t) ->
     r = None) /\
  (forall resolved ta vs tv r e tb,
     let opts0 := {| BlockNumber_ := ElBlockNumber contracts |} in
     getAllMinipoolAddressesFast rp contracts opts0 = Some ((resolved, None), ta) ->
     getMinipoolVersionsFast rp contracts (default [] resolved) opts0
       = Some ((vs, None), tv) ->
     getBulkMinipoolDetails rp contracts (default [] resolved) (default [] vs) opts0
       = Some ((r, Some e), tb) ->
     GetAllNativeMinipoolDetails rp contracts
       = Some ((None, Some e), ta ++ tv ++ tb)) /\
  (forall r e t,
     GetAllNativeMinipoolDetails rp contracts = Some ((r, Some e), t) -> r = None).
Proof.
  split; [|split; [|split; [|split]]].
  - intros i max ds mc ds1 tq rs e ds2 tc Hbind Hq Hcall.
    unfold detailsChunk, NewMultiCaller. rewrite Hbind.
    rewrite (bind_run _ _ _ _ Hq). simpl.
    rewrite (bind_run _ _ _ _ Hcall). simpl.
    rewrite app_nil_r. reflexivity.
  - intros ds0 t0 ds1 errs t1 k e Hbal Hload Hgo Hk.
    destruct (firstError_lookup _ _ _ Hk) as [e' He'].
    exists e'. unfold getBulkMinipoolDetails.
    destruct (GetEthBalances_run (BalanceBatcher_ contracts) addresses opts)
      as (tbal & Hget & _).
    rewrite (bind_run _ _ _ _ Hget).
    destruct (balancesAt (BalanceBatcher_ contracts) (BlockNumber_ opts) addresses)
      as [balances eb] eqn:Hb.
    simpl in Hbal, Hload. subst eb. cbv beta iota.
    rewrite (bind_run _ _ _ _ Hload).
    unfold detailsRound1, errgroupWait.
    rewrite (bind_run _ _ _ _ Hgo). simpl. rewrite He'. simpl.
    eexists. reflexivity.
  - intros r e t Hrun.
    exact (getBulkMinipoolDetails_result _ _ _ _ _ _ _ _ Hrun).
  - intros resolved ta vs tv r e tb opts0 Ha Hv Hb.
    pose proof (getBulkMinipoolDetails_result _ _ _ _ _ _ _ _ Hb) as Hr.
    simpl in Hr. subst r.
    unfold GetAllNativeMinipoolDetails. fold opts0.
    rewrite (bind_run _ _ _ _ Ha). cbv beta iota.
    rewrite (bind_run _ _ _ _ Hv). cbv beta iota.
    rewrite Hb. reflexivity.
  - intros r e t. apply GetAllNativeMinipoolDetails_error_nil.
Qed.

Lemma round1_failure_returns_no_record_witness :
  let rp := Demo.rocketPool (Demo.failingClient 2 "getStatus") in
  let contracts := Demo.contracts (Demo.failingClient 2 "getStatus") in
  exists e t,
    getBulkMinipoolDetails rp contracts [2; 3; 4]%N [3; 1; 3] Demo.opts =
      Some ((None, Some (ErrWrap "error getting minipool details r1" e)), t).
Proof.
  intros rp contracts.
  destruct (round1_failure_returns_no_record rp contracts [2; 3; 4]%N [3; 1; 3] Demo.opts)
    as (_ & Hfail & _ & _ & _).
  eapply (Hfail _ _ _ _ _ 0%nat).
  - reflexivity.
  - vm_compute. reflexivity.
  - vm_compute. reflexivity.
  - reflexivity.
Defined.

(** ** Version resolution *)

(* The value the version probe of [a] decodes to, when it succeeds. *)
Definition probedVersion (rp : RocketPool) (opts : CallOpts) (a : Address)
  : option uint8 :=
  match GetRocketVersionContractForAddress rp a with
  | inr contract =>
      match eth_call (Client rp) (BlockNumber_ opts)
              {| cd_target := contract; cd_method := "version"; cd_args := [] |} with
      | Some (VUint8 n) => if (0 <=? n) && (n <? 256) then Some n else None
      | _ => None
      end
  | inl _ => None
  end.

(* A probe that fails means version 1. *)
Definition resolvedVersion (rp : RocketPool) (opts : CallOpts) (a : Address) : uint8 :=
  default 1 (probedVersion rp opts a).

Section ChunkedTotal.
Context {V : Type} (target : nat -> option V).
Context (task : nat -> nat -> list V -> Net (list V * option Error)).
Context (size count : nat).

(* On a slice of [count] entries, a goroutine for [i, max) succeeds and sets
   the entries of its range to their targets. *)
Hypothesis task_run : forall i max vs,
  (i < max <= count)%nat -> length vs = count ->
  exists vs' t,
    task i max vs = Some ((vs', None), t) /\
    length vs' = count /\
    forall x, vs' !! x = if (i <=? x)%nat && (x <? max)%nat then target x else vs !! x.

Lemma errgroupGo_batchLoop_run (fuel i : nat) (vs : list V) :
  (0 < size)%nat -> (count <= i + fuel * size)%nat -> length vs = count ->
  exists vs' errs t,
    errgroupGo (map (fun b => task (fst b) (snd b)) (batchLoop fuel size count i)) vs
      = Some ((vs', errs), t) /\
    firstError errs = None /\
    length vs' = count /\
    forall x, vs' !! x = if (i <=? x)%nat && (x <? count)%nat then target x else vs !! x.
Proof using task_run.
  intros Hsize. revert i vs.
  induction fuel as [|fuel IH]; intros i vs Hfuel Hlen; simpl.
  - exists vs, [], []. split; [reflexivity|]. split; [reflexivity|].
    split; [exact Hlen|]. intros x.
    destruct (Nat.leb_spec i x), (Nat.ltb_spec x count); simpl; try reflexivity; lia.
  - destruct (Nat.ltb_spec i count) as [Hi|Hi]; simpl.
    + destruct (task_run i (Nat.min (i + size) count) vs ltac:(lia) Hlen)
        as (vs1 & t1 & Htask & Hlen1 & Hvs1).
      assert (Hfuel' : (count <= i + size + fuel * size)%nat) by lia.
      destruct (IH (i + size)%nat vs1 Hfuel' Hlen1)
        as (vs2 & errs & t2 & Hrest & Herrs & Hlen2 & Hvs2).
      exists vs2, (None :: errs), (t1 ++ t2 ++ []).
      rewrite Htask. simpl. rewrite Hrest. simpl.
      split; [reflexivity|]. split; [exact Herrs|]. split; [exact Hlen2|].
      intros x. rewrite Hvs2, Hvs1.
      destruct (Nat.leb_spec (i + size) x), (Nat.ltb_spec x count),
        (Nat.leb_spec i x), (Nat.ltb_spec x (Nat.min (i + size) count));
        simpl; try reflexivity; lia.
    + exists vs, [], []. split; [reflexivity|]. split; [reflexivity|].
      split; [exact Hlen|]. intros x.
      destruct (Nat.leb_spec i x), (Nat.ltb_spec x count); simpl; try reflexivity; lia.
Qed.

End ChunkedTotal.

Section VersionsChunk.
Context (rp : RocketPool) (contracts : NetworkContracts).
Context (addresses : list Address) (opts : CallOpts).

Hypothesis bind_ok :
  eth_bind (Client rp) (Multicaller_ContractAddress contracts) = None.
Hypothesis contract_ok : forall a, In a addresses ->
  exists c, GetRocketVersionContractForAddress rp a = inr c.
Hypothesis transport_ok : forall calls,
  eth_transport (Client rp) (BlockNumber_ opts) calls = None.

(* The probe queued for index [j], and the value it resolves to. *)
Definition probeCall (j : nat) (a : Address) (c : Contract) : Call nat :=
  {| call_desc := {| cd_target := c; cd_method := "version"; cd_args := [] |};
     call_output := j |}.

Definition probedAt (j : nat) : option uint8 :=
  match addresses !! j with
  | Some a => probedVersion rp opts a
  | None => None
  end.

(* The calls queued for the indices [js]. *)
Fixpoint probeCalls (js : list nat) : list (Call nat) :=
  match js with
  | [] => []
  | j :: rest =>
      match addresses !! j with
      | Some a =>
          match GetRocketVersionContractForAddress rp a with
          | inr c => probeCall j a c :: probeCalls rest
          | inl _ => probeCalls rest
          end
      | None => probeCalls rest
      end
  end.

Lemma queue_probes_run (js : list nat) (mc : MultiCaller nat) :
  Forall (fun j => (j < length addresses)%nat) js ->
  forEachErr js
    (fun j mc =>
       let* address := index addresses j in
       match GetRocketVersionContractForAddress rp address with
       | inl err =>
           ret (mc, Some (ErrWrapAt "error creating version contract for minipool"
                            address err))
       | inr contract => ret (AddCall mc contract j "version" [], None)
       end) mc =
  Some (({| mc_client := mc_client mc; mc_address := mc_address mc;
            mc_calls := mc_calls mc ++ probeCalls js |}, None), []).
Proof using contract_ok.
  intros Hjs. revert mc. induction Hjs as [|j js Hj _ IH]; intros mc; simpl.
  - rewrite app_nil_r. destruct mc. reflexivity.
  - apply lookup_lt_is_Some in Hj. destruct Hj as [a Ha].
    unfold index. rewrite Ha. simpl.
    destruct (contract_ok a) as [c Hc].
    { apply list_elem_of_In. eapply list_elem_of_lookup_2. exact Ha. }
    rewrite Hc. simpl. rewrite IH. simpl.
    rewrite <- app_assoc. reflexivity.
Qed.

Lemma execCalls_probes (js : list nat) (vs : list uint8) :
  Forall (fun j => (j < length addresses)%nat) js ->
  length vs = length addresses ->
  exists vs',
    execCalls (Client rp) (BlockNumber_ opts) (probeCalls js) vs =
      (map (fun j => {| Success := bool_decide (is_Some (probedAt j)) |}) js, vs') /\
    length vs' = length vs /\
    (forall x, ~ In x js -> vs' !! x = vs !! x) /\
    (forall x, In x js ->
       vs' !! x = match probedAt x with Some n => Some n | None => vs !! x end).
Proof using contract_ok.
  intros Hjs. revert vs. induction Hjs as [|j js Hj _ IH]; intros vs Hlen; simpl.
  - exists vs. split; [reflexivity|]. split; [reflexivity|].
    split; [reflexivity|]. intros x [].
  - pose proof Hj as Hj'. apply lookup_lt_is_Some in Hj'. destruct Hj' as [a Ha].
    rewrite Ha. destruct (contract_ok a) as [c Hc].
    { apply list_elem_of_In. eapply list_elem_of_lookup_2. exact Ha. }
    rewrite Hc. simpl.
    assert (Hhead : exists vs1,
              match eth_call (Client rp) (BlockNumber_ opts)
                      {| cd_target := c; cd_method := "version"; cd_args := [] |} with
              | Some v => match unpack j v vs with
                          | Some s' => (true, s')
                          | None => (false, vs)
                          end
              | None => (false, vs)
              end = (bool_decide (is_Some (probedAt j)), vs1) /\
              length vs1 = length vs /\
              (forall x, x <> j -> vs1 !! x = vs !! x) /\
              vs1 !! j = match probedAt j with Some n => Some n | None => vs !! j end).
    { unfold probedAt, probedVersion. rewrite Ha, Hc.
      unfold unpack, versions_output.
      destruct (eth_call (Client rp) (BlockNumber_ opts) _) as [[b|n|p|a'|p|h|s|t']|];
        try (exists vs; simpl; auto; fail).
      destruct ((0 <=? n) && (n <? 256)) eqn:Hrange; simpl;
        [|exists vs; simpl; auto].
      assert (Hlt : (j <? length vs)%nat = true) by (apply Nat.ltb_lt; lia).
      rewrite Hlt. exists (<[j := n]> vs).
      split; [reflexivity|]. split; [apply length_insert|]. split.
      - intros x Hx. apply list_lookup_insert_ne. auto.
      - apply list_lookup_insert_eq. lia. }
    destruct Hhead as (vs1 & -> & Hlen1 & Hout1 & Hin1).
    destruct (IH vs1 ltac:(congruence)) as (vs2 & -> & Hlen2 & Hout2 & Hin2).
    exists vs2. split; [reflexivity|]. split; [congruence|]. split.
    + intros x Hx. rewrite Hout2 by tauto. apply Hout1. intros ->. tauto.
    + intros x Hx. destruct (in_dec Nat.eq_dec x js) as [Hxjs|Hxjs].
      * rewrite Hin2 by exact Hxjs.
        destruct (probedAt x) as [n|] eqn:Hp; [reflexivity|].
        destruct (Nat.eq_dec x j) as [->|Hne]; [|apply Hout1; exact Hne].
        rewrite Hin1, Hp. reflexivity.
      * destruct Hx as [<-|Hx]; [|contradiction].
        rewrite Hout2 by exact Hxjs. exact Hin1.
Qed.


(* for j, result := range results { if !result.Success { versions[j+i] = 1 } } *)
Lemma mark_failed_run (i : nat) (rs : list CallResponse) (off : nat) (vs : list uint8) :
  (off + length rs + i <= length vs)%nat ->
  exists vs',
    forEach (imap (fun k r => ((off + k)%nat, r)) rs)
      (fun jr versions =>
         if negb (Success (snd jr)) then setIndex versions (fst jr + i) 1
         else ret versions) vs = Some (vs', []) /\
    length vs' = length vs /\
    forall x,
      vs' !! x =
        match (if (off + i <=? x)%nat then rs !! (x - (off + i))%nat else None) with
        | Some r => if Success r then vs !! x else Some 1
        | None => vs !! x
        end.
Proof.
  unfold uint8 in *.
  revert off vs. induction rs as [|r rs IH]; intros off vs Hlen; simpl in *.
  - exists vs. split; [reflexivity|]. split; [reflexivity|].
    intros x. destruct (off + i <=? x)%nat; reflexivity.
  - assert (Hshift : imap ((fun (k : nat) (r0 : CallResponse) => ((off + k)%nat, r0)) ∘ S) rs
                     = imap (fun k r0 => ((S off + k)%nat, r0)) rs).
    { apply imap_ext. intros k r0 _. simpl. f_equal. lia. }
    rewrite Hshift. rewrite Nat.add_0_r.
    assert (Hstep : exists vs1,
              (if negb (Success r) then setIndex vs (off + i) 1 else ret vs)
                = Some (vs1, []) /\
              length vs1 = length vs /\
              (forall x, x <> (off + i)%nat -> vs1 !! x = vs !! x) /\
              vs1 !! (off + i)%nat = if Success r then vs !! (off + i)%nat else Some 1).
    { destruct (Success r); simpl.
      - exists vs. auto.
      - unfold setIndex.
        assert (Hlt : (off + i <? length vs)%nat = true) by (apply Nat.ltb_lt; lia).
        rewrite Hlt. exists (<[(off + i)%nat := 1]> vs).
        split; [reflexivity|]. split; [apply length_insert|]. split.
        + intros x Hx. apply list_lookup_insert_ne. auto.
        + apply list_lookup_insert_eq. apply Nat.ltb_lt. exact Hlt. }
    destruct Hstep as (vs1 & Hrun1 & Hlen1 & Hout1 & Hin1).
    destruct (IH (S off) vs1 ltac:(lia)) as (vs2 & Hrun2 & Hlen2 & Hvs2).
    exists vs2. rewrite (bind_run _ _ _ _ Hrun1), Hrun2. simpl.
    split; [reflexivity|]. split; [congruence|].
    intros x. rewrite Hvs2.
    destruct (Nat.leb_spec (S off + i) x) as [Hx|Hx].
    + destruct (Nat.leb_spec (off + i) x); [|lia].
      replace (x - (off + i))%nat with (S (x - (S off + i))) by lia. simpl.
      rewrite Hout1 by lia. reflexivity.
    + destruct (Nat.leb_spec (off + i) x) as [Hx'|Hx'].
      * assert (x = (off + i)%nat) by lia. subst x.
        rewrite Nat.sub_diag. simpl. exact Hin1.
      * apply Hout1. lia.
Qed.

Lemma FlexibleCall_lenient_run {L S} `{Output L S} (mc : MultiCaller L)
    (o : CallOpts) (s s' : S) rs :
  eth_transport (mc_client mc) (BlockNumber_ o) (map call_desc (mc_calls mc)) = None ->
  execCalls (mc_client mc) (BlockNumber_ o) (mc_calls mc) s = (rs, s') ->
  FlexibleCall mc false o s =
    Some ((rs, None, s'),
          [{| rt_block := BlockNumber_ o;
              rt_request := ReqMulticall false (map call_desc (mc_calls mc)) |}]).
Proof.
  intros Ht He. unfold FlexibleCall. simpl. rewrite Ht, He. reflexivity.
Qed.

Lemma versionsChunk_run (i max : nat) (vs : list uint8) :
  (i < max <= length addresses)%nat -> length vs = length addresses ->
  exists vs' t,
    versionsChunk rp contracts addresses opts i max vs = Some ((vs', None), t) /\
    length vs' = length addresses /\
    forall x, vs' !! x =
      if (i <=? x)%nat && (x <? max)%nat
      then resolvedVersion rp opts <$> addresses !! x
      else vs !! x.
Proof using bind_ok contract_ok transport_ok.
  intros Hi Hlen. unfold versionsChunk, NewMultiCaller. rewrite bind_ok.
  assert (Hjs : Forall (fun j => (j < length addresses)%nat) (seq i (max - i))).
  { apply List.Forall_forall. intros j Hj. apply in_seq in Hj. lia. }
  rewrite (bind_run _ _ _ _ (queue_probes_run _ _ Hjs)). cbv beta iota.
  destruct (execCalls_probes _ vs Hjs Hlen) as (vs1 & Hexec & Hlen1 & Hout1 & Hin1).
  set (results := map (fun j => {| Success := bool_decide (is_Some (probedAt j)) |})
                      (seq i (max - i))) in *.
  assert (Hrs : length results = (max - i)%nat).
  { unfold results. rewrite length_map, length_seq. reflexivity. }
  assert (Hfit : (0 + length results + i <= length vs1)%nat)
    by (rewrite Hrs, Hlen1, Hlen; lia).
  destruct (mark_failed_run i results 0 vs1 Hfit) as (vs2 & Hmark & Hlen2 & Hvs2).
  pose proof (FlexibleCall_lenient_run
                {| mc_client := Client rp;
                   mc_address := Multicaller_ContractAddress contracts;
                   mc_calls := [] ++ probeCalls (seq i (max - i)) |}
                opts vs vs1 results (transport_ok _) Hexec) as Hcall.
  rewrite (bind_run _ _ _ _ Hcall). cbv beta iota.
  rewrite (bind_run _ _ _ _ Hmark). cbv beta iota.
  do 2 eexists. split; [reflexivity|].
  split; [unfold uint8 in *; congruence|].
  intros x. rewrite Hvs2. simpl.
  destruct (Nat.leb_spec i x) as [Hix|Hix]; simpl.
  - destruct (Nat.ltb_spec x max) as [Hxm|Hxm].
    + assert (Hr : results !! (x - i)%nat
                   = Some {| Success := bool_decide (is_Some (probedAt x)) |}).
      { unfold results. rewrite list_lookup_fmap, lookup_seq_lt by lia.
        simpl. replace (i + (x - i))%nat with x by lia. reflexivity. }
      rewrite Hr. simpl.
      assert (Hx : In x (seq i (max - i))) by (apply in_seq; lia).
      pose proof (Hin1 x Hx) as Hvx. unfold uint8 in *. rewrite Hvx.
      unfold resolvedVersion, probedAt.
      destruct (addresses !! x) as [a|] eqn:Ha.
      * simpl. destruct (probedVersion rp opts a) as [n|]; reflexivity.
      * apply lookup_ge_None in Ha. lia.
    + rewrite (lookup_ge_None_2 results) by lia.
      apply Hout1. rewrite in_seq. lia.
  - apply Hout1. rewrite in_seq. lia.
Qed.

End VersionsChunk.

(** C4. When the multicaller binds, the version contract of every address
    is created and no round trip fails as a whole, [getMinipoolVersionsFast]
    returns no error and the versions [map resolvedVersion addresses]: the
    probed value where the probe succeeds and 1 at every index whose probe
    fails. Per-call failures never make the resolution fail. *)
Theorem getMinipoolVersionsFast_failed_probe_is_v1 (rp : RocketPool)
    (contracts : NetworkContracts) (addresses : list Address) (opts : CallOpts) :
  eth_bind (Client rp) (Multicaller_ContractAddress contracts) = None ->
  (forall a, In a addresses -> exists c, GetRocketVersionContractForAddress rp a = inr c) ->
  (forall calls, eth_transport (Client rp) (BlockNumber_ opts) calls = None) ->
  exists t,
    getMinipoolVersionsFast rp contracts addresses opts =
      Some ((Some (map (resolvedVersion rp opts) addresses), None), t) /\
    forall j a, addresses !! j = Some a -> probedVersion rp opts a = None ->
      map (resolvedVersion rp opts) addresses !! j = Some 1.
Proof.
  intros Hbind Hcontract Htransport.
  assert (Hsize : (0 < minipoolVersionBatchSize)%nat)
    by (unfold minipoolVersionBatchSize; lia).
  assert (Hfuel : (length addresses
                   <= 0 + length addresses * minipoolVersionBatchSize)%nat) by nia.
  destruct (errgroupGo_batchLoop_run
              (fun x => resolvedVersion rp opts <$> addresses !! x)
              (versionsChunk rp contracts addresses opts)
              minipoolVersionBatchSize (length addresses)
              (versionsChunk_run rp contracts addresses opts Hbind Hcontract Htransport)
              (length addresses) 0 (replicate (length addresses) 0)
              Hsize Hfuel (length_replicate _ _))
    as (vs & errs & t & Hgo & Herrs & Hlen & Hvs).
  assert (Heq : vs = map (resolvedVersion rp opts) addresses).
  { apply list_eq. intros x. rewrite Hvs. simpl.
    change (map (resolvedVersion rp opts) addresses)
      with (resolvedVersion rp opts <$> addresses).
    rewrite list_lookup_fmap.
    destruct (Nat.ltb_spec x (length addresses)) as [Hx|Hx]; [reflexivity|].
    rewrite (proj1 (lookup_replicate_None _ _ _) Hx).
    rewrite (lookup_ge_None_2 addresses) by lia. reflexivity. }
  subst vs. eexists. split.
  - unfold getMinipoolVersionsFast, errgroupWait, batches.
    rewrite (bind_run _ _ _ _ Hgo). simpl. rewrite Herrs. reflexivity.
  - intros j a Ha Hprobe.
    change (map (resolvedVersion rp opts) addresses)
      with (resolvedVersion rp opts <$> addresses).
    rewrite list_lookup_fmap, Ha. simpl. unfold resolvedVersion.
    rewrite Hprobe. reflexivity.
Qed.

Lemma getMinipoolVersionsFast_failed_probe_is_v1_witness :
  exists t,
    getMinipoolVersionsFast Demo.rp (Demo.contracts (Demo.client 2)) [2; 3; 4]%N Demo.opts
      = Some ((Some [3; 1; 3], None), t) /\
    probedVersion Demo.rp Demo.opts 3%N = None.
Proof.
  destruct (getMinipoolVersionsFast_failed_probe_is_v1
              Demo.rp (Demo.contracts (Demo.client 2)) [2; 3; 4]%N Demo.opts)
    as (t & Hrun & _).
  - reflexivity.
  - intros a _. eexists. reflexivity.
  - intros calls. reflexivity.
  - exists t. split; [exact Hrun|reflexivity].
Defined.

(** ** How many batches a phase issues *)

Definition silent (t : Trace) : Prop := t = [].

Lemma silent_nil : silent [].
Proof. reflexivity. Qed.

Lemma silent_app t1 t2 : silent t1 -> silent t2 -> silent (t1 ++ t2).
Proof. unfold silent. intros -> ->. reflexivity. Qed.

Lemma queueDetailsCalls_silent rp contracts addresses versions opts i max st :
  emits silent (queueDetailsCalls rp contracts addresses versions opts i max st).
Proof.
  unfold queueDetailsCalls, queueDetailsStep.
  emits_auto silent_nil silent_app.
Qed.

Lemma FlexibleCall_trace {L S} `{Output L S} (mc : MultiCaller L) strict opts (s : S) r t :
  FlexibleCall mc strict opts s = Some (r, t) ->
  t = [{| rt_block := BlockNumber_ opts;
          rt_request := ReqMulticall strict (map call_desc (mc_calls mc)) |}].
Proof.
  unfold FlexibleCall. intros Hrun.
  apply bind_Some in Hrun. destruct Hrun as (u & t1 & t2 & Hrt & Hrun & ->).
  injection Hrt as _ <-.
  assert (Ht2 : silent t2).
  { revert Hrun. generalize r t2. change (emits silent
      (match eth_transport (mc_client mc) (BlockNumber_ opts)
               (map call_desc (mc_calls mc)) with
       | Some err => ret ([], Some err, s)
       | None =>
           let '(results, s') :=
             execCalls (mc_client mc) (BlockNumber_ opts) (mc_calls mc) s in
           if strict && negb (forallb Success results)
           then ret ([], Some (ErrMsg "multicall: a call failed"), s)
           else ret (results, None, s')
       end)).
    emits_auto silent_nil silent_app. }
  rewrite Ht2. reflexivity.
Qed.

Lemma detailsChunk_round_trip rp contracts addresses versions opts i max ds r t :
  eth_bind (Client rp) (Multicaller_ContractAddress contracts) = None ->
  detailsChunk rp contracts addresses versions opts i max ds = Some (r, t) ->
  exists rt, t = [rt] /\ isStrictMulticallAt (BlockNumber_ opts) rt.
Proof.
  intros Hbind. unfold detailsChunk, NewMultiCaller. rewrite Hbind. intros Hrun.
  apply bind_Some in Hrun. destruct Hrun as ([mc1 ds1] & t1 & t2 & Hq & Hrun & ->).
  apply bind_Some in Hrun. destruct Hrun as ([[rs err] ds2] & t3 & t4 & Hcall & Hrun & ->).
  apply ret_Some in Hrun. destruct Hrun as [_ ->].
  apply queueDetailsCalls_silent in Hq. rewrite Hq.
  apply FlexibleCall_trace in Hcall. rewrite Hcall.
  eexists. split; [reflexivity|]. split; [reflexivity|]. eexists. reflexivity.
Qed.

Lemma addressesChunk_round_trip rp contracts opts i max s r t :
  eth_bind (Client rp) (Multicaller_ContractAddress contracts) = None ->
  addressesChunk rp contracts opts i max s = Some (r, t) ->
  exists rt, t = [rt] /\ isStrictMulticallAt (BlockNumber_ opts) rt.
Proof.
  intros Hbind. unfold addressesChunk, NewMultiCaller. rewrite Hbind. intros Hrun.
  apply bind_Some in Hrun. destruct Hrun as ([[rs err] s2] & t3 & t4 & Hcall & Hrun & ->).
  apply ret_Some in Hrun. destruct Hrun as [_ ->].
  apply FlexibleCall_trace in Hcall. rewrite Hcall.
  eexists. split; [reflexivity|]. split; [reflexivity|]. eexists. reflexivity.
Qed.

Lemma errgroupGo_one_each {S} (Q : RoundTrip -> Prop)
    (tasks : list (S -> Net (S * option Error))) (s : S) r t :
  Forall (fun task => forall s r t, task s = Some (r, t) -> exists rt, t = [rt] /\ Q rt)
         tasks ->
  errgroupGo tasks s = Some (r, t) ->
  length t = length tasks /\ Forall Q t.
Proof.
  intros Htasks. revert s r t.
  induction Htasks as [|task rest Htask _ IH]; intros s r t Hrun; simpl in Hrun.
  - apply ret_Some in Hrun. destruct Hrun as [_ ->]. split; [reflexivity|constructor].
  - apply bind_Some in Hrun. destruct Hrun as ([s1 e1] & t1 & t2 & Hhead & Hrun & ->).
    apply bind_Some in Hrun. destruct Hrun as ([s2 es] & t3 & t4 & Hrest & Hrun & ->).
    apply ret_Some in Hrun. destruct Hrun as [_ ->].
    destruct (Htask _ _ _ Hhead) as (rt & -> & HQ).
    destruct (IH _ _ _ Hrest) as (Hlen & HF).
    rewrite app_nil_r. simpl. split; [congruence|]. constructor; assumption.
Qed.

Lemma errgroupWait_one_each {S} (Q : RoundTrip -> Prop)
    (tasks : list (S -> Net (S * option Error))) (s : S) r t :
  Forall (fun task => forall s r t, task s = Some (r, t) -> exists rt, t = [rt] /\ Q rt)
         tasks ->
  errgroupWait tasks s = Some (r, t) ->
  length t = length tasks /\ Forall Q t.
Proof.
  intros Htasks Hrun. unfold errgroupWait in Hrun.
  apply bind_Some in Hrun. destruct Hrun as ([s1 errs] & t1 & t2 & Hgo & Hrun & ->).
  apply ret_Some in Hrun. destruct Hrun as [_ ->]. rewrite app_nil_r.
  eapply errgroupGo_one_each; eassumption.
Qed.

(** X21. The chunk loop is a function of the count and the batch size:
    chunk k is [k*size, min((k+1)*size, count)), there are ceil(count/size)
    chunks, every index below the count lies in chunk index/size and in no
    other. Round 1 of the bulk fetch uses a batch size of 100: for 250
    addresses it starts the goroutines of [0,100), [100,200) and [200,250),
    issues exactly 3 strict batches when the multicaller binds, and each
    goroutine writes only records of its own range. *)
Theorem chunk_assignment :
  (forall size count k, (0 < size)%nat ->
     batches size count !! k =
       if (k * size <? count)%nat
       then Some (k * size, Nat.min ((k + 1) * size) count)%nat
       else None) /\
  (forall size count, (0 < size)%nat ->
     length (batches size count) = ((count + size - 1) / size)%nat) /\
  (forall size count j, (0 < size)%nat -> (j < count)%nat ->
     exists lo hi,
       batches size count !! (j / size)%nat = Some (lo, hi) /\ (lo <= j < hi)%nat) /\
  (forall size count j k lo hi, (0 < size)%nat -> (j < count)%nat ->
     batches size count !! k = Some (lo, hi) -> (lo <= j < hi)%nat ->
     k = (j / size)%nat) /\
  (forall rp contracts addresses versions opts,
     length addresses = 250%nat ->
     round1Tasks rp contracts addresses versions opts =
       [detailsChunk rp contracts addresses versions opts 0 100;
        detailsChunk rp contracts addresses versions opts 100 200;
        detailsChunk rp contracts addresses versions opts 200 250]) /\
  (forall rp contracts addresses versions opts ds r t,
     length addresses = 250%nat ->
     eth_bind (Client rp) (Multicaller_ContractAddress contracts) = None ->
     detailsRound1 rp contracts addresses versions opts ds = Some (r, t) ->
     length t = 3%nat /\ Forall (isStrictMulticallAt (BlockNumber_ opts)) t) /\
  (forall rp contracts addresses versions opts i max ds ds' e t j,
     detailsChunk rp contracts addresses versions opts i max ds = Some ((ds', e), t) ->
     ~ (i <= j < max)%nat -> ds' !! j = ds !! j).
Proof.
  split; [intros; apply batches_lookup; assumption|].
  split; [intros; apply batches_length; assumption|].
  split; [intros; apply batches_cover; assumption|].
  split.
  { intros size count j k lo hi Hsize Hj Hk Hin.
    eapply batches_owner; eassumption. }
  split.
  { intros rp contracts addresses versions opts Hlen.
    unfold round1Tasks. rewrite Hlen. reflexivity. }
  split.
  { intros rp contracts addresses versions opts ds r t Hlen Hbind Hrun.
    unfold detailsRound1, round1Tasks in Hrun. rewrite Hlen in Hrun.
    eapply errgroupWait_one_each in Hrun; [exact Hrun|].
    apply List.Forall_forall. intros task Hin. apply in_map_iff in Hin.
    destruct Hin as ([i max] & <- & _). simpl.
    intros s r0 t0. apply detailsChunk_round_trip. exact Hbind. }
  intros rp contracts addresses versions opts i max ds ds' e t j Hrun Hj.
  destruct (detailsChunk_spec _ _ _ _ _ _ _ _ _ _ _ Hrun) as (_ & Hout & _).
  apply Hout. exact Hj.
Qed.

Lemma chunk_assignment_witness :
  batches 100 250 !! 2%nat = Some (200, 250)%nat /\
  length (batches 100 250) = 3%nat /\
  (exists lo hi, batches 100 250 !! (137 / 100)%nat = Some (lo, hi) /\
                 (lo <= 137 < hi)%nat) /\
  (exists r t,
     detailsRound1 Demo.rp (Demo.contracts (Demo.client 2))
       (map N.of_nat (seq 0 250)) (replicate 250 1) Demo.opts
       (replicate 250 emptyDetails) = Some (r, t) /\ length t = 3%nat).
Proof.
  destruct chunk_assignment as (Hk & Hlen & Hcover & _ & _ & Hround & _).
  split; [rewrite Hk by lia; reflexivity|].
  split; [rewrite Hlen by lia; reflexivity|].
  split; [apply Hcover; lia|].
  destruct (detailsRound1 Demo.rp (Demo.contracts (Demo.client 2))
              (map N.of_nat (seq 0 250)) (replicate 250 1) Demo.opts
              (replicate 250 emptyDetails)) as [[r t]|] eqn:Hrun.
  - exists r, t. split; [reflexivity|].
    eapply (Hround Demo.rp (Demo.contracts (Demo.client 2))); [| |exact Hrun];
      reflexivity.
  - exfalso.
    assert (Hsome : match detailsRound1 Demo.rp (Demo.contracts (Demo.client 2))
                          (map N.of_nat (seq 0 250)) (replicate 250 1) Demo.opts
                          (replicate 250 emptyDetails) with
                    | Some _ => true
                    | None => false
                    end = true) by (vm_compute; reflexivity).
    rewrite Hrun in Hsome. discriminate Hsome.
Defined.

(** C6. The code departs from the spec at the enumeration: on a network
    whose minipool manager answers a count of 250,
    [getAllMinipoolAddressesFast] sends the count query and nothing else, and
    returns no address: the local minipoolCount that sizes the address slice
    and bounds the loop is never assigned. [GetAllNativeMinipoolDetails] then
    returns an empty slice with a nil error after the count query and a
    balance request for no address: no enumeration batch and no phase-1
    batch is issued, where the spec has three of each. *)
Lemma enumeration_of_250_sends_no_batch :
  eth_call (Client Demo.rp) (Some 17000000)
    {| cd_target := {| ContractAddress := 12 |}; cd_method := "getMinipoolCount";
       cd_args := [] |} = Some (VBig (Some 250)) /\
  getAllMinipoolAddressesFast Demo.rp (Demo.contracts (Demo.client 2)) Demo.opts
    = Some ((Some [], None),
            [{| rt_block := Some 17000000;
                rt_request :=
                  ReqMulticall true
                    [{| cd_target := {| ContractAddress := 12 |};
                        cd_method := "getMinipoolCount"; cd_args := [] |}] |}]) /\
  GetAllNativeMinipoolDetails Demo.rp (Demo.contracts (Demo.client 2))
    = Some ((Some [], None),
            [{| rt_block := Some 17000000;
                rt_request :=
                  ReqMulticall true
                    [{| cd_target := {| ContractAddress := 12 |};
                        cd_method := "getMinipoolCount"; cd_args := [] |}] |};
             {| rt_block := Some 17000000; rt_request := ReqBalances [] |}]).
Proof.
  split; [reflexivity|]. split; vm_compute; reflexivity.
Qed.

(** * Further properties of the snapshot code *)

(** ** Strict and lenient batches, phase by phase *)

Definition isStrictMulticall (rt : RoundTrip) : Prop :=
  exists calls, rt_request rt = ReqMulticall true calls.

(* A lenient batch that carries nothing but version probes. *)
Definition isVersionProbeBatch (rt : RoundTrip) : Prop :=
  exists calls,
    rt_request rt = ReqMulticall false calls /\
    Forall (fun c => cd_method c = "version" /\ cd_args c = []) calls.

Lemma Forall_nil_trace (Q : RoundTrip -> Prop) : Forall Q ([] : Trace).
Proof. constructor. Qed.

Lemma Forall_app_trace (Q : RoundTrip -> Prop) (t1 t2 : Trace) :
  Forall Q t1 -> Forall Q t2 -> Forall Q (t1 ++ t2).
Proof. intros H1 H2. apply Forall_app. auto. Qed.

Lemma FlexibleCall_strict_trace {L S} `{Output L S} (mc : MultiCaller L) opts (s : S) :
  emits (Forall isStrictMulticall) (FlexibleCall mc true opts s).
Proof.
  intros r t Hrun. apply FlexibleCall_trace in Hrun. subst t.
  repeat constructor. eexists. reflexivity.
Qed.

Lemma roundTrip_strict b calls :
  emits (Forall isStrictMulticall)
    (roundTrip {| rt_block := b; rt_request := ReqMulticall true calls |}).
Proof. intros a t [= _ <-]. repeat constructor. eexists. reflexivity. Qed.

Lemma probes_only_version (rp : RocketPool) (addresses : list Address) (js : list nat)
    (mc mc' : MultiCaller nat) e t :
  Forall (fun c => cd_method (call_desc c) = "version" /\ cd_args (call_desc c) = [])
         (mc_calls mc) ->
  forEachErr js
    (fun j mc =>
       let* address := index addresses j in
       match GetRocketVersionContractForAddress rp address with
       | inl err =>
           ret (mc, Some (ErrWrapAt "error creating version contract for minipool"
                            address err))
       | inr contract => ret (AddCall mc contract j "version" [], None)
       end) mc = Some ((mc', e), t) ->
  Forall (fun c => cd_method (call_desc c) = "version" /\ cd_args (call_desc c) = [])
         (mc_calls mc') /\ t = [].
Proof.
  revert mc t. induction js as [|j js IH]; intros mc t Hmc Hrun; simpl in Hrun.
  - apply ret_Some in Hrun. destruct Hrun as [[= -> ->] ->]. auto.
  - apply bind_Some in Hrun. destruct Hrun as ([mc1 e1] & t1 & t2 & Hstep & Hrun & ->).
    apply bind_Some in Hstep. destruct Hstep as (a & t3 & t4 & Ha & Hstep & ->).
    apply index_Some in Ha. destruct Ha as [Ha ->].
    destruct (GetRocketVersionContractForAddress rp a) as [err|c];
      apply ret_Some in Hstep; destruct Hstep as [[= -> ->] ->].
    + apply ret_Some in Hrun. destruct Hrun as [[= -> ->] ->]. auto.
    + simpl in Hrun. apply IH in Hrun; [exact Hrun|].
      rewrite AddCall_calls. apply Forall_app. split; [exact Hmc|].
      repeat constructor.
Qed.

(** X1. Whatever the network answers, every batch of calls that
    [getBulkMinipoolDetails] sends is strict: its round trips are requests of
    the balance batcher and strict batches only. Every round trip of
    [getMinipoolVersionsFast] is a lenient batch of [version] probes only. *)
Theorem batch_modes_by_phase (rp : RocketPool) (contracts : NetworkContracts)
    (addresses : list Address) (versions : list uint8) (opts : CallOpts) :
  (forall r t,
     getBulkMinipoolDetails rp contracts addresses versions opts = Some (r, t) ->
     Forall (fun rt => isBalanceRequestAt (BlockNumber_ opts) rt \/ isStrictMulticall rt)
            t) /\
  (forall r t,
     getMinipoolVersionsFast rp contracts addresses opts = Some (r, t) ->
     Forall isVersionProbeBatch t).
Proof.
  split.
  - intros r t Hrun. unfold getBulkMinipoolDetails in Hrun.
    apply bind_Some in Hrun. destruct Hrun as ([balances eb] & t0 & rest & Hbal & Hrun & ->).
    apply GetEthBalances_Some in Hbal. destruct Hbal as [_ Ht0].
    apply Forall_app. split.
    { eapply Forall_impl; [exact Ht0|]. intros rt Hrt. left. exact Hrt. }
    cut (Forall isStrictMulticall rest).
    { intros Hrest. eapply Forall_impl; [exact Hrest|]. intros rt Hrt. right. exact Hrt. }
    revert Hrun. generalize r rest.
    change (emits (Forall isStrictMulticall)
              (match eb with
               | Some e => ret (None, Some (ErrWrap "error getting minipool balances" e))
               | None =>
                   let* minipoolDetails :=
                     loadBalances balances (replicate (length addresses) emptyDetails) in
                   let* (minipoolDetails, err) :=
                     detailsRound1 rp contracts addresses versions opts minipoolDetails in
                   match err with
                   | Some e =>
                       ret (None, Some (ErrWrap "error getting minipool details r1" e))
                   | None =>
                       let* (minipoolDetails, err) :=
                         detailsRound2 rp contracts addresses versions opts
                           minipoolDetails in
                       match err with
                       | Some e =>
                           ret (None,
                                Some (ErrWrap "error getting minipool details r2" e))
                       | None =>
                           let* minipoolDetails := postprocess rp opts minipoolDetails in
                           ret (Some minipoolDetails, None)
                       end
                   end
               end)).
    unfold loadBalances, postprocess, detailsRound1, detailsRound2, round1Tasks,
      round2Tasks.
    repeat (emits_auto (Forall_nil_trace isStrictMulticall) (Forall_app_trace isStrictMulticall);
            try apply roundTrip_strict;
            try (apply (emits_errgroupGo _ (Forall_nil_trace isStrictMulticall)
                          (Forall_app_trace isStrictMulticall));
                 apply List.Forall_forall;
                 let Hin := fresh "Hin" in
                 intros ? Hin ?; apply in_map_iff in Hin;
                 destruct Hin as ([? ?] & <- & _); simpl);
            try progress unfold detailsChunk, sharesChunk, queueDetailsCalls,
              queueShareCalls, queueDetailsStep, queueShareStep, addMinipoolShareCalls,
              bigSub, bigCmp, fixupMinipoolDetails, NewMultiCaller).
  - intros r t Hrun. unfold getMinipoolVersionsFast, errgroupWait in Hrun.
    apply bind_Some in Hrun. destruct Hrun as ([vs e] & t0 & t1 & Hwait & Hrun & ->).
    apply bind_Some in Hwait. destruct Hwait as ([vs' errs] & t2 & t3 & Hgo & Hwait & ->).
    apply ret_Some in Hwait. destruct Hwait as [_ ->].
    assert (Ht1 : t1 = []).
    { destruct e; apply ret_Some in Hrun; destruct Hrun as [_ ->]; reflexivity. }
    rewrite Ht1, !app_nil_r.
    revert Hgo. generalize (vs', errs) t2.
    change (emits (Forall isVersionProbeBatch)
              (errgroupGo
                 (map (fun b => versionsChunk rp contracts addresses opts (fst b) (snd b))
                      (batches minipoolVersionBatchSize (length addresses)))
                 (replicate (length addresses) 0))).
    apply (emits_errgroupGo _ (Forall_nil_trace isVersionProbeBatch)
             (Forall_app_trace isVersionProbeBatch)).
    apply List.Forall_forall. intros task Hin s. apply in_map_iff in Hin.
    destruct Hin as ([i max] & <- & _). simpl.
    intros r0 t0 Hchunk. unfold versionsChunk, NewMultiCaller in Hchunk.
    destruct (eth_bind (Client rp) (Multicaller_ContractAddress contracts)) as [eb|].
    { apply ret_Some in Hchunk. destruct Hchunk as [_ ->]. constructor. }
    apply bind_Some in Hchunk. destruct Hchunk as ([mc1 e1] & t4 & t5 & Hq & Hchunk & ->).
    apply probes_only_version in Hq; [|constructor]. destruct Hq as [Hcalls ->].
    destruct e1 as [e1|].
    { apply ret_Some in Hchunk. destruct Hchunk as [_ ->]. constructor. }
    apply bind_Some in Hchunk.
    destruct Hchunk as ([[rs err] vs1] & t6 & t7 & Hcall & Hchunk & ->).
    apply FlexibleCall_trace in Hcall. subst t6.
    apply bind_Some in Hchunk. destruct Hchunk as (vs2 & t8 & t9 & Hmark & Hchunk & ->).
    apply ret_Some in Hchunk. destruct Hchunk as [_ ->].
    assert (Ht8 : t8 = []).
    { revert Hmark. generalize vs2 t8.
      change (emits silent
                (forEach (imap (fun j result => (j, result)) rs)
                   (fun jr versions =>
                      if negb (Success (snd jr))
                      then setIndex versions (fst jr + i) 1
                      else ret versions) vs1)).
      emits_auto silent_nil silent_app. }
    rewrite Ht8. simpl. repeat constructor.
    eexists. split; [reflexivity|].
    apply Forall_fmap. exact Hcalls.
Qed.

Lemma batch_modes_by_phase_witness :
  (exists r t,
     getBulkMinipoolDetails Demo.rp (Demo.contracts (Demo.client 2)) [2; 3; 4]%N
       [3; 1; 3] Demo.opts = Some (r, t) /\
     length t = 3%nat /\
     Forall (fun rt => isBalanceRequestAt (Some 17000000) rt \/ isStrictMulticall rt) t) /\
  (exists r t,
     getMinipoolVersionsFast Demo.rp (Demo.contracts (Demo.client 2)) [2; 3; 4]%N
       Demo.opts = Some (r, t) /\
     Forall isVersionProbeBatch t).
Proof.
  destruct (batch_modes_by_phase Demo.rp (Demo.contracts (Demo.client 2)) [2; 3; 4]%N
              [3; 1; 3] Demo.opts) as [HBulk HVersions].
  split.
  - destruct (getBulkMinipoolDetails Demo.rp (Demo.contracts (Demo.client 2))
                [2; 3; 4]%N [3; 1; 3] Demo.opts) as [[r t]|] eqn:Hrun.
    + exists r, t. split; [reflexivity|]. split; [|exact (HBulk r t eq_refl)].
      assert (Hlen : match getBulkMinipoolDetails Demo.rp
                             (Demo.contracts (Demo.client 2)) [2; 3; 4]%N [3; 1; 3]
                             Demo.opts with
                     | Some (_, t) => length t
                     | None => 0%nat
                     end = 3%nat) by (vm_compute; reflexivity).
      rewrite Hrun in Hlen. exact Hlen.
    + exfalso.
      assert (Hsome : match getBulkMinipoolDetails Demo.rp
                              (Demo.contracts (Demo.client 2)) [2; 3; 4]%N [3; 1; 3]
                              Demo.opts with
                      | Some _ => true
                      | None => false
                      end = true) by (vm_compute; reflexivity).
      rewrite Hrun in Hsome. discriminate Hsome.
  - do 2 eexists. split; [vm_compute; reflexivity|].
    eapply HVersions. vm_compute. reflexivity.
Defined.

(** ** The count of the enumeration *)

Lemma getBulkMinipoolDetails_nil rp contracts opts r t :
  getBulkMinipoolDetails rp contracts [] [] opts = Some ((r, None), t) ->
  r = Some [] /\ Forall (isBalanceRequestAt (BlockNumber_ opts)) t.
Proof.
  unfold getBulkMinipoolDetails. intros Hrun.
  apply bind_Some in Hrun. destruct Hrun as ([balances eb] & t0 & t1 & Hbal & Hrun & ->).
  apply GetEthBalances_Some in Hbal. destruct Hbal as [_ Ht0].
  destruct eb as [eb|];
    [apply ret_Some in Hrun; destruct Hrun as [Hrun _]; discriminate Hrun|].
  simpl in Hrun. injection Hrun as <- <-. rewrite app_nil_r. auto.
Qed.

Lemma getMinipoolVersionsFast_nil rp contracts opts :
  getMinipoolVersionsFast rp contracts [] opts = Some ((Some [], None), []).
Proof. reflexivity. Qed.

(** X2. Every run of [GetAllNativeMinipoolDetails] that returns a nil error
    returns an empty slice: the enumeration sizes its address slice with a
    local count that the count query never writes. After the round trips of
    the count query such a run sends nothing but requests of the balance
    batcher: no indexed lookup, no version probe and no field batch. *)
Theorem GetAllNativeMinipoolDetails_success_is_empty (rp : RocketPool)
    (contracts : NetworkContracts) r t :
  GetAllNativeMinipoolDetails rp contracts = Some ((r, None), t) ->
  r = Some [] /\
  exists mgr count tq tb,
    NewMinipoolManager rp = inr mgr /\
    Query rp (fun mc => (GetMinipoolCount mgr mc, None))
      {| BlockNumber_ := ElBlockNumber contracts |} 0 = Some ((None, count), tq) /\
    t = tq ++ tb /\
    Forall (isBalanceRequestAt (ElBlockNumber contracts)) tb.
Proof.
  unfold GetAllNativeMinipoolDetails, getAllMinipoolAddressesFast. intros Hrun.
  apply bind_Some in Hrun. destruct Hrun as ([addresses err] & t1 & t2 & Haddr & Hrun & ->).
  destruct (NewMinipoolManager rp) as [e|mgr].
  { apply ret_Some in Haddr. destruct Haddr as [Haddr _]. injection Haddr as -> ->.
    apply ret_Some in Hrun. destruct Hrun as [Hrun _]. discriminate Hrun. }
  apply bind_Some in Haddr. destruct Haddr as ([eq count] & tq & t4 & HQ & Haddr & ->).
  destruct eq as [eq|].
  { apply ret_Some in Haddr. destruct Haddr as [Haddr _]. injection Haddr as -> ->.
    apply ret_Some in Hrun. destruct Hrun as [Hrun _]. discriminate Hrun. }
  injection Haddr as <- <- <-. cbv beta iota in Hrun. simpl default in Hrun.
  rewrite getMinipoolVersionsFast_nil in Hrun.
  rewrite (bind_run _ _ _ _ eq_refl) in Hrun. cbv beta iota in Hrun.
  simpl default in Hrun.
  match type of Hrun with
  | match ?x with _ => _ end = _ => destruct x as [[b0 t0]|] eqn:Hbulk
  end; [|discriminate Hrun].
  injection Hrun as -> <-.
  apply getBulkMinipoolDetails_nil in Hbulk. destruct Hbulk as [-> Ht0].
  split; [reflexivity|]. exists mgr, count, tq, t0.
  split; [reflexivity|]. split; [exact HQ|]. split; [|exact Ht0].
  rewrite app_nil_r. reflexivity.
Qed.

Lemma GetAllNativeMinipoolDetails_success_is_empty_witness :
  exists t,
    GetAllNativeMinipoolDetails Demo.rp (Demo.contracts (Demo.client 2))
      = Some ((Some [], None), t) /\
    eth_call (Client Demo.rp) (Some 17000000)
      {| cd_target := {| ContractAddress := 12 |}; cd_method := "getMinipoolCount";
         cd_args := [] |} = Some (VBig (Some 250)).
Proof.
  destruct (GetAllNativeMinipoolDetails Demo.rp (Demo.contracts (Demo.client 2)))
    as [[[r [e|]] t]|] eqn:Hrun;
    try (exfalso;
         assert (Hsome : match GetAllNativeMinipoolDetails Demo.rp
                                 (Demo.contracts (Demo.client 2)) with
                         | Some ((_, None), _) => true
                         | _ => false
                         end = true) by (vm_compute; reflexivity);
         rewrite Hrun in Hsome; discriminate Hsome).
  destruct (GetAllNativeMinipoolDetails_success_is_empty _ _ _ _ Hrun) as [-> _].
  exists t. split; reflexivity.
Defined.

(** ** The single-minipool entry point *)

Lemma overwritten_mono (F G : Field -> bool) d d' :
  (forall f, F f = true -> G f = true) -> overwritten F d d' -> overwritten G d d'.
Proof.
  intros HFG Hov. induction Hov as [|d' f v _ IH Hf]; [constructor|].
  apply ow_step; [exact IH|apply HFG; exact Hf].
Qed.

(* Every field [GetNativeMinipoolDetails] can write after the address and
   version: the outputs of the detail calls and the two fixed-up fields. *)
Definition isSingleWrite (f : Field) : bool :=
  match f with
  | FStatus | FDepositType => true
  | _ => isPhase1Output f
  end.

Lemma versionGated_isSingleWrite f : versionGated f = true -> isSingleWrite f = true.
Proof. destruct f; simpl; intros H; try reflexivity; discriminate H. Qed.

Lemma isPhase1Output_isSingleWrite f : isPhase1Output f = true -> isSingleWrite f = true.
Proof. destruct f; simpl; intros H; try reflexivity; discriminate H. Qed.

(** X3. The record [GetNativeMinipoolDetails] returns with a nil error
    carries the address asked for, and none of the balance-derived fields:
    Balance, DistributableBalance, the two shares of the balance and the four
    beacon shares are nil in it, since neither the balance query nor the
    share calls of the bulk path are made. *)
Theorem GetNativeMinipoolDetails_no_balances (rp : RocketPool)
    (contracts : NetworkContracts) (minipoolAddress : Address)
    (details : NativeMinipoolDetails) (t : Trace) :
  GetNativeMinipoolDetails rp contracts minipoolAddress = Some ((details, None), t) ->
  MinipoolAddress details = minipoolAddress /\
  Balance details = None /\
  DistributableBalance details = None /\
  NodeShareOfBalance details = None /\
  UserShareOfBalance details = None /\
  NodeShareOfBalanceIncludingBeacon details = None /\
  UserShareOfBalanceIncludingBeacon details = None /\
  NodeShareOfBeaconBalance details = None /\
  UserShareOfBeaconBalance details = None.
Proof.
  intros Hrun. unfold GetNativeMinipoolDetails in Hrun.
  apply bind_Some in Hrun. destruct Hrun as ([eq v] & t1 & t2 & _ & Hrun & _).
  destruct eq as [eq|]; [apply ret_Some in Hrun; destruct Hrun as [[=] _]|].
  destruct (addMinipoolDetailsCalls rp contracts _ 0 _ _) as [[mc d0] e0] eqn:Hadd.
  apply addMinipoolDetailsCalls_queued in Hadd.
  destruct Hadd as (Hov0 & new & Hnew & HF). simpl in Hnew.
  apply bind_Some in Hrun. destruct Hrun as ([[rs err] store] & t3 & t4 & Hcall & Hrun & _).
  destruct err as [err|]; [apply ret_Some in Hrun; destruct Hrun as [[=] _]|].
  apply bind_Some in Hrun. destruct Hrun as (d1 & t5 & t6 & Hd1 & Hrun & _).
  apply index_Some in Hd1. destruct Hd1 as [Hd1 _].
  apply bind_Some in Hrun. destruct Hrun as ([d2 e2] & t7 & t8 & Hfix & Hrun & _).
  apply ret_Some in Hrun. destruct Hrun as [[= <-] _].
  unfold fixupMinipoolDetails in Hfix. apply ret_Some in Hfix.
  destruct Hfix as [[= -> _] _].
  assert (HB : Forall (boundTo isPhase1Output) (mc_calls mc)).
  { rewrite Hnew. eapply Forall_impl; [exact HF|]. intros c [_ Hb]. exact Hb. }
  destruct (FlexibleCall_details _ _ _ _ _ _ _ _ _ Hcall HB) as (_ & Hov1 & _).
  destruct (Hov1 0%nat d0 eq_refl) as (d1' & Hd1' & Hov1').
  rewrite Hd1 in Hd1'. injection Hd1' as <-.
  match goal with |- MinipoolAddress ?x = _ /\ _ => set (fixed := x) end.
  assert (Hov : overwritten isSingleWrite
                  (assign FVersion (VUint8 v)
                     (assign FMinipoolAddress (VAddress minipoolAddress) emptyDetails))
                  fixed).
  { apply ow_step; [|reflexivity]. apply ow_step; [|reflexivity].
    eapply overwritten_trans.
    - eapply overwritten_mono; [exact versionGated_isSingleWrite|exact Hov0].
    - eapply overwritten_mono; [exact isPhase1Output_isSingleWrite|exact Hov1']. }
  clearbody fixed.
  repeat split.
  - rewrite (overwritten_keeps MinipoolAddress isSingleWrite _ _ ltac:(keeps_field) Hov).
    reflexivity.
  - rewrite (overwritten_keeps Balance isSingleWrite _ _ ltac:(keeps_field) Hov).
    reflexivity.
  - rewrite (overwritten_keeps DistributableBalance isSingleWrite _ _
               ltac:(keeps_field) Hov). reflexivity.
  - rewrite (overwritten_keeps NodeShareOfBalance isSingleWrite _ _
               ltac:(keeps_field) Hov). reflexivity.
  - rewrite (overwritten_keeps UserShareOfBalance isSingleWrite _ _
               ltac:(keeps_field) Hov). reflexivity.
  - rewrite (overwritten_keeps NodeShareOfBalanceIncludingBeacon isSingleWrite _ _
               ltac:(keeps_field) Hov). reflexivity.
  - rewrite (overwritten_keeps UserShareOfBalanceIncludingBeacon isSingleWrite _ _
               ltac:(keeps_field) Hov). reflexivity.
  - rewrite (overwritten_keeps NodeShareOfBeaconBalance isSingleWrite _ _
               ltac:(keeps_field) Hov). reflexivity.
  - rewrite (overwritten_keeps UserShareOfBeaconBalance isSingleWrite _ _
               ltac:(keeps_field) Hov). reflexivity.
Qed.

Lemma GetNativeMinipoolDetails_no_balances_witness :
  exists details t,
    GetNativeMinipoolDetails Demo.rp (Demo.contracts (Demo.client 2)) 4%N
      = Some ((details, None), t) /\
    NodeRefundBalance details = Some 2 /\
    Balance details = None /\
    DistributableBalance details = None.
Proof.
  destruct (GetNativeMinipoolDetails Demo.rp (Demo.contracts (Demo.client 2)) 4%N)
    as [[[details [e|]] t]|] eqn:Hrun;
    try (exfalso;
         assert (Hsome : match GetNativeMinipoolDetails Demo.rp
                                 (Demo.contracts (Demo.client 2)) 4%N with
                         | Some ((_, None), _) => true
                         | _ => false
                         end = true) by (vm_compute; reflexivity);
         rewrite Hrun in Hsome; discriminate Hsome).
  destruct (GetNativeMinipoolDetails_no_balances _ _ _ _ _ Hrun)
    as (_ & Hb & Hd & _).
  exists details, t. split; [reflexivity|]. split; [|split; [exact Hb|exact Hd]].
  assert (Hr : match GetNativeMinipoolDetails Demo.rp
                       (Demo.contracts (Demo.client 2)) 4%N with
               | Some ((d, _), _) => NodeRefundBalance d
               | None => None
               end = Some 2) by (vm_compute; reflexivity).
  rewrite Hrun in Hr. exact Hr.
Defined.

(** ** The version query of the single-minipool entry point *)







(** ** Records whose contract binding cannot be created *)

(* A record on which nothing but the address, the version and the balance
   was set before the final fixup. *)
Definition unpopulated (address : Address) (version : uint8) (balance : BigInt)
  : NativeMinipoolDetails :=
  assign FDepositType (VDeposit (MinipoolDepositOf 0))
    (assign FStatus (VStatus (MinipoolStatusOf 0))
       (assign FBalance (VBig balance)
          (assign FVersion (VUint8 version)
             (assign FMinipoolAddress (VAddress address) emptyDetails)))).

(* A rocketpool handle that has no minipool binding for any version. *)
Definition withoutBindings (rp : RocketPool) : RocketPool := {|
  Client := Client rp;
  MulticallAddress := MulticallAddress rp;
  Query_requireSuccess := Query_requireSuccess rp;
  NewMinipoolFromVersion := fun _ _ => inl (ErrMsg "unexpected minipool contract version");
  GetRocketVersionContractForAddress := GetRocketVersionContractForAddress rp;
  NewMinipoolManager := NewMinipoolManager rp
|}.

(** X4. [GetNativeMinipoolDetails] does not look at the error of
    [addMinipoolDetailsCalls]: when the version probe answers a version for
    which no minipool binding can be created, it still returns a nil error,
    with a record on which only the address and the version are set (Exists
    is false, the node address is zero, every amount is nil), after sending a
    batch that carries no call. *)
Theorem GetNativeMinipoolDetails_unbound_version (rp : RocketPool)
    (contracts : NetworkContracts) (minipoolAddress : Address) (version : uint8)
    (err : Error) :
  eth_bind (Client rp) (MulticallAddress rp) = None ->
  eth_transport (Client rp) (ElBlockNumber contracts) [versionProbe minipoolAddress]
    = None ->
  eth_call (Client rp) (ElBlockNumber contracts) (versionProbe minipoolAddress)
    = Some (VUint8 version) ->
  0 <= version < 256 ->
  NewMinipoolFromVersion rp minipoolAddress version = inl err ->
  eth_transport (Multicaller_Client contracts) (ElBlockNumber contracts) [] = None ->
  GetNativeMinipoolDetails rp contracts minipoolAddress =
    Some ((unpopulated minipoolAddress version None, None),
          [{| rt_block := ElBlockNumber contracts;
              rt_request :=
                ReqMulticall (Query_requireSuccess rp) [versionProbe minipoolAddress] |};
           {| rt_block := ElBlockNumber contracts;
              rt_request := ReqMulticall true [] |}]) /\
  Exists (unpopulated minipoolAddress version None) = false /\
  NodeAddress (unpopulated minipoolAddress version None) = 0%N /\
  NodeRefundBalance (unpopulated minipoolAddress version None) = None.
Proof.
  intros Hbind Htransport Hcall Hrange Hnew Hempty.
  split; [|split; [reflexivity|split; reflexivity]].
  unfold GetNativeMinipoolDetails, Query, NewMultiCaller, FlexibleCall,
    GetContractVersion.
  simpl. rewrite Hbind. simpl.
  unfold versionProbe in *. rewrite Htransport. simpl. rewrite Hcall. simpl.
  unfold unpack, version_output.
  assert (Hr : (0 <=? version) && (version <? 256) = true).
  { apply andb_true_iff. split; [apply Z.leb_le|apply Z.ltb_lt]; lia. }
  rewrite Hr. simpl. rewrite andb_false_r. simpl.
  unfold addMinipoolDetailsCalls. simpl. rewrite Hnew. simpl.
  rewrite Hempty. reflexivity.
Qed.

Lemma GetNativeMinipoolDetails_unbound_version_witness :
  exists t,
    GetNativeMinipoolDetails (withoutBindings Demo.rp) (Demo.contracts (Demo.client 2)) 4%N
      = Some ((unpopulated 4%N 3 None, None), t) /\
    length t = 2%nat.
Proof.
  destruct (GetNativeMinipoolDetails_unbound_version
              (withoutBindings Demo.rp) (Demo.contracts (Demo.client 2)) 4%N 3
              (ErrMsg "unexpected minipool contract version")
              eq_refl eq_refl eq_refl ltac:(lia) eq_refl eq_refl) as [Hrun _].
  eexists. split; [exact Hrun|reflexivity].
Defined.

(* A loop over records that also queues calls: what is known of each call
   queued, in terms of the record its iteration started from. *)
Section QueueLoop.
Context {D L S : Type} (get : S -> list D) (queued : S -> list (Call L)).
Context (Q : nat -> D -> Call L -> Prop).
Context (body : nat -> S -> Net S).

Hypothesis body_spec : forall j st st' t,
  body j st = Some (st', t) ->
  exists d d' new,
    get st !! j = Some d /\ get st' = <[j := d']> (get st) /\
    queued st' = queued st ++ new /\ Forall (Q j d) new.

Lemma forEach_queued (js : list nat) (st st' : S) (t : Trace) :
  NoDup js ->
  forEach js body st = Some (st', t) ->
  exists new,
    queued st' = queued st ++ new /\
    Forall (fun c => exists j d, In j js /\ get st !! j = Some d /\ Q j d c) new.
Proof using body_spec.
  revert st t. induction js as [|i js IH]; intros st t Hnd Hrun; simpl in Hrun.
  - apply ret_Some in Hrun. destruct Hrun as [-> _].
    exists []. split; [symmetry; apply app_nil_r|constructor].
  - apply bind_Some in Hrun. destruct Hrun as (st1 & t1 & t2 & Hx & Hrest & _).
    apply NoDup_cons in Hnd. destruct Hnd as [Hi Hnd].
    destruct (body_spec _ _ _ _ Hx) as (d & d' & new1 & Hd & Hst & Hq & HQ).
    destruct (IH _ _ Hnd Hrest) as (new2 & Hq2 & HQ2).
    exists (new1 ++ new2). split; [rewrite Hq2, Hq, app_assoc; reflexivity|].
    apply Forall_app. split.
    + eapply Forall_impl; [exact HQ|]. intros c Hc.
      exists i, d. split; [left; reflexivity|]. auto.
    + eapply Forall_impl; [exact HQ2|]. intros c (j & dj & Hj & Hdj & Hc).
      exists j, dj. split; [right; exact Hj|]. split; [|exact Hc].
      rewrite Hst in Hdj. rewrite list_lookup_insert_ne in Hdj; [exact Hdj|].
      intros ->. apply Hi. apply list_elem_of_In. exact Hj.
Qed.

End QueueLoop.

Section Unbound.
Context (rp : RocketPool) (contracts : NetworkContracts).
Context (addresses : list Address) (versions : list uint8) (opts : CallOpts).

(* Round 1 on a record whose binding cannot be created: the address and the
   version are set, and that is all. *)
Definition round1Unbound (j : nat) (d d' : NativeMinipoolDetails) : Prop :=
  forall a v err,
    addresses !! j = Some a -> versions !! j = Some v ->
    NewMinipoolFromVersion rp a v = inl err ->
    d' = assign FVersion (VUint8 v) (assign FMinipoolAddress (VAddress a) d).

(* A call of round 1 is bound to a record whose binding was created. *)
Definition round1Bound (j : nat) (d : NativeMinipoolDetails) (c : Call (nat * Field))
  : Prop :=
  fst (call_output c) = j /\
  exists a v mp,
    addresses !! j = Some a /\ versions !! j = Some v /\
    NewMinipoolFromVersion rp a v = inr mp.

Lemma queueDetailsStep_unbound j st st' t :
  queueDetailsStep rp contracts addresses versions opts j st = Some (st', t) ->
  exists d d' new,
    snd st !! j = Some d /\ snd st' = <[j := d']> (snd st) /\
    mc_calls (fst st') = mc_calls (fst st) ++ new /\
    Forall (round1Bound j d) new /\
    round1Unbound j d d'.
Proof.
  destruct st as [mc0 ds0], st' as [mc1 ds1]. unfold queueDetailsStep. simpl.
  intros Hstep.
  apply bind_Some in Hstep. destruct Hstep as (a & t1 & t2 & Ha & Hstep & _).
  apply index_Some in Ha. destruct Ha as [Ha _].
  apply bind_Some in Hstep. destruct Hstep as (d & t3 & t4 & Hd & Hstep & _).
  apply index_Some in Hd. destruct Hd as [Hd _].
  apply bind_Some in Hstep. destruct Hstep as (v & t5 & t6 & Hv & Hstep & _).
  apply index_Some in Hv. destruct Hv as [Hv _].
  destruct (addMinipoolDetailsCalls rp contracts mc0 j _ opts) as [[mc d'] e] eqn:Hadd.
  apply bind_Some in Hstep. destruct Hstep as (ds & t7 & t8 & Hset & Hstep & _).
  apply setIndex_Some in Hset. destruct Hset as (_ & Hset & _). subst ds.
  apply ret_Some in Hstep. destruct Hstep as [[= -> ->] _].
  exists d, d'.
  pose proof Hadd as Hq. apply addMinipoolDetailsCalls_queued in Hq.
  destruct Hq as (_ & new & Hnew & HF).
  unfold addMinipoolDetailsCalls in Hadd.
  change (MinipoolAddress
            (assign FVersion (VUint8 v) (assign FMinipoolAddress (VAddress a) d)))
    with a in Hadd.
  change (Version (assign FVersion (VUint8 v) (assign FMinipoolAddress (VAddress a) d)))
    with v in Hadd.
  destruct (NewMinipoolFromVersion rp a v) as [err|mp] eqn:Hbinding.
  - injection Hadd as <- <- _.
    exists []. split; [exact Hd|]. split; [reflexivity|].
    split; [symmetry; apply app_nil_r|]. split; [constructor|].
    intros a' v' err' Ha' Hv' _.
    rewrite Ha in Ha'. rewrite Hv in Hv'. injection Ha' as <-. injection Hv' as <-.
    reflexivity.
  - exists new. split; [exact Hd|]. split; [reflexivity|]. split; [exact Hnew|].
    split.
    + eapply Forall_impl; [exact HF|]. intros c [Hptr _].
      split; [exact Hptr|]. exists a, v, mp. auto.
    + intros a' v' err' Ha' Hv' Hfail.
      rewrite Ha in Ha'. rewrite Hv in Hv'. injection Ha' as <-. injection Hv' as <-.
      rewrite Hbinding in Hfail. discriminate Hfail.
Qed.

Lemma detailsChunk_unbound i max ds ds' e t :
  detailsChunk rp contracts addresses versions opts i max ds = Some ((ds', e), t) ->
  length ds' = length ds /\
  (forall j, ~ (i <= j < max)%nat -> ds' !! j = ds !! j) /\
  (e = None -> forall j, (i <= j < max)%nat ->
     exists d d', ds !! j = Some d /\ ds' !! j = Some d' /\ round1Unbound j d d').
Proof.
  intros Hrun.
  destruct (detailsChunk_spec _ _ _ _ _ _ _ _ _ _ _ Hrun) as (Hlen & Hout & Hin).
  split; [exact Hlen|]. split; [exact Hout|].
  intros He j Hj. destruct (Hin He j Hj) as (d & d' & Hd & Hd' & _).
  exists d, d'. split; [exact Hd|]. split; [exact Hd'|].
  intros a v err Ha Hv Hfail.
  unfold detailsChunk, NewMultiCaller in Hrun.
  destruct (eth_bind (Client rp) (Multicaller_ContractAddress contracts)) as [eb|].
  { apply ret_Some in Hrun. destruct Hrun as [[= _ Heb] _]. congruence. }
  apply bind_Some in Hrun. destruct Hrun as ([mc1 ds1] & t1 & t2 & Hq & Hrun & _).
  apply bind_Some in Hrun.
  destruct Hrun as ([[rs err'] ds2] & t3 & t4 & Hcall & Hrun & _).
  apply ret_Some in Hrun. destruct Hrun as [[= -> _] _].
  unfold queueDetailsCalls in Hq.
  assert (Hnd : NoDup (seq i (max - i))) by apply NoDup_ListNoDup, seq_NoDup.
  destruct (forEach_records snd round1Unbound
              (queueDetailsStep rp contracts addresses versions opts)
              ltac:(intros j0 st st' t0 Hb;
                    destruct (queueDetailsStep_unbound _ _ _ _ Hb)
                      as (d0 & d0' & new & H1 & H2 & _ & _ & H5);
                    exists d0, d0'; auto)
              _ _ _ _ Hnd Hq) as (_ & _ & Hrec).
  destruct (forEach_queued snd (fun st => mc_calls (fst st)) round1Bound
              (queueDetailsStep rp contracts addresses versions opts)
              ltac:(intros j0 st st' t0 Hb;
                    destruct (queueDetailsStep_unbound _ _ _ _ Hb)
                      as (d0 & d0' & new & H1 & H2 & H3 & H4 & _);
                    exists d0, d0', new; auto)
              _ _ _ _ Hnd Hq) as (new & Hnew & HQ).
  simpl in *.
  destruct (Hrec j) as (d0 & d1 & Hd0 & Hd1 & Hrel); [rewrite in_seq; lia|].
  assert (d0 = d) by congruence. subst d0.
  destruct (queueDetailsCalls_spec rp contracts addresses versions opts i max _ _ _ _ _ Hq)
    as (_ & _ & _ & new' & Hnew' & HF).
  simpl in Hnew'.
  assert (HB : Forall (boundTo isPhase1Output) (mc_calls mc1)).
  { rewrite Hnew'. eapply Forall_impl; [exact HF|]. intros c [_ Hb]. exact Hb. }
  destruct (FlexibleCall_details _ _ _ _ _ _ _ _ _ Hcall HB) as (_ & _ & Hfr).
  assert (Hsame : ds2 !! j = ds1 !! j).
  { apply Hfr. rewrite Hnew. eapply Forall_impl; [exact HQ|].
    intros c (j' & dj & _ & _ & Hptr & a' & v' & mp & Ha' & Hv' & Hmp) Heq.
    subst j'. rewrite Heq in Ha', Hv'.
    pose proof (eq_trans (eq_sym Ha') Ha) as Haa. injection Haa as ->.
    pose proof (eq_trans (eq_sym Hv') Hv) as Hvv. injection Hvv as ->.
    rewrite Hfail in Hmp. discriminate Hmp. }
  rewrite Hsame, Hd1 in Hd'. injection Hd' as <-.
  eapply Hrel; eassumption.
Qed.

Lemma detailsRound1_unbound ds ds' t :
  detailsRound1 rp contracts addresses versions opts ds = Some ((ds', None), t) ->
  forall j, (j < length addresses)%nat ->
    exists d d', ds !! j = Some d /\ ds' !! j = Some d' /\ round1Unbound j d d'.
Proof.
  intros Hrun. unfold detailsRound1, round1Tasks in Hrun.
  eapply (errgroupWait_batches round1Unbound
            (detailsChunk rp contracts addresses versions opts)) in Hrun.
  - destruct Hrun as (_ & _ & Hin). apply Hin. reflexivity.
  - intros i max s s' e0 t0. apply detailsChunk_unbound.
  - unfold minipoolBatchSize. lia.
Qed.

(* Round 2 on such a record: the version is set again, and that is all. *)
Definition round2Unbound (j : nat) (d d' : NativeMinipoolDetails) : Prop :=
  forall v err,
    versions !! j = Some v ->
    NewMinipoolFromVersion rp (MinipoolAddress d) v = inl err ->
    d' = assign FVersion (VUint8 v) d.

Definition round2Bound (j : nat) (d : NativeMinipoolDetails) (c : Call (nat * Field))
  : Prop :=
  fst (call_output c) = j /\
  exists v mp,
    versions !! j = Some v /\ NewMinipoolFromVersion rp (MinipoolAddress d) v = inr mp.

Lemma queueShareStep_unbound j st st' t :
  queueShareStep rp contracts versions opts j st = Some (st', t) ->
  exists d d' new,
    snd st !! j = Some d /\ snd st' = <[j := d']> (snd st) /\
    mc_calls (fst st') = mc_calls (fst st) ++ new /\
    Forall (round2Bound j d) new /\
    round2Unbound j d d'.
Proof.
  destruct st as [mc0 ds0], st' as [mc1 ds1]. unfold queueShareStep. simpl.
  intros Hstep.
  apply bind_Some in Hstep. destruct Hstep as (d & t3 & t4 & Hd & Hstep & _).
  apply index_Some in Hd. destruct Hd as [Hd _].
  apply bind_Some in Hstep. destruct Hstep as (v & t5 & t6 & Hv & Hstep & _).
  apply index_Some in Hv. destruct Hv as [Hv _].
  apply bind_Some in Hstep.
  destruct Hstep as ([[mc d'] e] & t7 & t8 & Hadd & Hstep & _).
  apply bind_Some in Hstep. destruct Hstep as (ds & t9 & t10 & Hset & Hstep & _).
  apply setIndex_Some in Hset. destruct Hset as (_ & Hset & _). subst ds.
  apply ret_Some in Hstep. destruct Hstep as [[= -> ->] _].
  exists d, d'.
  pose proof Hadd as Hq. apply addMinipoolShareCalls_queued in Hq.
  destruct Hq as (_ & (new & Hnew & HF) & _).
  unfold addMinipoolShareCalls in Hadd.
  change (MinipoolAddress (assign FVersion (VUint8 v) d))
    with (MinipoolAddress d) in Hadd.
  change (Version (assign FVersion (VUint8 v) d)) with v in Hadd.
  destruct (NewMinipoolFromVersion rp (MinipoolAddress d) v) as [err|mp] eqn:Hbinding.
  - apply ret_Some in Hadd. destruct Hadd as [[= -> -> _] _].
    exists []. split; [exact Hd|]. split; [reflexivity|].
    split; [symmetry; apply app_nil_r|]. split; [constructor|].
    intros v' err' Hv' _. rewrite Hv in Hv'. injection Hv' as <-. reflexivity.
  - exists new. split; [exact Hd|]. split; [reflexivity|]. split; [exact Hnew|].
    split.
    + eapply Forall_impl; [exact HF|]. intros c [Hptr _].
      split; [exact Hptr|]. exists v, mp. auto.
    + intros v' err' Hv' Hfail. rewrite Hv in Hv'. injection Hv' as <-.
      rewrite Hbinding in Hfail. discriminate Hfail.
Qed.

Lemma sharesChunk_unbound i max ds ds' e t :
  sharesChunk rp contracts versions opts i max ds = Some ((ds', e), t) ->
  length ds' = length ds /\
  (forall j, ~ (i <= j < max)%nat -> ds' !! j = ds !! j) /\
  (e = None -> forall j, (i <= j < max)%nat ->
     exists d d', ds !! j = Some d /\ ds' !! j = Some d' /\ round2Unbound j d d').
Proof.
  intros Hrun.
  destruct (sharesChunk_spec _ _ _ _ _ _ _ _ _ _ Hrun) as (Hlen & Hout & Hin).
  split; [exact Hlen|]. split; [exact Hout|].
  intros He j Hj. destruct (Hin He j Hj) as (d & d' & Hd & Hd' & _).
  exists d, d'. split; [exact Hd|]. split; [exact Hd'|].
  intros v err Hv Hfail.
  unfold sharesChunk, NewMultiCaller in Hrun.
  destruct (eth_bind (Client rp) (Multicaller_ContractAddress contracts)) as [eb|].
  { apply ret_Some in Hrun. destruct Hrun as [[= _ Heb] _]. congruence. }
  apply bind_Some in Hrun. destruct Hrun as ([mc1 ds1] & t1 & t2 & Hq & Hrun & _).
  apply bind_Some in Hrun.
  destruct Hrun as ([[rs err'] ds2] & t3 & t4 & Hcall & Hrun & _).
  apply ret_Some in Hrun. destruct Hrun as [[= -> _] _].
  unfold queueShareCalls in Hq.
  assert (Hnd : NoDup (seq i (max - i))) by apply NoDup_ListNoDup, seq_NoDup.
  destruct (forEach_records snd round2Unbound
              (queueShareStep rp contracts versions opts)
              ltac:(intros j0 st st' t0 Hb;
                    destruct (queueShareStep_unbound _ _ _ _ Hb)
                      as (d0 & d0' & new & H1 & H2 & _ & _ & H5);
                    exists d0, d0'; auto)
              _ _ _ _ Hnd Hq) as (_ & _ & Hrec).
  destruct (forEach_queued snd (fun st => mc_calls (fst st)) round2Bound
              (queueShareStep rp contracts versions opts)
              ltac:(intros j0 st st' t0 Hb;
                    destruct (queueShareStep_unbound _ _ _ _ Hb)
                      as (d0 & d0' & new & H1 & H2 & H3 & H4 & _);
                    exists d0, d0', new; auto)
              _ _ _ _ Hnd Hq) as (new & Hnew & HQ).
  simpl in *.
  destruct (Hrec j) as (d0 & d1 & Hd0 & Hd1 & Hrel); [rewrite in_seq; lia|].
  assert (d0 = d) by congruence. subst d0.
  destruct (queueShareCalls_spec rp contracts versions opts i max _ _ _ _ _ Hq)
    as (_ & _ & _ & new' & Hnew' & HF).
  simpl in Hnew'.
  assert (HB : Forall (boundTo isPhase2Output) (mc_calls mc1)).
  { rewrite Hnew'. eapply Forall_impl; [exact HF|]. intros c [_ Hb]. exact Hb. }
  destruct (FlexibleCall_details _ _ _ _ _ _ _ _ _ Hcall HB) as (_ & _ & Hfr).
  assert (Hsame : ds2 !! j = ds1 !! j).
  { apply Hfr. rewrite Hnew. eapply Forall_impl; [exact HQ|].
    intros c (j' & dj & _ & Hdj & Hptr & v' & mp & Hv' & Hmp) Heq.
    subst j'. rewrite Heq in Hdj, Hv'.
    pose proof (eq_trans (eq_sym Hdj) Hd) as Hdd. injection Hdd as ->.
    pose proof (eq_trans (eq_sym Hv') Hv) as Hvv. injection Hvv as ->.
    rewrite Hfail in Hmp. discriminate Hmp. }
  rewrite Hsame, Hd1 in Hd'. injection Hd' as <-.
  eapply Hrel; eassumption.
Qed.

Lemma detailsRound2_unbound ds ds' t :
  detailsRound2 rp contracts addresses versions opts ds = Some ((ds', None), t) ->
  forall j, (j < length addresses)%nat ->
    exists d d', ds !! j = Some d /\ ds' !! j = Some d' /\ round2Unbound j d d'.
Proof.
  intros Hrun. unfold detailsRound2, round2Tasks in Hrun.
  eapply (errgroupWait_batches round2Unbound
            (sharesChunk rp contracts versions opts)) in Hrun.
  - destruct Hrun as (_ & _ & Hin). apply Hin. reflexivity.
  - intros i max s s' e0 t0. apply sharesChunk_unbound.
  - unfold minipoolBatchSize. lia.
Qed.

End Unbound.

Lemma loadBalances_exact balances ds ds' t :
  loadBalances balances ds = Some (ds', t) ->
  forall j d, ds !! j = Some d ->
    exists b, balances !! j = Some b /\ ds' !! j = Some (assign FBalance (VBig b) d).
Proof.
  intros Hrun. unfold loadBalances in Hrun.
  eapply (forEach_records (fun s => s)
            (fun j d d' => exists b, balances !! j = Some b /\
                                     d' = assign FBalance (VBig b) d)) in Hrun.
  - destruct Hrun as (_ & _ & Hin). intros j d Hd.
    destruct (Hin j) as (d0 & d' & Hd0 & Hd' & b & Hb & ->).
    { rewrite in_seq. apply lookup_lt_Some in Hd. lia. }
    exists b. split; [exact Hb|]. congruence.
  - intros j st st' t0 Hbody.
    apply bind_Some in Hbody. destruct Hbody as (b & t1 & t2 & Hb & Hbody & _).
    apply index_Some in Hb. destruct Hb as [Hb _].
    apply bind_Some in Hbody. destruct Hbody as (d & t3 & t4 & Hd & Hbody & _).
    apply index_Some in Hd. destruct Hd as [Hd _].
    apply setIndex_Some in Hbody. destruct Hbody as (_ & Hbody & _). subst st'.
    exists d, (assign FBalance (VBig b) d).
    split; [exact Hd|]. split; [reflexivity|]. exists b. auto.
  - apply NoDup_ListNoDup, seq_NoDup.
Qed.

Lemma postprocess_exact rp opts ds ds' t :
  postprocess rp opts ds = Some (ds', t) ->
  forall j d, ds !! j = Some d ->
    ds' !! j =
      Some (assign FDepositType
              (VDeposit (MinipoolDepositOf (DepositTypeRaw d)))
              (assign FStatus (VStatus (MinipoolStatusOf (StatusRaw d))) d)).
Proof.
  intros Hrun. unfold postprocess in Hrun.
  eapply (forEach_records (fun s => s)
            (fun _ d d' =>
               d' = assign FDepositType
                      (VDeposit (MinipoolDepositOf (DepositTypeRaw d)))
                      (assign FStatus (VStatus (MinipoolStatusOf (StatusRaw d))) d)))
    in Hrun.
  - destruct Hrun as (_ & _ & Hin). intros j d Hd.
    destruct (Hin j) as (d0 & d' & Hd0 & Hd' & ->).
    { rewrite in_seq. apply lookup_lt_Some in Hd. lia. }
    rewrite Hd'. congruence.
  - intros j st st' t0 Hbody.
    apply bind_Some in Hbody. destruct Hbody as (d & t1 & t2 & Hd & Hbody & _).
    apply index_Some in Hd. destruct Hd as [Hd _].
    apply bind_Some in Hbody. destruct Hbody as ([d' e] & t3 & t4 & Hfix & Hbody & _).
    unfold fixupMinipoolDetails in Hfix. apply ret_Some in Hfix.
    destruct Hfix as [[= -> _] _].
    apply setIndex_Some in Hbody. destruct Hbody as (_ & Hbody & _). subst st'.
    do 2 eexists. split; [exact Hd|]. split; reflexivity.
  - apply NoDup_ListNoDup, seq_NoDup.
Qed.

(** X5. [getBulkMinipoolDetails] does not look at the errors of
    [addMinipoolDetailsCalls] and [addMinipoolShareCalls] either: in a run
    that returns a nil error, the record of an address whose minipool binding
    cannot be created for its version is returned all the same, with nothing
    but its address, its version and its balance set. *)
Theorem getBulkMinipoolDetails_unbound_record (rp : RocketPool)
    (contracts : NetworkContracts) (addresses : list Address) (versions : list uint8)
    (opts : CallOpts) (result : list NativeMinipoolDetails) (t : Trace)
    (j : nat) (a : Address) (v : uint8) (err : Error) :
  getBulkMinipoolDetails rp contracts addresses versions opts
    = Some ((Some result, None), t) ->
  addresses !! j = Some a ->
  versions !! j = Some v ->
  NewMinipoolFromVersion rp a v = inl err ->
  exists balance,
    fst (balancesAt (BalanceBatcher_ contracts) (BlockNumber_ opts) addresses) !! j
      = Some balance /\
    result !! j = Some (unpopulated a v balance).
Proof.
  intros Hrun Ha Hv Hfail.
  destruct (getBulkMinipoolDetails_stages _ _ _ _ _ _ _ Hrun)
    as (ds0 & t0 & ds1 & t1 & ds2 & t2 & t3 & Hload & Hr1 & Hr2 & Hpost).
  assert (Hj : (j < length addresses)%nat) by (eapply lookup_lt_Some; exact Ha).
  assert (He : replicate (length addresses) emptyDetails !! j = Some emptyDetails).
  { apply lookup_replicate_2. exact Hj. }
  destruct (loadBalances_exact _ _ _ _ Hload j _ He) as (b & Hb & Hd0).
  destruct (detailsRound1_unbound _ _ _ _ _ _ _ _ Hr1 j Hj)
    as (d0 & d1 & Hd0' & Hd1 & Hrel1).
  rewrite Hd0 in Hd0'. injection Hd0' as <-.
  rewrite (Hrel1 a v err Ha Hv Hfail) in Hd1.
  destruct (detailsRound2_unbound _ _ _ _ _ _ _ _ Hr2 j Hj)
    as (d1' & d2 & Hd1' & Hd2 & Hrel2).
  rewrite Hd1 in Hd1'. injection Hd1' as <-.
  rewrite (Hrel2 v err Hv Hfail) in Hd2.
  exists b. split; [exact Hb|].
  rewrite (postprocess_exact _ _ _ _ _ Hpost j _ Hd2). reflexivity.
Qed.

Lemma getBulkMinipoolDetails_unbound_record_witness :
  exists result t,
    getBulkMinipoolDetails Demo.rp (Demo.contracts (Demo.client 2)) [2; 3; 4]%N
      [3; 0; 3] Demo.opts = Some ((Some result, None), t) /\
    result !! 1%nat = Some (unpopulated 3%N 0 (Some 30)) /\
    Exists <$> result = [true; false; true].
Proof.
  destruct (getBulkMinipoolDetails Demo.rp (Demo.contracts (Demo.client 2)) [2; 3; 4]%N
              [3; 0; 3] Demo.opts) as [[[[result|] [e|]] t]|] eqn:Hrun;
    try (exfalso;
         assert (Hsome : match getBulkMinipoolDetails Demo.rp
                                 (Demo.contracts (Demo.client 2)) [2; 3; 4]%N
                                 [3; 0; 3] Demo.opts with
                         | Some ((Some _, None), _) => true
                         | _ => false
                         end = true) by (vm_compute; reflexivity);
         rewrite Hrun in Hsome; discriminate Hsome).
  destruct (getBulkMinipoolDetails_unbound_record
              Demo.rp (Demo.contracts (Demo.client 2)) [2; 3; 4]%N [3; 0; 3] Demo.opts
              result t 1%nat 3%N 0 (ErrMsg "unexpected minipool contract version")
              Hrun eq_refl eq_refl eq_refl) as (b & Hb & Hrec).
  injection Hb as <-.
  exists result, t. split; [reflexivity|]. split; [exact Hrec|].
  assert (Hex : match getBulkMinipoolDetails Demo.rp
                        (Demo.contracts (Demo.client 2)) [2; 3; 4]%N
                        [3; 0; 3] Demo.opts with
                | Some ((Some r, _), _) => Exists <$> r
                | _ => []
                end = [true; false; true]) by (vm_compute; reflexivity).
  rewrite Hrun in Hex. exact Hex.
Defined.

(** * Complete shares *)

(** ** Loops that may return an error *)

Lemma forEachErr_inv {A S} (I : S -> Prop) (xs : list A)
    (body : A -> S -> Net (S * option Error)) (s s' : S) e (t : Trace) :
  (forall x s s' e t, In x xs -> I s -> body x s = Some ((s', e), t) -> I s') ->
  I s -> forEachErr xs body s = Some ((s', e), t) -> I s'.
Proof.
  revert s t. induction xs as [|x xs IH]; intros s t Hbody Hs Hrun; simpl in Hrun.
  - apply ret_Some in Hrun. destruct Hrun as [[= -> _] _]. exact Hs.
  - apply bind_Some in Hrun. destruct Hrun as ([s1 e1] & t1 & t2 & Hx & Hrest & _).
    assert (Hs1 : I s1) by (eapply Hbody; [left; reflexivity|exact Hs|exact Hx]).
    destruct e1 as [e1|].
    + apply ret_Some in Hrest. destruct Hrest as [[= -> _] _]. exact Hs1.
    + eapply IH; [|exact Hs1|exact Hrest].
      intros y u u' eu tu Hy. apply Hbody. right. exact Hy.
Qed.

(* A loop that ran to its end ran its first part to the end, then the rest. *)
Lemma forEachErr_app {A S} (xs ys : list A) (body : A -> S -> Net (S * option Error))
    (s s' : S) (t : Trace) :
  forEachErr (xs ++ ys) body s = Some ((s', None), t) ->
  exists s1 t1 t2,
    forEachErr xs body s = Some ((s1, None), t1) /\
    forEachErr ys body s1 = Some ((s', None), t2) /\ t = t1 ++ t2.
Proof.
  revert s t. induction xs as [|x xs IH]; intros s t Hrun; simpl in Hrun.
  - exists s, [], t. auto.
  - apply bind_Some in Hrun. destruct Hrun as ([s1 e1] & t1 & t2 & Hx & Hrest & ->).
    destruct e1 as [e1|]; [apply ret_Some in Hrest; destruct Hrest as [[=] _]|].
    destruct (IH _ _ Hrest) as (s2 & t3 & t4 & Hxs & Hys & ->).
    exists s2, (t1 ++ t3), t4. split; [|split; [exact Hys|apply app_assoc]].
    simpl. rewrite (bind_run _ _ _ _ Hx). cbv beta iota. rewrite Hxs. reflexivity.
Qed.

(* If the iteration for [x] returns an error from every state the loop can
   be in, the loop returns an error. *)
Lemma forEachErr_fails {A S} (I : S -> Prop) (xs : list A) (x : A)
    (body : A -> S -> Net (S * option Error)) (s s' : S) e (t : Trace) :
  In x xs ->
  (forall y s s' e t, In y xs -> I s -> body y s = Some ((s', e), t) -> I s') ->
  (forall s s' e t, I s -> body x s = Some ((s', e), t) -> e <> None) ->
  I s -> forEachErr xs body s = Some ((s', e), t) -> e <> None.
Proof.
  revert s t. induction xs as [|y xs IH]; intros s t Hin Hinv Hfail Hs Hrun; [destruct Hin|].
  simpl in Hrun.
  apply bind_Some in Hrun. destruct Hrun as ([s1 e1] & t1 & t2 & Hy & Hrest & _).
  destruct e1 as [e1|].
  - apply ret_Some in Hrest. destruct Hrest as [[= _ ->] _]. discriminate.
  - destruct Hin as [->|Hin].
    + exfalso. eapply Hfail; [exact Hs|exact Hy|reflexivity].
    + eapply IH; [exact Hin| |exact Hfail| |exact Hrest].
      * intros z u u' eu tu Hz. apply Hinv. right. exact Hz.
      * eapply Hinv; [left; reflexivity|exact Hs|exact Hy].
Qed.

Lemma errgroupGo_inv {S} (I : S -> Prop) (tasks : list (S -> Net (S * option Error)))
    (s s' : S) errs (t : Trace) :
  Forall (fun task => forall s s' e t, I s -> task s = Some ((s', e), t) -> I s') tasks ->
  I s -> errgroupGo tasks s = Some ((s', errs), t) -> I s'.
Proof.
  intros Htasks. revert s errs t.
  induction Htasks as [|task rest Htask _ IH]; intros s errs t Hs Hrun; simpl in Hrun.
  - apply ret_Some in Hrun. destruct Hrun as [[= -> _] _]. exact Hs.
  - apply bind_Some in Hrun. destruct Hrun as ([s1 e1] & t1 & t2 & Hhead & Hrun & _).
    apply bind_Some in Hrun. destruct Hrun as ([s2 es] & t3 & t4 & Hrest & Hrun & _).
    apply ret_Some in Hrun. destruct Hrun as [[= -> _] _].
    eapply IH; [|exact Hrest]. eapply Htask; eassumption.
Qed.

(* If one goroutine returns an error from every state it can be started in,
   the group's Wait returns an error. *)
Lemma errgroupGo_fails {S} (I : S -> Prop) (tasks : list (S -> Net (S * option Error)))
    (task : S -> Net (S * option Error)) (s s' : S) errs (t : Trace) :
  In task tasks ->
  Forall (fun task => forall s s' e t, I s -> task s = Some ((s', e), t) -> I s') tasks ->
  (forall s s' e t, I s -> task s = Some ((s', e), t) -> e <> None) ->
  I s -> errgroupGo tasks s = Some ((s', errs), t) -> firstError errs <> None.
Proof.
  intros Hin Htasks Hfail. revert s errs t.
  induction Htasks as [|task' rest Htask _ IH]; intros s errs t Hs Hrun; [destruct Hin|].
  simpl in Hrun.
  apply bind_Some in Hrun. destruct Hrun as ([s1 e1] & t1 & t2 & Hhead & Hrun & _).
  apply bind_Some in Hrun. destruct Hrun as ([s2 es] & t3 & t4 & Hrest & Hrun & _).
  apply ret_Some in Hrun. destruct Hrun as [[= -> ->] _]. simpl.
  destruct e1 as [e1|]; [discriminate|].
  destruct Hin as [->|Hin].
  - exfalso. eapply Hfail; [exact Hs|exact Hhead|reflexivity].
  - eapply IH; [exact Hin| |exact Hrest]. eapply Htask; eassumption.
Qed.

(** ** What the function may write *)

Definition isCompleteShare (f : Field) : bool :=
  match f with
  | FNodeShareOfBalanceIncludingBeacon | FUserShareOfBalanceIncludingBeacon
  | FNodeShareOfBeaconBalance | FUserShareOfBeaconBalance => true
  | _ => false
  end.

(* [h'] is the heap [h] after writes to the four complete-share fields of
   records that [ptrs] points to. *)
Definition sharesWritten (ptrs : list nat) (h h' : list NativeMinipoolDetails) : Prop :=
  length h' = length h /\
  (forall p d, h !! p = Some d ->
     exists d', h' !! p = Some d' /\ overwritten isCompleteShare d d') /\
  (forall p, ~ In p ptrs -> h' !! p = h !! p).

Lemma sharesWritten_refl ptrs h : sharesWritten ptrs h h.
Proof.
  split; [reflexivity|]. split; [|reflexivity].
  intros p d Hd. exists d. split; [exact Hd|constructor].
Qed.

Lemma sharesWritten_trans ptrs h1 h2 h3 :
  sharesWritten ptrs h1 h2 -> sharesWritten ptrs h2 h3 -> sharesWritten ptrs h1 h3.
Proof.
  intros (Hl1 & Ho1 & Hf1) (Hl2 & Ho2 & Hf2).
  split; [congruence|]. split.
  - intros p d Hd. destruct (Ho1 p d Hd) as (d1 & Hd1 & Hov1).
    destruct (Ho2 p d1 Hd1) as (d2 & Hd2 & Hov2).
    exists d2. split; [exact Hd2|]. eapply overwritten_trans; eassumption.
  - intros p Hp. rewrite Hf2 by exact Hp. apply Hf1. exact Hp.
Qed.

Lemma sharesWritten_insert ptrs h p d d' :
  h !! p = Some d -> In p ptrs -> overwritten isCompleteShare d d' ->
  sharesWritten ptrs h (<[p := d']> h).
Proof.
  intros Hd Hp Hov. split; [apply length_insert|]. split.
  - intros q dq Hq. destruct (Nat.eq_dec p q) as [<-|Hne].
    + rewrite list_lookup_insert_eq by (eapply lookup_lt_Some; exact Hd).
      exists d'. split; [reflexivity|]. congruence.
    + rewrite list_lookup_insert_ne by exact Hne.
      exists dq. split; [exact Hq|constructor].
  - intros q Hq. apply list_lookup_insert_ne. intros ->. contradiction.
Qed.

(* A call queued by the function: bound to a complete-share field of a
   record the slice points to. *)
Definition completeShareCall (ptrs : list nat) (c : Call (nat * Field)) : Prop :=
  In (fst (call_output c)) ptrs /\ boundTo isCompleteShare c.

(* The two calls queued for a positive amount, and the zeros stored for any
   other amount. *)
Definition shareCalls (mp : Contract) (p : nat) (fNode fUser : Field) (x : Z)
  : list (Call (nat * Field)) :=
  if 0 <? x then
    [{| call_desc := {| cd_target := mp; cd_method := "calculateNodeShare";
                        cd_args := [VBig (Some x)] |};
        call_output := (p, fNode) |};
     {| call_desc := {| cd_target := mp; cd_method := "calculateUserShare";
                        cd_args := [VBig (Some x)] |};
        call_output := (p, fUser) |}]
  else [].

Definition shareDefaults (fNode fUser : Field) (x : Z) (d : NativeMinipoolDetails)
  : NativeMinipoolDetails :=
  if 0 <? x then d
  else assign fUser (VBig (Some 0)) (assign fNode (VBig (Some 0)) d).

(* What one iteration did, read off its result. *)
Definition completeShareStepResult (rp : RocketPool) (beaconBalances : list BigInt)
    (j p : nat) (d : NativeMinipoolDetails)
    (st st' : MultiCaller (nat * Field) * list NativeMinipoolDetails)
    (e : option Error) : Prop :=
  match NewMinipoolFromVersion rp (MinipoolAddress d) (Version d) with
  | inl err => st' = st /\ e = Some err
  | inr mp =>
      exists bb b r,
        beaconBalances !! j = Some (Some bb) /\
        Balance d = Some b /\ NodeRefundBalance d = Some r /\
        e = None /\
        mc_client (fst st') = mc_client (fst st) /\
        mc_calls (fst st') =
          mc_calls (fst st)
          ++ shareCalls mp p FNodeShareOfBeaconBalance FUserShareOfBeaconBalance bb
          ++ shareCalls mp p FNodeShareOfBalanceIncludingBeacon
               FUserShareOfBalanceIncludingBeacon (bb + b - r) /\
        snd st' =
          <[p := shareDefaults FNodeShareOfBalanceIncludingBeacon
                   FUserShareOfBalanceIncludingBeacon (bb + b - r)
                   (shareDefaults FNodeShareOfBeaconBalance FUserShareOfBeaconBalance
                      bb d)]> (snd st)
  end.

Lemma sign_positive (x : Z) :
  (match x ?= zero with Lt => -1 | Eq => 0 | Gt => 1 end >? 0) = (0 <? x).
Proof.
  unfold zero. destruct (Z.compare_spec x 0) as [->|H|H]; simpl.
  - reflexivity.
  - symmetry. apply Z.ltb_ge. lia.
  - symmetry. apply Z.ltb_lt. lia.
Qed.

Lemma completeShareStep_inv rp minipoolDetails beaconBalances j st st' e t :
  completeShareStep rp minipoolDetails beaconBalances j st = Some ((st', e), t) ->
  exists p d,
    minipoolDetails !! j = Some p /\ snd st !! p = Some d /\ t = [] /\
    completeShareStepResult rp beaconBalances j p d st st' e.
Proof.
  unfold completeShareStep, completeShareStepResult. intros Hrun.
  apply bind_Some in Hrun. destruct Hrun as (p & t1 & t2 & Hp & Hrun & ->).
  apply index_Some in Hp. destruct Hp as [Hp ->].
  apply bind_Some in Hrun. destruct Hrun as (d & t3 & t4 & Hd & Hrun & ->).
  apply index_Some in Hd. destruct Hd as [Hd ->].
  exists p, d. split; [exact Hp|]. split; [exact Hd|].
  destruct (NewMinipoolFromVersion rp (MinipoolAddress d) (Version d)) as [err|mp].
  { apply ret_Some in Hrun. destruct Hrun as [[= -> ->] ->]. auto. }
  apply bind_Some in Hrun. destruct Hrun as (raw & t5 & t6 & Hraw & Hrun & ->).
  apply index_Some in Hraw. destruct Hraw as [Hraw ->].
  destruct raw as [bb|]; [|discriminate Hrun].
  apply bind_Some in Hrun. destruct Hrun as (bb' & t7 & t8 & Hbb & Hrun & ->).
  apply ret_Some in Hbb. destruct Hbb as [-> ->].
  apply bind_Some in Hrun. destruct Hrun as (sign & t9 & t10 & Hsign & Hrun & ->).
  apply ret_Some in Hsign. destruct Hsign as [-> ->].
  rewrite sign_positive in Hrun.
  set (st1 := if 0 <? bb
              then (CalculateUserShare mp
                      (CalculateNodeShare mp (fst st) (p, FNodeShareOfBeaconBalance) bb)
                      (p, FUserShareOfBeaconBalance) bb, d)
              else (fst st,
                    assign FUserShareOfBeaconBalance (VBig (Some 0))
                      (assign FNodeShareOfBeaconBalance (VBig (Some 0)) d))) in Hrun.
  assert (Hst1 : mc_client (fst st1) = mc_client (fst st) /\
                 mc_calls (fst st1) =
                   mc_calls (fst st)
                   ++ shareCalls mp p FNodeShareOfBeaconBalance
                        FUserShareOfBeaconBalance bb /\
                 snd st1 = shareDefaults FNodeShareOfBeaconBalance
                             FUserShareOfBeaconBalance bb d /\
                 Balance (snd st1) = Balance d /\
                 NodeRefundBalance (snd st1) = NodeRefundBalance d).
  { unfold st1, shareCalls, shareDefaults. destruct (0 <? bb); cbn [fst snd].
    - unfold CalculateUserShare, CalculateNodeShare.
      rewrite !AddCall_calls, <- !app_assoc. auto.
    - rewrite app_nil_r. auto. }
  destruct Hst1 as (Hc1 & Hq1 & Hd1 & Hb1 & Hr1).
  destruct st1 as [mc1 d1]. simpl in Hc1, Hq1, Hd1, Hb1, Hr1. cbv beta iota in Hrun.
  apply bind_Some in Hrun. destruct Hrun as (raw' & t11 & t12 & Hraw' & Hrun & ->).
  apply index_Some in Hraw'. destruct Hraw' as [Hraw' ->].
  rewrite Hraw in Hraw'. injection Hraw' as <-.
  apply bind_Some in Hrun. destruct Hrun as (bb' & t13 & t14 & Hbb & Hrun & ->).
  apply ret_Some in Hbb. destruct Hbb as [-> ->].
  apply bind_Some in Hrun. destruct Hrun as (tot1 & t15 & t16 & Hadd & Hrun & ->).
  rewrite Hb1 in Hadd. unfold bigAdd in Hadd.
  destruct (Balance d) as [b|]; [|discriminate Hadd].
  apply ret_Some in Hadd. destruct Hadd as [-> ->].
  apply bind_Some in Hrun. destruct Hrun as (tot & t17 & t18 & Hsub & Hrun & ->).
  rewrite Hr1 in Hsub. unfold bigSub in Hsub.
  destruct (NodeRefundBalance d) as [r|]; [|discriminate Hsub].
  apply ret_Some in Hsub. destruct Hsub as [-> ->].
  apply bind_Some in Hrun. destruct Hrun as (sign & t19 & t20 & Hsign & Hrun & ->).
  apply ret_Some in Hsign. destruct Hsign as [-> ->].
  rewrite sign_positive in Hrun.
  set (st2 := if 0 <? bb + b - r
              then (CalculateUserShare mp
                      (CalculateNodeShare mp mc1
                         (p, FNodeShareOfBalanceIncludingBeacon) (bb + b - r))
                      (p, FUserShareOfBalanceIncludingBeacon) (bb + b - r), d1)
              else (mc1,
                    assign FUserShareOfBalanceIncludingBeacon (VBig (Some 0))
                      (assign FNodeShareOfBalanceIncludingBeacon (VBig (Some 0)) d1)))
    in Hrun.
  assert (Hst2 : mc_client (fst st2) = mc_client mc1 /\
                 mc_calls (fst st2) =
                   mc_calls mc1
                   ++ shareCalls mp p FNodeShareOfBalanceIncludingBeacon
                        FUserShareOfBalanceIncludingBeacon (bb + b - r) /\
                 snd st2 = shareDefaults FNodeShareOfBalanceIncludingBeacon
                             FUserShareOfBalanceIncludingBeacon (bb + b - r) d1).
  { unfold st2, shareCalls, shareDefaults. destruct (0 <? bb + b - r); cbn [fst snd].
    - unfold CalculateUserShare, CalculateNodeShare.
      rewrite !AddCall_calls, <- !app_assoc. auto.
    - rewrite app_nil_r. auto. }
  destruct Hst2 as (Hc2 & Hq2 & Hd2).
  destruct st2 as [mc2 d2]. simpl in Hc2, Hq2, Hd2. cbv beta iota in Hrun.
  apply bind_Some in Hrun. destruct Hrun as (heap' & t21 & t22 & Hset & Hrun & ->).
  apply setIndex_Some in Hset. destruct Hset as (_ & -> & ->).
  apply ret_Some in Hrun. destruct Hrun as [[= -> ->] ->].
  split; [reflexivity|].
  exists bb, b, r. simpl.
  split; [exact Hraw|]. split; [reflexivity|]. split; [reflexivity|].
  split; [reflexivity|]. split; [congruence|].
  split; [rewrite Hq2, Hq1, app_assoc; reflexivity|].
  rewrite Hd2, Hd1. reflexivity.
Qed.

Lemma shareCalls_bound ptrs mp p fNode fUser x :
  In p ptrs -> isCompleteShare fNode = true -> isCompleteShare fUser = true ->
  Forall (completeShareCall ptrs) (shareCalls mp p fNode fUser x).
Proof.
  intros Hp Hn Hu. unfold shareCalls. destruct (0 <? x); repeat constructor; assumption.
Qed.

Lemma shareDefaults_overwritten fNode fUser x d :
  isCompleteShare fNode = true -> isCompleteShare fUser = true ->
  overwritten isCompleteShare d (shareDefaults fNode fUser x d).
Proof.
  intros Hn Hu. unfold shareDefaults. destruct (0 <? x); [constructor|].
  apply ow_step; [|exact Hu]. apply ow_step; [constructor|exact Hn].
Qed.

Lemma completeShareStep_frame rp minipoolDetails beaconBalances j st st' e t :
  completeShareStep rp minipoolDetails beaconBalances j st = Some ((st', e), t) ->
  sharesWritten minipoolDetails (snd st) (snd st') /\
  mc_client (fst st') = mc_client (fst st) /\
  (exists new, mc_calls (fst st') = mc_calls (fst st) ++ new /\
               Forall (completeShareCall minipoolDetails) new) /\
  t = [].
Proof.
  intros Hrun. apply completeShareStep_inv in Hrun.
  destruct Hrun as (p & d & Hp & Hd & -> & Hres).
  assert (Hin : In p minipoolDetails).
  { apply list_elem_of_In. eapply list_elem_of_lookup_2. exact Hp. }
  unfold completeShareStepResult in Hres.
  destruct (NewMinipoolFromVersion rp (MinipoolAddress d) (Version d)) as [err|mp].
  - destruct Hres as [-> ->].
    split; [apply sharesWritten_refl|]. split; [reflexivity|]. split; [|reflexivity].
    exists []. split; [symmetry; apply app_nil_r|constructor].
  - destruct Hres as (bb & b & r & _ & _ & _ & _ & Hc & Hq & Hh).
    split; [|split; [exact Hc|split; [|reflexivity]]].
    + rewrite Hh. apply sharesWritten_insert with (d := d); [exact Hd|exact Hin|].
      eapply overwritten_trans; apply shareDefaults_overwritten; reflexivity.
    + eexists. split; [exact Hq|].
      apply Forall_app. split; apply shareCalls_bound; auto.
Qed.

(* The state of the queueing loop of one goroutine: the heap it was started
   on changed in complete-share fields only, and every call queued is bound
   to such a field. *)
Definition completeShareLoop (rp : RocketPool) (ptrs : list nat)
    (h : list NativeMinipoolDetails)
    (st : MultiCaller (nat * Field) * list NativeMinipoolDetails) : Prop :=
  sharesWritten ptrs h (snd st) /\
  mc_client (fst st) = Client rp /\
  Forall (completeShareCall ptrs) (mc_calls (fst st)).

Lemma completeShareLoop_step rp minipoolDetails beaconBalances h j st st' e t :
  completeShareLoop rp minipoolDetails h st ->
  completeShareStep rp minipoolDetails beaconBalances j st = Some ((st', e), t) ->
  completeShareLoop rp minipoolDetails h st'.
Proof.
  intros (Hw & Hc & HF) Hrun. apply completeShareStep_frame in Hrun.
  destruct Hrun as (Hw' & Hc' & (new & Hnew & HF') & _).
  split; [eapply sharesWritten_trans; eassumption|].
  split; [congruence|]. rewrite Hnew. apply Forall_app. auto.
Qed.

Lemma FlexibleCall_sharesWritten ptrs (mc : MultiCaller (nat * Field)) strict opts
    (s s' : list NativeMinipoolDetails) rs err t :
  FlexibleCall mc strict opts s = Some ((rs, err, s'), t) ->
  Forall (completeShareCall ptrs) (mc_calls mc) ->
  sharesWritten ptrs s s'.
Proof.
  intros Hrun HF.
  assert (HB : Forall (boundTo isCompleteShare) (mc_calls mc)).
  { eapply Forall_impl; [exact HF|]. intros c [_ Hb]. exact Hb. }
  destruct (FlexibleCall_details _ _ _ _ _ _ _ _ _ Hrun HB) as (Hlen & Hov & Hfr).
  split; [exact Hlen|]. split; [exact Hov|].
  intros p Hp. apply Hfr. eapply Forall_impl; [exact HF|].
  intros c [Hin _] Heq. apply Hp. rewrite <- Heq. exact Hin.
Qed.

Lemma completeSharesChunk_frame rp contracts minipoolDetails beaconBalances opts
    i max heap heap' e t :
  completeSharesChunk rp contracts minipoolDetails beaconBalances opts i max heap
    = Some ((heap', e), t) ->
  sharesWritten minipoolDetails heap heap'.
Proof.
  unfold completeSharesChunk, NewMultiCaller.
  destruct (eth_bind (Client rp) (Multicaller_ContractAddress contracts)) as [eb|].
  { intros Hrun. apply ret_Some in Hrun. destruct Hrun as [[= -> _] _].
    apply sharesWritten_refl. }
  intros Hrun.
  apply bind_Some in Hrun. destruct Hrun as ([st err] & t1 & t2 & Hq & Hrun & _).
  assert (Hloop : completeShareLoop rp minipoolDetails heap st).
  { refine (forEachErr_inv (completeShareLoop rp minipoolDetails heap) _ _ _ _ _ _ _ _ Hq).
    - intros j s s' e0 t0 _ Hs Hbody. eapply completeShareLoop_step; eassumption.
    - split; [apply sharesWritten_refl|]. split; [reflexivity|constructor]. }
  destruct Hloop as (Hw & _ & HF).
  destruct err as [err|].
  { apply ret_Some in Hrun. destruct Hrun as [[= -> _] _]. exact Hw. }
  apply bind_Some in Hrun. destruct Hrun as ([[rs err] h2] & t3 & t4 & Hcall & Hrun & _).
  apply ret_Some in Hrun. destruct Hrun as [[= -> _] _].
  eapply sharesWritten_trans; [exact Hw|].
  eapply FlexibleCall_sharesWritten; eassumption.
Qed.

Lemma CalculateCompleteMinipoolShares_tasks_frame rp contracts minipoolDetails
    beaconBalances opts (h : list NativeMinipoolDetails) bs :
  Forall (fun task : list NativeMinipoolDetails ->
                     Net (list NativeMinipoolDetails * option Error) =>
            forall s s' e t,
              sharesWritten minipoolDetails h s -> task s = Some ((s', e), t) ->
              sharesWritten minipoolDetails h s')
    (map (fun b => completeSharesChunk rp contracts minipoolDetails beaconBalances opts
                     (fst b) (snd b)) bs).
Proof.
  apply List.Forall_forall. intros task Hin. apply in_map_iff in Hin.
  destruct Hin as ([i max] & <- & _). simpl. intros s s' e t Hs Hrun.
  eapply sharesWritten_trans; [exact Hs|].
  eapply completeSharesChunk_frame. exact Hrun.
Qed.

(** X6. Whatever happens, [CalculateCompleteMinipoolShares] writes nothing
    but the four complete-share fields (the node and user shares of the
    beacon balance and of the balance including beacon) of records the slice
    points to: the heap keeps its size, a record nothing points to is left
    as it was, and every other field of every record keeps its value; this
    holds for a run that returns an error as well. *)
Theorem CalculateCompleteMinipoolShares_frame (rp : RocketPool)
    (contracts : NetworkContracts) (minipoolDetails : list nat)
    (beaconBalances : list BigInt) (heap heap' : list NativeMinipoolDetails)
    (e : option Error) (t : Trace) :
  CalculateCompleteMinipoolShares rp contracts minipoolDetails beaconBalances heap
    = Some ((heap', e), t) ->
  length heap' = length heap /\
  (forall p, ~ In p minipoolDetails -> heap' !! p = heap !! p) /\
  (forall p d, heap !! p = Some d ->
     exists d',
       heap' !! p = Some d' /\
       overwritten isCompleteShare d d' /\
       MinipoolAddress d' = MinipoolAddress d /\
       Version d' = Version d /\
       Balance d' = Balance d /\
       NodeRefundBalance d' = NodeRefundBalance d /\
       DistributableBalance d' = DistributableBalance d /\
       NodeShareOfBalance d' = NodeShareOfBalance d /\
       UserShareOfBalance d' = UserShareOfBalance d).
Proof.
  intros Hrun. unfold CalculateCompleteMinipoolShares, errgroupWait in Hrun.
  apply bind_Some in Hrun. destruct Hrun as ([h1 e1] & t1 & t2 & Hwait & Hrun & _).
  apply bind_Some in Hwait. destruct Hwait as ([h2 errs] & t3 & t4 & Hgo & Hwait & _).
  apply ret_Some in Hwait. destruct Hwait as [[= -> _] _].
  assert (Hh : heap' = h2).
  { destruct e1; apply ret_Some in Hrun; destruct Hrun as [[= -> _] _]; reflexivity. }
  subst heap'.
  assert (Hw : sharesWritten minipoolDetails heap h2).
  { refine (errgroupGo_inv (sharesWritten minipoolDetails heap) _ _ _ _ _ _ _ Hgo).
    - apply CalculateCompleteMinipoolShares_tasks_frame.
    - apply sharesWritten_refl. }
  destruct Hw as (Hlen & Hov & Hfr).
  split; [exact Hlen|]. split; [exact Hfr|].
  intros p d Hd. destruct (Hov p d Hd) as (d' & Hd' & Hov').
  exists d'. split; [exact Hd'|]. split; [exact Hov'|].
  repeat split.
  - apply (overwritten_keeps MinipoolAddress isCompleteShare); [keeps_field|exact Hov'].
  - apply (overwritten_keeps Version isCompleteShare); [keeps_field|exact Hov'].
  - apply (overwritten_keeps Balance isCompleteShare); [keeps_field|exact Hov'].
  - apply (overwritten_keeps NodeRefundBalance isCompleteShare);
      [keeps_field|exact Hov'].
  - apply (overwritten_keeps DistributableBalance isCompleteShare);
      [keeps_field|exact Hov'].
  - apply (overwritten_keeps NodeShareOfBalance isCompleteShare);
      [keeps_field|exact Hov'].
  - apply (overwritten_keeps UserShareOfBalance isCompleteShare);
      [keeps_field|exact Hov'].
Qed.

Lemma batches_In (size count j : nat) :
  (0 < size)%nat -> (j < count)%nat ->
  exists lo hi, In (lo, hi) (batches size count) /\ (lo <= j < hi)%nat.
Proof.
  intros Hsize Hj. destruct (batches_cover size count j Hsize Hj) as (lo & hi & Hk & Hin).
  exists lo, hi. split; [|exact Hin].
  apply list_elem_of_In. eapply list_elem_of_lookup_2. exact Hk.
Qed.

(** X7. Unlike the bulk fetch, [CalculateCompleteMinipoolShares] does return
    the error of a binding that cannot be created: if the slice points to a
    record for whose address and version [NewMinipoolFromVersion] fails,
    every run returns an error, wrapped as "error calculating minipool
    shares". *)
Theorem CalculateCompleteMinipoolShares_binding_error (rp : RocketPool)
    (contracts : NetworkContracts) (minipoolDetails : list nat)
    (beaconBalances : list BigInt) (heap heap' : list NativeMinipoolDetails)
    (e : option Error) (t : Trace) (j p : nat) (d : NativeMinipoolDetails)
    (err : Error) :
  minipoolDetails !! j = Some p ->
  heap !! p = Some d ->
  NewMinipoolFromVersion rp (MinipoolAddress d) (Version d) = inl err ->
  CalculateCompleteMinipoolShares rp contracts minipoolDetails beaconBalances heap
    = Some ((heap', e), t) ->
  exists cause, e = Some (ErrWrap "error calculating minipool shares" cause).
Proof.
  intros Hp Hd Hfail Hrun.
  unfold CalculateCompleteMinipoolShares, errgroupWait in Hrun.
  apply bind_Some in Hrun. destruct Hrun as ([h1 e1] & t1 & t2 & Hwait & Hrun & _).
  apply bind_Some in Hwait. destruct Hwait as ([h2 errs] & t3 & t4 & Hgo & Hwait & _).
  apply ret_Some in Hwait. destruct Hwait as [[= -> ->] _].
  assert (Herrs : firstError errs <> None).
  { assert (Hj : (j < length minipoolDetails)%nat) by (eapply lookup_lt_Some; exact Hp).
    destruct (batches_In minipoolCompleteShareBatchSize _ j
                ltac:(unfold minipoolCompleteShareBatchSize; lia) Hj)
      as (lo & hi & Hin & Hrange).
    refine (errgroupGo_fails (sharesWritten minipoolDetails heap) _
              (completeSharesChunk rp contracts minipoolDetails beaconBalances
                 {| BlockNumber_ := ElBlockNumber contracts |} lo hi)
              _ _ _ _ _ _ _ _ Hgo).
    - apply in_map_iff. exists (lo, hi). split; [reflexivity|exact Hin].
    - apply CalculateCompleteMinipoolShares_tasks_frame.
    - intros s s' e0 t0 Hs Hchunk. unfold completeSharesChunk, NewMultiCaller in Hchunk.
      destruct (eth_bind (Client rp) (Multicaller_ContractAddress contracts)) as [eb|].
      { apply ret_Some in Hchunk. destruct Hchunk as [[= _ ->] _]. discriminate. }
      apply bind_Some in Hchunk.
      destruct Hchunk as ([st err0] & t5 & t6 & Hq & Hchunk & _).
      assert (Herr0 : err0 <> None).
      { refine (forEachErr_fails
                  (fun st => sharesWritten minipoolDetails heap (snd st))
                  _ j _ _ _ _ _ _ _ _ _ Hq).
        - apply in_seq. lia.
        - intros y u u' eu tu _ Hu Hbody. apply completeShareStep_frame in Hbody.
          destruct Hbody as (Hw & _). eapply sharesWritten_trans; eassumption.
        - intros u u' eu tu (_ & Hov & _) Hbody.
          apply completeShareStep_inv in Hbody.
          destruct Hbody as (p' & d' & Hp' & Hd' & _ & Hres).
          rewrite Hp in Hp'. injection Hp' as <-.
          destruct (Hov p d Hd) as (d'' & Hd'' & Hov').
          rewrite Hd' in Hd''. injection Hd'' as <-.
          unfold completeShareStepResult in Hres.
          rewrite (overwritten_keeps MinipoolAddress isCompleteShare _ _
                     ltac:(keeps_field) Hov') in Hres.
          rewrite (overwritten_keeps Version isCompleteShare _ _
                     ltac:(keeps_field) Hov') in Hres.
          rewrite Hfail in Hres. destruct Hres as [_ ->]. discriminate.
        - exact Hs. }
      destruct err0 as [err0|]; [|contradiction].
      apply ret_Some in Hchunk. destruct Hchunk as [[= _ ->] _]. discriminate.
    - apply sharesWritten_refl. }
  destruct (firstError errs) as [cause|]; [|contradiction].
  apply ret_Some in Hrun. destruct Hrun as [[= _ ->] _]. eauto.
Qed.

(** ** What a strict batch leaves in a share field *)

Definition isShareField (f : Field) : bool :=
  match f with
  | FNodeShareOfBalance | FUserShareOfBalance
  | FNodeShareOfBalanceIncludingBeacon | FUserShareOfBalanceIncludingBeacon
  | FNodeShareOfBeaconBalance | FUserShareOfBeaconBalance => true
  | _ => false
  end.

(* [details.f], for the share fields *)
Definition shareField (f : Field) (d : NativeMinipoolDetails) : BigInt :=
  match f with
  | FNodeShareOfBalance => NodeShareOfBalance d
  | FUserShareOfBalance => UserShareOfBalance d
  | FNodeShareOfBalanceIncludingBeacon => NodeShareOfBalanceIncludingBeacon d
  | FUserShareOfBalanceIncludingBeacon => UserShareOfBalanceIncludingBeacon d
  | FNodeShareOfBeaconBalance => NodeShareOfBeaconBalance d
  | FUserShareOfBeaconBalance => UserShareOfBeaconBalance d
  | _ => None
  end.

Lemma shareField_assign_same f p d :
  isShareField f = true -> shareField f (assign f (VBig p) d) = p.
Proof. destruct f; intros H; try discriminate H; reflexivity. Qed.

Lemma shareField_assign_other f g v d :
  f <> g -> shareField f (assign g v d) = shareField f d.
Proof.
  intros Hne. destruct f; try reflexivity;
    destruct g; try congruence; destruct v; reflexivity.
Qed.

Lemma decodes_share f v :
  isShareField f = true -> decodes f v = true -> exists n, v = VBig (Some n).
Proof.
  intros Hf Hv. destruct f; try discriminate Hf;
    destruct v as [b|n|[n|]|a|p|h|s|t]; try discriminate Hv; eauto.
Qed.

Lemma unpack_details_inv (l : nat * Field) (v : Value)
    (s s' : list NativeMinipoolDetails) :
  unpack l v s = Some s' ->
  exists d, s !! fst l = Some d /\ decodes (snd l) v = true /\
            s' = <[fst l := assign (snd l) v d]> s.
Proof.
  unfold unpack, details_output.
  destruct (s !! fst l) as [d|]; [|discriminate].
  destruct (decodes (snd l) v); [|discriminate].
  intros [= <-]. eauto.
Qed.

Lemma execCalls_app {L S} `{Output L S} client block (xs ys : list (Call L)) (s : S) :
  execCalls client block (xs ++ ys) s =
    let '(rs1, s1) := execCalls client block xs s in
    let '(rs2, s2) := execCalls client block ys s1 in
    (rs1 ++ rs2, s2).
Proof.
  revert s. induction xs as [|c xs IH]; intros s; simpl.
  - destruct (execCalls client block ys s). reflexivity.
  - destruct (match eth_call client block (call_desc c) with
              | Some v => match unpack (call_output c) v s with
                          | Some s' => (true, s')
                          | None => (false, s)
                          end
              | None => (false, s)
              end) as [ok s1].
    rewrite IH. destruct (execCalls client block xs s1) as [rs1 s2].
    destruct (execCalls client block ys s2) as [rs2 s3]. reflexivity.
Qed.

(* A batch in which no call is bound to the field [f] of record [p] leaves
   that field as it was. *)
Lemma execCalls_slot_frame client block (calls : list (Call (nat * Field)))
    (s s' : list NativeMinipoolDetails) rs p f d :
  execCalls client block calls s = (rs, s') ->
  Forall (fun c => call_output c <> (p, f)) calls ->
  s !! p = Some d ->
  exists d', s' !! p = Some d' /\ shareField f d' = shareField f d.
Proof.
  revert s rs d. induction calls as [|c calls IH]; intros s rs d Hrun HF Hd; simpl in Hrun.
  - injection Hrun as <- <-. eauto.
  - apply Forall_cons in HF. destruct HF as [Hc HF].
    assert (Hstep : forall ok s1,
               (ok, s1) =
                 match eth_call client block (call_desc c) with
                 | Some v => match unpack (call_output c) v s with
                             | Some s0 => (true, s0)
                             | None => (false, s)
                             end
                 | None => (false, s)
                 end ->
               exists d1, s1 !! p = Some d1 /\ shareField f d1 = shareField f d).
    { intros ok s1 Hhead.
      destruct (eth_call client block (call_desc c)) as [v|];
        [|injection Hhead as -> ->; eauto].
      destruct (unpack (call_output c) v s) as [s0|] eqn:Hunpack;
        injection Hhead as -> ->; [|eauto].
      apply unpack_details_inv in Hunpack.
      destruct Hunpack as (d0 & Hd0 & _ & ->).
      destruct (Nat.eq_dec (fst (call_output c)) p) as [Hp|Hp].
      - rewrite Hp in *. rewrite Hd in Hd0. injection Hd0 as <-.
        rewrite list_lookup_insert_eq by (eapply lookup_lt_Some; exact Hd).
        eexists. split; [reflexivity|]. apply shareField_assign_other.
        intros Heq. apply Hc. destruct (call_output c) as [q g].
        simpl in Hp, Heq. rewrite Hp, Heq. reflexivity.
      - rewrite list_lookup_insert_ne by exact Hp. eauto. }
    destruct (match eth_call client block (call_desc c) with
              | Some v => match unpack (call_output c) v s with
                          | Some s0 => (true, s0)
                          | None => (false, s)
                          end
              | None => (false, s)
              end) as [ok s1] eqn:Hhead.
    destruct (Hstep ok s1 eq_refl) as (d1 & Hd1 & Hf1).
    destruct (execCalls client block calls s1) as [rs2 s2] eqn:Hrest.
    injection Hrun as <- <-.
    destruct (IH _ _ _ Hrest HF Hd1) as (d2 & Hd2 & Hf2).
    exists d2. split; [exact Hd2|congruence].
Qed.

(* In a batch whose calls all succeed, the last call bound to a share field
   of record [p] leaves in it the amount the remote side answered. *)
Lemma execCalls_slot_write client block (pre post : list (Call (nat * Field)))
    (c : Call (nat * Field)) (s s' : list NativeMinipoolDetails) rs p f d :
  execCalls client block (pre ++ c :: post) s = (rs, s') ->
  forallb Success rs = true ->
  call_output c = (p, f) -> isShareField f = true ->
  Forall (fun c' => call_output c' <> (p, f)) post ->
  s !! p = Some d ->
  exists n d',
    eth_call client block (call_desc c) = Some (VBig (Some n)) /\
    s' !! p = Some d' /\ shareField f d' = Some n.
Proof.
  intros Hrun Hok Hc Hf Hpost Hd. rewrite execCalls_app in Hrun.
  destruct (execCalls client block pre s) as [rs1 s1] eqn:Hpre.
  destruct (execCalls client block (c :: post) s1) as [rs2 s2] eqn:Hrest.
  injection Hrun as <- <-.
  rewrite forallb_app in Hok. apply andb_true_iff in Hok. destruct Hok as [_ Hok].
  simpl in Hrest.
  destruct (eth_call client block (call_desc c)) as [v|].
  - destruct (unpack (call_output c) v s1) as [s1'|] eqn:Hunpack.
    + destruct (execCalls client block post s1') as [rs3 s3] eqn:Hpost'.
      injection Hrest as <- <-.
      apply unpack_details_inv in Hunpack. rewrite Hc in Hunpack. simpl in Hunpack.
      destruct Hunpack as (d1 & Hd1 & Hdec & ->).
      destruct (decodes_share f v Hf Hdec) as [n ->].
      assert (Hd1' : <[p := assign f (VBig (Some n)) d1]> s1 !! p
                     = Some (assign f (VBig (Some n)) d1)).
      { apply list_lookup_insert_eq. eapply lookup_lt_Some. exact Hd1. }
      destruct (execCalls_slot_frame _ _ _ _ _ _ _ _ _ Hpost' Hpost Hd1')
        as (d' & Hd' & Hfd).
      exists n, d'. split; [reflexivity|]. split; [exact Hd'|].
      rewrite Hfd. apply shareField_assign_same. exact Hf.
    + destruct (execCalls client block post s1) as [rs3 s3].
      injection Hrest as <- <-. simpl in Hok. discriminate Hok.
  - destruct (execCalls client block post s1) as [rs3 s3].
    injection Hrest as <- <-. simpl in Hok. discriminate Hok.
Qed.

(* What a strict batch that returned no error did. *)
Lemma FlexibleCall_strict_ok {L S} `{Output L S} (mc : MultiCaller L) opts
    (s s' : S) rs t :
  FlexibleCall mc true opts s = Some ((rs, None, s'), t) ->
  execCalls (mc_client mc) (BlockNumber_ opts) (mc_calls mc) s = (rs, s') /\
  forallb Success rs = true.
Proof.
  unfold FlexibleCall. intros Hrun.
  apply bind_Some in Hrun. destruct Hrun as (u & t1 & t2 & _ & Hrun & _).
  destruct (eth_transport (mc_client mc) (BlockNumber_ opts) _) as [e|].
  { apply ret_Some in Hrun. destruct Hrun as [[=] _]. }
  destruct (execCalls (mc_client mc) (BlockNumber_ opts) (mc_calls mc) s)
    as [results s1].
  simpl in Hrun. destruct (forallb Success results) eqn:Hok; simpl in Hrun.
  - apply ret_Some in Hrun. destruct Hrun as [[= -> ->] _]. auto.
  - apply ret_Some in Hrun. destruct Hrun as [[=] _].
Qed.

(* The two share amounts a record holds for the argument [x] once a strict
   batch has run: zero when [x] is not positive, and otherwise what the
   minipool's calculateNodeShare(x) and calculateUserShare(x) answered. *)
Definition shareResult (client : EthClient) (block : BlockNumber) (mp : Contract)
    (x : Z) (node user : BigInt) : Prop :=
  if 0 <? x then
    exists n u,
      eth_call client block
        {| cd_target := mp; cd_method := "calculateNodeShare";
           cd_args := [VBig (Some x)] |} = Some (VBig (Some n)) /\
      node = Some n /\
      eth_call client block
        {| cd_target := mp; cd_method := "calculateUserShare";
           cd_args := [VBig (Some x)] |} = Some (VBig (Some u)) /\
      user = Some u
  else node = Some 0 /\ user = Some 0.

(* The two calls for the amount [x], and what a strict batch that carried
   them leaves in the two fields. *)
Definition sharePair (mp : Contract) (p : nat) (fNode fUser : Field) (x : Z)
  : list (Call (nat * Field)) :=
  [{| call_desc := {| cd_target := mp; cd_method := "calculateNodeShare";
                      cd_args := [VBig (Some x)] |};
      call_output := (p, fNode) |};
   {| call_desc := {| cd_target := mp; cd_method := "calculateUserShare";
                      cd_args := [VBig (Some x)] |};
      call_output := (p, fUser) |}].

Definition shareAnswers (client : EthClient) (block : BlockNumber) (mp : Contract)
    (x : Z) (node user : BigInt) : Prop :=
  exists n u,
    eth_call client block
      {| cd_target := mp; cd_method := "calculateNodeShare";
         cd_args := [VBig (Some x)] |} = Some (VBig (Some n)) /\
    node = Some n /\
    eth_call client block
      {| cd_target := mp; cd_method := "calculateUserShare";
         cd_args := [VBig (Some x)] |} = Some (VBig (Some u)) /\
    user = Some u.

Lemma execCalls_sharePair client block (pre post : list (Call (nat * Field)))
    (queued : bool) mp p fNode fUser x (s s' : list NativeMinipoolDetails) rs d :
  execCalls client block
    (pre ++ (if queued then sharePair mp p fNode fUser x else []) ++ post) s = (rs, s') ->
  forallb Success rs = true ->
  isShareField fNode = true -> isShareField fUser = true -> fNode <> fUser ->
  Forall (fun c => call_output c <> (p, fNode) /\ call_output c <> (p, fUser)) pre ->
  Forall (fun c => call_output c <> (p, fNode) /\ call_output c <> (p, fUser)) post ->
  s !! p = Some d ->
  (queued = false -> shareField fNode d = Some 0 /\ shareField fUser d = Some 0) ->
  exists d',
    s' !! p = Some d' /\
    if queued
    then shareAnswers client block mp x (shareField fNode d') (shareField fUser d')
    else shareField fNode d' = Some 0 /\ shareField fUser d' = Some 0.
Proof.
  intros Hrun Hok Hn Hu Hne Hpre Hpost Hd Hzero.
  unfold sharePair, shareAnswers in *. destruct queued.
  - set (cN := {| call_desc := {| cd_target := mp; cd_method := "calculateNodeShare";
                                  cd_args := [VBig (Some x)] |};
                  call_output := (p, fNode) |}) in *.
    set (cU := {| call_desc := {| cd_target := mp; cd_method := "calculateUserShare";
                                  cd_args := [VBig (Some x)] |};
                  call_output := (p, fUser) |}) in *.
    assert (HN : exists n d', eth_call client block (call_desc cN) = Some (VBig (Some n)) /\
                              s' !! p = Some d' /\ shareField fNode d' = Some n).
    { eapply (execCalls_slot_write client block pre (cU :: post) cN);
        [exact Hrun|exact Hok|reflexivity|exact Hn| |exact Hd].
      constructor.
      - simpl. intros [= Heq]. apply Hne. symmetry. exact Heq.
      - eapply Forall_impl; [exact Hpost|]. intros c [H1 _]. exact H1. }
    assert (HU : exists u d', eth_call client block (call_desc cU) = Some (VBig (Some u)) /\
                              s' !! p = Some d' /\ shareField fUser d' = Some u).
    { eapply (execCalls_slot_write client block (pre ++ [cN]) post cU);
        [|exact Hok|reflexivity|exact Hu| |exact Hd].
      - rewrite <- app_assoc. exact Hrun.
      - eapply Forall_impl; [exact Hpost|]. intros c [_ H2]. exact H2. }
    destruct HN as (n & d' & HcN & Hd' & HfN).
    destruct HU as (u & d'' & HcU & Hd'' & HfU).
    rewrite Hd' in Hd''. injection Hd'' as <-.
    exists d'. split; [exact Hd'|]. exists n, u. auto.
  - simpl in Hrun. destruct (Hzero eq_refl) as [HzN HzU].
    assert (HFN : Forall (fun c => call_output c <> (p, fNode)) (pre ++ post)).
    { apply Forall_app. split; (eapply Forall_impl; [eassumption|]); intros c [H1 _];
        exact H1. }
    assert (HFU : Forall (fun c => call_output c <> (p, fUser)) (pre ++ post)).
    { apply Forall_app. split; (eapply Forall_impl; [eassumption|]); intros c [_ H2];
        exact H2. }
    destruct (execCalls_slot_frame _ _ _ _ _ _ _ _ _ Hrun HFN Hd) as (d' & Hd' & HfN).
    destruct (execCalls_slot_frame _ _ _ _ _ _ _ _ _ Hrun HFU Hd) as (d'' & Hd'' & HfU).
    rewrite Hd' in Hd''. injection Hd'' as <-.
    exists d'. split; [exact Hd'|]. split; congruence.
Qed.

Lemma execCalls_shareCalls client block (pre post : list (Call (nat * Field)))
    mp p fNode fUser x (s s' : list NativeMinipoolDetails) rs d :
  execCalls client block (pre ++ shareCalls mp p fNode fUser x ++ post) s = (rs, s') ->
  forallb Success rs = true ->
  isShareField fNode = true -> isShareField fUser = true -> fNode <> fUser ->
  Forall (fun c => call_output c <> (p, fNode) /\ call_output c <> (p, fUser)) pre ->
  Forall (fun c => call_output c <> (p, fNode) /\ call_output c <> (p, fUser)) post ->
  s !! p = Some d ->
  ((0 <? x) = false -> shareField fNode d = Some 0 /\ shareField fUser d = Some 0) ->
  exists d',
    s' !! p = Some d' /\
    shareResult client block mp x (shareField fNode d') (shareField fUser d').
Proof.
  intros Hrun Hok Hn Hu Hne Hpre Hpost Hd Hzero.
  exact (execCalls_sharePair client block pre post (0 <? x) mp p fNode fUser x
           s s' rs d Hrun Hok Hn Hu Hne Hpre Hpost Hd Hzero).
Qed.

(** ** Goroutines over a slice of pointers *)

Section PointerRun.
Context {D : Type} (ptrs : list nat) (R : nat -> D -> D -> Prop).
Context (task : nat -> nat -> list D -> Net (list D * option Error)).
Context (size count : nat).

Hypothesis ptrs_NoDup : NoDup ptrs.

(* A goroutine for [i, max) leaves alone what the pointers of its range do
   not point to; when it returns no error, the record each of them points to
   is related to what it was. *)
Hypothesis task_away : forall i max h h' e t p,
  task i max h = Some ((h', e), t) ->
  (forall j, (i <= j < max)%nat -> ptrs !! j <> Some p) ->
  h' !! p = h !! p.
Hypothesis task_spec : forall i max h h' t,
  task i max h = Some ((h', None), t) ->
  forall j, (i <= j < max)%nat ->
    exists p d d', ptrs !! j = Some p /\ h !! p = Some d /\ h' !! p = Some d' /\ R j d d'.

Lemma errgroupGo_pointers (fuel i : nat) (h h' : list D) errs t :
  (0 < size)%nat -> (count <= i + fuel * size)%nat ->
  errgroupGo (map (fun b => task (fst b) (snd b)) (batchLoop fuel size count i)) h
    = Some ((h', errs), t) ->
  (forall p, (forall j, (i <= j < count)%nat -> ptrs !! j <> Some p) ->
     h' !! p = h !! p) /\
  (firstError errs = None -> forall j, (i <= j < count)%nat ->
     exists p d d', ptrs !! j = Some p /\ h !! p = Some d /\ h' !! p = Some d' /\ R j d d').
Proof using ptrs_NoDup task_away task_spec.
  intros Hsize. revert i h errs t.
  induction fuel as [|fuel IH]; intros i h errs t Hfuel Hrun; simpl in Hrun.
  - apply ret_Some in Hrun. destruct Hrun as [[= -> ->] _].
    split; [reflexivity|]. intros _ j Hj. lia.
  - destruct (Nat.ltb_spec i count) as [Hi|Hi]; simpl in Hrun.
    + apply bind_Some in Hrun. destruct Hrun as ([h1 e1] & t1 & t2 & Htask & Hrun & _).
      apply bind_Some in Hrun. destruct Hrun as ([h2 es] & t3 & t4 & Hrest & Hrun & _).
      apply ret_Some in Hrun. destruct Hrun as [[= -> ->] _].
      assert (Hfuel' : (count <= i + size + fuel * size)%nat) by lia.
      destruct (IH (i + size)%nat _ _ _ Hfuel' Hrest) as (Haway2 & Hin2).
      split.
      * intros p Hp. rewrite Haway2 by (intros j Hj; apply Hp; lia).
        eapply task_away; [exact Htask|]. intros j Hj. apply Hp. lia.
      * intros Herr j Hj. simpl in Herr. destruct e1 as [e1|]; [discriminate|].
        destruct (Nat.lt_ge_cases j (Nat.min (i + size) count)) as [Hlt|Hge].
        -- destruct (task_spec _ _ _ _ _ Htask j ltac:(lia))
             as (p & d & d' & Hp & Hd & Hd' & HR).
           exists p, d, d'. split; [exact Hp|]. split; [exact Hd|]. split; [|exact HR].
           rewrite Haway2; [exact Hd'|].
           intros j' Hj' Hp'. assert (j = j') by (eapply NoDup_lookup; eassumption). lia.
        -- destruct (Hin2 Herr j ltac:(lia)) as (p & d & d' & Hp & Hd & Hd' & HR).
           exists p, d, d'. split; [exact Hp|]. split; [|split; [exact Hd'|exact HR]].
           rewrite <- Hd. symmetry. eapply task_away; [exact Htask|].
           intros j' Hj' Hp'. assert (j = j') by (eapply NoDup_lookup; eassumption). lia.
    + apply ret_Some in Hrun. destruct Hrun as [[= -> ->] _].
      split; [reflexivity|]. intros _ j Hj. lia.
Qed.

End PointerRun.

(** ** The shares a run computes *)

(* The loop has not touched record [p] since [st0]. *)
Definition awayFrom (p : nat)
    (st0 st : MultiCaller (nat * Field) * list NativeMinipoolDetails) : Prop :=
  snd st !! p = snd st0 !! p /\
  mc_client (fst st) = mc_client (fst st0) /\
  exists new, mc_calls (fst st) = mc_calls (fst st0) ++ new /\
              Forall (fun c => fst (call_output c) <> p) new.

Lemma awayFrom_refl p st : awayFrom p st st.
Proof.
  split; [reflexivity|]. split; [reflexivity|].
  exists []. split; [symmetry; apply app_nil_r|constructor].
Qed.

Lemma awayFrom_trans p st1 st2 st3 :
  awayFrom p st1 st2 -> awayFrom p st2 st3 -> awayFrom p st1 st3.
Proof.
  intros (Hh1 & Hc1 & n1 & Hq1 & HF1) (Hh2 & Hc2 & n2 & Hq2 & HF2).
  split; [congruence|]. split; [congruence|].
  exists (n1 ++ n2). split; [rewrite Hq2, Hq1, app_assoc; reflexivity|].
  apply Forall_app. auto.
Qed.

Lemma shareCalls_outputs mp p fNode fUser x :
  Forall (fun c => call_output c = (p, fNode) \/ call_output c = (p, fUser))
         (shareCalls mp p fNode fUser x).
Proof.
  unfold shareCalls. destruct (0 <? x); [|constructor].
  constructor; [left; reflexivity|]. constructor; [right; reflexivity|constructor].
Qed.

Lemma completeShareStep_away rp minipoolDetails beaconBalances j st st' e t p :
  completeShareStep rp minipoolDetails beaconBalances j st = Some ((st', e), t) ->
  minipoolDetails !! j <> Some p ->
  awayFrom p st st'.
Proof.
  intros Hrun Hj. apply completeShareStep_inv in Hrun.
  destruct Hrun as (p' & d & Hp' & Hd & _ & Hres).
  assert (Hne : p' <> p) by congruence.
  unfold completeShareStepResult in Hres.
  destruct (NewMinipoolFromVersion rp (MinipoolAddress d) (Version d)) as [err|mp].
  - destruct Hres as [-> _]. apply awayFrom_refl.
  - destruct Hres as (bb & b & r & _ & _ & _ & _ & Hc & Hq & Hh).
    split; [rewrite Hh; apply list_lookup_insert_ne; exact Hne|].
    split; [exact Hc|]. eexists. split; [exact Hq|].
    apply Forall_app. split;
      (eapply Forall_impl; [apply shareCalls_outputs|]);
      intros c [Hc'|Hc']; rewrite Hc'; exact Hne.
Qed.

Lemma completeShareLoop_away rp minipoolDetails beaconBalances js st st' e t p :
  forEachErr js (completeShareStep rp minipoolDetails beaconBalances) st
    = Some ((st', e), t) ->
  (forall j, In j js -> minipoolDetails !! j <> Some p) ->
  awayFrom p st st'.
Proof.
  intros Hrun Hjs.
  refine (forEachErr_inv (awayFrom p st) _ _ _ _ _ _ _ _ Hrun).
  - intros j s s' e0 t0 Hj Hs Hbody. eapply awayFrom_trans; [exact Hs|].
    eapply completeShareStep_away; [exact Hbody|]. apply Hjs. exact Hj.
  - apply awayFrom_refl.
Qed.

Lemma completeSharesChunk_away rp contracts minipoolDetails beaconBalances opts
    i max heap heap' e t p :
  completeSharesChunk rp contracts minipoolDetails beaconBalances opts i max heap
    = Some ((heap', e), t) ->
  (forall j, (i <= j < max)%nat -> minipoolDetails !! j <> Some p) ->
  heap' !! p = heap !! p.
Proof.
  unfold completeSharesChunk, NewMultiCaller.
  destruct (eth_bind (Client rp) (Multicaller_ContractAddress contracts)) as [eb|].
  { intros Hrun _. apply ret_Some in Hrun. destruct Hrun as [[= -> _] _]. reflexivity. }
  intros Hrun Hp.
  apply bind_Some in Hrun. destruct Hrun as ([st err] & t1 & t2 & Hq & Hrun & _).
  pose proof Hq as Hloop.
  apply completeShareLoop_away with (p := p) in Hq;
    [|intros j Hj; apply Hp; apply in_seq in Hj; lia].
  destruct Hq as (Hh & _ & new & Hnew & HF). simpl in Hh, Hnew.
  destruct err as [err|].
  { apply ret_Some in Hrun. destruct Hrun as [[= -> _] _]. exact Hh. }
  apply bind_Some in Hrun. destruct Hrun as ([[rs err] h2] & t3 & t4 & Hcall & Hrun & _).
  apply ret_Some in Hrun. destruct Hrun as [[= -> _] _].
  assert (HB : Forall (boundTo (fun _ => true)) (mc_calls (fst st))).
  { apply List.Forall_forall. intros c _. reflexivity. }
  destruct (FlexibleCall_details _ _ _ _ _ _ _ _ _ Hcall HB) as (_ & _ & Hfr).
  rewrite Hfr; [exact Hh|]. rewrite Hnew. exact HF.
Qed.

(* What a run that returns no error leaves in the complete-share fields of
   the record index [j] points to, [d] being the record as it was. *)
Definition completeShares (rp : RocketPool) (contracts : NetworkContracts)
    (beaconBalances : list BigInt) (j : nat) (d d' : NativeMinipoolDetails) : Prop :=
  exists mp bb b r,
    NewMinipoolFromVersion rp (MinipoolAddress d) (Version d) = inr mp /\
    beaconBalances !! j = Some (Some bb) /\
    Balance d = Some b /\ NodeRefundBalance d = Some r /\
    shareResult (Client rp) (ElBlockNumber contracts) mp bb
      (NodeShareOfBeaconBalance d') (UserShareOfBeaconBalance d') /\
    shareResult (Client rp) (ElBlockNumber contracts) mp (bb + b - r)
      (NodeShareOfBalanceIncludingBeacon d') (UserShareOfBalanceIncludingBeacon d').

Lemma shareCalls_not_slot mp p fNode fUser x f g :
  f <> fNode -> f <> fUser -> g <> fNode -> g <> fUser ->
  Forall (fun c => call_output c <> (p, f) /\ call_output c <> (p, g))
         (shareCalls mp p fNode fUser x).
Proof.
  intros H1 H2 H3 H4. eapply Forall_impl; [apply shareCalls_outputs|].
  intros c [Hc|Hc]; rewrite Hc; split; congruence.
Qed.

Lemma away_not_slot p (calls : list (Call (nat * Field))) f g :
  Forall (fun c => fst (call_output c) <> p) calls ->
  Forall (fun c => call_output c <> (p, f) /\ call_output c <> (p, g)) calls.
Proof.
  intros HF. eapply Forall_impl; [exact HF|].
  intros c Hc. split; intros Heq; apply Hc; rewrite Heq; reflexivity.
Qed.

Lemma completeSharesChunk_values rp contracts minipoolDetails beaconBalances
    i max heap heap' t :
  NoDup minipoolDetails ->
  completeSharesChunk rp contracts minipoolDetails beaconBalances
    {| BlockNumber_ := ElBlockNumber contracts |} i max heap = Some ((heap', None), t) ->
  forall j, (i <= j < max)%nat ->
    exists p d d',
      minipoolDetails !! j = Some p /\ heap !! p = Some d /\ heap' !! p = Some d' /\
      completeShares rp contracts beaconBalances j d d'.
Proof.
  intros Hnd Hrun j Hj. unfold completeSharesChunk, NewMultiCaller in Hrun.
  destruct (eth_bind (Client rp) (Multicaller_ContractAddress contracts)) as [eb|].
  { apply ret_Some in Hrun. destruct Hrun as [[=] _]. }
  apply bind_Some in Hrun. destruct Hrun as ([st3 err] & t1 & t2 & Hq & Hrun & _).
  destruct err as [err|]; [apply ret_Some in Hrun; destruct Hrun as [[=] _]|].
  apply bind_Some in Hrun. destruct Hrun as ([[rs err] h4] & t3 & t4 & Hcall & Hrun & _).
  apply ret_Some in Hrun. destruct Hrun as [[= -> Herr] _].
  destruct err as [err|]; [discriminate Herr|]. clear Herr.
  (* the loop, split around index j *)
  assert (Hseq : seq i (max - i) = seq i (j - i) ++ j :: seq (S j) (max - S j)).
  { replace (max - i)%nat with ((j - i) + S (max - S j))%nat by lia.
    rewrite seq_app. simpl. replace (i + (j - i))%nat with j by lia. reflexivity. }
  rewrite Hseq in Hq.
  apply forEachErr_app in Hq. destruct Hq as (st1 & t5 & t6 & Hpre & Hq & _).
  simpl in Hq.
  apply bind_Some in Hq. destruct Hq as ([st2 e2] & t7 & t8 & Hstep & Hsuf & _).
  pose proof Hstep as Hinv. apply completeShareStep_inv in Hinv.
  destruct Hinv as (p & d1 & Hp & Hd1 & _ & Hres).
  assert (Hother : forall j', j' <> j -> minipoolDetails !! j' <> Some p).
  { intros j' Hne Hp'. apply Hne. eapply NoDup_lookup; eassumption. }
  apply completeShareLoop_away with (p := p) in Hpre;
    [|intros j' Hj'; apply Hother; apply in_seq in Hj'; lia].
  destruct Hpre as (Hh1 & Hc1 & pre & Hpre & HFpre). simpl in Hh1, Hc1, Hpre.
  unfold completeShareStepResult in Hres.
  destruct (NewMinipoolFromVersion rp (MinipoolAddress d1) (Version d1)) as [err|mp]
    eqn:Hbinding.
  { destruct Hres as [_ ->]. apply ret_Some in Hsuf. destruct Hsuf as [[=] _]. }
  destruct Hres as (bb & b & r & Hbb & Hb & Hr & -> & Hc2 & Hq2 & Hh2).
  apply completeShareLoop_away with (p := p) in Hsuf;
    [|intros j' Hj'; apply Hother; apply in_seq in Hj'; lia].
  destruct Hsuf as (Hh3 & Hc3 & suf & Hsuf & HFsuf).
  rewrite Hh1 in Hd1.
  set (dB := shareDefaults FNodeShareOfBeaconBalance FUserShareOfBeaconBalance bb d1)
    in *.
  set (dj := shareDefaults FNodeShareOfBalanceIncludingBeacon
               FUserShareOfBalanceIncludingBeacon (bb + b - r) dB) in *.
  assert (Hdj : snd st3 !! p = Some dj).
  { rewrite Hh3, Hh2. apply list_lookup_insert_eq.
    eapply lookup_lt_Some. rewrite Hh1. exact Hd1. }
  apply FlexibleCall_strict_ok in Hcall. destruct Hcall as [Hexec Hok].
  assert (Hclient : mc_client (fst st3) = Client rp) by congruence.
  rewrite Hclient in Hexec. simpl in Hexec.
  exists p, d1.
  (* the shares of the beacon balance *)
  assert (HB : exists d', h4 !! p = Some d' /\
                 shareResult (Client rp) (ElBlockNumber contracts) mp bb
                   (shareField FNodeShareOfBeaconBalance d')
                   (shareField FUserShareOfBeaconBalance d')).
  { eapply (execCalls_shareCalls (Client rp) (ElBlockNumber contracts) pre
              (shareCalls mp p FNodeShareOfBalanceIncludingBeacon
                 FUserShareOfBalanceIncludingBeacon (bb + b - r) ++ suf));
      [|exact Hok|reflexivity|reflexivity|discriminate| | |exact Hdj|].
    - rewrite <- Hexec, Hsuf, Hq2, Hpre. simpl. rewrite <- !app_assoc. reflexivity.
    - apply away_not_slot. exact HFpre.
    - apply Forall_app. split; [|apply away_not_slot; exact HFsuf].
      apply shareCalls_not_slot; discriminate.
    - intros Hx. unfold dj, dB, shareDefaults. rewrite Hx.
      destruct (0 <? bb + b - r); split; reflexivity. }
  (* the shares of the balance including beacon *)
  assert (HT : exists d', h4 !! p = Some d' /\
                 shareResult (Client rp) (ElBlockNumber contracts) mp (bb + b - r)
                   (shareField FNodeShareOfBalanceIncludingBeacon d')
                   (shareField FUserShareOfBalanceIncludingBeacon d')).
  { eapply (execCalls_shareCalls (Client rp) (ElBlockNumber contracts)
              (pre ++ shareCalls mp p FNodeShareOfBeaconBalance
                        FUserShareOfBeaconBalance bb) suf);
      [|exact Hok|reflexivity|reflexivity|discriminate| | |exact Hdj|].
    - rewrite <- Hexec, Hsuf, Hq2, Hpre. simpl. rewrite <- !app_assoc. reflexivity.
    - apply Forall_app. split; [apply away_not_slot; exact HFpre|].
      apply shareCalls_not_slot; discriminate.
    - apply away_not_slot. exact HFsuf.
    - intros Hx. unfold dj, shareDefaults. rewrite Hx. split; reflexivity. }
  destruct HB as (d' & Hd' & HB). destruct HT as (d'' & Hd'' & HT).
  rewrite Hd' in Hd''. injection Hd'' as <-.
  exists d'. split; [exact Hp|]. split; [exact Hd1|]. split; [exact Hd'|].
  exists mp, bb, b, r. auto 10.
Qed.

(** X8. In a run of [CalculateCompleteMinipoolShares] that returns no error,
    over a slice of distinct pointers, every record pointed to had a binding,
    a beacon balance, a balance and a refund, and ends with: as shares of the
    beacon balance, what calculateNodeShare and calculateUserShare of its
    minipool answered for the beacon balance at contracts.ElBlockNumber if
    that balance is positive, and zero otherwise; as shares of the balance
    including beacon, the same for beacon balance + Balance -
    NodeRefundBalance. An amount of exactly zero is not sent to the
    contract. *)
Theorem CalculateCompleteMinipoolShares_values (rp : RocketPool)
    (contracts : NetworkContracts) (minipoolDetails : list nat)
    (beaconBalances : list BigInt) (heap heap' : list NativeMinipoolDetails)
    (t : Trace) :
  NoDup minipoolDetails ->
  CalculateCompleteMinipoolShares rp contracts minipoolDetails beaconBalances heap
    = Some ((heap', None), t) ->
  forall j, (j < length minipoolDetails)%nat ->
    exists p d d',
      minipoolDetails !! j = Some p /\ heap !! p = Some d /\ heap' !! p = Some d' /\
      completeShares rp contracts beaconBalances j d d'.
Proof.
  intros Hnd Hrun j Hj.
  unfold CalculateCompleteMinipoolShares, errgroupWait in Hrun.
  apply bind_Some in Hrun. destruct Hrun as ([h1 e1] & t1 & t2 & Hwait & Hrun & _).
  apply bind_Some in Hwait. destruct Hwait as ([h2 errs] & t3 & t4 & Hgo & Hwait & _).
  apply ret_Some in Hwait. destruct Hwait as [[= -> ->] _].
  destruct (firstError errs) as [e|] eqn:Herrs;
    [apply ret_Some in Hrun; destruct Hrun as [[=] _]|].
  apply ret_Some in Hrun. destruct Hrun as [[= ->] _].
  unfold batches in Hgo.
  eapply (errgroupGo_pointers minipoolDetails
            (completeShares rp contracts beaconBalances)
            (completeSharesChunk rp contracts minipoolDetails beaconBalances
               {| BlockNumber_ := ElBlockNumber contracts |})
            minipoolCompleteShareBatchSize (length minipoolDetails) Hnd) in Hgo.
  - destruct Hgo as [_ Hin]. apply Hin; [exact Herrs|lia].
  - intros i max h h' e t0 p. apply completeSharesChunk_away.
  - intros i max h h' t0. apply completeSharesChunk_values. exact Hnd.
  - unfold minipoolCompleteShareBatchSize. lia.
  - unfold minipoolCompleteShareBatchSize. lia.
Qed.

(* Three fetched records, for running the function: minipools 2, 3 and 4 at
   places 0, 1 and 2 of the heap, each with a node refund of 2. *)
Definition fetchedRecord (address : Address) (version : uint8) (balance : Z)
  : NativeMinipoolDetails :=
  assign FNodeRefundBalance (VBig (Some 2))
    (assign FBalance (VBig (Some balance))
       (assign FVersion (VUint8 version)
          (assign FMinipoolAddress (VAddress address) emptyDetails))).

Definition fetchedHeap : list NativeMinipoolDetails :=
  [fetchedRecord 2 3 20; fetchedRecord 3 3 30; fetchedRecord 4 3 40].

Lemma CalculateCompleteMinipoolShares_frame_witness :
  exists heap' e t,
    CalculateCompleteMinipoolShares Demo.rp (Demo.contracts (Demo.client 2))
      [2; 0]%nat [Some 32; Some 0] fetchedHeap = Some ((heap', e), t) /\
    length heap' = 3%nat /\
    heap' !! 1%nat = Some (fetchedRecord 3 3 30) /\
    (exists d', heap' !! 2%nat = Some d' /\ Balance d' = Some 40 /\
                NodeRefundBalance d' = Some 2).
Proof.
  destruct (CalculateCompleteMinipoolShares Demo.rp (Demo.contracts (Demo.client 2))
              [2; 0]%nat [Some 32; Some 0] fetchedHeap) as [[[heap' e] t]|] eqn:Hrun.
  - destruct (CalculateCompleteMinipoolShares_frame _ _ _ _ _ _ _ _ Hrun)
      as (Hlen & Hfr & Hov).
    exists heap', e, t. split; [reflexivity|]. split; [exact Hlen|]. split.
    + rewrite Hfr; [reflexivity|]. simpl. intros [H|[H|[]]]; discriminate H.
    + destruct (Hov 2%nat (fetchedRecord 4 3 40) eq_refl)
        as (d' & Hd' & _ & _ & _ & Hb & Hr & _).
      exists d'. split; [exact Hd'|]. split; [exact Hb|exact Hr].
  - exfalso.
    assert (Hsome : match CalculateCompleteMinipoolShares Demo.rp
                            (Demo.contracts (Demo.client 2)) [2; 0]%nat
                            [Some 32; Some 0] fetchedHeap with
                    | Some _ => true
                    | None => false
                    end = true) by (vm_compute; reflexivity).
    rewrite Hrun in Hsome. discriminate Hsome.
Defined.

Lemma CalculateCompleteMinipoolShares_binding_error_witness :
  exists heap' cause t,
    CalculateCompleteMinipoolShares Demo.rp (Demo.contracts (Demo.client 2))
      [1; 0]%nat [Some 32; Some 0] [fetchedRecord 2 3 20; fetchedRecord 3 0 30]
      = Some ((heap', Some (ErrWrap "error calculating minipool shares" cause)), t).
Proof.
  destruct (CalculateCompleteMinipoolShares Demo.rp (Demo.contracts (Demo.client 2))
              [1; 0]%nat [Some 32; Some 0]
              [fetchedRecord 2 3 20; fetchedRecord 3 0 30])
    as [[[heap' e] t]|] eqn:Hrun.
  - destruct (CalculateCompleteMinipoolShares_binding_error
                Demo.rp (Demo.contracts (Demo.client 2)) [1; 0]%nat [Some 32; Some 0]
                [fetchedRecord 2 3 20; fetchedRecord 3 0 30] heap' e t
                0%nat 1%nat (fetchedRecord 3 0 30)
                (ErrMsg "unexpected minipool contract version")
                eq_refl eq_refl eq_refl Hrun) as [cause ->].
    exists heap', cause, t. reflexivity.
  - exfalso.
    assert (Hsome : match CalculateCompleteMinipoolShares Demo.rp
                            (Demo.contracts (Demo.client 2)) [1; 0]%nat
                            [Some 32; Some 0]
                            [fetchedRecord 2 3 20; fetchedRecord 3 0 30] with
                    | Some _ => true
                    | None => false
                    end = true) by (vm_compute; reflexivity).
    rewrite Hrun in Hsome. discriminate Hsome.
Defined.

Lemma CalculateCompleteMinipoolShares_values_witness :
  exists heap' t,
    CalculateCompleteMinipoolShares Demo.rp (Demo.contracts (Demo.client 2))
      [2; 0]%nat [Some 32; Some 0] fetchedHeap = Some ((heap', None), t) /\
    NodeShareOfBeaconBalance <$> heap' = [Some 0; None; Some 8] /\
    UserShareOfBeaconBalance <$> heap' = [Some 0; None; Some 24] /\
    NodeShareOfBalanceIncludingBeacon <$> heap' = [Some 4; None; Some 17] /\
    UserShareOfBalanceIncludingBeacon <$> heap' = [Some 14; None; Some 53] /\
    exists d', heap' !! 0%nat = Some d' /\
      completeShares Demo.rp (Demo.contracts (Demo.client 2)) [Some 32; Some 0]
        1 (fetchedRecord 2 3 20) d'.
Proof.
  assert (Hnd : NoDup [2; 0]%nat).
  { apply NoDup_ListNoDup. repeat constructor; simpl; intuition discriminate. }
  destruct (CalculateCompleteMinipoolShares Demo.rp (Demo.contracts (Demo.client 2))
              [2; 0]%nat [Some 32; Some 0] fetchedHeap)
    as [[[heap' [e|]] t]|] eqn:Hrun;
    try (exfalso;
         assert (Hsome : match CalculateCompleteMinipoolShares Demo.rp
                                 (Demo.contracts (Demo.client 2)) [2; 0]%nat
                                 [Some 32; Some 0] fetchedHeap with
                         | Some ((_, None), _) => true
                         | _ => false
                         end = true) by (vm_compute; reflexivity);
         rewrite Hrun in Hsome; discriminate Hsome).
  destruct (CalculateCompleteMinipoolShares_values _ _ _ _ _ _ _ Hnd Hrun 1%nat
              ltac:(simpl; lia)) as (p & d & d' & Hp & Hd & Hd' & Hshares).
  injection Hp as <-. injection Hd as <-.
  assert (Hheap : match CalculateCompleteMinipoolShares Demo.rp
                          (Demo.contracts (Demo.client 2)) [2; 0]%nat
                          [Some 32; Some 0] fetchedHeap with
                  | Some ((h, _), _) =>
                      (NodeShareOfBeaconBalance <$> h, UserShareOfBeaconBalance <$> h,
                       NodeShareOfBalanceIncludingBeacon <$> h,
                       UserShareOfBalanceIncludingBeacon <$> h)
                  | None => ([], [], [], [])
                  end = ([Some 0; None; Some 8], [Some 0; None; Some 24],
                         [Some 4; None; Some 17], [Some 14; None; Some 53]))
    by (vm_compute; reflexivity).
  rewrite Hrun in Hheap. injection Hheap as H1 H2 H3 H4.
  exists heap', t. split; [reflexivity|].
  split; [exact H1|]. split; [exact H2|]. split; [exact H3|]. split; [exact H4|].
  exists d'. split; [exact Hd'|exact Hshares].
Defined.

(** ** The batches of the complete shares *)

Lemma errgroupGo_at_most_one {S} (Q : RoundTrip -> Prop)
    (tasks : list (S -> Net (S * option Error))) (s s' : S) errs t :
  Forall (fun task => forall s s' e t,
            task s = Some ((s', e), t) ->
            Forall Q t /\ (length t <= 1)%nat /\ (e = None -> length t = 1%nat))
         tasks ->
  errgroupGo tasks s = Some ((s', errs), t) ->
  Forall Q t /\ (length t <= length tasks)%nat /\
  (firstError errs = None -> length t = length tasks).
Proof.
  intros Htasks. revert s s' errs t.
  induction Htasks as [|task rest Htask _ IH]; intros s s' errs t Hrun; simpl in Hrun.
  - apply ret_Some in Hrun. destruct Hrun as [[= _ ->] ->].
    split; [constructor|]. split; [reflexivity|reflexivity].
  - apply bind_Some in Hrun. destruct Hrun as ([s1 e1] & t1 & t2 & Hhead & Hrun & ->).
    apply bind_Some in Hrun. destruct Hrun as ([s2 es] & t3 & t4 & Hrest & Hrun & ->).
    apply ret_Some in Hrun. destruct Hrun as [[= _ ->] ->].
    destruct (Htask _ _ _ _ Hhead) as (HQ1 & Hle1 & Heq1).
    destruct (IH _ _ _ _ Hrest) as (HQ2 & Hle2 & Heq2).
    rewrite app_nil_r, length_app. simpl.
    split; [apply Forall_app; auto|]. split; [lia|].
    intros Herr. destruct e1 as [e1|]; [discriminate|].
    rewrite Heq1, Heq2 by auto. reflexivity.
Qed.

Lemma completeShareLoop_silent rp minipoolDetails beaconBalances js st :
  emits silent (forEachErr js (completeShareStep rp minipoolDetails beaconBalances) st).
Proof.
  apply (emits_forEachErr _ silent_nil silent_app).
  intros j s r t Hrun. destruct r as [s' e].
  apply completeShareStep_frame in Hrun. destruct Hrun as (_ & _ & _ & ->). reflexivity.
Qed.

Lemma completeSharesChunk_round_trip rp contracts minipoolDetails beaconBalances opts
    i max heap heap' e t :
  completeSharesChunk rp contracts minipoolDetails beaconBalances opts i max heap
    = Some ((heap', e), t) ->
  Forall (isStrictMulticallAt (BlockNumber_ opts)) t /\
  (length t <= 1)%nat /\ (e = None -> length t = 1%nat).
Proof.
  unfold completeSharesChunk, NewMultiCaller.
  destruct (eth_bind (Client rp) (Multicaller_ContractAddress contracts)) as [eb|].
  { intros Hrun. apply ret_Some in Hrun. destruct Hrun as [[= _ ->] ->].
    split; [constructor|]. split; [simpl; lia|discriminate]. }
  intros Hrun.
  apply bind_Some in Hrun. destruct Hrun as ([st err] & t1 & t2 & Hq & Hrun & ->).
  apply completeShareLoop_silent in Hq. rewrite Hq. simpl.
  destruct err as [err|].
  { apply ret_Some in Hrun. destruct Hrun as [[= _ ->] ->].
    split; [constructor|]. split; [simpl; lia|discriminate]. }
  apply bind_Some in Hrun. destruct Hrun as ([[rs err] h2] & t3 & t4 & Hcall & Hrun & ->).
  apply ret_Some in Hrun. destruct Hrun as [_ ->].
  apply FlexibleCall_trace in Hcall. rewrite Hcall. simpl.
  split; [|split; [lia|reflexivity]].
  repeat constructor. simpl. eauto.
Qed.

(** X9. Every round trip of [CalculateCompleteMinipoolShares] is a strict
    batch at contracts.ElBlockNumber. There is at most one per chunk of 500
    pointers, and a run that returns no error sent exactly one per chunk,
    that is ceil(len(minipoolDetails) / 500) batches, even for a chunk whose
    records need no call at all. *)
Theorem CalculateCompleteMinipoolShares_batches (rp : RocketPool)
    (contracts : NetworkContracts) (minipoolDetails : list nat)
    (beaconBalances : list BigInt) (heap heap' : list NativeMinipoolDetails)
    (e : option Error) (t : Trace) :
  CalculateCompleteMinipoolShares rp contracts minipoolDetails beaconBalances heap
    = Some ((heap', e), t) ->
  Forall (isStrictMulticallAt (ElBlockNumber contracts)) t /\
  (length t <= (length minipoolDetails + 499) / 500)%nat /\
  (e = None -> length t = ((length minipoolDetails + 499) / 500)%nat).
Proof.
  intros Hrun. unfold CalculateCompleteMinipoolShares, errgroupWait in Hrun.
  apply bind_Some in Hrun. destruct Hrun as ([h1 e1] & t1 & t2 & Hwait & Hrun & ->).
  apply bind_Some in Hwait. destruct Hwait as ([h2 errs] & t3 & t4 & Hgo & Hwait & ->).
  apply ret_Some in Hwait. destruct Hwait as [[= _ ->] ->].
  assert (Ht2 : t2 = [] /\ (e = None -> firstError errs = None)).
  { destruct (firstError errs); apply ret_Some in Hrun; destruct Hrun as [[= _ ->] ->];
      split; auto; discriminate. }
  destruct Ht2 as [-> He]. rewrite !app_nil_r.
  eapply errgroupGo_at_most_one in Hgo.
  - rewrite length_map, batches_length in Hgo
      by (unfold minipoolCompleteShareBatchSize; lia).
    unfold minipoolCompleteShareBatchSize in Hgo.
    replace (length minipoolDetails + 500 - 1)%nat
      with (length minipoolDetails + 499)%nat in Hgo by lia.
    destruct Hgo as (HQ & Hle & Heq). split; [exact HQ|]. split; [exact Hle|].
    intros Hnone. apply Heq, He, Hnone.
  - apply List.Forall_forall. intros task Hin. apply in_map_iff in Hin.
    destruct Hin as ([i max] & <- & _). simpl. intros s s' e0 t0 Hchunk.
    apply completeSharesChunk_round_trip in Hchunk. exact Hchunk.
Qed.

Lemma CalculateCompleteMinipoolShares_batches_witness :
  exists heap' t,
    CalculateCompleteMinipoolShares Demo.rp (Demo.contracts (Demo.client 2))
      [0]%nat [Some (-32)] [fetchedRecord 2 3 20] = Some ((heap', None), t) /\
    t = [{| rt_block := Some 17000000; rt_request := ReqMulticall true [] |}] /\
    length t = ((1 + 499) / 500)%nat.
Proof.
  destruct (CalculateCompleteMinipoolShares Demo.rp (Demo.contracts (Demo.client 2))
              [0]%nat [Some (-32)] [fetchedRecord 2 3 20])
    as [[[heap' [e|]] t]|] eqn:Hrun;
    try (exfalso;
         assert (Hsome : match CalculateCompleteMinipoolShares Demo.rp
                                 (Demo.contracts (Demo.client 2)) [0]%nat
                                 [Some (-32)] [fetchedRecord 2 3 20] with
                         | Some ((_, None), _) => true
                         | _ => false
                         end = true) by (vm_compute; reflexivity);
         rewrite Hrun in Hsome; discriminate Hsome).
  destruct (CalculateCompleteMinipoolShares_batches _ _ _ _ _ _ _ _ Hrun)
    as (_ & _ & Hlen).
  exists heap', t. split; [reflexivity|]. split; [|apply Hlen; reflexivity].
  assert (Ht : match CalculateCompleteMinipoolShares Demo.rp
                       (Demo.contracts (Demo.client 2)) [0]%nat
                       [Some (-32)] [fetchedRecord 2 3 20] with
               | Some (_, t) => t
               | None => []
               end = [{| rt_block := Some 17000000; rt_request := ReqMulticall true [] |}])
    by (vm_compute; reflexivity).
  rewrite Hrun in Ht. exact Ht.
Defined.

(** ** When the function returns *)


Lemma bind_ret_l {A B} (a : A) (k : A -> Net B) : bind (ret a) k = k a.
Proof. unfold bind, ret. destruct (k a) as [[b t]|]; reflexivity. Qed.




Section CompleteSharesReturn.
Context (rp : RocketPool) (contracts : NetworkContracts).
Context (minipoolDetails : list nat) (beaconBalances : list BigInt).
Context (heap : list NativeMinipoolDetails).

(* Every pointer points to a record with a balance and a refund, and every
   index has a beacon balance. *)
Hypothesis records_ok : forall j p,
  minipoolDetails !! j = Some p ->
  exists d b r, heap !! p = Some d /\ Balance d = Some b /\ NodeRefundBalance d = Some r.
Hypothesis beacon_ok : forall j,
  (j < length minipoolDetails)%nat -> exists bb, beaconBalances !! j = Some (Some bb).




End CompleteSharesReturn.


(** * The minipools of one node *)

(** X11. [GetNodeNativeMinipoolDetails] has the count of
    [GetAllNativeMinipoolDetails]: the local count that sizes the address
    slice is never written by the count query, so every run that returns a
    nil error returns an empty slice. After the round trips of the node's
    count query such a run sends nothing but requests of the balance batcher,
    at contracts.ElBlockNumber: no getNodeMinipoolAt lookup, no version probe
    and no field batch. *)
Theorem GetNodeNativeMinipoolDetails_success_is_empty (rp : RocketPool)
    (contracts : NetworkContracts) (NewNode : Address -> Error + Node)
    (nodeAddress : Address) r t :
  GetNodeNativeMinipoolDetails rp contracts NewNode nodeAddress = Some ((r, None), t) ->
  r = Some [] /\
  exists node count tq tb,
    NewNode nodeAddress = inr node /\
    Query rp (fun mc => (Node_GetMinipoolCount node mc, None))
      {| BlockNumber_ := ElBlockNumber contracts |} 0 = Some ((None, count), tq) /\
    t = tq ++ tb /\
    Forall (isBalanceRequestAt (ElBlockNumber contracts)) tb.
Proof.
  unfold GetNodeNativeMinipoolDetails, getNodeMinipoolAddressesFast. intros Hrun.
  apply bind_Some in Hrun. destruct Hrun as ([addresses err] & t1 & t2 & Haddr & Hrun & ->).
  destruct (NewNode nodeAddress) as [e|node].
  { apply ret_Some in Haddr. destruct Haddr as [Haddr _]. injection Haddr as -> ->.
    apply ret_Some in Hrun. destruct Hrun as [Hrun _]. discriminate Hrun. }
  apply bind_Some in Haddr. destruct Haddr as ([eq count] & tq & t4 & HQ & Haddr & ->).
  destruct eq as [eq|].
  { apply ret_Some in Haddr. destruct Haddr as [Haddr _]. injection Haddr as -> ->.
    apply ret_Some in Hrun. destruct Hrun as [Hrun _]. discriminate Hrun. }
  injection Haddr as <- <- <-. cbv beta iota in Hrun. simpl default in Hrun.
  rewrite getMinipoolVersionsFast_nil in Hrun.
  rewrite (bind_run _ _ _ _ eq_refl) in Hrun. cbv beta iota in Hrun.
  simpl default in Hrun.
  match type of Hrun with
  | match ?x with _ => _ end = _ => destruct x as [[b0 t0]|] eqn:Hbulk
  end; [|discriminate Hrun].
  injection Hrun as -> <-.
  apply getBulkMinipoolDetails_nil in Hbulk. destruct Hbulk as [-> Ht0].
  split; [reflexivity|]. exists node, count, tq, t0.
  split; [reflexivity|]. split; [exact HQ|]. split; [|exact Ht0].
  rewrite app_nil_r. reflexivity.
Qed.

(* A node binding whose count query is one call to the minipool manager. *)
Definition countingNode (nodeAddress : Address) : Node := {|
  Node_GetMinipoolCount := fun mc =>
    AddCall mc {| ContractAddress := 12 |} MinipoolCount "getMinipoolCount"
      [VAddress nodeAddress]
|}.

Lemma GetNodeNativeMinipoolDetails_success_is_empty_witness :
  exists t,
    GetNodeNativeMinipoolDetails Demo.rp (Demo.contracts (Demo.client 2))
      (fun a => inr (countingNode a)) 7%N = Some ((Some [], None), t) /\
    length t = 2%nat /\
    eth_call (Client Demo.rp) (Some 17000000)
      {| cd_target := {| ContractAddress := 12 |}; cd_method := "getMinipoolCount";
         cd_args := [VAddress 7%N] |} = Some (VBig (Some 250)).
Proof.
  destruct (GetNodeNativeMinipoolDetails Demo.rp (Demo.contracts (Demo.client 2))
              (fun a => inr (countingNode a)) 7%N)
    as [[[r [e|]] t]|] eqn:Hrun;
    try (exfalso;
         assert (Hsome : match GetNodeNativeMinipoolDetails Demo.rp
                                 (Demo.contracts (Demo.client 2))
                                 (fun a => inr (countingNode a)) 7%N with
                         | Some ((_, None), _) => true
                         | _ => false
                         end = true) by (vm_compute; reflexivity);
         rewrite Hrun in Hsome; discriminate Hsome).
  destruct (GetNodeNativeMinipoolDetails_success_is_empty _ _ _ _ _ _ Hrun)
    as (-> & _).
  exists t. split; [reflexivity|]. split; [|reflexivity].
  assert (Hlen : match GetNodeNativeMinipoolDetails Demo.rp
                         (Demo.contracts (Demo.client 2))
                         (fun a => inr (countingNode a)) 7%N with
                 | Some (_, t) => length t
                 | None => 0%nat
                 end = 2%nat) by (vm_compute; reflexivity).
  rewrite Hrun in Hlen. exact Hlen.
Defined.


(** * The shares of the bulk fetch *)

Lemma forEach_app {A S} (xs ys : list A) (body : A -> S -> Net S) (s s' : S) (t : Trace) :
  forEach (xs ++ ys) body s = Some (s', t) ->
  exists s1 t1 t2,
    forEach xs body s = Some (s1, t1) /\ forEach ys body s1 = Some (s', t2) /\
    t = t1 ++ t2.
Proof.
  revert s t. induction xs as [|x xs IH]; intros s t Hrun; simpl in Hrun.
  - exists s, [], t. auto.
  - apply bind_Some in Hrun. destruct Hrun as (s1 & t1 & t2 & Hx & Hrest & ->).
    destruct (IH _ _ Hrest) as (s2 & t3 & t4 & Hxs & Hys & ->).
    exists s2, (t1 ++ t3), t4. split; [|split; [exact Hys|apply app_assoc]].
    simpl. rewrite (bind_run _ _ _ _ Hx), Hxs. reflexivity.
Qed.

Lemma sign_nonnegative (x : Z) :
  (match x ?= zero with Lt => -1 | Eq => 0 | Gt => 1 end >=? 0) = (0 <=? x).
Proof.
  unfold zero. destruct (Z.compare_spec x 0) as [->|H|H]; simpl.
  - reflexivity.
  - symmetry. apply Z.leb_gt. lia.
  - symmetry. apply Z.leb_le. lia.
Qed.

(* What one iteration of round 2 did, read off its result. *)
Definition queueShareStepResult (rp : RocketPool) (j : nat) (v : uint8)
    (d : NativeMinipoolDetails)
    (st st' : MultiCaller (nat * Field) * list NativeMinipoolDetails) : Prop :=
  match NewMinipoolFromVersion rp (MinipoolAddress d) v with
  | inl err =>
      fst st' = fst st /\ snd st' = <[j := assign FVersion (VUint8 v) d]> (snd st)
  | inr mp =>
      exists b r,
        Balance d = Some b /\ NodeRefundBalance d = Some r /\
        mc_client (fst st') = mc_client (fst st) /\
        mc_calls (fst st') =
          mc_calls (fst st)
          ++ (if 0 <=? b - r
              then sharePair mp j FNodeShareOfBalance FUserShareOfBalance (b - r)
              else []) /\
        exists d',
          snd st' = <[j := d']> (snd st) /\
          ((0 <=? b - r) = false ->
             NodeShareOfBalance d' = Some 0 /\ UserShareOfBalance d' = Some 0)
  end.

Lemma queueShareStep_inv rp contracts versions opts j st st' t :
  queueShareStep rp contracts versions opts j st = Some (st', t) ->
  exists d v,
    snd st !! j = Some d /\ versions !! j = Some v /\
    queueShareStepResult rp j v d st st'.
Proof.
  unfold queueShareStep, queueShareStepResult. intros Hrun.
  apply bind_Some in Hrun. destruct Hrun as (d & t1 & t2 & Hd & Hrun & _).
  apply index_Some in Hd. destruct Hd as [Hd _].
  apply bind_Some in Hrun. destruct Hrun as (v & t3 & t4 & Hv & Hrun & _).
  apply index_Some in Hv. destruct Hv as [Hv _].
  exists d, v. split; [exact Hd|]. split; [exact Hv|].
  apply bind_Some in Hrun. destruct Hrun as ([[mc d'] e] & t5 & t6 & Hadd & Hrun & _).
  apply bind_Some in Hrun. destruct Hrun as (ds & t7 & t8 & Hset & Hrun & _).
  apply setIndex_Some in Hset. destruct Hset as (_ & Hset & _). subst ds.
  apply ret_Some in Hrun. destruct Hrun as [-> _]. simpl.
  unfold addMinipoolShareCalls in Hadd.
  change (MinipoolAddress (assign FVersion (VUint8 v) d))
    with (MinipoolAddress d) in Hadd.
  change (Version (assign FVersion (VUint8 v) d)) with v in Hadd.
  destruct (NewMinipoolFromVersion rp (MinipoolAddress d) v) as [err|mp].
  { apply ret_Some in Hadd. destruct Hadd as [[= -> -> _] _]. auto. }
  change (Balance (assign FVersion (VUint8 v) d)) with (Balance d) in Hadd.
  change (NodeRefundBalance (assign FVersion (VUint8 v) d))
    with (NodeRefundBalance d) in Hadd.
  destruct (Balance d) as [b|]; [|discriminate Hadd].
  destruct (NodeRefundBalance d) as [r|]; [|discriminate Hadd].
  unfold bigSub in Hadd. rewrite bind_ret_l in Hadd.
  change (DistributableBalance
            (assign FDistributableBalance (VBig (Some (b - r)))
               (assign FVersion (VUint8 v) d)))
    with (Some (b - r)) in Hadd.
  unfold bigCmp in Hadd. rewrite bind_ret_l, sign_nonnegative in Hadd.
  exists b, r. split; [reflexivity|]. split; [reflexivity|].
  destruct (0 <=? b - r); apply ret_Some in Hadd; destruct Hadd as [[= -> -> _] _].
  - split; [reflexivity|]. split.
    + unfold sharePair. rewrite !AddCall_calls, <- !app_assoc. reflexivity.
    + eexists. split; [reflexivity|]. discriminate.
  - split; [reflexivity|]. split; [symmetry; apply app_nil_r|].
    eexists. split; [reflexivity|]. intros _. split; reflexivity.
Qed.

Lemma queueShareStep_away rp contracts versions opts j st st' t p :
  queueShareStep rp contracts versions opts j st = Some (st', t) ->
  j <> p -> awayFrom p st st'.
Proof.
  intros Hrun Hne. apply queueShareStep_inv in Hrun.
  destruct Hrun as (d & v & Hd & Hv & Hres). unfold queueShareStepResult in Hres.
  destruct (NewMinipoolFromVersion rp (MinipoolAddress d) v) as [err|mp].
  - destruct Hres as [Hmc Hds].
    split; [rewrite Hds; apply list_lookup_insert_ne; exact Hne|].
    split; [rewrite Hmc; reflexivity|].
    exists []. split; [rewrite Hmc; symmetry; apply app_nil_r|constructor].
  - destruct Hres as (b & r & _ & _ & Hc & Hq & d' & Hds & _).
    split; [rewrite Hds; apply list_lookup_insert_ne; exact Hne|].
    split; [exact Hc|]. eexists. split; [exact Hq|].
    destruct (0 <=? b - r); repeat constructor; exact Hne.
Qed.

Lemma queueShareLoop_away rp contracts versions opts js st st' t p :
  forEach js (queueShareStep rp contracts versions opts) st = Some (st', t) ->
  ~ In p js -> awayFrom p st st'.
Proof.
  intros Hrun Hp.
  refine (forEach_inv (awayFrom p st) _ _ _ _ _ _ _ Hrun).
  - intros j s s' t0 Hj Hs Hbody. eapply awayFrom_trans; [exact Hs|].
    eapply queueShareStep_away; [exact Hbody|]. intros ->. contradiction.
  - apply awayFrom_refl.
Qed.

Section Round2Values.
Context (rp : RocketPool) (contracts : NetworkContracts).
Context (versions : list uint8) (opts : CallOpts).

(* The two shares of the balance that round 2 leaves in record [j], when
   the binding of the record is created. *)
Definition round2Shares (j : nat) (d d' : NativeMinipoolDetails) : Prop :=
  forall v mp,
    versions !! j = Some v ->
    NewMinipoolFromVersion rp (MinipoolAddress d) v = inr mp ->
    exists b r,
      Balance d = Some b /\ NodeRefundBalance d = Some r /\
      if 0 <=? b - r
      then shareAnswers (Client rp) (BlockNumber_ opts) mp (b - r)
             (NodeShareOfBalance d') (UserShareOfBalance d')
      else NodeShareOfBalance d' = Some 0 /\ UserShareOfBalance d' = Some 0.

Lemma sharesChunk_values i max ds ds' e t :
  sharesChunk rp contracts versions opts i max ds = Some ((ds', e), t) ->
  length ds' = length ds /\
  (forall j, ~ (i <= j < max)%nat -> ds' !! j = ds !! j) /\
  (e = None -> forall j, (i <= j < max)%nat ->
     exists d d', ds !! j = Some d /\ ds' !! j = Some d' /\ round2Shares j d d').
Proof.
  intros Hrun.
  destruct (sharesChunk_spec _ _ _ _ _ _ _ _ _ _ Hrun) as (Hlen & Hout & Hin).
  split; [exact Hlen|]. split; [exact Hout|].
  intros He j Hj. destruct (Hin He j Hj) as (d & d' & Hd & Hd' & _).
  exists d, d'. split; [exact Hd|]. split; [exact Hd'|].
  intros v mp Hv Hbinding. subst e.
  unfold sharesChunk, NewMultiCaller in Hrun.
  destruct (eth_bind (Client rp) (Multicaller_ContractAddress contracts)) as [eb|].
  { apply ret_Some in Hrun. destruct Hrun as [[=] _]. }
  apply bind_Some in Hrun. destruct Hrun as ([mc3 ds3] & t1 & t2 & Hq & Hrun & _).
  apply bind_Some in Hrun. destruct Hrun as ([[rs err] ds4] & t3 & t4 & Hcall & Hrun & _).
  apply ret_Some in Hrun. destruct Hrun as [[= -> Herr] _].
  destruct err as [err|]; [discriminate Herr|]. clear Herr.
  unfold queueShareCalls in Hq.
  assert (Hseq : seq i (max - i) = seq i (j - i) ++ j :: seq (S j) (max - S j)).
  { replace (max - i)%nat with ((j - i) + S (max - S j))%nat by lia.
    rewrite seq_app. simpl. replace (i + (j - i))%nat with j by lia. reflexivity. }
  rewrite Hseq in Hq.
  apply forEach_app in Hq. destruct Hq as (st1 & t5 & t6 & Hpre & Hq & _).
  simpl in Hq.
  apply bind_Some in Hq. destruct Hq as (st2 & t7 & t8 & Hstep & Hsuf & _).
  apply queueShareLoop_away with (p := j) in Hpre; [|rewrite in_seq; lia].
  destruct Hpre as (Hh1 & Hc1 & pre & Hpre & HFpre). simpl in Hh1, Hc1, Hpre.
  apply queueShareStep_inv in Hstep.
  destruct Hstep as (d1 & v' & Hd1 & Hv' & Hres).
  rewrite Hh1, Hd in Hd1. injection Hd1 as <-.
  rewrite Hv in Hv'. injection Hv' as <-.
  unfold queueShareStepResult in Hres. rewrite Hbinding in Hres.
  destruct Hres as (b & r & Hb & Hr & Hc2 & Hq2 & dj & Hh2 & Hzero).
  apply queueShareLoop_away with (p := j) in Hsuf; [|rewrite in_seq; lia].
  destruct Hsuf as (Hh3 & Hc3 & suf & Hsuf & HFsuf). simpl in Hh3, Hc3, Hsuf.
  assert (Hdj : ds3 !! j = Some dj).
  { rewrite Hh3, Hh2. apply list_lookup_insert_eq.
    eapply lookup_lt_Some. rewrite Hh1. exact Hd. }
  apply FlexibleCall_strict_ok in Hcall. destruct Hcall as [Hexec Hok].
  assert (Hclient : mc_client mc3 = Client rp) by congruence.
  rewrite Hclient in Hexec.
  exists b, r. split; [exact Hb|]. split; [exact Hr|].
  destruct (execCalls_sharePair (Client rp) (BlockNumber_ opts) pre suf (0 <=? b - r)
              mp j FNodeShareOfBalance FUserShareOfBalance (b - r) ds3 ds4 rs dj)
    as (d'' & Hd'' & Hshares).
  - rewrite <- Hexec, Hsuf, Hq2, Hpre. simpl. rewrite <- !app_assoc. reflexivity.
  - exact Hok.
  - reflexivity.
  - reflexivity.
  - discriminate.
  - apply away_not_slot. exact HFpre.
  - apply away_not_slot. exact HFsuf.
  - exact Hdj.
  - exact Hzero.
  - rewrite Hd' in Hd''. injection Hd'' as <-. exact Hshares.
Qed.

Lemma detailsRound2_values addresses ds ds' t :
  detailsRound2 rp contracts addresses versions opts ds = Some ((ds', None), t) ->
  forall j, (j < length addresses)%nat ->
    exists d d', ds !! j = Some d /\ ds' !! j = Some d' /\ round2Shares j d d'.
Proof.
  intros Hrun. unfold detailsRound2, round2Tasks in Hrun.
  eapply (errgroupWait_batches round2Shares
            (sharesChunk rp contracts versions opts)) in Hrun.
  - destruct Hrun as (_ & _ & Hin). apply Hin. reflexivity.
  - intros i max s s' e0 t0. apply sharesChunk_values.
  - unfold minipoolBatchSize. lia.
Qed.

End Round2Values.

(** X12. In a run of [getBulkMinipoolDetails] that returns no error, every
    record whose minipool binding is created has DistributableBalance =
    Balance - NodeRefundBalance and, as NodeShareOfBalance and
    UserShareOfBalance: what the minipool's calculateNodeShare and
    calculateUserShare answered for that difference at the block of the
    snapshot when the difference is zero or positive, and zero when it is
    negative. *)
Theorem getBulkMinipoolDetails_share_values (rp : RocketPool)
    (contracts : NetworkContracts) (addresses : list Address) (versions : list uint8)
    (opts : CallOpts) (result : list NativeMinipoolDetails) (t : Trace)
    (j : nat) (d : NativeMinipoolDetails) (mp : Contract) :
  getBulkMinipoolDetails rp contracts addresses versions opts
    = Some ((Some result, None), t) ->
  result !! j = Some d ->
  NewMinipoolFromVersion rp (MinipoolAddress d) (Version d) = inr mp ->
  exists b r,
    Balance d = Some b /\ NodeRefundBalance d = Some r /\
    DistributableBalance d = Some (b - r) /\
    if 0 <=? b - r
    then shareAnswers (Client rp) (BlockNumber_ opts) mp (b - r)
           (NodeShareOfBalance d) (UserShareOfBalance d)
    else NodeShareOfBalance d = Some 0 /\ UserShareOfBalance d = Some 0.
Proof.
  intros Hrun Hd Hbinding.
  destruct (getBulkMinipoolDetails_stages _ _ _ _ _ _ _ Hrun)
    as (ds0 & t0 & ds1 & t1 & ds2 & t2 & t3 & Hload & Hr1 & Hr2 & Hpost).
  pose proof Hload as Hlen0. apply loadBalances_spec in Hlen0.
  destruct Hlen0 as [Hlen0 _]. rewrite length_replicate in Hlen0.
  pose proof Hr1 as Hlen1. apply detailsRound1_spec in Hlen1. destruct Hlen1 as [Hlen1 _].
  pose proof Hr2 as Hspec2. apply detailsRound2_spec in Hspec2.
  destruct Hspec2 as [Hlen2 Hspec2].
  pose proof Hpost as Hlen3. apply postprocess_spec in Hlen3. destruct Hlen3 as [Hlen3 _].
  assert (Hj : (j < length addresses)%nat).
  { apply lookup_lt_Some in Hd. lia. }
  destruct (Hspec2 eq_refl j Hj) as (d1 & d2 & Hd1 & Hd2 & Ha2 & Hb2 & Hrf2 & Hv2 & Hdist).
  destruct (detailsRound2_values _ _ _ _ _ _ _ _ Hr2 j Hj)
    as (d1' & d2' & Hd1' & Hd2' & Hshares).
  rewrite Hd1 in Hd1'. injection Hd1' as <-.
  rewrite Hd2 in Hd2'. injection Hd2' as <-.
  rewrite (postprocess_exact _ _ _ _ _ Hpost j d2 Hd2) in Hd. injection Hd as <-.
  simpl in Hbinding |- *. rewrite Ha2 in Hbinding.
  destruct (Hshares (Version d2) mp Hv2 Hbinding) as (b & r & Hb & Hr & Hres).
  destruct (Hdist mp Hbinding) as (b' & r' & Hb' & Hr' & Hdb).
  rewrite Hb in Hb'. injection Hb' as <-. rewrite Hr in Hr'. injection Hr' as <-.
  exists b, r. rewrite Hb2, Hrf2. auto.
Qed.

Lemma getBulkMinipoolDetails_share_values_witness :
  exists result t,
    getBulkMinipoolDetails (Demo.rocketPool (Demo.client 25))
      (Demo.contracts (Demo.client 25)) [2; 3; 4]%N [3; 1; 3] Demo.opts
      = Some ((Some result, None), t) /\
    DistributableBalance <$> result = [Some (-5); Some 5; Some 15] /\
    NodeShareOfBalance <$> result = [Some 0; Some 1; Some 3] /\
    UserShareOfBalance <$> result = [Some 0; Some 4; Some 12] /\
    exists d, result !! 2%nat = Some d /\
      shareAnswers (Demo.client 25) (Some 17000000) {| ContractAddress := 4 |} 15
        (NodeShareOfBalance d) (UserShareOfBalance d).
Proof.
  destruct (getBulkMinipoolDetails (Demo.rocketPool (Demo.client 25))
              (Demo.contracts (Demo.client 25)) [2; 3; 4]%N [3; 1; 3] Demo.opts)
    as [[[[result|] [e|]] t]|] eqn:Hrun;
    try (exfalso;
         assert (Hsome : match getBulkMinipoolDetails (Demo.rocketPool (Demo.client 25))
                                 (Demo.contracts (Demo.client 25)) [2; 3; 4]%N
                                 [3; 1; 3] Demo.opts with
                         | Some ((Some _, None), _) => true
                         | _ => false
                         end = true) by (vm_compute; reflexivity);
         rewrite Hrun in Hsome; discriminate Hsome).
  assert (Hres : match getBulkMinipoolDetails (Demo.rocketPool (Demo.client 25))
                         (Demo.contracts (Demo.client 25)) [2; 3; 4]%N
                         [3; 1; 3] Demo.opts with
                 | Some ((Some r, _), _) =>
                     (DistributableBalance <$> r, NodeShareOfBalance <$> r,
                      UserShareOfBalance <$> r, MinipoolAddress <$> r, Version <$> r,
                      Balance <$> r, NodeRefundBalance <$> r)
                 | _ => ([], [], [], [], [], [], [])
                 end = ([Some (-5); Some 5; Some 15], [Some 0; Some 1; Some 3],
                        [Some 0; Some 4; Some 12], [2; 3; 4]%N, [3; 1; 3],
                        [Some 20; Some 30; Some 40], [Some 25; Some 25; Some 25]))
    by (vm_compute; reflexivity).
  rewrite Hrun in Hres. injection Hres as H1 H2 H3 H4 H5 H6 H7.
  exists result, t. split; [reflexivity|].
  split; [exact H1|]. split; [exact H2|]. split; [exact H3|].
  destruct result as [|d0 [|d1 [|d2 [|d3 rest]]]]; try discriminate H1.
  injection H4 as _ _ Ha. injection H5 as _ _ Hv.
  injection H6 as _ _ Hb. injection H7 as _ _ Hr.
  exists d2. split; [reflexivity|].
  destruct (getBulkMinipoolDetails_share_values _ _ _ _ _ _ _ 2%nat d2
              {| ContractAddress := 4 |} Hrun eq_refl) as (b & r & Hb' & Hr' & _ & Hshares).
  { rewrite Ha, Hv. reflexivity. }
  rewrite Hb in Hb'. injection Hb' as <-. rewrite Hr in Hr'. injection Hr' as <-.
  exact Hshares.
Defined.

(** * Outcomes of the version resolution *)

Lemma forEachErr_each_ok {A S} (xs : list A) (body : A -> S -> Net (S * option Error))
    (s s' : S) (t : Trace) :
  forEachErr xs body s = Some ((s', None), t) ->
  forall x, In x xs -> exists sx sx' tx, body x sx = Some ((sx', None), tx).
Proof.
  revert s t. induction xs as [|y xs IH]; intros s t Hrun x Hx; [destruct Hx|].
  simpl in Hrun.
  apply bind_Some in Hrun. destruct Hrun as ([s1 e1] & t1 & t2 & Hy & Hrest & _).
  destruct e1 as [e1|]; [apply ret_Some in Hrest; destruct Hrest as [[=] _]|].
  destruct Hx as [<-|Hx]; [eauto|]. eapply IH; eassumption.
Qed.

Lemma errgroupGo_each_ok {S} (tasks : list (S -> Net (S * option Error)))
    (s s' : S) errs (t : Trace) :
  errgroupGo tasks s = Some ((s', errs), t) ->
  firstError errs = None ->
  Forall (fun task => exists s0 s1 t0, task s0 = Some ((s1, None), t0)) tasks.
Proof.
  revert s s' errs t. induction tasks as [|task rest IH]; intros s s' errs t Hrun Herr;
    [constructor|].
  simpl in Hrun.
  apply bind_Some in Hrun. destruct Hrun as ([s1 e1] & t1 & t2 & Hhead & Hrun & _).
  apply bind_Some in Hrun. destruct Hrun as ([s2 es] & t3 & t4 & Hrest & Hrun & _).
  apply ret_Some in Hrun. destruct Hrun as [[= _ ->] _]. simpl in Herr.
  destruct e1 as [e1|]; [discriminate Herr|].
  constructor; [eauto|]. eapply IH; eassumption.
Qed.

Section ChunkedOk.
Context {V : Type} (target : nat -> option V).
Context (task : nat -> nat -> list V -> Net (list V * option Error)).
Context (size count : nat).

(* On a slice of [count] entries, a goroutine for [i, max) that returns no
   error has set the entries of its range to their targets. *)
Hypothesis task_ok : forall i max vs vs' t,
  (i < max <= count)%nat -> length vs = count ->
  task i max vs = Some ((vs', None), t) ->
  length vs' = count /\
  forall x, vs' !! x = if (i <=? x)%nat && (x <? max)%nat then target x else vs !! x.

Lemma errgroupGo_batchLoop_ok (fuel i : nat) (vs vs' : list V) errs t :
  (0 < size)%nat -> (count <= i + fuel * size)%nat -> length vs = count ->
  errgroupGo (map (fun b => task (fst b) (snd b)) (batchLoop fuel size count i)) vs
    = Some ((vs', errs), t) ->
  firstError errs = None ->
  length vs' = count /\
  forall x, vs' !! x = if (i <=? x)%nat && (x <? count)%nat then target x else vs !! x.
Proof using task_ok.
  intros Hsize. revert i vs errs t.
  induction fuel as [|fuel IH]; intros i vs errs t Hfuel Hlen Hrun Herr; simpl in Hrun.
  - apply ret_Some in Hrun. destruct Hrun as [[= -> _] _]. split; [exact Hlen|].
    intros x. destruct (Nat.leb_spec i x), (Nat.ltb_spec x count); simpl;
      try reflexivity; lia.
  - destruct (Nat.ltb_spec i count) as [Hi|Hi]; simpl in Hrun.
    + apply bind_Some in Hrun. destruct Hrun as ([vs1 e1] & t1 & t2 & Htask & Hrun & _).
      apply bind_Some in Hrun. destruct Hrun as ([vs2 es] & t3 & t4 & Hrest & Hrun & _).
      apply ret_Some in Hrun. destruct Hrun as [[= -> ->] _]. simpl in Herr.
      destruct e1 as [e1|]; [discriminate Herr|].
      destruct (task_ok i (Nat.min (i + size) count) vs vs1 t1 ltac:(lia) Hlen Htask)
        as (Hlen1 & Hvs1).
      assert (Hfuel' : (count <= i + size + fuel * size)%nat) by lia.
      destruct (IH (i + size)%nat vs1 es t3 Hfuel' Hlen1 Hrest Herr) as (Hlen2 & Hvs2).
      split; [exact Hlen2|]. intros x. rewrite Hvs2, Hvs1.
      destruct (Nat.leb_spec (i + size) x), (Nat.ltb_spec x count),
        (Nat.leb_spec i x), (Nat.ltb_spec x (Nat.min (i + size) count));
        simpl; try reflexivity; lia.
    + apply ret_Some in Hrun. destruct Hrun as [[= -> _] _]. split; [exact Hlen|].
      intros x. destruct (Nat.leb_spec i x), (Nat.ltb_spec x count); simpl;
        try reflexivity; lia.
Qed.

End ChunkedOk.

Lemma FlexibleCall_transport_error {L S} `{Output L S} (mc : MultiCaller L) strict
    (o : CallOpts) (s : S) e :
  eth_transport (mc_client mc) (BlockNumber_ o) (map call_desc (mc_calls mc)) = Some e ->
  FlexibleCall mc strict o s =
    Some (([], Some e, s),
          [{| rt_block := BlockNumber_ o;
              rt_request := ReqMulticall strict (map call_desc (mc_calls mc)) |}]).
Proof. intros Ht. unfold FlexibleCall. simpl. rewrite Ht. reflexivity. Qed.

(* A goroutine of the version resolution that returns no error had its
   multicaller bound and the version contract of every address of its range
   created. *)
Lemma versionsChunk_created rp contracts addresses opts i max vs vs' t :
  versionsChunk rp contracts addresses opts i max vs = Some ((vs', None), t) ->
  eth_bind (Client rp) (Multicaller_ContractAddress contracts) = None /\
  forall j, (i <= j < max)%nat ->
    exists a c, addresses !! j = Some a /\ GetRocketVersionContractForAddress rp a = inr c.
Proof.
  unfold versionsChunk, NewMultiCaller.
  destruct (eth_bind (Client rp) (Multicaller_ContractAddress contracts)) as [eb|].
  { intros Hrun. apply ret_Some in Hrun. destruct Hrun as [[=] _]. }
  intros Hrun. split; [reflexivity|].
  apply bind_Some in Hrun. destruct Hrun as ([mc e] & t1 & t2 & Hq & Hrun & _).
  destruct e as [e|]; [apply ret_Some in Hrun; destruct Hrun as [[=] _]|].
  intros j Hj.
  destruct (forEachErr_each_ok _ _ _ _ _ Hq j ltac:(apply in_seq; lia))
    as (sx & sx' & tx & Hbody).
  apply bind_Some in Hbody. destruct Hbody as (a & t3 & t4 & Ha & Hbody & _).
  apply index_Some in Ha. destruct Ha as [Ha _].
  exists a. destruct (GetRocketVersionContractForAddress rp a) as [err|c].
  - apply ret_Some in Hbody. destruct Hbody as [[=] _].
  - eauto.
Qed.

Lemma versionsChunk_ok rp contracts (addresses : list Address) opts :
  (forall a, In a addresses ->
     exists c, GetRocketVersionContractForAddress rp a = inr c) ->
  forall i max vs vs' t,
    (i < max <= length addresses)%nat -> length vs = length addresses ->
    versionsChunk rp contracts addresses opts i max vs = Some ((vs', None), t) ->
    length vs' = length addresses /\
    forall x, vs' !! x =
      if (i <=? x)%nat && (x <? max)%nat
      then resolvedVersion rp opts <$> addresses !! x
      else vs !! x.
Proof.
  intros Hcontract i max vs vs' t Hi Hlen Hrun.
  unfold versionsChunk, NewMultiCaller in Hrun.
  destruct (eth_bind (Client rp) (Multicaller_ContractAddress contracts)) as [eb|].
  { apply ret_Some in Hrun. destruct Hrun as [[=] _]. }
  assert (Hjs : Forall (fun j => (j < length addresses)%nat) (seq i (max - i))).
  { apply List.Forall_forall. intros j Hj. apply in_seq in Hj. lia. }
  rewrite (bind_run _ _ _ _ (queue_probes_run rp addresses Hcontract _ _ Hjs)) in Hrun.
  cbv beta iota in Hrun.
  destruct (execCalls_probes rp addresses opts Hcontract _ vs Hjs Hlen)
    as (vs1 & Hexec & Hlen1 & Hout1 & Hin1).
  set (results := map (fun j => {| Success := bool_decide
                                     (is_Some (probedAt rp addresses opts j)) |})
                      (seq i (max - i))) in *.
  set (mc := {| mc_client := Client rp;
                mc_address := Multicaller_ContractAddress contracts;
                mc_calls := [] ++ probeCalls rp addresses (seq i (max - i)) |}) in *.
  destruct (eth_transport (mc_client mc) (BlockNumber_ opts)
              (map call_desc (mc_calls mc))) as [e|] eqn:Htransport.
  { rewrite (bind_run _ _ _ _ (FlexibleCall_transport_error mc false opts vs e
                                 Htransport)) in Hrun.
    cbv beta iota in Hrun. simpl in Hrun. discriminate Hrun. }
  assert (Hrs : length results = (max - i)%nat).
  { unfold results. rewrite length_map, length_seq. reflexivity. }
  assert (Hfit : (0 + length results + i <= length vs1)%nat)
    by (rewrite Hrs, Hlen1, Hlen; lia).
  destruct (mark_failed_run i results 0 vs1 Hfit) as (vs2 & Hmark & Hlen2 & Hvs2).
  pose proof (FlexibleCall_lenient_run mc opts vs vs1 results Htransport Hexec) as Hcall.
  rewrite (bind_run _ _ _ _ Hcall) in Hrun. cbv beta iota in Hrun.
  rewrite (bind_run _ _ _ _ Hmark) in Hrun. cbv beta iota in Hrun.
  simpl in Hrun. injection Hrun as <- _.
  split; [unfold uint8 in *; congruence|].
  intros x. rewrite Hvs2. simpl.
  destruct (Nat.leb_spec i x) as [Hix|Hix]; simpl.
  - destruct (Nat.ltb_spec x max) as [Hxm|Hxm].
    + assert (Hr : results !! (x - i)%nat
                   = Some {| Success := bool_decide
                               (is_Some (probedAt rp addresses opts x)) |}).
      { unfold results. rewrite list_lookup_fmap, lookup_seq_lt by lia.
        simpl. replace (i + (x - i))%nat with x by lia. reflexivity. }
      rewrite Hr. simpl.
      assert (Hx : In x (seq i (max - i))) by (apply in_seq; lia).
      pose proof (Hin1 x Hx) as Hvx. unfold uint8 in *. rewrite Hvx.
      unfold resolvedVersion, probedAt.
      destruct (addresses !! x) as [a|] eqn:Ha.
      * simpl. destruct (probedVersion rp opts a) as [n|]; reflexivity.
      * apply lookup_ge_None in Ha. lia.
    + rewrite (lookup_ge_None_2 results) by lia.
      apply Hout1. rewrite in_seq. lia.
  - apply Hout1. rewrite in_seq. lia.
Qed.

(** X13. The outcomes of [getMinipoolVersionsFast], for any network. An
    error comes with a nil slice and is wrapped as "error getting minipool
    versions". A nil error comes with exactly one version per address, in
    order: the value its probe decoded to, or 1 if the probe failed; so the
    slice can be passed to the bulk fetch index by index. And if the version
    contract of some address cannot be created, every run returns an error:
    such an address is not given version 1. *)
Theorem getMinipoolVersionsFast_outcomes (rp : RocketPool)
    (contracts : NetworkContracts) (addresses : list Address) (opts : CallOpts) :
  (forall r e t,
     getMinipoolVersionsFast rp contracts addresses opts = Some ((r, Some e), t) ->
     r = None /\ exists cause, e = ErrWrap "error getting minipool versions" cause) /\
  (forall r t,
     getMinipoolVersionsFast rp contracts addresses opts = Some ((r, None), t) ->
     r = Some (map (resolvedVersion rp opts) addresses)) /\
  (forall a err r e t,
     In a addresses -> GetRocketVersionContractForAddress rp a = inl err ->
     getMinipoolVersionsFast rp contracts addresses opts = Some ((r, e), t) ->
     e <> None).
Proof.
  assert (Hsize : (0 < minipoolVersionBatchSize)%nat)
    by (unfold minipoolVersionBatchSize; lia).
  assert (Hnil : forall r t,
     getMinipoolVersionsFast rp contracts addresses opts = Some ((r, None), t) ->
     r = Some (map (resolvedVersion rp opts) addresses) /\
     forall a, In a addresses ->
       exists c, GetRocketVersionContractForAddress rp a = inr c).
  { intros r t Hrun. unfold getMinipoolVersionsFast, errgroupWait in Hrun.
    apply bind_Some in Hrun. destruct Hrun as ([vs e] & t1 & t2 & Hwait & Hrun & _).
    apply bind_Some in Hwait. destruct Hwait as ([vs' errs] & t3 & t4 & Hgo & Hwait & _).
    apply ret_Some in Hwait. destruct Hwait as [[= -> ->] _].
    destruct (firstError errs) as [e|] eqn:Herrs;
      [apply ret_Some in Hrun; destruct Hrun as [[=] _]|].
    apply ret_Some in Hrun. destruct Hrun as [[= ->] _].
    assert (Hcontract : forall a, In a addresses ->
              exists c, GetRocketVersionContractForAddress rp a = inr c).
    { intros a Ha. apply list_elem_of_In, list_elem_of_lookup_1 in Ha.
      destruct Ha as [j Ha].
      assert (Hj : (j < length addresses)%nat) by (eapply lookup_lt_Some; exact Ha).
      destruct (batches_In minipoolVersionBatchSize _ j Hsize Hj)
        as (lo & hi & Hin & Hrange).
      pose proof (errgroupGo_each_ok _ _ _ _ _ Hgo Herrs) as Hall.
      rewrite List.Forall_forall in Hall.
      destruct (Hall (versionsChunk rp contracts addresses opts lo hi))
        as (s0 & s1 & t0 & Hchunk).
      { apply in_map_iff. exists (lo, hi). split; [reflexivity|exact Hin]. }
      apply versionsChunk_created in Hchunk. destruct Hchunk as [_ Hcreated].
      destruct (Hcreated j Hrange) as (a' & c & Ha' & Hc).
      rewrite Ha in Ha'. injection Ha' as <-. eauto. }
    split; [|exact Hcontract]. f_equal.
    unfold batches in Hgo.
    assert (Hfuel : (length addresses
                     <= 0 + length addresses * minipoolVersionBatchSize)%nat) by nia.
    destruct (errgroupGo_batchLoop_ok
                (fun x => resolvedVersion rp opts <$> addresses !! x)
                (versionsChunk rp contracts addresses opts)
                minipoolVersionBatchSize (length addresses)
                (versionsChunk_ok rp contracts addresses opts Hcontract)
                (length addresses) 0 (replicate (length addresses) 0) vs' errs t3
                Hsize Hfuel (length_replicate _ _) Hgo Herrs) as [Hlen Hvs].
    apply list_eq. intros x. rewrite Hvs. simpl.
    change (map (resolvedVersion rp opts) addresses)
      with (resolvedVersion rp opts <$> addresses).
    rewrite list_lookup_fmap.
    destruct (Nat.ltb_spec x (length addresses)) as [Hx|Hx]; [reflexivity|].
    rewrite (proj1 (lookup_replicate_None _ _ _) Hx).
    rewrite (lookup_ge_None_2 addresses) by lia. reflexivity. }
  split; [|split].
  - intros r e t Hrun. unfold getMinipoolVersionsFast in Hrun.
    apply bind_Some in Hrun. destruct Hrun as ([vs e1] & t1 & t2 & _ & Hrun & _).
    destruct e1 as [e1|]; apply ret_Some in Hrun; destruct Hrun as [Hrun _];
      [|discriminate Hrun].
    injection Hrun as -> ->. eauto.
  - intros r t Hrun. apply Hnil in Hrun. apply Hrun.
  - intros a err r e t Ha Hfail Hrun ->.
    destruct (Hnil _ _ Hrun) as [_ Hcontract].
    destruct (Hcontract a Ha) as [c Hc]. rewrite Hfail in Hc. discriminate Hc.
Qed.

Lemma getMinipoolVersionsFast_outcomes_witness :
  (exists t,
     getMinipoolVersionsFast Demo.rp (Demo.contracts (Demo.client 2)) [2; 3; 4]%N
       Demo.opts = Some ((Some [3; 1; 3], None), t)) /\
  (exists cause t,
     getMinipoolVersionsFast (Demo.rocketPool (Demo.failingClient 2 "version"))
       (Demo.contracts (Demo.client 2)) [2; 3; 4]%N Demo.opts
       = Some ((None, Some (ErrWrap "error getting minipool versions" cause)), t)).
Proof.
  split.
  - destruct (getMinipoolVersionsFast Demo.rp (Demo.contracts (Demo.client 2))
                [2; 3; 4]%N Demo.opts) as [[[r [e|]] t]|] eqn:Hrun;
      try (exfalso;
           assert (Hsome : match getMinipoolVersionsFast Demo.rp
                                   (Demo.contracts (Demo.client 2)) [2; 3; 4]%N
                                   Demo.opts with
                           | Some ((_, None), _) => true
                           | _ => false
                           end = true) by (vm_compute; reflexivity);
           rewrite Hrun in Hsome; discriminate Hsome).
    destruct (getMinipoolVersionsFast_outcomes Demo.rp (Demo.contracts (Demo.client 2))
                [2; 3; 4]%N Demo.opts) as (_ & Hok & _).
    rewrite (Hok r t Hrun). exists t. reflexivity.
  - destruct (getMinipoolVersionsFast (Demo.rocketPool (Demo.failingClient 2 "version"))
                (Demo.contracts (Demo.client 2)) [2; 3; 4]%N Demo.opts)
      as [[[r [e|]] t]|] eqn:Hrun;
      try (exfalso;
           assert (Hsome : match getMinipoolVersionsFast
                                   (Demo.rocketPool (Demo.failingClient 2 "version"))
                                   (Demo.contracts (Demo.client 2))
                                   [2; 3; 4]%N Demo.opts with
                           | Some ((_, Some _), _) => true
                           | _ => false
                           end = true) by (vm_compute; reflexivity);
           rewrite Hrun in Hsome; discriminate Hsome).
    destruct (getMinipoolVersionsFast_outcomes
                (Demo.rocketPool (Demo.failingClient 2 "version"))
                (Demo.contracts (Demo.client 2)) [2; 3; 4]%N Demo.opts)
      as (Herr & _ & _).
    destruct (Herr r e t Hrun) as (-> & cause & ->).
    exists cause, t. reflexivity.
Defined.

(** * The Oracle DAO members *)

Lemma Odao_AddCall_calls {L} (mc : Odao.MultiCaller L) contract (output : L) method args :
  Odao.mc_calls (Odao.AddCall mc contract output method args) =
  Odao.mc_calls mc ++
    [{| call_desc := {| cd_target := contract; cd_method := method; cd_args := args |};
        call_output := output |}].
Proof. reflexivity. Qed.

Lemma Odao_FlexibleCall_trace {L S} `{Odao.Output L S} (mc : Odao.MultiCaller L)
    strict opts (s : S) r t :
  Odao.FlexibleCall mc strict opts s = Some (r, t) ->
  t = [{| rt_block := BlockNumber_ opts;
          rt_request := ReqMulticall strict (map call_desc (Odao.mc_calls mc)) |}].
Proof.
  unfold Odao.FlexibleCall. intros Hrun.
  apply bind_Some in Hrun. destruct Hrun as (u & t1 & t2 & Hrt & Hrun & ->).
  injection Hrt as _ <-.
  destruct (Odao.eth_transport (Odao.mc_client mc) (BlockNumber_ opts) _) as [e|].
  - apply ret_Some in Hrun. destruct Hrun as [_ ->]. reflexivity.
  - destruct (Odao.execCalls _ _ _ s) as [results s'].
    destruct (strict && negb (forallb Success results));
      apply ret_Some in Hrun; destruct Hrun as [_ ->]; reflexivity.
Qed.

Lemma Odao_FlexibleCall_strict_ok {L S} `{Odao.Output L S} (mc : Odao.MultiCaller L)
    opts (s s' : S) rs t :
  Odao.FlexibleCall mc true opts s = Some ((rs, None, s'), t) ->
  Odao.eth_transport (Odao.mc_client mc) (BlockNumber_ opts)
    (map call_desc (Odao.mc_calls mc)) = None /\
  Odao.execCalls (Odao.mc_client mc) (BlockNumber_ opts) (Odao.mc_calls mc) s = (rs, s') /\
  forallb Success rs = true.
Proof.
  unfold Odao.FlexibleCall. intros Hrun.
  apply bind_Some in Hrun. destruct Hrun as (u & t1 & t2 & _ & Hrun & _).
  destruct (Odao.eth_transport (Odao.mc_client mc) (BlockNumber_ opts) _) as [e|].
  { apply ret_Some in Hrun. destruct Hrun as [[=] _]. }
  destruct (Odao.execCalls (Odao.mc_client mc) (BlockNumber_ opts) (Odao.mc_calls mc) s)
    as [results s1].
  simpl in Hrun. destruct (forallb Success results) eqn:Hok; simpl in Hrun.
  - apply ret_Some in Hrun. destruct Hrun as [[= -> ->] _]. auto.
  - apply ret_Some in Hrun. destruct Hrun as [[=] _].
Qed.

Lemma Odao_FlexibleCall_error {L S} `{Odao.Output L S} (mc : Odao.MultiCaller L)
    strict opts (s s' : S) rs e t :
  Odao.FlexibleCall mc strict opts s = Some ((rs, Some e, s'), t) -> s' = s.
Proof.
  unfold Odao.FlexibleCall. intros Hrun.
  apply bind_Some in Hrun. destruct Hrun as (u & t1 & t2 & _ & Hrun & _).
  destruct (Odao.eth_transport (Odao.mc_client mc) (BlockNumber_ opts) _) as [e'|].
  { apply ret_Some in Hrun. destruct Hrun as [Hrun _]. injection Hrun as _ _ ->.
    reflexivity. }
  destruct (Odao.execCalls (Odao.mc_client mc) (BlockNumber_ opts) (Odao.mc_calls mc) s)
    as [results s1].
  destruct (strict && negb (forallb Success results));
    apply ret_Some in Hrun; destruct Hrun as [Hrun _].
  - injection Hrun as _ _ ->. reflexivity.
  - discriminate Hrun.
Qed.

(** ** What a batch does to the records *)

(* The value held by the field a call is bound to. *)
Definition fieldValue (f : Odao.Field) (d : Odao.OracleDaoMemberDetails) : Odao.Decoded :=
  match f with
  | Odao.FExists => Odao.DBool (Odao.Exists d)
  | Odao.FID => Odao.DString (Odao.ID d)
  | Odao.FUrl => Odao.DString (Odao.Url d)
  | Odao.FjoinedTimeRaw => Odao.DBig (Odao.joinedTimeRaw d)
  | Odao.FlastProposalTimeRaw => Odao.DBig (Odao.lastProposalTimeRaw d)
  | Odao.FRPLBondAmount => Odao.DBig (Odao.RPLBondAmount d)
  | Odao.FReplacementAddress => Odao.DAddress (Odao.ReplacementAddress d)
  | Odao.FIsChallenged => Odao.DBool (Odao.IsChallenged d)
  end.

(* [d'] is [d] but for the fields calls are bound to. *)
Definition sameMember (d d' : Odao.OracleDaoMemberDetails) : Prop :=
  Odao.Address_ d' = Odao.Address_ d /\
  Odao.JoinedTime d' = Odao.JoinedTime d /\
  Odao.LastProposalTime d' = Odao.LastProposalTime d.

Lemma sameMember_refl d : sameMember d d.
Proof. repeat split. Qed.

Lemma sameMember_trans d1 d2 d3 : sameMember d1 d2 -> sameMember d2 d3 -> sameMember d1 d3.
Proof. unfold sameMember. intros (? & ? & ?) (? & ? & ?). repeat split; congruence. Qed.

Lemma store_spec f v d d' :
  Odao.store f v d = Some d' ->
  fieldValue f d' = v /\ v <> Odao.DBig None /\ sameMember d d' /\
  forall g, g <> f -> fieldValue g d' = fieldValue g d.
Proof.
  intros Hstore.
  destruct f, v as [b|s|[n|]|a]; simpl in Hstore; try discriminate Hstore;
    injection Hstore as <-;
    (split; [reflexivity|]); (split; [discriminate|]);
    (split; [repeat split|]);
    intros g Hg; destruct g; try reflexivity; contradiction Hg; reflexivity.
Qed.

Lemma details_unpack_inv (l : nat * Odao.Field) v (s s' : list Odao.OracleDaoMemberDetails) :
  Odao.unpack l v s = Some s' ->
  exists d d', s !! fst l = Some d /\ Odao.store (snd l) v d = Some d' /\
               s' = <[fst l := d']> s.
Proof.
  unfold Odao.unpack, Odao.details_output. intros Hun.
  destruct (s !! fst l) as [d|]; [|discriminate Hun].
  destruct (Odao.store (snd l) v d) as [d'|] eqn:Hstore; [|discriminate Hun].
  injection Hun as <-. eauto.
Qed.

Lemma Odao_execCalls_cons {L S} `{Odao.Output L S} client block (c : Call L) rest
    (s s' : S) rs :
  Odao.execCalls client block (c :: rest) s = (rs, s') ->
  exists ok s1 rs',
    rs = {| Success := ok |} :: rs' /\
    Odao.execCalls client block rest s1 = (rs', s') /\
    (if ok
     then exists v, Odao.eth_call client block (call_desc c) = Some v /\
                    Odao.unpack (call_output c) v s = Some s1
     else s1 = s).
Proof.
  simpl. intros Hrun.
  destruct (Odao.eth_call client block (call_desc c)) as [v|].
  - destruct (Odao.unpack (call_output c) v s) as [s1|] eqn:Hun.
    + destruct (Odao.execCalls client block rest s1) as [rs' s2] eqn:Hrest.
      injection Hrun as <- <-. exists true, s1, rs'. eauto.
    + destruct (Odao.execCalls client block rest s) as [rs' s2] eqn:Hrest.
      injection Hrun as <- <-. exists false, s, rs'. eauto.
  - destruct (Odao.execCalls client block rest s) as [rs' s2] eqn:Hrest.
    injection Hrun as <- <-. exists false, s, rs'. eauto.
Qed.

(* Whatever the calls answer, a batch keeps the number of records, the
   address and the times of each, and every field no call is bound to. *)
Lemma details_exec_frame client block (calls : list (Call (nat * Odao.Field)))
    (s s' : list Odao.OracleDaoMemberDetails) rs :
  Odao.execCalls client block calls s = (rs, s') ->
  length s' = length s /\
  forall p d, s !! p = Some d ->
    exists d', s' !! p = Some d' /\ sameMember d d' /\
      forall f, ~ In (p, f) (map call_output calls) -> fieldValue f d' = fieldValue f d.
Proof.
  revert s rs. induction calls as [|c rest IH]; intros s rs Hrun.
  - injection Hrun as _ <-. split; [reflexivity|]. intros p d Hd.
    exists d. split; [exact Hd|]. split; [apply sameMember_refl|reflexivity].
  - apply Odao_execCalls_cons in Hrun.
    destruct Hrun as (ok & s1 & rs' & _ & Hrest & Hc).
    destruct (IH _ _ Hrest) as (Hlen & Hframe).
    assert (Hs1 : length s1 = length s /\
              forall p d, s !! p = Some d ->
                exists d1, s1 !! p = Some d1 /\ sameMember d d1 /\
                  forall f, (p, f) <> call_output c -> fieldValue f d1 = fieldValue f d).
    { destruct ok.
      - destruct Hc as (v & _ & Hun). apply details_unpack_inv in Hun.
        destruct Hun as (d0 & d0' & Hd0 & Hstore & ->).
        split; [apply length_insert|]. intros p d Hd.
        destruct (Nat.eq_dec p (fst (call_output c))) as [->|Hp].
        + rewrite Hd0 in Hd. injection Hd as <-.
          apply store_spec in Hstore. destruct Hstore as (_ & _ & Hsame & Hother).
          exists d0'. split.
          { apply list_lookup_insert_eq. eapply lookup_lt_Some. exact Hd0. }
          split; [exact Hsame|]. intros f Hf. apply Hother.
          intros ->. apply Hf. destruct (call_output c). reflexivity.
        + exists d. split; [rewrite list_lookup_insert_ne by auto; exact Hd|].
          split; [apply sameMember_refl|reflexivity].
      - subst s1. split; [reflexivity|]. intros p d Hd. exists d.
        split; [exact Hd|]. split; [apply sameMember_refl|reflexivity]. }
    destruct Hs1 as (Hlen1 & Hframe1).
    split; [congruence|]. intros p d Hd.
    destruct (Hframe1 p d Hd) as (d1 & Hd1 & Hsame1 & Hval1).
    destruct (Hframe p d1 Hd1) as (d' & Hd' & Hsame & Hval).
    exists d'. split; [exact Hd'|]. split; [eapply sameMember_trans; eauto|].
    intros f Hf. simpl in Hf. rewrite Hval, Hval1; [reflexivity| |]; intuition.
Qed.

(* When every call of a batch succeeded and no two are bound to the same
   field, each field holds what its call answered. *)
Lemma details_exec_write client block (calls : list (Call (nat * Odao.Field)))
    (s s' : list Odao.OracleDaoMemberDetails) rs :
  Odao.execCalls client block calls s = (rs, s') ->
  forallb Success rs = true ->
  List.NoDup (map call_output calls) ->
  forall c, In c calls ->
    exists d', s' !! fst (call_output c) = Some d' /\
      Odao.eth_call client block (call_desc c)
        = Some (fieldValue (snd (call_output c)) d') /\
      fieldValue (snd (call_output c)) d' <> Odao.DBig None.
Proof.
  revert s rs. induction calls as [|c0 rest IH]; intros s rs Hrun Hok Hnd c Hin.
  - destruct Hin.
  - apply Odao_execCalls_cons in Hrun.
    destruct Hrun as (ok & s1 & rs' & -> & Hrest & Hc).
    simpl in Hok. apply andb_prop in Hok. destruct Hok as [Hok0 Hok]. subst ok.
    simpl in Hnd. apply List.NoDup_cons_iff in Hnd. destruct Hnd as [Hfresh Hnd].
    destruct Hin as [<-|Hin]; [|eapply IH; eauto].
    destruct Hc as (v & Hcall & Hun). apply details_unpack_inv in Hun.
    destruct Hun as (d0 & d0' & Hd0 & Hstore & ->).
    apply store_spec in Hstore. destruct Hstore as (Hval & Hnil & _ & _).
    destruct (details_exec_frame _ _ _ _ _ _ Hrest) as (_ & Hframe).
    destruct (Hframe (fst (call_output c0)) d0') as (d' & Hd' & _ & Hkeep).
    { apply list_lookup_insert_eq. eapply lookup_lt_Some. exact Hd0. }
    exists d'. split; [exact Hd'|].
    rewrite Hkeep by (destruct (call_output c0); exact Hfresh).
    rewrite Hval. split; [exact Hcall|exact Hnil].
Qed.

(** ** One member *)

(* The eight calls queued for the member at [address], bound to record [ptr]. *)
Definition memberCalls (dao : Contract) (ptr : nat) (address : Address)
  : list (Call (nat * Odao.Field)) :=
  map (fun fm : Odao.Field * string =>
         {| call_desc := {| cd_target := dao; cd_method := snd fm;
                            cd_args := [VAddress address] |};
            call_output := (ptr, fst fm) |})
      [(Odao.FExists, "getMemberIsValid"); (Odao.FID, "getMemberID");
       (Odao.FUrl, "getMemberUrl"); (Odao.FjoinedTimeRaw, "getMemberJoinedTime");
       (Odao.FlastProposalTimeRaw, "getMemberLastProposalTime");
       (Odao.FRPLBondAmount, "getMemberRPLBondAmount");
       (Odao.FReplacementAddress, "getMemberReplacedAddress");
       (Odao.FIsChallenged, "getMemberIsChallenged")].

Lemma addOracleDaoMemberDetailsCalls_calls rp contracts mc ptr details opts :
  Odao.addOracleDaoMemberDetailsCalls rp contracts mc ptr details opts =
    ({| Odao.mc_client := Odao.mc_client mc;
        Odao.mc_address := Odao.mc_address mc;
        Odao.mc_calls :=
          Odao.mc_calls mc
          ++ memberCalls (Odao.RocketDAONodeTrusted contracts) ptr
               (Odao.Address_ details) |}, None).
Proof.
  unfold Odao.addOracleDaoMemberDetailsCalls, Odao.AddCall, memberCalls. simpl.
  rewrite <- !app_assoc. reflexivity.
Qed.

Lemma memberCalls_outputs dao ptr address c :
  In c (memberCalls dao ptr address) -> fst (call_output c) = ptr.
Proof.
  unfold memberCalls. intros Hin. apply in_map_iff in Hin.
  destruct Hin as (fm & <- & _). reflexivity.
Qed.

Lemma memberCalls_NoDup dao ptr address :
  List.NoDup (map call_output (memberCalls dao ptr address)).
Proof.
  simpl. repeat (constructor; [simpl; intuition discriminate|]). constructor.
Qed.

(* What the DAO contract answers about the member at [address], at a block:
   the fetched fields of [d]. *)
Definition memberAnswers (client : Odao.EthClient) (block : BlockNumber)
    (dao : Contract) (address : Address) (d : Odao.OracleDaoMemberDetails) : Prop :=
  let answer method :=
    Odao.eth_call client block
      {| cd_target := dao; cd_method := method; cd_args := [VAddress address] |} in
  answer "getMemberIsValid" = Some (Odao.DBool (Odao.Exists d)) /\
  answer "getMemberID" = Some (Odao.DString (Odao.ID d)) /\
  answer "getMemberUrl" = Some (Odao.DString (Odao.Url d)) /\
  answer "getMemberJoinedTime" = Some (Odao.DBig (Odao.joinedTimeRaw d)) /\
  answer "getMemberLastProposalTime" = Some (Odao.DBig (Odao.lastProposalTimeRaw d)) /\
  answer "getMemberRPLBondAmount" = Some (Odao.DBig (Odao.RPLBondAmount d)) /\
  answer "getMemberReplacedAddress" = Some (Odao.DAddress (Odao.ReplacementAddress d)) /\
  answer "getMemberIsChallenged" = Some (Odao.DBool (Odao.IsChallenged d)).

(* The amounts of [d] are not nil. *)
Definition amountsSet (d : Odao.OracleDaoMemberDetails) : Prop :=
  Odao.joinedTimeRaw d <> None /\ Odao.lastProposalTimeRaw d <> None /\
  Odao.RPLBondAmount d <> None.

(* A record as the fetch and the fixup leave it: it carries [address], its
   amounts are not nil and its two times are what [convertToTime] makes of
   the raw timestamps. *)
Definition memberFetched (address : Address) (d : Odao.OracleDaoMemberDetails) : Prop :=
  Odao.Address_ d = address /\ amountsSet d /\
  Odao.convertToTime (Odao.joinedTimeRaw d) = ret (Odao.JoinedTime d) /\
  Odao.convertToTime (Odao.lastProposalTimeRaw d) = ret (Odao.LastProposalTime d).

(* After a strict batch that went through, the record the eight calls of a
   member are bound to holds their answers. *)
Lemma memberCalls_answers client block dao ptr address
    (calls : list (Call (nat * Odao.Field)))
    (s s' : list Odao.OracleDaoMemberDetails) rs d' :
  Odao.execCalls client block calls s = (rs, s') ->
  forallb Success rs = true ->
  List.NoDup (map call_output calls) ->
  incl (memberCalls dao ptr address) calls ->
  s' !! ptr = Some d' ->
  memberAnswers client block dao address d' /\ amountsSet d'.
Proof.
  intros Hexec Hok Hnd Hincl Hd'.
  pose proof (details_exec_write _ _ _ _ _ _ Hexec Hok Hnd) as Hwrite.
  assert (Hfield : forall f m,
            In (f, m) [(Odao.FExists, "getMemberIsValid"); (Odao.FID, "getMemberID");
                       (Odao.FUrl, "getMemberUrl");
                       (Odao.FjoinedTimeRaw, "getMemberJoinedTime");
                       (Odao.FlastProposalTimeRaw, "getMemberLastProposalTime");
                       (Odao.FRPLBondAmount, "getMemberRPLBondAmount");
                       (Odao.FReplacementAddress, "getMemberReplacedAddress");
                       (Odao.FIsChallenged, "getMemberIsChallenged")] ->
            Odao.eth_call client block
              {| cd_target := dao; cd_method := m; cd_args := [VAddress address] |}
              = Some (fieldValue f d') /\
            fieldValue f d' <> Odao.DBig None).
  { intros f m Hin.
    destruct (Hwrite {| call_desc := {| cd_target := dao; cd_method := m;
                                        cd_args := [VAddress address] |};
                        call_output := (ptr, f) |}) as (d1 & Hd1 & Hcall & Hnil).
    { apply Hincl. unfold memberCalls. apply in_map_iff. exists (f, m). auto. }
    simpl in Hd1, Hcall, Hnil. rewrite Hd' in Hd1. injection Hd1 as <-. auto. }
  unfold memberAnswers, amountsSet.
  repeat match goal with
  | |- _ /\ _ => split
  | |- Odao.eth_call _ _ {| cd_target := _; cd_method := ?m; cd_args := _ |}
         = Some ?v =>
      match v with
      | Odao.DBool (Odao.Exists _) => apply (Hfield Odao.FExists m)
      | Odao.DString (Odao.ID _) => apply (Hfield Odao.FID m)
      | Odao.DString (Odao.Url _) => apply (Hfield Odao.FUrl m)
      | Odao.DBig (Odao.joinedTimeRaw _) => apply (Hfield Odao.FjoinedTimeRaw m)
      | Odao.DBig (Odao.lastProposalTimeRaw _) =>
          apply (Hfield Odao.FlastProposalTimeRaw m)
      | Odao.DBig (Odao.RPLBondAmount _) => apply (Hfield Odao.FRPLBondAmount m)
      | Odao.DAddress (Odao.ReplacementAddress _) =>
          apply (Hfield Odao.FReplacementAddress m)
      | Odao.DBool (Odao.IsChallenged _) => apply (Hfield Odao.FIsChallenged m)
      end; simpl; tauto
  end.
  - destruct (Hfield Odao.FjoinedTimeRaw "getMemberJoinedTime") as [_ Hn];
      [simpl; tauto|]. simpl in Hn. congruence.
  - destruct (Hfield Odao.FlastProposalTimeRaw "getMemberLastProposalTime") as [_ Hn];
      [simpl; tauto|]. simpl in Hn. congruence.
  - destruct (Hfield Odao.FRPLBondAmount "getMemberRPLBondAmount") as [_ Hn];
      [simpl; tauto|]. simpl in Hn. congruence.
Qed.

(* The fixup, on a record whose timestamps were fetched. *)
Lemma fixupOracleDaoMemberDetails_inv rp d opts d' e t :
  Odao.fixupOracleDaoMemberDetails rp d opts = Some ((d', e), t) ->
  e = None /\ t = [] /\
  exists joined last,
    Odao.joinedTimeRaw d = Some joined /\ Odao.lastProposalTimeRaw d = Some last /\
    d' = Odao.setTimes (Odao.Unix joined) (Odao.Unix last) d.
Proof.
  unfold Odao.fixupOracleDaoMemberDetails, Odao.convertToTime. intros Hrun.
  destruct (Odao.joinedTimeRaw d) as [joined|] eqn:Hj; [|discriminate Hrun].
  rewrite bind_ret_l in Hrun. simpl in Hrun.
  destruct (Odao.lastProposalTimeRaw d) as [last|] eqn:Hl; [|discriminate Hrun].
  rewrite bind_ret_l in Hrun. apply ret_Some in Hrun. destruct Hrun as [Hrun ->].
  injection Hrun as Hd' <-. split; [reflexivity|]. split; [reflexivity|].
  exists joined, last. split; [reflexivity|]. split; [reflexivity|].
  subst d'. reflexivity.
Qed.


Lemma fixed_memberFetched client block dao address d joined last :
  Odao.Address_ d = address ->
  memberAnswers client block dao address d -> amountsSet d ->
  Odao.joinedTimeRaw d = Some joined -> Odao.lastProposalTimeRaw d = Some last ->
  memberFetched address (Odao.setTimes (Odao.Unix joined) (Odao.Unix last) d) /\
  memberAnswers client block dao address
    (Odao.setTimes (Odao.Unix joined) (Odao.Unix last) d).
Proof.
  intros Ha Hans Hset Hj Hl. split; [|exact Hans].
  split; [exact Ha|]. split; [exact Hset|].
  simpl. rewrite Hj, Hl. split; reflexivity.
Qed.

(** X14. [GetOracleDaoMemberDetails], for any network. Every error it
    returns comes with the zero-valued record. A nil error comes with a
    record that carries the address asked for and, in each of the eight
    fetched fields, what the DAO contract answered for that address at
    contracts.ElBlockNumber, the two times being the raw timestamps
    converted; that run made one round trip, a strict batch of exactly the
    eight getMember... calls at that block. *)
Theorem GetOracleDaoMemberDetails_outcomes (rp : Odao.RocketPool)
    (contracts : Odao.NetworkContracts) (memberAddress : Address) :
  (forall d e t,
     Odao.GetOracleDaoMemberDetails rp contracts memberAddress = Some ((d, Some e), t) ->
     d = Odao.emptyDetails) /\
  (forall d t,
     Odao.GetOracleDaoMemberDetails rp contracts memberAddress = Some ((d, None), t) ->
     memberFetched memberAddress d /\
     memberAnswers (Odao.Client rp) (Odao.ElBlockNumber contracts)
       (Odao.RocketDAONodeTrusted contracts) memberAddress d /\
     t = [{| rt_block := Odao.ElBlockNumber contracts;
             rt_request :=
               ReqMulticall true
                 (map call_desc
                    (memberCalls (Odao.RocketDAONodeTrusted contracts) 0
                       memberAddress)) |}]).
Proof.
  split.
  - intros d e t Hrun. unfold Odao.GetOracleDaoMemberDetails, Odao.NewMultiCaller in Hrun.
    destruct (Odao.eth_bind (Odao.Client rp) (Odao.MulticallerAddress contracts)).
    { apply ret_Some in Hrun. destruct Hrun as [Hrun _]. injection Hrun as <- _.
      reflexivity. }
    rewrite addOracleDaoMemberDetailsCalls_calls in Hrun.
    apply bind_Some in Hrun. destruct Hrun as ([[rs err] s] & t1 & t2 & _ & Hrun & _).
    destruct err as [err|].
    { apply ret_Some in Hrun. destruct Hrun as [Hrun _]. injection Hrun as <- _.
      reflexivity. }
    apply bind_Some in Hrun. destruct Hrun as (d1 & t3 & t4 & _ & Hrun & _).
    apply bind_Some in Hrun. destruct Hrun as ([d2 e2] & t5 & t6 & _ & Hrun & _).
    apply ret_Some in Hrun. destruct Hrun as [Hrun _]. discriminate Hrun.
  - intros d t Hrun. unfold Odao.GetOracleDaoMemberDetails, Odao.NewMultiCaller in Hrun.
    destruct (Odao.eth_bind (Odao.Client rp) (Odao.MulticallerAddress contracts)).
    { apply ret_Some in Hrun. destruct Hrun as [Hrun _]. discriminate Hrun. }
    rewrite addOracleDaoMemberDetailsCalls_calls in Hrun.
    apply bind_Some in Hrun. destruct Hrun as ([[rs err] s] & t1 & t2 & Hcall & Hrun & ->).
    destruct err as [err|];
      [apply ret_Some in Hrun; destruct Hrun as [Hrun _]; discriminate Hrun|].
    pose proof (Odao_FlexibleCall_trace _ _ _ _ _ _ Hcall) as Ht1. subst t1.
    apply Odao_FlexibleCall_strict_ok in Hcall. destruct Hcall as (_ & Hexec & Hok).
    apply bind_Some in Hrun. destruct Hrun as (d1 & t3 & t4 & Hd1 & Hrun & ->).
    apply index_Some in Hd1. destruct Hd1 as [Hd1 ->].
    apply bind_Some in Hrun. destruct Hrun as ([d2 e2] & t5 & t6 & Hfix & Hrun & ->).
    apply ret_Some in Hrun. destruct Hrun as [Hrun ->]. injection Hrun as ->.
    apply fixupOracleDaoMemberDetails_inv in Hfix.
    destruct Hfix as (_ & -> & joined & last & Hj & Hl & ->).
    cbn [Odao.mc_calls Odao.mc_client BlockNumber_ app] in Hexec.
    destruct (details_exec_frame _ _ _ _ _ _ Hexec) as (_ & Hframe).
    destruct (Hframe 0%nat _ eq_refl) as (d1' & Hd1' & (Haddr & _) & _).
    rewrite Hd1 in Hd1'. injection Hd1' as <-.
    destruct (memberCalls_answers _ _ _ 0%nat memberAddress _ _ _ _ _ Hexec Hok
                (memberCalls_NoDup _ _ _) (incl_refl _) Hd1) as (Hans & Hset).
    destruct (fixed_memberFetched _ _ _ memberAddress d1 joined last Haddr Hans Hset Hj Hl)
      as (Hfetched & Hans').
    split; [exact Hfetched|]. split; [exact Hans'|]. reflexivity.
Qed.

(** ** The addresses of the members *)

(* The call for the address of member [j]. *)
Definition memberAtCall (dao : Contract) (j : nat) : Call nat :=
  {| call_desc := {| cd_target := dao; cd_method := "getMemberAt";
                     cd_args := [VBig (Some (Z.of_nat j))] |};
     call_output := j |}.

(* The address the DAO contract answers for member [j], if it answers one. *)
Definition memberAt (client : Odao.EthClient) (block : BlockNumber) (dao : Contract)
    (j : nat) : option Address :=
  match Odao.eth_call client block (call_desc (memberAtCall dao j)) with
  | Some (Odao.DAddress a) => Some a
  | _ => None
  end.

Lemma addressBatchLoop_batchLoop fuel count i :
  Odao.addressBatchLoop fuel count i = batchLoop fuel 1000 count i.
Proof.
  revert i. induction fuel as [|fuel IH]; intros i; [reflexivity|].
  cbn [Odao.addressBatchLoop batchLoop]. rewrite IH. reflexivity.
Qed.

Lemma queueMemberAt_calls (dao : Contract) (js : list nat) (mc : Odao.MultiCaller nat) :
  Odao.mc_calls
    (fold_left (fun mc j => Odao.AddCall mc dao j "getMemberAt" [VBig (Some (Z.of_nat j))])
       js mc)
    = Odao.mc_calls mc ++ map (memberAtCall dao) js /\
  Odao.mc_client
    (fold_left (fun mc j => Odao.AddCall mc dao j "getMemberAt" [VBig (Some (Z.of_nat j))])
       js mc)
    = Odao.mc_client mc.
Proof.
  revert mc. induction js as [|j js IH]; intros mc; simpl.
  - rewrite app_nil_r. auto.
  - destruct (IH (Odao.AddCall mc dao j "getMemberAt" [VBig (Some (Z.of_nat j))]))
      as [-> ->].
    rewrite Odao_AddCall_calls, <- app_assoc. auto.
Qed.

Lemma addresses_unpack_inv (j : nat) v (s s' : list Address) :
  Odao.unpack j v s = Some s' ->
  exists a, v = Odao.DAddress a /\ (j < length s)%nat /\ s' = <[j := a]> s.
Proof.
  unfold Odao.unpack, Odao.addresses_output. intros Hun.
  destruct v as [b|str|p|a]; try discriminate Hun.
  destruct (Nat.ltb_spec j (length s)) as [Hj|Hj]; [|discriminate Hun].
  injection Hun as <-. eauto.
Qed.

(* A batch of getMemberAt calls that went through has stored, for each index
   asked, the address answered for it, and nothing else. *)
Lemma addresses_exec client block dao (js : list nat) (s s' : list Address) rs :
  Odao.execCalls client block (map (memberAtCall dao) js) s = (rs, s') ->
  forallb Success rs = true ->
  length s' = length s /\
  (forall x, ~ In x js -> s' !! x = s !! x) /\
  (forall x, In x js -> s' !! x = memberAt client block dao x /\ (x < length s)%nat).
Proof.
  revert s rs. induction js as [|j js IH]; intros s rs Hrun Hok.
  - injection Hrun as _ <-. split; [reflexivity|]. split; [reflexivity|]. intros x [].
  - cbn [map] in Hrun. apply Odao_execCalls_cons in Hrun.
    destruct Hrun as (ok & s1 & rs' & -> & Hrest & Hc).
    simpl in Hok. apply andb_prop in Hok. destruct Hok as [Hok0 Hok]. subst ok.
    destruct Hc as (v & Hcall & Hun). apply addresses_unpack_inv in Hun.
    change (call_output (memberAtCall dao j)) with j in Hun.
    destruct Hun as (a & -> & Hj & ->).
    destruct (IH _ _ Hrest Hok) as (Hlen & Hout & Hin).
    rewrite length_insert in Hlen, Hin.
    split; [exact Hlen|]. split.
    + intros x Hx. rewrite Hout by (intros Hc; apply Hx; right; exact Hc).
      apply list_lookup_insert_ne. intros ->. apply Hx. left. reflexivity.
    + intros x Hx. destruct (in_dec Nat.eq_dec x js) as [Hxs|Hxs]; [auto|].
      destruct Hx as [<-|Hx]; [|contradiction].
      split; [|exact Hj]. rewrite Hout by exact Hxs.
      rewrite list_lookup_insert_eq by exact Hj.
      unfold memberAt. rewrite Hcall. reflexivity.
Qed.

Lemma addressesChunk_inv rp contracts opts i max (addresses addresses' : list Address)
    e t :
  Odao.addressesChunk rp contracts opts i max addresses = Some ((addresses', e), t) ->
  match e with
  | None =>
      length addresses' = length addresses /\
      (forall x, addresses' !! x =
         if (i <=? x)%nat && (x <? max)%nat
         then memberAt (Odao.Client rp) (BlockNumber_ opts)
                (Odao.RocketDAONodeTrusted contracts) x
         else addresses !! x) /\
      t = [{| rt_block := BlockNumber_ opts;
              rt_request :=
                ReqMulticall true
                  (map (fun j => call_desc
                          (memberAtCall (Odao.RocketDAONodeTrusted contracts) j))
                     (seq i (max - i))) |}]
  | Some _ => addresses' = addresses /\ (length t <= 1)%nat
  end /\
  Forall (isStrictMulticallAt (BlockNumber_ opts)) t.
Proof.
  unfold Odao.addressesChunk, Odao.NewMultiCaller. intros Hrun.
  destruct (Odao.eth_bind (Odao.Client rp) (Odao.MulticallerAddress contracts)) as [err|].
  { apply ret_Some in Hrun. destruct Hrun as [Hrun ->]. injection Hrun as -> ->.
    split; [split; [reflexivity|simpl; lia]|constructor]. }
  apply bind_Some in Hrun. destruct Hrun as ([[rs err] s] & t1 & t2 & Hcall & Hrun & ->).
  apply ret_Some in Hrun. destruct Hrun as [Hrun ->]. injection Hrun as -> ->.
  pose proof (Odao_FlexibleCall_trace _ _ _ _ _ _ Hcall) as Ht1. subst t1.
  rewrite app_nil_r.
  destruct (queueMemberAt_calls (Odao.RocketDAONodeTrusted contracts) (seq i (max - i))
              {| Odao.mc_client := Odao.Client rp;
                 Odao.mc_address := Odao.MulticallerAddress contracts;
                 Odao.mc_calls := [] |}) as [Hcalls Hclient].
  split.
  - destruct err as [err|]; simpl.
    + apply Odao_FlexibleCall_error in Hcall. split; [exact Hcall|lia].
    + apply Odao_FlexibleCall_strict_ok in Hcall. destruct Hcall as (_ & Hexec & Hok).
      rewrite Hcalls, Hclient in Hexec. simpl in Hexec.
      destruct (addresses_exec _ _ _ _ _ _ _ Hexec Hok) as (Hlen & Hout & Hin).
      split; [exact Hlen|]. split.
      * intros x.
        destruct (Nat.leb_spec i x), (Nat.ltb_spec x max); simpl;
          try (apply Hout; rewrite in_seq; lia).
        apply Hin. rewrite in_seq. lia.
      * rewrite Hcalls. simpl. rewrite map_map. reflexivity.
  - constructor; [|constructor]. split; [reflexivity|]. simpl. eauto.
Qed.

Lemma enumerateMembers_inv rp contracts opts memberCount r e t :
  Odao.enumerateMembers rp contracts opts memberCount = Some ((r, e), t) ->
  Forall (isStrictMulticallAt (BlockNumber_ opts)) t /\
  (length t <= (Z.to_nat memberCount + 999) / 1000)%nat /\
  match e with
  | None =>
      exists addresses,
        r = Some addresses /\ length addresses = Z.to_nat memberCount /\
        (forall j, (j < Z.to_nat memberCount)%nat ->
           addresses !! j = memberAt (Odao.Client rp) (BlockNumber_ opts)
                              (Odao.RocketDAONodeTrusted contracts) j) /\
        length t = ((Z.to_nat memberCount + 999) / 1000)%nat
  | Some err =>
      r = None /\ exists cause, err = ErrWrap "error getting Oracle DAO addresses" cause
  end.
Proof.
  unfold Odao.enumerateMembers. intros Hrun.
  destruct (memberCount <? 2 ^ 63); [|discriminate Hrun].
  apply bind_Some in Hrun. destruct Hrun as ([addrs e1] & t1 & t2 & Hwait & Hrun & ->).
  unfold errgroupWait in Hwait.
  apply bind_Some in Hwait. destruct Hwait as ([a2 errs] & t3 & t4 & Hgo & Hwait & ->).
  apply ret_Some in Hwait. destruct Hwait as [Hwait ->]. injection Hwait as -> ->.
  rewrite addressBatchLoop_batchLoop in Hgo.
  set (count := Z.to_nat memberCount) in *.
  assert (Ht2 : t2 = []).
  { destruct (firstError errs); apply ret_Some in Hrun; destruct Hrun as [_ ->];
      reflexivity. }
  subst t2. rewrite !app_nil_r.
  assert (Htrace : Forall (isStrictMulticallAt (BlockNumber_ opts)) t3 /\
                   (length t3 <= (count + 999) / 1000)%nat /\
                   (firstError errs = None -> length t3 = ((count + 999) / 1000)%nat)).
  { pose proof Hgo as Hgo'. eapply errgroupGo_at_most_one in Hgo'.
    - rewrite length_map in Hgo'. fold (batches 1000 count) in Hgo'.
      rewrite batches_length in Hgo' by lia.
      replace (count + 1000 - 1)%nat with (count + 999)%nat in Hgo' by lia.
      exact Hgo'.
    - apply List.Forall_forall. intros task Hin. apply in_map_iff in Hin.
      destruct Hin as ([i max] & <- & _). simpl. intros s s' e0 t0 Hchunk.
      apply addressesChunk_inv in Hchunk. destruct Hchunk as (He0 & HQ).
      split; [exact HQ|]. destruct e0 as [e0|].
      + destruct He0 as (_ & Hle). split; [exact Hle|]. discriminate.
      + destruct He0 as (_ & _ & ->). simpl. split; [lia|reflexivity]. }
  destruct Htrace as (HQ & Hle & Heq).
  split; [exact HQ|]. split; [exact Hle|].
  destruct (firstError errs) as [err|] eqn:Herr;
    apply ret_Some in Hrun; destruct Hrun as [Hrun _]; injection Hrun as -> ->.
  { split; [reflexivity|]. eauto. }
  assert (Hfuel : (count <= 0 + count * 1000)%nat) by lia.
  destruct (errgroupGo_batchLoop_ok
              (memberAt (Odao.Client rp) (BlockNumber_ opts)
                 (Odao.RocketDAONodeTrusted contracts))
              (Odao.addressesChunk rp contracts opts) 1000 count) with
    (fuel := count) (i := 0%nat) (vs := replicate count 0%N) (vs' := a2)
    (errs := errs) (t := t3) as (Hlen & Hvals);
    [|lia|exact Hfuel|apply length_replicate|exact Hgo|exact Herr|].
  { intros i max vs vs' t0 Hi Hvs Hchunk. apply addressesChunk_inv in Hchunk.
    destruct Hchunk as ((Hlen & Hvals & _) & _). split; [congruence|exact Hvals]. }
  exists a2. split; [reflexivity|]. split; [exact Hlen|]. split; [|auto].
  intros j Hj. rewrite Hvals.
  destruct (Nat.leb_spec 0 j), (Nat.ltb_spec j count); simpl; try reflexivity; lia.
Qed.

(** ** The details of the members *)

Lemma details_ext (d d' : Odao.OracleDaoMemberDetails) :
  sameMember d d' -> (forall f, fieldValue f d' = fieldValue f d) -> d' = d.
Proof.
  intros (Ha & Hj & Hl) Hf.
  pose proof (Hf Odao.FExists) as H1. pose proof (Hf Odao.FID) as H2.
  pose proof (Hf Odao.FUrl) as H3. pose proof (Hf Odao.FjoinedTimeRaw) as H4.
  pose proof (Hf Odao.FlastProposalTimeRaw) as H5.
  pose proof (Hf Odao.FRPLBondAmount) as H6.
  pose proof (Hf Odao.FReplacementAddress) as H7.
  pose proof (Hf Odao.FIsChallenged) as H8.
  destruct d, d'. simpl in *.
  injection H1 as ->. injection H2 as ->. injection H3 as ->. injection H4 as ->.
  injection H5 as ->. injection H6 as ->. injection H7 as ->. injection H8 as ->.
  subst. reflexivity.
Qed.

(* A batch leaves alone the records none of its calls is bound to. *)
Lemma details_exec_untouched client block (calls : list (Call (nat * Odao.Field)))
    (s s' : list Odao.OracleDaoMemberDetails) rs p :
  Odao.execCalls client block calls s = (rs, s') ->
  (forall c, In c calls -> fst (call_output c) <> p) ->
  s' !! p = s !! p.
Proof.
  intros Hexec Hp. destruct (details_exec_frame _ _ _ _ _ _ Hexec) as (Hlen & Hframe).
  destruct (s !! p) as [d|] eqn:Hd.
  - destruct (Hframe p d Hd) as (d' & Hd' & Hsame & Hval). rewrite Hd'. f_equal.
    apply details_ext; [exact Hsame|]. intros f. apply Hval.
    intros Hin. apply in_map_iff in Hin. destruct Hin as (c & Hc & Hin).
    apply (Hp c Hin). rewrite Hc. reflexivity.
  - apply lookup_ge_None in Hd. apply lookup_ge_None. lia.
Qed.

Lemma queueMemberStep_inv rp contracts addresses opts j st st' t :
  Odao.queueMemberStep rp contracts addresses opts j st = Some (st', t) ->
  exists a d,
    addresses !! j = Some a /\ snd st !! j = Some d /\
    snd st' = <[j := Odao.setAddress a d]> (snd st) /\
    Odao.mc_calls (fst st') =
      Odao.mc_calls (fst st) ++ memberCalls (Odao.RocketDAONodeTrusted contracts) j a /\
    Odao.mc_client (fst st') = Odao.mc_client (fst st) /\ t = [].
Proof.
  unfold Odao.queueMemberStep. intros Hrun.
  apply bind_Some in Hrun. destruct Hrun as (a & t1 & t2 & Ha & Hrun & ->).
  apply index_Some in Ha. destruct Ha as [Ha ->].
  apply bind_Some in Hrun. destruct Hrun as (d & t3 & t4 & Hd & Hrun & ->).
  apply index_Some in Hd. destruct Hd as [Hd ->].
  rewrite addOracleDaoMemberDetailsCalls_calls in Hrun.
  apply bind_Some in Hrun. destruct Hrun as (ds & t5 & t6 & Hset & Hrun & ->).
  apply setIndex_Some in Hset. destruct Hset as (_ & -> & ->).
  apply ret_Some in Hrun. destruct Hrun as [-> ->].
  exists a, d. simpl. auto 10.
Qed.

Lemma queueMemberLoop_inv rp contracts addresses opts (js : list nat) st st' t :
  List.NoDup js ->
  forEach js (Odao.queueMemberStep rp contracts addresses opts) st = Some (st', t) ->
  t = [] /\ Odao.mc_client (fst st') = Odao.mc_client (fst st) /\
  length (snd st') = length (snd st) /\
  (forall j, ~ In j js -> snd st' !! j = snd st !! j) /\
  exists new,
    Odao.mc_calls (fst st') = Odao.mc_calls (fst st) ++ new /\
    (forall c, In c new -> In (fst (call_output c)) js) /\
    List.NoDup (map call_output new) /\
    forall j, In j js ->
      exists a d,
        addresses !! j = Some a /\ snd st !! j = Some d /\
        snd st' !! j = Some (Odao.setAddress a d) /\
        incl (memberCalls (Odao.RocketDAONodeTrusted contracts) j a) new.
Proof.
  revert st t. induction js as [|i js IH]; intros st t Hnd Hrun; simpl in Hrun.
  - apply ret_Some in Hrun. destruct Hrun as [-> ->].
    split; [reflexivity|]. split; [reflexivity|]. split; [reflexivity|].
    split; [reflexivity|]. exists []. rewrite app_nil_r.
    split; [reflexivity|]. split; [intros c []|]. split; [constructor|intros j []].
  - apply bind_Some in Hrun. destruct Hrun as (st1 & t1 & t2 & Hstep & Hrest & ->).
    apply List.NoDup_cons_iff in Hnd. destruct Hnd as [Hi Hnd].
    apply queueMemberStep_inv in Hstep.
    destruct Hstep as (a & d & Ha & Hd & Hst1 & Hcalls1 & Hclient1 & ->).
    destruct (IH _ _ Hnd Hrest)
      as (-> & Hclient & Hlen & Hout & new & Hcalls & Hptr & Hnew & Hin).
    split; [reflexivity|]. split; [congruence|].
    split; [rewrite Hlen, Hst1; apply length_insert|].
    split.
    { intros j Hj. rewrite Hout by (intros Hc; apply Hj; right; exact Hc).
      rewrite Hst1. apply list_lookup_insert_ne. intros ->. apply Hj. left. reflexivity. }
    exists (memberCalls (Odao.RocketDAONodeTrusted contracts) i a ++ new).
    split; [rewrite Hcalls, Hcalls1, app_assoc; reflexivity|]. split; [|split].
    + intros c Hc. apply in_app_or in Hc. destruct Hc as [Hc|Hc].
      * left. symmetry. eapply memberCalls_outputs. exact Hc.
      * right. apply Hptr. exact Hc.
    + rewrite map_app. apply List.NoDup_app; [apply memberCalls_NoDup|exact Hnew|].
      intros o Ho Ho'. apply in_map_iff in Ho. destruct Ho as (c & <- & Hc).
      apply in_map_iff in Ho'. destruct Ho' as (c' & Heq & Hc').
      apply Hi. rewrite <- (memberCalls_outputs _ _ _ _ Hc), <- Heq. apply Hptr. exact Hc'.
    + intros j [<-|Hj].
      * exists a, d. split; [exact Ha|]. split; [exact Hd|]. split.
        -- rewrite Hout by exact Hi. rewrite Hst1.
           apply list_lookup_insert_eq. eapply lookup_lt_Some. exact Hd.
        -- apply incl_appl, incl_refl.
      * destruct (Hin j Hj) as (aj & dj & Haj & Hdj & Hdj' & Hincl).
        exists aj, dj. split; [exact Haj|]. split.
        { rewrite Hst1 in Hdj. rewrite list_lookup_insert_ne in Hdj; [exact Hdj|].
          intros ->. apply Hi. exact Hj. }
        split; [exact Hdj'|]. apply incl_appr. exact Hincl.
Qed.

(* What a goroutine that returned no error has made of record [j], bound to
   the member at addresses[j]. *)
Definition memberFilled (client : Odao.EthClient) (block : BlockNumber) (dao : Contract)
    (addresses : list Address) (j : nat) (d d' : Odao.OracleDaoMemberDetails) : Prop :=
  exists a,
    addresses !! j = Some a /\ Odao.Address_ d' = a /\
    memberAnswers client block dao a d' /\ amountsSet d'.

Lemma memberDetailsChunk_inv rp contracts addresses opts i max
    (ds ds' : list Odao.OracleDaoMemberDetails) e t :
  Odao.memberDetailsChunk rp contracts addresses opts i max ds = Some ((ds', e), t) ->
  length ds' = length ds /\
  (forall j, ~ (i <= j < max)%nat -> ds' !! j = ds !! j) /\
  (e = None -> forall j, (i <= j < max)%nat ->
     exists d d', ds !! j = Some d /\ ds' !! j = Some d' /\
       memberFilled (Odao.Client rp) (BlockNumber_ opts)
         (Odao.RocketDAONodeTrusted contracts) addresses j d d') /\
  Forall (isStrictMulticallAt (BlockNumber_ opts)) t /\
  (length t <= 1)%nat /\ (e = None -> length t = 1%nat).
Proof.
  unfold Odao.memberDetailsChunk, Odao.NewMultiCaller. intros Hrun.
  destruct (Odao.eth_bind (Odao.Client rp) (Odao.MulticallerAddress contracts)) as [err|].
  { apply ret_Some in Hrun. destruct Hrun as [Hrun ->]. injection Hrun as -> ->.
    split; [reflexivity|]. split; [reflexivity|]. split; [discriminate|].
    split; [constructor|]. split; [simpl; lia|discriminate]. }
  apply bind_Some in Hrun. destruct Hrun as ([mc ds1] & t1 & t2 & Hloop & Hrun & ->).
  apply bind_Some in Hrun. destruct Hrun as ([[rs err] ds2] & t3 & t4 & Hcall & Hrun & ->).
  apply ret_Some in Hrun. destruct Hrun as [Hrun ->]. injection Hrun as -> ->.
  apply queueMemberLoop_inv in Hloop; [|apply List.seq_NoDup].
  destruct Hloop as (-> & Hclient & Hlen1 & Hout1 & new & Hcalls & Hptr & Hnew & Hin1).
  simpl in Hclient, Hlen1, Hout1, Hcalls, Hin1.
  pose proof (Odao_FlexibleCall_trace _ _ _ _ _ _ Hcall) as Ht3. subst t3.
  assert (Htrace : Forall (isStrictMulticallAt (BlockNumber_ opts))
                     ([] ++ [{| rt_block := BlockNumber_ opts;
                                rt_request := ReqMulticall true
                                  (map call_desc (Odao.mc_calls mc)) |}] ++ [])).
  { simpl. constructor; [|constructor]. split; [reflexivity|]. simpl. eauto. }
  destruct err as [err|].
  - apply Odao_FlexibleCall_error in Hcall. subst ds2.
    split; [exact Hlen1|]. split.
    { intros j Hj. apply Hout1. rewrite in_seq. lia. }
    split; [discriminate|]. split; [exact Htrace|]. split; [simpl; lia|discriminate].
  - apply Odao_FlexibleCall_strict_ok in Hcall. destruct Hcall as (_ & Hexec & Hok).
    rewrite Hclient, Hcalls in Hexec.
    destruct (details_exec_frame _ _ _ _ _ _ Hexec) as (Hlen2 & Hframe).
    split; [congruence|]. split; [|split].
    + intros j Hj. rewrite <- Hout1 by (rewrite in_seq; lia).
      eapply details_exec_untouched; [exact Hexec|].
      intros c Hc Heq. apply Hptr in Hc. rewrite Heq, in_seq in Hc. lia.
    + intros _ j Hj.
      destruct (Hin1 j) as (a & d & Ha & Hd & Hd1 & Hincl); [rewrite in_seq; lia|].
      destruct (Hframe j _ Hd1) as (d' & Hd' & (Haddr & _) & _).
      exists d, d'. split; [exact Hd|]. split; [exact Hd'|].
      exists a. split; [exact Ha|]. split; [exact Haddr|].
      eapply memberCalls_answers; eauto.
    + split; [exact Htrace|]. simpl. split; [lia|reflexivity].
Qed.

(* The postprocessing loop replaces the two times of every record by its raw
   timestamps, converted. *)
Lemma postprocess_inv rp opts (ds ds' : list Odao.OracleDaoMemberDetails) t :
  Odao.postprocess rp opts ds = Some (ds', t) ->
  length ds' = length ds /\
  forall j d, ds !! j = Some d ->
    exists joined last,
      Odao.joinedTimeRaw d = Some joined /\ Odao.lastProposalTimeRaw d = Some last /\
      ds' !! j = Some (Odao.setTimes (Odao.Unix joined) (Odao.Unix last) d).
Proof.
  unfold Odao.postprocess. intros Hrun.
  match type of Hrun with
  | forEach _ ?body _ = _ =>
      destruct (forEach_records (fun ds => ds)
                  (fun _ d d' => exists joined last,
                     Odao.joinedTimeRaw d = Some joined /\
                     Odao.lastProposalTimeRaw d = Some last /\
                     d' = Odao.setTimes (Odao.Unix joined) (Odao.Unix last) d)
                  body) with (js := seq 0 (length ds)) (st := ds) (st' := ds') (t := t)
        as (Hlen & _ & Hin); [|apply NoDup_seq|exact Hrun|]
  end.
  - intros j st st' t0 Hbody.
    apply bind_Some in Hbody. destruct Hbody as (d & t1 & t2 & Hd & Hbody & _).
    apply index_Some in Hd. destruct Hd as [Hd _].
    apply bind_Some in Hbody. destruct Hbody as ([d' e'] & t3 & t4 & Hfix & Hbody & _).
    apply setIndex_Some in Hbody. destruct Hbody as (_ & -> & _).
    apply fixupOracleDaoMemberDetails_inv in Hfix.
    destruct Hfix as (_ & _ & joined & last & Hj & Hl & ->).
    exists d, (Odao.setTimes (Odao.Unix joined) (Odao.Unix last) d). eauto 10.
  - split; [exact Hlen|]. intros j d Hd.
    destruct (Hin j) as (d0 & d' & Hd0 & Hd' & joined & last & Hj & Hl & ->).
    { rewrite in_seq. apply lookup_lt_Some in Hd. lia. }
    rewrite Hd in Hd0. injection Hd0 as <-. eauto.
Qed.

Lemma strict_atBlock (block : BlockNumber) (t : Trace) :
  Forall (isStrictMulticallAt block) t -> atBlock block t.
Proof.
  intros Ht. eapply Forall_impl; [exact Ht|]. intros rt [Hrt _]. exact Hrt.
Qed.

Lemma Odao_Query_trace {L S} `{Odao.Output L S} rp
    (query : Odao.MultiCaller L -> Odao.MultiCaller L * option Error) opts (s s' : S) e t :
  Odao.Query rp query opts s = Some ((e, s'), t) ->
  atBlock (BlockNumber_ opts) t /\ (length t <= 1)%nat.
Proof.
  unfold Odao.Query, Odao.NewMultiCaller. intros Hrun.
  destruct (Odao.eth_bind (Odao.Client rp) (Odao.MulticallAddress rp)) as [err|].
  { apply ret_Some in Hrun. destruct Hrun as [_ ->].
    split; [constructor|simpl; lia]. }
  destruct (query _) as [mc [err|]].
  { apply ret_Some in Hrun. destruct Hrun as [_ ->].
    split; [constructor|simpl; lia]. }
  apply bind_Some in Hrun. destruct Hrun as ([[rs err] s1] & t1 & t2 & Hcall & Hrun & ->).
  apply Odao_FlexibleCall_trace in Hcall. subst t1.
  assert (Ht2 : t2 = []).
  { destruct err; apply ret_Some in Hrun; destruct Hrun as [_ ->]; reflexivity. }
  subst t2. simpl. split; [|lia].
  constructor; [reflexivity|constructor].
Qed.

Lemma postprocess_silent rp opts ds : emits silent (Odao.postprocess rp opts ds).
Proof.
  unfold Odao.postprocess. apply (emits_forEach _ silent_nil silent_app). intros x s.
  unfold Odao.fixupOracleDaoMemberDetails, Odao.convertToTime.
  emits_auto silent_nil silent_app.
Qed.

Lemma getOracleDaoDetails_inv rp contracts addresses opts r e t :
  Odao.getOracleDaoDetails rp contracts addresses opts = Some ((r, e), t) ->
  Forall (isStrictMulticallAt (BlockNumber_ opts)) t /\
  (length t <= (length addresses + 99) / 100)%nat /\
  match e with
  | None =>
      exists ds,
        r = Some ds /\ length ds = length addresses /\
        (forall j a, addresses !! j = Some a ->
           exists d, ds !! j = Some d /\ memberFetched a d /\
             memberAnswers (Odao.Client rp) (BlockNumber_ opts)
               (Odao.RocketDAONodeTrusted contracts) a d) /\
        length t = ((length addresses + 99) / 100)%nat
  | Some err =>
      r = None /\ exists cause, err = ErrWrap "error getting Oracle DAO details" cause
  end.
Proof.
  unfold Odao.getOracleDaoDetails. intros Hrun.
  apply bind_Some in Hrun. destruct Hrun as ([ds1 e1] & t1 & t2 & Hwait & Hrun & ->).
  assert (Htrace : Forall (isStrictMulticallAt (BlockNumber_ opts)) t1 /\
                   (length t1 <= (length addresses + 99) / 100)%nat /\
                   (e1 = None -> length t1 = ((length addresses + 99) / 100)%nat)).
  { pose proof Hwait as Hgo. unfold errgroupWait in Hgo.
    apply bind_Some in Hgo. destruct Hgo as ([ds2 errs] & t3 & t4 & Hgo & Hret & ->).
    apply ret_Some in Hret. destruct Hret as [Hret ->]. injection Hret as _ ->.
    rewrite app_nil_r. eapply errgroupGo_at_most_one in Hgo.
    - rewrite length_map, batches_length in Hgo by (unfold minipoolBatchSize; lia).
      unfold minipoolBatchSize in Hgo.
      replace (length addresses + 100 - 1)%nat with (length addresses + 99)%nat
        in Hgo by lia.
      exact Hgo.
    - apply List.Forall_forall. intros task Hin. apply in_map_iff in Hin.
      destruct Hin as ([i max] & <- & _). simpl. intros s s' e0 t0 Hchunk.
      apply memberDetailsChunk_inv in Hchunk.
      destruct Hchunk as (_ & _ & _ & HQ & Hle & Heq). auto. }
  destruct Htrace as (HQ & Hle & Heq).
  destruct (errgroupWait_batches
              (memberFilled (Odao.Client rp) (BlockNumber_ opts)
                 (Odao.RocketDAONodeTrusted contracts) addresses)
              (Odao.memberDetailsChunk rp contracts addresses opts)
              minipoolBatchSize (length addresses)) with
    (ds := replicate (length addresses) Odao.emptyDetails) (ds' := ds1) (e := e1) (t := t1)
    as (Hlen1 & _ & Hin1); [|unfold minipoolBatchSize; lia|exact Hwait|].
  { intros i max ds ds' e0 t0 Hchunk. apply memberDetailsChunk_inv in Hchunk.
    destruct Hchunk as (H1 & H2 & H3 & _). auto. }
  rewrite length_replicate in Hlen1.
  destruct e1 as [err|].
  { apply ret_Some in Hrun. destruct Hrun as [Hrun ->]. injection Hrun as -> ->.
    rewrite app_nil_r. split; [exact HQ|]. split; [exact Hle|]. eauto. }
  apply bind_Some in Hrun. destruct Hrun as (ds2 & t3 & t4 & Hpost & Hrun & ->).
  apply ret_Some in Hrun. destruct Hrun as [Hrun ->]. injection Hrun as -> ->.
  pose proof (postprocess_silent _ _ _ _ _ Hpost) as Ht3. unfold silent in Ht3.
  subst t3. rewrite !app_nil_r.
  split; [exact HQ|]. split; [exact Hle|].
  apply postprocess_inv in Hpost. destruct Hpost as (Hlen2 & Hpost).
  exists ds2. split; [reflexivity|]. split; [congruence|]. split; [|auto].
  intros j a Ha.
  destruct (Hin1 eq_refl j) as (d0 & d1 & _ & Hd1 & a' & Ha' & Haddr & Hans & Hset).
  { eapply lookup_lt_Some. exact Ha. }
  rewrite Ha in Ha'. injection Ha' as <-.
  destruct (Hpost j d1 Hd1) as (joined & last & Hj & Hl & Hd2).
  exists (Odao.setTimes (Odao.Unix joined) (Odao.Unix last) d1).
  split; [exact Hd2|]. eapply fixed_memberFetched; eauto.
Qed.

Lemma getOdaoAddresses_inv rp contracts opts r e t :
  Odao.getOdaoAddresses rp contracts opts = Some ((r, e), t) ->
  atBlock (BlockNumber_ opts) t /\
  match e with
  | None =>
      exists mgr raw count tq te addresses,
        Odao.NewOracleDaoManager rp = inr mgr /\
        Odao.Query rp (fun mc => (Odao.GetMemberCount mgr mc, None)) opts None
          = Some ((None, raw), tq) /\
        Odao.MemberCount_Formatted mgr raw = Some count /\
        t = tq ++ te /\
        Forall (isStrictMulticallAt (BlockNumber_ opts)) te /\
        length te = ((length addresses + 999) / 1000)%nat /\
        r = Some addresses /\
        length addresses = Z.to_nat count /\
        forall j, (j < length addresses)%nat ->
          addresses !! j = memberAt (Odao.Client rp) (BlockNumber_ opts)
                             (Odao.RocketDAONodeTrusted contracts) j
  | Some err =>
      (r = None /\ Odao.NewOracleDaoManager rp = inl err /\ t = []) \/
      (r = Some [] /\
       exists mgr raw,
         Odao.NewOracleDaoManager rp = inr mgr /\
         Odao.Query rp (fun mc => (Odao.GetMemberCount mgr mc, None)) opts None
           = Some ((Some err, raw), t)) \/
      (r = None /\ exists cause, err = ErrWrap "error getting Oracle DAO addresses" cause)
  end.
Proof.
  unfold Odao.getOdaoAddresses. intros Hrun.
  destruct (Odao.NewOracleDaoManager rp) as [err|mgr] eqn:Hmgr.
  { apply ret_Some in Hrun. destruct Hrun as [Hrun ->]. injection Hrun as -> ->.
    split; [constructor|]. left. auto. }
  apply bind_Some in Hrun. destruct Hrun as ([qe raw] & tq & t2 & Hquery & Hrun & ->).
  destruct (Odao_Query_trace _ _ _ _ _ _ _ Hquery) as (HQq & _).
  destruct qe as [qe|].
  { apply ret_Some in Hrun. destruct Hrun as [Hrun ->]. injection Hrun as -> ->.
    rewrite app_nil_r. split; [exact HQq|]. right. left. split; [reflexivity|]. eauto. }
  destruct (Odao.MemberCount_Formatted mgr raw) as [n|] eqn:Hn; [|discriminate Hrun].
  apply enumerateMembers_inv in Hrun. destruct Hrun as (HQe & _ & Hrun).
  split; [apply atBlock_app; [exact HQq|apply strict_atBlock; exact HQe]|].
  destruct e as [err|].
  - right. right. exact Hrun.
  - destruct Hrun as (addresses & -> & Hlen & Hvals & Hlent).
    exists mgr, raw, n, tq, t2, addresses. split; [reflexivity|]. split; [exact Hquery|].
    split; [exact Hn|]. split; [reflexivity|]. split; [exact HQe|].
    split; [rewrite Hlent, Hlen; reflexivity|].
    split; [reflexivity|]. split; [exact Hlen|].
    intros j Hj. apply Hvals. lia.
Qed.

(** X15. The outcomes of [getOdaoAddresses], for any network. A nil error
    comes with as many addresses as the member count the first query read
    (as the manager binding formats it), entry j being what the DAO contract
    answers to
    getMemberAt(j) at the block of opts. An error comes with no address:
    the error of the manager binding as it is, with a nil slice and no round
    trip; the error of the count query as it is, with an empty slice that is
    not nil; an error of the address batches wrapped as "error getting
    Oracle DAO addresses", with a nil slice. *)
Theorem getOdaoAddresses_outcomes (rp : Odao.RocketPool)
    (contracts : Odao.NetworkContracts) (opts : CallOpts)
    (r : option (list Address)) (e : option Error) (t : Trace) :
  Odao.getOdaoAddresses rp contracts opts = Some ((r, e), t) ->
  match e with
  | None =>
      exists mgr raw count tq addresses,
        Odao.NewOracleDaoManager rp = inr mgr /\
        Odao.Query rp (fun mc => (Odao.GetMemberCount mgr mc, None)) opts None
          = Some ((None, raw), tq) /\
        Odao.MemberCount_Formatted mgr raw = Some count /\
        r = Some addresses /\
        length addresses = Z.to_nat count /\
        forall j, (j < length addresses)%nat ->
          exists a,
            addresses !! j = Some a /\
            Odao.eth_call (Odao.Client rp) (BlockNumber_ opts)
              {| cd_target := Odao.RocketDAONodeTrusted contracts;
                 cd_method := "getMemberAt";
                 cd_args := [VBig (Some (Z.of_nat j))] |} = Some (Odao.DAddress a)
  | Some err =>
      (r = None /\ Odao.NewOracleDaoManager rp = inl err /\ t = []) \/
      (r = Some [] /\
       exists mgr raw,
         Odao.NewOracleDaoManager rp = inr mgr /\
         Odao.Query rp (fun mc => (Odao.GetMemberCount mgr mc, None)) opts None
           = Some ((Some err, raw), t)) \/
      (r = None /\ exists cause, err = ErrWrap "error getting Oracle DAO addresses" cause)
  end.
Proof.
  intros Hrun. apply getOdaoAddresses_inv in Hrun. destruct Hrun as (_ & Hrun).
  destruct e as [err|]; [exact Hrun|].
  destruct Hrun
    as (mgr & raw & count & tq & te & addresses & Hmgr & Hquery & Hcount & _ & _ & _
        & Hr & Hlen & Hvals).
  exists mgr, raw, count, tq, addresses. split; [exact Hmgr|]. split; [exact Hquery|].
  split; [exact Hcount|].
  split; [exact Hr|]. split; [exact Hlen|]. intros j Hj.
  destruct (lookup_lt_is_Some_2 addresses j Hj) as (a & Ha).
  exists a. split; [exact Ha|]. specialize (Hvals j Hj). rewrite Ha in Hvals.
  unfold memberAt in Hvals. simpl in Hvals.
  destruct (Odao.eth_call _ _ _) as [[b|s|p|a']|]; try discriminate Hvals.
  injection Hvals as ->. reflexivity.
Qed.

(** X16. The outcomes of [getOracleDaoDetails], for any network and any
    slice of addresses. A nil error comes with one record per address, in
    order: record j carries addresses[j] and, in each of the eight fetched
    fields, what the DAO contract answered for that address at the block of
    opts; its amounts are not nil and its two times are the raw timestamps
    converted. An error comes with a nil slice and is wrapped as "error
    getting Oracle DAO details": no partly filled slice is returned. *)
Theorem getOracleDaoDetails_outcomes (rp : Odao.RocketPool)
    (contracts : Odao.NetworkContracts) (addresses : list Address) (opts : CallOpts)
    (r : option (list Odao.OracleDaoMemberDetails)) (e : option Error) (t : Trace) :
  Odao.getOracleDaoDetails rp contracts addresses opts = Some ((r, e), t) ->
  match e with
  | None =>
      exists ds,
        r = Some ds /\ length ds = length addresses /\
        forall j a, addresses !! j = Some a ->
          exists d, ds !! j = Some d /\ memberFetched a d /\
            memberAnswers (Odao.Client rp) (BlockNumber_ opts)
              (Odao.RocketDAONodeTrusted contracts) a d
  | Some err =>
      r = None /\ exists cause, err = ErrWrap "error getting Oracle DAO details" cause
  end.
Proof.
  intros Hrun. apply getOracleDaoDetails_inv in Hrun. destruct Hrun as (_ & _ & Hrun).
  destruct e as [err|]; [exact Hrun|].
  destruct Hrun as (ds & Hr & Hlen & Hvals & _). eauto.
Qed.

(** X17. Every round trip of [GetAllOracleDaoMemberDetails] is made at
    contracts.ElBlockNumber. In a run that returns n members and no error,
    the round trips after those of the count query are strict batches,
    exactly ceil(n / 1000) + ceil(n / 100) of them: the address batches of
    oDaoAddressBatchSize, and detail batches of minipoolBatchSize members
    each, not of the 50 that oDaoDetailsBatchSize declares. *)
Theorem GetAllOracleDaoMemberDetails_round_trips (rp : Odao.RocketPool)
    (contracts : Odao.NetworkContracts)
    (r : option (list Odao.OracleDaoMemberDetails)) (e : option Error) (t : Trace) :
  Odao.GetAllOracleDaoMemberDetails rp contracts = Some ((r, e), t) ->
  atBlock (Odao.ElBlockNumber contracts) t /\
  (e = None ->
   exists mgr raw tq tb ds,
     Odao.NewOracleDaoManager rp = inr mgr /\
     Odao.Query rp (fun mc => (Odao.GetMemberCount mgr mc, None))
       {| BlockNumber_ := Odao.ElBlockNumber contracts |} None
       = Some ((None, raw), tq) /\
     r = Some ds /\
     t = tq ++ tb /\
     Forall (isStrictMulticallAt (Odao.ElBlockNumber contracts)) tb /\
     length tb = ((length ds + 999) / 1000 + (length ds + 99) / 100)%nat).
Proof.
  unfold Odao.GetAllOracleDaoMemberDetails. intros Hrun.
  apply bind_Some in Hrun. destruct Hrun as ([addresses e1] & t1 & t2 & Haddr & Hrun & ->).
  apply getOdaoAddresses_inv in Haddr. destruct Haddr as (HQ1 & Haddr).
  simpl in HQ1. destruct e1 as [err|].
  { apply ret_Some in Hrun. destruct Hrun as [Hrun ->]. injection Hrun as -> ->.
    rewrite app_nil_r. split; [exact HQ1|discriminate]. }
  destruct Haddr
    as (mgr & raw & count & tq & te & addrs & Hmgr & Hquery & _ & -> & Hte & Hlen1
        & -> & _ & _).
  simpl in Hrun, Hte, Hquery. apply getOracleDaoDetails_inv in Hrun.
  destruct Hrun as (HQ2 & _ & Hrun). simpl in HQ2.
  split; [apply atBlock_app; [exact HQ1|apply strict_atBlock; exact HQ2]|].
  intros ->. destruct Hrun as (ds & -> & Hlen & _ & Hlen2).
  exists mgr, raw, tq, (te ++ t2), ds.
  split; [exact Hmgr|]. split; [exact Hquery|]. split; [reflexivity|].
  split; [rewrite app_assoc; reflexivity|].
  split; [apply Forall_app; split; [exact Hte|exact HQ2]|].
  rewrite length_app, Hlen1, Hlen2, Hlen. reflexivity.
Qed.

(** X18. [GetAllOracleDaoMemberDetails] end to end, for any network. A nil
    error comes with as many records as the member count read by the first
    query (as the manager binding formats it); record j is the member the
    DAO contract names
    at index j: it carries the address answered to getMemberAt(j) and, in
    its fetched fields, what the contract answered for that address, all at
    contracts.ElBlockNumber. Every error comes with a nil slice. *)
Theorem GetAllOracleDaoMemberDetails_snapshot (rp : Odao.RocketPool)
    (contracts : Odao.NetworkContracts)
    (r : option (list Odao.OracleDaoMemberDetails)) (e : option Error) (t : Trace) :
  Odao.GetAllOracleDaoMemberDetails rp contracts = Some ((r, e), t) ->
  match e with
  | None =>
      exists mgr raw count tq ds,
        Odao.NewOracleDaoManager rp = inr mgr /\
        Odao.Query rp (fun mc => (Odao.GetMemberCount mgr mc, None))
          {| BlockNumber_ := Odao.ElBlockNumber contracts |} None
          = Some ((None, raw), tq) /\
        Odao.MemberCount_Formatted mgr raw = Some count /\
        r = Some ds /\ length ds = Z.to_nat count /\
        forall j, (j < length ds)%nat ->
          exists a d,
            memberAt (Odao.Client rp) (Odao.ElBlockNumber contracts)
              (Odao.RocketDAONodeTrusted contracts) j = Some a /\
            ds !! j = Some d /\ memberFetched a d /\
            memberAnswers (Odao.Client rp) (Odao.ElBlockNumber contracts)
              (Odao.RocketDAONodeTrusted contracts) a d
  | Some _ => r = None
  end.
Proof.
  unfold Odao.GetAllOracleDaoMemberDetails. intros Hrun.
  apply bind_Some in Hrun. destruct Hrun as ([addresses e1] & t1 & t2 & Haddr & Hrun & ->).
  apply getOdaoAddresses_inv in Haddr. destruct Haddr as (_ & Haddr).
  destruct e1 as [err|].
  { apply ret_Some in Hrun. destruct Hrun as [Hrun _]. injection Hrun as -> ->.
    reflexivity. }
  destruct Haddr
    as (mgr & raw & count & tq & te & addrs & Hmgr & Hquery & Hcount & _ & _ & _
        & -> & Hlen1 & Hvals1).
  simpl in Hrun, Hvals1. apply getOracleDaoDetails_inv in Hrun.
  destruct Hrun as (_ & _ & Hrun). simpl in Hrun.
  destruct e as [err|]; [apply Hrun|].
  destruct Hrun as (ds & -> & Hlen & Hvals & _).
  exists mgr, raw, count, tq, ds. split; [exact Hmgr|]. split; [exact Hquery|].
  split; [exact Hcount|]. split; [reflexivity|]. split; [congruence|].
  intros j Hj. rewrite Hlen in Hj.
  destruct (lookup_lt_is_Some_2 addrs j Hj) as (a & Ha).
  destruct (Hvals j a Ha) as (d & Hd & Hfetched & Hans).
  exists a, d. split; [rewrite <- Hvals1 by exact Hj; exact Ha|]. auto.
Qed.

(** ** The fetches return *)







(** ** Runs on a network of three members *)

Lemma GetOracleDaoMemberDetails_outcomes_witness :
  (exists d t,
     Odao.GetOracleDaoMemberDetails OdaoDemo.rp OdaoDemo.contracts 502%N
       = Some ((d, None), t) /\
     memberFetched 502%N d /\
     Odao.IsChallenged d = true /\
     Odao.JoinedTime d = Odao.Unix 1600000502 /\
     length t = 1%nat) /\
  (exists e t,
     Odao.GetOracleDaoMemberDetails
       (OdaoDemo.rocketPool (OdaoDemo.failingClient "getMemberUrl"))
       OdaoDemo.contracts 502%N = Some ((Odao.emptyDetails, Some e), t)).
Proof.
  split.
  - destruct (Odao.GetOracleDaoMemberDetails OdaoDemo.rp OdaoDemo.contracts 502%N)
      as [[[d [e|]] t]|] eqn:Hrun;
      try (exfalso;
           assert (Hsome : match Odao.GetOracleDaoMemberDetails OdaoDemo.rp
                                   OdaoDemo.contracts 502%N with
                           | Some ((_, None), _) => true
                           | _ => false
                           end = true) by (vm_compute; reflexivity);
           rewrite Hrun in Hsome; discriminate Hsome).
    destruct (GetOracleDaoMemberDetails_outcomes OdaoDemo.rp OdaoDemo.contracts 502%N)
      as [_ Hok].
    destruct (Hok d t Hrun) as (Hfetched & _ & Ht).
    exists d, t. split; [reflexivity|]. split; [exact Hfetched|].
    assert (Hd : match Odao.GetOracleDaoMemberDetails OdaoDemo.rp
                         OdaoDemo.contracts 502%N with
                 | Some ((d, _), _) => (Odao.IsChallenged d, Odao.JoinedTime d)
                 | None => (false, Odao.ZeroTime)
                 end = (true, Odao.Unix 1600000502)) by (vm_compute; reflexivity).
    rewrite Hrun in Hd. injection Hd as -> ->.
    split; [reflexivity|]. split; [reflexivity|]. rewrite Ht. reflexivity.
  - destruct (Odao.GetOracleDaoMemberDetails
                (OdaoDemo.rocketPool (OdaoDemo.failingClient "getMemberUrl"))
                OdaoDemo.contracts 502%N)
      as [[[d [e|]] t]|] eqn:Hrun;
      try (exfalso;
           assert (Hsome : match Odao.GetOracleDaoMemberDetails
                                   (OdaoDemo.rocketPool
                                      (OdaoDemo.failingClient "getMemberUrl"))
                                   OdaoDemo.contracts 502%N with
                           | Some ((_, Some _), _) => true
                           | _ => false
                           end = true) by (vm_compute; reflexivity);
           rewrite Hrun in Hsome; discriminate Hsome).
    destruct (GetOracleDaoMemberDetails_outcomes
                (OdaoDemo.rocketPool (OdaoDemo.failingClient "getMemberUrl"))
                OdaoDemo.contracts 502%N) as [Herr _].
    rewrite (Herr d e t Hrun). exists e, t. reflexivity.
Defined.

Lemma getOdaoAddresses_outcomes_witness :
  exists addresses t,
    Odao.getOdaoAddresses OdaoDemo.rp OdaoDemo.contracts OdaoDemo.opts
      = Some ((Some addresses, None), t) /\
    addresses = [501; 502; 503]%N /\
    forall j, (j < length addresses)%nat ->
      exists a,
        addresses !! j = Some a /\
        Odao.eth_call OdaoDemo.client (Some 17000000)
          {| cd_target := {| ContractAddress := 21 |}; cd_method := "getMemberAt";
             cd_args := [VBig (Some (Z.of_nat j))] |} = Some (Odao.DAddress a).
Proof.
  destruct (Odao.getOdaoAddresses OdaoDemo.rp OdaoDemo.contracts OdaoDemo.opts)
    as [[[r [e|]] t]|] eqn:Hrun;
    try (exfalso;
         assert (Hsome : match Odao.getOdaoAddresses OdaoDemo.rp OdaoDemo.contracts
                                 OdaoDemo.opts with
                         | Some ((_, None), _) => true
                         | _ => false
                         end = true) by (vm_compute; reflexivity);
         rewrite Hrun in Hsome; discriminate Hsome).
  destruct (getOdaoAddresses_outcomes _ _ _ _ _ _ Hrun)
    as (mgr & raw & count & tq & addresses & _ & _ & _ & -> & _ & Hvals).
  exists addresses, t. split; [reflexivity|]. split; [|exact Hvals].
  assert (Hr : match Odao.getOdaoAddresses OdaoDemo.rp OdaoDemo.contracts
                       OdaoDemo.opts with
               | Some ((r, _), _) => r
               | None => None
               end = Some [501; 502; 503]%N) by (vm_compute; reflexivity).
  rewrite Hrun in Hr. injection Hr as ->. reflexivity.
Defined.

Lemma getOracleDaoDetails_outcomes_witness :
  exists ds t,
    Odao.getOracleDaoDetails OdaoDemo.rp OdaoDemo.contracts [503; 501]%N OdaoDemo.opts
      = Some ((Some ds, None), t) /\
    length ds = 2%nat /\
    map Odao.Address_ ds = [503; 501]%N /\
    forall j a, [503; 501]%N !! j = Some a ->
      exists d, ds !! j = Some d /\ memberFetched a d /\
        memberAnswers OdaoDemo.client (Some 17000000) {| ContractAddress := 21 |} a d.
Proof.
  destruct (Odao.getOracleDaoDetails OdaoDemo.rp OdaoDemo.contracts [503; 501]%N
              OdaoDemo.opts) as [[[r [e|]] t]|] eqn:Hrun;
    try (exfalso;
         assert (Hsome : match Odao.getOracleDaoDetails OdaoDemo.rp OdaoDemo.contracts
                                 [503; 501]%N OdaoDemo.opts with
                         | Some ((_, None), _) => true
                         | _ => false
                         end = true) by (vm_compute; reflexivity);
         rewrite Hrun in Hsome; discriminate Hsome).
  destruct (getOracleDaoDetails_outcomes _ _ _ _ _ _ _ Hrun)
    as (ds & -> & Hlen & Hvals).
  exists ds, t. split; [reflexivity|]. split; [exact Hlen|]. split; [|exact Hvals].
  assert (Hr : match Odao.getOracleDaoDetails OdaoDemo.rp OdaoDemo.contracts
                       [503; 501]%N OdaoDemo.opts with
               | Some ((Some ds, _), _) => map Odao.Address_ ds
               | _ => []
               end = [503; 501]%N) by (vm_compute; reflexivity).
  rewrite Hrun in Hr. exact Hr.
Defined.

Lemma GetAllOracleDaoMemberDetails_round_trips_witness :
  exists ds t,
    Odao.GetAllOracleDaoMemberDetails OdaoDemo.rp OdaoDemo.contracts
      = Some ((Some ds, None), t) /\
    length ds = 3%nat /\
    atBlock (Some 17000000) t /\
    exists tq tb,
      t = tq ++ tb /\ length tq = 1%nat /\
      Forall (isStrictMulticallAt (Some 17000000)) tb /\
      length tb = ((3 + 999) / 1000 + (3 + 99) / 100)%nat.
Proof.
  destruct (Odao.GetAllOracleDaoMemberDetails OdaoDemo.rp OdaoDemo.contracts)
    as [[[r [e|]] t]|] eqn:Hrun;
    try (exfalso;
         assert (Hsome : match Odao.GetAllOracleDaoMemberDetails OdaoDemo.rp
                                 OdaoDemo.contracts with
                         | Some ((_, None), _) => true
                         | _ => false
                         end = true) by (vm_compute; reflexivity);
         rewrite Hrun in Hsome; discriminate Hsome).
  destruct (GetAllOracleDaoMemberDetails_round_trips _ _ _ _ _ Hrun) as (Hblock & Hok).
  destruct (Hok eq_refl)
    as (mgr & raw & tq & tb & ds & Hmgr & Hquery & -> & -> & Hstrict & Hlen).
  assert (Hds : match Odao.GetAllOracleDaoMemberDetails OdaoDemo.rp
                        OdaoDemo.contracts with
                | Some ((Some ds, _), _) => length ds
                | _ => 0%nat
                end = 3%nat) by (vm_compute; reflexivity).
  rewrite Hrun in Hds.
  exists ds, (tq ++ tb). split; [reflexivity|]. split; [exact Hds|].
  split; [exact Hblock|]. exists tq, tb. split; [reflexivity|].
  split; [|split; [exact Hstrict|rewrite Hlen, Hds; reflexivity]].
  injection Hmgr as <-. vm_compute in Hquery. injection Hquery as _ <-. reflexivity.
Defined.

Lemma GetAllOracleDaoMemberDetails_snapshot_witness :
  exists ds t,
    Odao.GetAllOracleDaoMemberDetails OdaoDemo.rp OdaoDemo.contracts
      = Some ((Some ds, None), t) /\
    map Odao.Address_ ds = [501; 502; 503]%N /\
    map Odao.IsChallenged ds = [false; true; false] /\
    forall j, (j < length ds)%nat ->
      exists a d,
        memberAt OdaoDemo.client (Some 17000000) {| ContractAddress := 21 |} j = Some a /\
        ds !! j = Some d /\ memberFetched a d /\
        memberAnswers OdaoDemo.client (Some 17000000) {| ContractAddress := 21 |} a d.
Proof.
  destruct (Odao.GetAllOracleDaoMemberDetails OdaoDemo.rp OdaoDemo.contracts)
    as [[[r [e|]] t]|] eqn:Hrun;
    try (exfalso;
         assert (Hsome : match Odao.GetAllOracleDaoMemberDetails OdaoDemo.rp
                                 OdaoDemo.contracts with
                         | Some ((_, None), _) => true
                         | _ => false
                         end = true) by (vm_compute; reflexivity);
         rewrite Hrun in Hsome; discriminate Hsome).
  destruct (GetAllOracleDaoMemberDetails_snapshot _ _ _ _ _ Hrun)
    as (mgr & raw & count & tq & ds & _ & _ & _ & -> & _ & Hvals).
  exists ds, t. split; [reflexivity|].
  assert (Hds : match Odao.GetAllOracleDaoMemberDetails OdaoDemo.rp
                        OdaoDemo.contracts with
                | Some ((Some ds, _), _) =>
                    (map Odao.Address_ ds, map Odao.IsChallenged ds)
                | _ => ([], [])
                end = ([501; 502; 503]%N, [false; true; false]))
    by (vm_compute; reflexivity).
  rewrite Hrun in Hds. injection Hds as Ha Hc.
  split; [exact Ha|]. split; [exact Hc|exact Hvals].
Defined.
